(* ===== verification/_CoqProject ===== *)
-Q . S2P
Prelude.v
Error.v
Bits.v
LinkList.v
DynArray.v
HandleTable.v
Pool.v
Shutdown.v
Uring.v
Net.v
Io.v
Cursor.v
LinuxFile.v
BsdFile.v
Windows.v
WinFile.v
Descriptors.v
LinuxNet.v
BsdNet.v
WinSock.v
WinPipe.v
WinNet.v
WinHandles.v
Iocp.v
Kqueue.v
Platforms.v
Buffering.v
Format.v
Logging.v
Loggers.v
FileLogger.v
TimerHeap.v
Registry.v
Ctx.v
Prog.v
Store.v
Ring.v
Spsc.v
Invariant.v
Signal.v
Timer.v
Coro.v
Finish.v
Mailbox.v
Protocol.v
TimerCoro.v
Client.v
Thread.v
Service.v
Exit.v
LinuxPlatform.v
Loop.v
Life.v
Linux.v
Examples.v
WitnessParts.v
WitnessIo.v
WitnessBsd.v
WitnessWin.v
WitnessKqueue.v
WitnessIocp.v
WitnessLog.v
Witness.v
WitnessLinux.v
