(* ===== verification/Prelude.v ===== *)
(** * bio: an asynchronous I/O library, its model and its proofs

    bio ([src/src], [src/include/bio]) runs coroutines on one thread. A coroutine waits for
    signals; an event loop runs the coroutines that are ready, raises the signals of timers,
    and polls the platform (io_uring on Linux, kqueue on FreeBSD, a completion port on
    Windows) and a pool of worker threads. Everything that a program names is a generation-counted handle.

    ** How the code is modelled

    Code that never suspends its caller is a function on an explicit state with a failure
    outcome ([Prelude.st]): a failure is what is undefined behaviour in C (access to freed
    memory, a null pointer, an index out of range, signed overflow, a failed assertion).
    Overflow of the counters of live objects is the outcome [Overflow], and is the only one
    that the safety theorems do not exclude: it takes 2^31 objects. Code that may suspend
    its caller is a [prog] of [Prog.v]: a tree of actions, suspensions and C loops; a slice
    of it runs from a resume to the next suspension, and [Prog.safe] is the logic that
    proves such code correct for all that others do in between. Integers are [Z], with the
    conversions of C written out ([u32], [u64], [to_int]). Objects live in one store for
    each type, addresses are never reused.

    ** Files

    - [Prelude]: integers, the state-and-failure monad, its weakest preconditions and their
      automation, lemmas on lists and maps. [Error]: [bio_error_t] and the core errors.
      [Bits]: [bio_next_pow2], ring indices, hashes.
    - [LinkList] (the [BIO_LIST_*] macros of [internal.h], with pointers), [DynArray]
      ([array.c]), [HandleTable] ([handle.c]), [TimerHeap] (the queue of [timer.c]): data
      structures, each on its own state. [Registry]: what [handle.c] promises.
      [Ring]: ring buffers with wrapping counters.
    - [Ctx]: the types of [bio.h] and [internal.h], the global [bio_ctx] and its accesses.
      [Prog]: coroutines. [Store], [Invariant]: the invariant [wf] of [bio_ctx] and the
      relation [ctx_le] of what may happen to an object while others run.
    - [Signal], [Coro], [Finish] and [Loop] ([scheduler.c]), [Timer] and [TimerCoro]
      ([timer.c]), [Mailbox] ([mailbox.c], [mailbox.h]), [Service] ([service.c],
      [service.h]), [Exit] and [Life] ([bio.c]). [Protocol] and [Client]: the rules of
      the logic of [Prog] for the operations of the library.
    - [Pool], [Shutdown], [Thread] and [Spsc] ([thread.c]): the worker threads, their end,
      the jobs of the main thread, and the queues between two threads.
    - [Uring], [LinuxPlatform], [Linux] ([linux/platform.c]): the ring of io_uring, the
      platform layer, and the library as a whole on Linux.
    - [Net] ([net.c]), [Io] (objects, handles and requests of all input and output),
      [Cursor] and [Descriptors] (what files and sockets promise, on any platform),
      [LinuxFile] and [LinuxNet] ([linux/file.c], [linux/net.c]), [BsdFile], [BsdNet] and
      [Kqueue] ([freebsd/file.c], [freebsd/net.c], [freebsd/platform.c]), [Platforms] (that
      all platforms agree), [Buffering] ([buffering.c]).
    - [Windows] (overlapped operations: [windows/common.h], [windows/platform.c]), [WinFile]
      ([windows/file.c]), [WinSock], [WinPipe] and [WinNet] ([windows/net/ws.c],
      [windows/net/pipe.c], [windows/net.c]), [WinHandles] (what the sockets do to their
      handles), [Iocp] (the rest of [windows/platform.c]).
    - [Format] ([bio_vfmt] in [internal.h]), [Logging] and [Loggers] ([logging.c]): messages
      and loggers; [FileLogger] ([logging/file.c]): the lines of a log file.
    - [Examples], and the files whose names begin with [Witness]: concrete programs,
      operating systems and states, at which the hypotheses of the theorems hold.

    ** How the parts interact

    [Loop.bio_loop_round] is the body of [bio_loop]: it runs the ready coroutines
    ([run_coro], [Finish.v] when one ends), expires the timers, polls the platform (a
    [Loop.platform], a record of operations that [Linux.linux_platform] instantiates with
    [LinuxPlatform] and [Thread]) and drops nothing that is ready. [Life.bio_main] puts
    initialization, the loop and termination together, over the [subsystems] of [bio.c].
    Coroutines start at [bio_coro_entry_wrapper]: timers ([TimerCoro]) and services
    ([Service]) are coroutines of the library; the functions of the program are a parameter,
    of which the theorems assume that they respect the protocol ([Prog.safe]), which is
    proved for all functions of the library ([Protocol], [Client] and the files after them).

    Files, sockets and buffers work on a state of their own ([Io.io_ctx]): a request of a
    coroutine is carried out by the operating system, and the others may do anything that
    [others] stands for before it is resumed. Logging works in the same way. On
    Windows the signals of overlapped operations are handles of that state as well.

    ** What the theorems show

    - Whole programs: [whole_life_safe], [event_loop_safe], [linux_life_safe] (no memory
      error, ever), [no_lost_wakeup], [termination_leaves_nothing].
    - Scheduler: signals wake the coroutine that waits for the last of them, monitors and
      timers wake theirs when they should, the platform sleeps no longer than until the next
      timer, coroutine-local storage is stable.
    - Communication: mailboxes are bounded queues, service calls deliver their response or
      give up, exit requests reach all handlers.
    - Handles: the table refines a registry; a closed handle is dead for all reuses of its
      slot.
    - Threads: the queues refine queues under every interleaving and lose no wakeup; jobs run
      once, are reported once, and go to the least busy worker; the pool comes to its end.
    - Platforms: every completion is delivered once to the request that it is for; events of
      the kqueue and packets of the completion port likewise; files refine a cursor in a list
      of bytes on all three platforms (instances of the class [Cursor.Cursor]), which therefore
      agree; every operation on sockets accounts for the descriptors or handles that it opens
      and closes, with the exceptions that its theorem names; the clock of Windows does
      not overflow; buffers keep bytes in order.
    - Logging: every logger receives every message of its level, in the order of the calls,
      until it is told to end, its file gets the lines in that order, and file names lose
      the prefix of the project only.

    ** Bounds and fuel

    Loops of the code that are structural on no argument take fuel. The sifts of the heap
    take the number of its entries, which halves or doubles each time; the loops over
    responses and jobs take the capacity of the queues; the loops that wait for another
    thread ([Shutdown]) are proved to end with enough fuel if every worker is scheduled
    again and again. A coroutine may spin, and the event loop may run for ever: [fuel] and
    [rounds] of [Loop] bound how much is looked at, their exhaustion is an outcome of its
    own ([LoopSpinning], [LoopRunning]), and the theorems hold for all values. Only the
    reaping of events ([Kqueue], [Iocp]) has a hypothesis about fuel ([runs_out]): that
    the kernel returns less than a full batch in the end.

    ** Hypotheses on what is not in the repository

    The kernel, liburing, aio, kqueue, the Windows API and the C library are arguments, with hypotheses such
    as [Uring.kernel_accepts] (entering the kernel does not fail) or the meaning of the
    reads and writes of a file descriptor; every theorem that has such a hypothesis is
    instantiated with a concrete system. The completion queue
    of io_uring is unbounded, as it is with [IORING_FEAT_NODROP].

    ** Not modelled

    - The switch of contexts: minicoro, a submodule, of which [minicoro.c] includes the
      implementation. A coroutine is a [prog] instead, its stack is not bounded.
    - What the Windows API does with named pipes and sockets beyond their handles and what it
      transfers; the pointers to extension functions that [WSAIoctl] stores.
    - Memory that runs out: [bio_malloc] does not fail in the model; nor is memory of the
      allocator distinguished from other memory. Objects on stacks end with their function;
      pointers to them that other coroutines keep are checked in the model only where their
      store says so.
    - Hints for the processor ([BIO_LIKELY]), alignment of [max_align_t], and the text of
      messages of the operating system.
    - Weak memory: [Spsc] interleaves sequentially consistent accesses; the orders that
      [thread.c] gives to its atomics (acquire and release) are enough for one producer and
      one consumer, but that is not proved here. *)
From Stdlib Require Export ZArith Lia.
From stdpp Require Export base tactics numbers option sets gmap list.
From stdpp Require Export list_relations.

#[global] Open Scope Z_scope.
#[global] Set Default Goal Selector "!".

(** ** Machine integers *)

Definition INT_MAX : Z := 2147483647.
Definition INT_MIN : Z := -2147483648.
Definition UINT_MAX : Z := 4294967295.
(** [u32 z] is the value of [z] converted to [uint32_t]. *)
Definition u32 (z : Z) : Z := z `mod` 4294967296.
(** [u64 z] is the value of [z] converted to [uint64_t]. *)
Definition u64 (z : Z) : Z := z `mod` 18446744073709551616.
(** [to_int z] is the value of [z] converted to [int]. *)
Definition to_int (z : Z) : Z := (z + 2147483648) `mod` 4294967296 - 2147483648.
(** [to_i64 z] is the value of [z] converted to [int64_t]. *)
Definition to_i64 (z : Z) : Z := (z + 9223372036854775808) `mod` 18446744073709551616 - 9223372036854775808.
(** [in_int z]: [z] is representable in a 32-bit [int]/[int32_t]. *)
Definition in_int (z : Z) : bool := (INT_MIN <=? z) && (z <=? INT_MAX).

Lemma to_int_small z : INT_MIN ≤ z ≤ INT_MAX → to_int z = z.
Proof. unfold to_int, INT_MIN, INT_MAX. intros H. rewrite Z.mod_small by lia. lia. Qed.

Lemma u64_small z : 0 ≤ z < 18446744073709551616 → u64 z = z.
Proof. apply Z.mod_small. Qed.

Lemma to_i64_u64 z : 0 ≤ z < 9223372036854775808 → to_i64 (u64 z) = z.
Proof. unfold to_i64, u64. intros H. rewrite (Z.mod_small z) by lia. rewrite Z.mod_small by lia. lia. Qed.

(** ** Failure: what C leaves undefined

    A run of a modelled function either ends normally or stops with an error.
    [Overflow] is a signed integer overflow; [OutOfFuel] says that a bounded loop
    was cut off by its fuel, which the theorems rule out; [Uninit] is a read of
    memory that was never written; the others are bad pointers and indices. *)
Inductive err :=
  | Overflow
  | OutOfFuel
  | NullDeref
  | Dangling
  | OutOfBounds
  | Uninit.

Inductive res (A : Type) :=
  | Ok (a : A)
  | Err (e : err).
Arguments Ok {A} a.
Arguments Err {A} e.

#[export] Instance err_eq_dec : EqDecision err.
Proof. solve_decision. Defined.

(** The safety theorems rule out every error except the overflow of a counter. *)
Definition benign (e : err) : bool :=
  match e with Overflow => true | _ => false end.

(** ** The state and error monad *)

Definition st (S A : Type) : Type := S → res (A * S).

#[export] Instance st_ret S : MRet (st S) := λ A a s, Ok (a, s).
#[export] Instance st_bind S : MBind (st S) := λ A B k m s,
  match m s with
  | Ok (a, s') => k a s'
  | Err e => Err e
  end.
#[export] Instance st_fmap S : FMap (st S) := λ A B f m s,
  match m s with
  | Ok (a, s') => Ok (f a, s')
  | Err e => Err e
  end.

Definition fail {S A} (e : err) : st S A := λ _, Err e.
Definition get {S} : st S S := λ s, Ok (s, s).
Definition gets {S A} (f : S → A) : st S A := λ s, Ok (f s, s).
Definition modify {S} (f : S → S) : st S unit := λ s, Ok (tt, f s).

(** A nullable or possibly missing value that the code dereferences. *)
Definition need {S A} (e : err) (o : option A) : st S A :=
  match o with Some a => mret a | None => fail e end.

(** [int] arithmetic: the result is computed if it is representable. *)
Definition int_of {S} (z : Z) : st S Z :=
  if in_int z then mret z else fail Overflow.

(** [int64_t] arithmetic. *)
Definition in_i64 (z : Z) : bool := (-9223372036854775808 <=? z) && (z <=? 9223372036854775807).
Definition i64_of {S} (z : Z) : st S Z :=
  if in_i64 z then mret z else fail Overflow.

(** Run a component's operation on its part of a larger state. *)
Definition zoom {S T A} (proj : S → T) (upd : T → S → S) (m : st T A) : st S A :=
  λ s, match m (proj s) with
       | Ok (a, t) => Ok (a, upd t s)
       | Err e => Err e
       end.

(** ** Weakest preconditions *)

(** [wp m Q s]: from [s], [m] either ends in a state and a value that satisfy
    [Q], or stops with an integer overflow: no memory error, no loop cut short. *)
Definition wp {S A} (m : st S A) (Q : A → S → Prop) (s : S) : Prop :=
  match m s with
  | Ok (a, s') => Q a s'
  | Err e => benign e = true
  end.

Create HintDb bio discriminated.

Section wp.
Context {S : Type}.
Implicit Types (s : S).

Lemma wp_ret {A} (a : A) (Q : A → S → Prop) s : Q a s → wp (mret a) Q s.
Proof. done. Qed.

Lemma wp_bind {A B} (m : st S A) (k : A → st S B) Q s :
  wp m (λ a s', wp (k a) Q s') s → wp (m ≫= k) Q s.
Proof. unfold wp, mbind, st_bind. by destruct (m s) as [[a s']|e]. Qed.

Lemma wp_bind_inv {A B} (m : st S A) (k : A → st S B) Q s :
  wp (m ≫= k) Q s → wp m (λ a s', wp (k a) Q s') s.
Proof. unfold wp, mbind, st_bind. destruct (m s) as [[a s']|e]; done. Qed.

Lemma wp_mono {A} (m : st S A) (P Q : A → S → Prop) s :
  wp m P s → (∀ a s', P a s' → Q a s') → wp m Q s.
Proof. unfold wp. destruct (m s) as [[a s']|e]; eauto. Qed.

(** The result of [m] may be remembered together with its specification. *)
Lemma wp_conj {A} (m : st S A) (P Q : A → S → Prop) s :
  wp m P s → wp m Q s → wp m (λ a s', P a s' ∧ Q a s') s.
Proof. unfold wp. destruct (m s) as [[a s']|e]; eauto. Qed.

Lemma wp_get (Q : S → S → Prop) s : Q s s → wp get Q s.
Proof. done. Qed.

Lemma wp_gets {A} (f : S → A) Q s : Q (f s) s → wp (gets f) Q s.
Proof. done. Qed.

Lemma wp_modify (f : S → S) Q s : Q tt (f s) → wp (modify f) Q s.
Proof. done. Qed.

Lemma wp_need {A} e (o : option A) a Q s :
  o = Some a → Q a s → wp (need e o) Q s.
Proof. intros ->. done. Qed.

Lemma wp_int_of z Q s : (in_int z = true → Q z s) → wp (int_of z) Q s.
Proof. unfold int_of. destruct (in_int z); intros H; [by apply H | done]. Qed.

Lemma wp_i64_of z Q s : (in_i64 z = true → Q z s) → wp (i64_of z) Q s.
Proof. unfold i64_of. destruct (in_i64 z); intros H; [by apply H | done]. Qed.

Lemma wp_zoom {T A} (proj : S → T) upd (m : st T A) Q s :
  wp m (λ a t, Q a (upd t s)) (proj s) → wp (zoom proj upd m) Q s.
Proof. unfold wp, zoom. by destruct (m (proj s)) as [[a t]|e]. Qed.

Lemma wp_elim {A} (m : st S A) Q s a s' : wp m Q s → m s = Ok (a, s') → Q a s'.
Proof. unfold wp. intros H E. by rewrite E in H. Qed.

Lemma wp_no_memory_error {A} (m : st S A) Q s e :
  wp m Q s → m s = Err e → benign e = true.
Proof. unfold wp. intros H E. by rewrite E in H. Qed.

(** Nothing goes wrong but the overflow of a counter. *)
Lemma wp_safe {A} (m : st S A) Q s :
  wp m Q s → match m s with Ok _ => True | Err e => e = Overflow end.
Proof. unfold wp. destruct (m s) as [|e]; [done|by destruct e]. Qed.
End wp.

#[export] Hint Resolve wp_ret wp_get wp_gets wp_modify : bio.

(** One step of symbolic execution of a monadic definition. *)
Ltac wp_step :=
  lazymatch goal with
  | |- wp (mbind _ _) _ _ => apply wp_bind
  | |- wp (mret _) _ _ => apply wp_ret
  | |- wp get _ _ => apply wp_get
  | |- wp (gets _) _ _ => apply wp_gets
  | |- wp (modify _) _ _ => apply wp_modify
  | |- wp (int_of _) _ _ => apply wp_int_of; intros ?
  | |- wp (i64_of _) _ _ => apply wp_i64_of; intros ?
  | |- wp (fail Overflow) _ _ => reflexivity
  | |- wp (need _ _) _ _ => eapply wp_need; [eassumption || reflexivity|]
  | |- wp (zoom _ _ _) _ _ => apply wp_zoom
  end; cbn beta.
Ltac wp_steps := repeat wp_step.

(** Use the specification [lem] of the first operation of the program; its side
    conditions come first, the continuation last. *)
Tactic Notation "wp_use" uconstr(lem) :=
  repeat lazymatch goal with |- wp (mbind _ _) _ _ => apply wp_bind; cbn beta end;
  eapply wp_mono; [eapply lem|cbn beta].

(** Run a computation inside a hypothesis [m s = Ok (a, s')]. *)
Ltac run_step H :=
  unfold mbind, st_bind, mret, st_ret, fmap, st_fmap, fail, get, gets, modify, need,
    int_of, zoom in H; cbn beta iota in H.

(** Runs on concrete inputs. *)
Definition is_ok {A} (r : res A) : bool := match r with Ok _ => true | Err _ => false end.

Definition state_of {S A} (d : S) (r : res (A * S)) : S :=
  match r with Ok (_, s) => s | Err _ => d end.

Lemma wp_state {S A} (m : st S A) (Q : A → S → Prop) (s d : S) :
  wp m Q s → is_ok (m s) = true → ∃ a, m s = Ok (a, state_of d (m s)) ∧ Q a (state_of d (m s)).
Proof. unfold wp. destruct (m s) as [[a s']|e]; [eauto|done]. Qed.

Lemma wp_ok {S A} (m : st S A) (Q : A → S → Prop) (s : S) :
  wp m Q s → is_ok (m s) = true → ∃ a s', m s = Ok (a, s') ∧ Q a s'.
Proof. unfold wp. destruct (m s) as [[a s']|e]; [eauto|done]. Qed.

(** ** Arrays: lists indexed by C integers

    Reading outside the array gives [None]; the code models turn that into
    [OutOfBounds]. *)

Definition zlen {A} (l : list A) : Z := Z.of_nat (length l).
Definition zlookup {A} (l : list A) (i : Z) : option A :=
  if decide (0 ≤ i) then l !! Z.to_nat i else None.
Definition zinsert {A} (i : Z) (x : A) (l : list A) : list A :=
  if decide (0 ≤ i) then <[Z.to_nat i := x]> l else l.

Section arrays.
Context {A : Type}.
Implicit Types (l k : list A) (i j : Z) (x : A).

Lemma zlookup_range l i x : zlookup l i = Some x → 0 ≤ i < zlen l.
Proof.
  unfold zlookup, zlen. case_decide; [|done]. intros E%lookup_lt_Some. lia.
Qed.

Lemma zlookup_Some_iff l i : is_Some (zlookup l i) ↔ 0 ≤ i < zlen l.
Proof.
  unfold zlookup, zlen. case_decide; [|split; [by intros []|lia]].
  rewrite lookup_lt_is_Some. lia.
Qed.

Lemma zlookup_in_range l i : 0 ≤ i < zlen l → ∃ x, zlookup l i = Some x.
Proof. intros H. by apply zlookup_Some_iff in H. Qed.

Lemma zlen_zinsert i x l : zlen (zinsert i x l) = zlen l.
Proof. unfold zlen, zinsert. case_decide; [by rewrite length_insert|done]. Qed.

Lemma zlen_app l k : zlen (l ++ k) = zlen l + zlen k.
Proof. unfold zlen. rewrite length_app. lia. Qed.

Lemma zlen_cons x l : zlen (x :: l) = zlen l + 1.
Proof. unfold zlen. cbn. lia. Qed.

Lemma zlen_snoc l x : zlen (l ++ [x]) = zlen l + 1.
Proof. by rewrite zlen_app. Qed.

Lemma zlen_nonneg l : 0 ≤ zlen l.
Proof. unfold zlen. lia. Qed.

Lemma zlen_elem l x : x ∈ l → 1 ≤ zlen l.
Proof. destruct 1; rewrite zlen_cons; pose proof (zlen_nonneg l); lia. Qed.

Lemma zlookup_zinsert i j x l :
  zlookup (zinsert i x l) j =
    if decide (i = j ∧ 0 ≤ i < zlen l) then Some x else zlookup l j.
Proof.
  unfold zlookup, zinsert, zlen.
  repeat case_decide; try done; try lia.
  - destruct H1 as [-> ?]. apply list_lookup_insert_eq. lia.
  - destruct (decide (i = j)) as [->|].
    + by rewrite list_insert_ge by lia.
    + apply list_lookup_insert_ne. lia.
Qed.

Lemma zlookup_zinsert_eq i x l : 0 ≤ i < zlen l → zlookup (zinsert i x l) i = Some x.
Proof. intros H. rewrite zlookup_zinsert. by rewrite decide_True. Qed.

Lemma zlookup_zinsert_ne i j x l : i ≠ j → zlookup (zinsert i x l) j = zlookup l j.
Proof. intros H. rewrite zlookup_zinsert. rewrite decide_False; [done|]. by intros []. Qed.

Lemma zlookup_app l k i :
  zlookup (l ++ k) i = if decide (i < zlen l) then zlookup l i else zlookup k (i - zlen l).
Proof.
  unfold zlookup, zlen. repeat case_decide; try done; try lia.
  - apply lookup_app_l. lia.
  - rewrite lookup_app_r by lia. f_equal. lia.
Qed.

Lemma zlookup_fmap {B} (f : A → B) l i : zlookup (f <$> l) i = f <$> zlookup l i.
Proof. unfold zlookup. case_decide; [apply list_lookup_fmap|done]. Qed.

Lemma zinsert_fmap {B} (f : A → B) l i x : f <$> zinsert i x l = zinsert i (f x) (f <$> l).
Proof. unfold zinsert. case_decide; [apply list_fmap_insert|done]. Qed.

Lemma zlen_fmap {B} (f : A → B) l : zlen (f <$> l) = zlen l.
Proof. unfold zlen. by rewrite length_fmap. Qed.

Lemma zinsert_id l i x : zlookup l i = Some x → zinsert i x l = l.
Proof. unfold zlookup, zinsert. case_decide; [apply list_insert_id|done]. Qed.

Lemma zinsert_app_l l k i x : i < zlen l → zinsert i x (l ++ k) = zinsert i x l ++ k.
Proof. unfold zinsert, zlen. intros Hi. case_decide; [apply insert_app_l; lia|done]. Qed.

Lemma zlookup_snoc_eq l x i : i = zlen l → zlookup (l ++ [x]) i = Some x.
Proof.
  intros ->. rewrite zlookup_app, decide_False by lia. by rewrite Z.sub_diag.
Qed.

Lemma Forall_zinsert (P : A → Prop) i x l : Forall P l → P x → Forall P (zinsert i x l).
Proof. intros Hl Hx. unfold zinsert. case_decide; [|done]. by apply Forall_insert. Qed.

Lemma zlookup_elem l i x : zlookup l i = Some x → x ∈ l.
Proof. unfold zlookup. case_decide; [|done]. apply list_elem_of_lookup_2. Qed.
End arrays.

Create Rewrite HintDb bio.
#[export] Hint Rewrite @zlen_zinsert @zlen_app : bio.

(** ** Lists *)

Lemma NoDup_remove_mid {A} (l k : list A) (x : A) :
  NoDup (l ++ x :: k) → (x ∉ l ++ k) ∧ NoDup (l ++ k).
Proof.
  intros H. rewrite <- Permutation_middle in H. by apply NoDup_cons in H.
Qed.

Lemma NoDup_snoc {A} (l : list A) (x : A) : x ∉ l → NoDup l → NoDup (l ++ [x]).
Proof.
  intros Hx Hl. rewrite <- Permutation_cons_append. by constructor.
Qed.

Lemma list_filter_ext_in {A} (P Q : A → Prop) `{!∀ x, Decision (P x), !∀ x, Decision (Q x)} (l : list A) :
  (∀ x, x ∈ l → P x ↔ Q x) → filter P l = filter Q l.
Proof.
  induction l as [|x l IH]; intros HPQ; [done|]. rewrite !filter_cons.
  rewrite IH by (intros y Hy; apply HPQ; by right).
  pose proof (HPQ x ltac:(by left)). repeat case_decide; tauto || done.
Qed.

Lemma list_filter_all {A} (P : A → Prop) `{!∀ x, Decision (P x)} (l : list A) :
  Forall P l → filter P l = l.
Proof.
  induction 1 as [|x l Hx _ IH]; [done|]. by rewrite filter_cons_True, IH.
Qed.

Lemma omap_id_Some {A} (l : list A) : omap id (Some <$> l) = l.
Proof. induction l as [|x l IH]; [done|]. cbn. by f_equal. Qed.

Lemma NoDup_omap {A B} (f : A → option B) (l : list A) :
  (∀ x y b, f x = Some b → f y = Some b → x = y) → NoDup l → NoDup (omap f l).
Proof.
  intros Hf. induction 1 as [|x l Hx _ IH]; cbn; [constructor|].
  destruct (f x) as [b|] eqn:E; [|done]. constructor; [|done].
  intros (y & Hy & E')%list_elem_of_omap. by rewrite (Hf _ _ _ E E') in Hx.
Qed.

(** The same when the function is injective on the elements of the list. *)
Lemma NoDup_omap_in {A B} (f : A → option B) (l : list A) :
  (∀ x y b, x ∈ l → y ∈ l → f x = Some b → f y = Some b → x = y) → NoDup l → NoDup (omap f l).
Proof.
  intros Hf Hl. induction Hl as [|x l Hx _ IH]; cbn; [constructor|].
  assert (NoDup (omap f l)) as Hn.
  { apply IH. intros y z b Hy Hz. apply Hf; by right. }
  destruct (f x) as [b|] eqn:E; [|done]. constructor; [|done].
  intros (y & Hy & E')%list_elem_of_omap. apply Hx.
  rewrite (Hf x y b); [done|by left|by right|done|done].
Qed.

Lemma length_omap_all {A B} (f : A → option B) (l : list A) :
  (∀ x, x ∈ l → is_Some (f x)) → length (omap f l) = length l.
Proof.
  induction l as [|x l IH]; intros Hf; [done|]. cbn.
  destruct (Hf x) as [b ->]; [by left|]. cbn. f_equal. apply IH. intros y Hy. apply Hf. by right.
Qed.

(** Overwriting an element exchanges it with the new one, up to order. *)
Lemma insert_exchange {A} (l : list A) (i : nat) (x y : A) :
  l !! i = Some x → x :: <[i:=y]> l ≡ₚ y :: l.
Proof.
  revert i. induction l as [|z l IH]; intros [|i]; cbn; try done.
  - intros [= ->]. constructor.
  - intros H%IH. etrans; [apply perm_swap|]. rewrite H. apply perm_swap.
Qed.

Lemma zinsert_exchange {A} (l : list A) (i : Z) (x y : A) :
  zlookup l i = Some x → x :: zinsert i y l ≡ₚ y :: l.
Proof. unfold zlookup, zinsert. case_decide; [|done]. apply insert_exchange. Qed.

(** Swapping two elements of an array permutes it. *)
Lemma zswap_Permutation {A} (l : list A) (i j : Z) (x y : A) :
  zlookup l i = Some x → zlookup l j = Some y →
  zinsert j x (zinsert i y l) ≡ₚ l.
Proof.
  intros Hi Hj. apply (Permutation_cons_inv (a := y)).
  rewrite (zinsert_exchange _ j y).
  - by apply zinsert_exchange.
  - rewrite zlookup_zinsert. case_decide; [done|done].
Qed.

Lemma zlen_perm {A} (l k : list A) : l ≡ₚ k → zlen l = zlen k.
Proof. unfold zlen. by intros ->. Qed.

#[export] Instance zlen_proper {A} : Proper ((≡ₚ) ==> eq) (@zlen A).
Proof. intros l k. apply zlen_perm. Qed.

(** Taking an element out of a list without duplicates. *)
Lemma filter_out (l : list positive) x :
  NoDup l → x ∈ l → l ≡ₚ x :: filter (λ y, y ≠ x) l.
Proof.
  intros Hn (l1 & l2 & ->)%list_elem_of_split. pose proof (NoDup_remove_mid _ _ _ Hn) as [Hx _].
  rewrite filter_app, filter_cons_False by auto. rewrite !list_filter_all; [solve_Permutation|..];
    apply Forall_forall; intros y Hy ->; apply Hx; set_solver.
Qed.

(** Changing one element changes its part of a concatenation. *)
Lemma bind_insert {A B} (f : A → list B) (l : list A) i x :
  l !! i = Some x → ∃ rest, l ≫= f ≡ₚ f x ++ rest ∧ ∀ y, <[i := y]> l ≫= f ≡ₚ f y ++ rest.
Proof.
  revert i. induction l as [|z l IH]; intros [|i]; cbn; try done.
  - intros [= ->]. by exists (l ≫= f).
  - intros (rest & H1 & H2)%IH. exists (f z ++ rest). split; [rewrite H1|intros y; rewrite (H2 y)];
      solve_Permutation.
Qed.
