(* ===== verification/Error.v ===== *)
(** Errors ([include/bio/bio.h], [src/bio.c]): the error object that a caller may pass to
    a function, and how the functions of the library fill it in. *)
From stdpp Require Import strings.
From S2P Require Import Prelude.

(** ** Core errors *)

(** [bio_core_error_code_t]. *)
Inductive bio_core_error_code_t :=
  | BIO_NO_ERROR
  | BIO_ERROR_INVALID_ARGUMENT
  | BIO_ERROR_NOT_SUPPORTED.

(** The value of an enumerator. *)
Definition core_error_code (code : bio_core_error_code_t) : Z :=
  match code with
  | BIO_NO_ERROR => 0
  | BIO_ERROR_INVALID_ARGUMENT => 1
  | BIO_ERROR_NOT_SUPPORTED => 2
  end.

(** [bio_core_strerror]. *)
Definition bio_core_strerror (code : Z) : string :=
  if code =? core_error_code BIO_NO_ERROR then "No error"
  else if code =? core_error_code BIO_ERROR_INVALID_ARGUMENT then "Invalid argument"
  else if code =? core_error_code BIO_ERROR_NOT_SUPPORTED then "Operation is not supported"
  else "Unknown error".

(** The tag of an error names the domain of its code. *)
Inductive bio_error_tag_t :=
  | BIO_CORE_ERROR
  | BIO_PLATFORM_ERROR
  | BIO_USER_ERROR (n : positive).

#[export] Instance bio_error_tag_eq_dec : EqDecision bio_error_tag_t.
Proof. solve_decision. Defined.

(** [bio_error_t]; [err_strerror] describes the code. *)
Record bio_error_t := mk_error {
  err_tag : option bio_error_tag_t;
  err_code : Z;
  err_strerror : option (Z → string);
  err_file : string;
  err_line : Z;
}.

(** [(bio_set_core_error)]: the caller may pass no error to fill in. *)
Definition bio_set_core_error (error : option bio_error_t) (code : bio_core_error_code_t)
    (file : string) (line : Z) : option bio_error_t :=
  (λ _, mk_error (Some BIO_CORE_ERROR) (core_error_code code) (Some bio_core_strerror) file line)
    <$> error.

(** [bio_has_error]. *)
Definition bio_has_error (error : option bio_error_t) : bool :=
  match error with
  | Some e => bool_decide (err_tag e ≠ None)
  | None => false
  end.

(** [bio_strerror]: calls the [strerror] of an error that is set. *)
Definition bio_strerror (error : option bio_error_t) : res (option string) :=
  match error with
  | Some e =>
      match err_tag e, err_strerror e with
      | Some _, Some strerror => Ok (Some (strerror (err_code e)))
      | Some _, None => Err NullDeref
      | None, _ => Ok None
      end
  | None => Ok None
  end.

(** [bio_clear_error]. *)
Definition bio_clear_error (error : option bio_error_t) : option bio_error_t :=
  (λ e, mk_error None (err_code e) (err_strerror e) (err_file e) (err_line e)) <$> error.

(** ** Results

    Functions that may fail take an error object and return it, filled in or not. *)
Abbreviation error_ptr := (option bio_error_t).

(** The code of the error that is set, with its domain. *)
Definition error_of (error : error_ptr) : option (bio_error_tag_t * Z) :=
  e ← error; tag ← err_tag e; Some (tag, err_code e).

Lemma set_core_error_of error code file line :
  is_Some error → error_of (bio_set_core_error error code file line) = Some (BIO_CORE_ERROR, core_error_code code).
Proof. by intros [e ->]. Qed.

Lemma has_error_iff error : bio_has_error error = bool_decide (is_Some (error_of error)).
Proof.
  destruct error as [[[tag|] code f file line]|]; try done.
Qed.

(** An error that the library sets is described by its own function, and clearing it
    leaves none. *)
Lemma core_error_described error code file line :
  is_Some error →
  bio_strerror (bio_set_core_error error code file line) = Ok (Some (bio_core_strerror (core_error_code code))) ∧
  bio_has_error (bio_clear_error (bio_set_core_error error code file line)) = false.
Proof. by intros [e ->]. Qed.
