(* ===== verification/Bits.v ===== *)
(** Bit-level helpers: rounding up to a power of two and ring-buffer
    indices ([src/internal.h], [src/mailbox.c]), the hash of
    coroutine-local storage keys ([src/scheduler.c]). *)
From S2P Require Import Prelude.

(** ** The code *)

(** [bio_next_pow2]: every step is on [uint32_t], so the first decrement and
    the last increment wrap. *)
Definition bio_next_pow2 (v : Z) : Z :=
  let next := v in
  let next := u32 (next - 1) in
  let next := Z.lor next (Z.shiftr next 1) in
  let next := Z.lor next (Z.shiftr next 2) in
  let next := Z.lor next (Z.shiftr next 4) in
  let next := Z.lor next (Z.shiftr next 8) in
  let next := Z.lor next (Z.shiftr next 16) in
  u32 (next + 1).

(** [bio_queue_index]: [vindex & (capacity - 1)] on [uint32_t]. *)
Definition bio_queue_index (vindex capacity : Z) : Z :=
  Z.land vindex (u32 (capacity - 1)).

(** [bio_splittable64]: the multiplications wrap modulo 2^64. *)
Definition bio_splittable64 (x : Z) : Z :=
  let x := Z.lxor x (Z.shiftr x 30) in
  let x := u64 (x * 13787848793156543929) in
  let x := Z.lxor x (Z.shiftr x 27) in
  let x := u64 (x * 10723151780598845931) in
  let x := Z.lxor x (Z.shiftr x 31) in
  x.

(** ** Rounding up to a power of two *)

(** [smears n x y]: bit [i] of [y] says whether [x] has a bit among
    [i, ..., i + n - 1]. *)
Definition smears (n x y : Z) : Prop :=
  ∀ i, 0 ≤ i → Z.testbit y i = true ↔ ∃ j, 0 ≤ j < n ∧ Z.testbit x (i + j) = true.

Lemma smears_refl x : smears 1 x x.
Proof.
  intros i Hi. split.
  - intros H. exists 0. rewrite Z.add_0_r. split; [lia|done].
  - intros (j & Hj & H). by replace j with 0 in H by lia; rewrite Z.add_0_r in H.
Qed.

Lemma smears_double n x y :
  0 < n → smears n x y → smears (2 * n) x (Z.lor y (Z.shiftr y n)).
Proof.
  intros Hn H i Hi.
  rewrite Z.lor_spec, Z.shiftr_spec, orb_true_iff, (H i), (H (i + n)) by lia.
  split.
  - intros [(j & Hj & Hb)|(j & Hj & Hb)]; [by exists j; split; [lia|]|].
    exists (n + j). split; [lia|]. by rewrite Z.add_assoc.
  - intros (j & Hj & Hb). destruct (decide (j < n)); [left; by exists j; split; [lia|]|].
    right. exists (j - n). split; [lia|]. by replace (i + n + (j - n)) with (i + j) by lia.
Qed.

Lemma smears_ones n x y :
  0 < x → Z.log2 x < n → 0 ≤ y → smears n x y → y = 2 ^ (Z.log2 x + 1) - 1.
Proof.
  intros Hx Hn Hy H. rewrite Z.sub_1_r, <- Z.ones_equiv.
  pose proof (Z.log2_nonneg x).
  apply Z.bits_inj'. intros i Hi.
  destruct (decide (i ≤ Z.log2 x)) as [Hle|Hgt].
  - rewrite Z.ones_spec_low by lia. apply H; [done|].
    exists (Z.log2 x - i). split; [lia|].
    replace (i + (Z.log2 x - i)) with (Z.log2 x) by lia. by apply Z.bit_log2.
  - rewrite Z.ones_spec_high by lia.
    destruct (Z.testbit y i) eqn:E; [|done]. exfalso.
    apply H in E as (j & Hj & Hb); [|done].
    rewrite Z.bits_above_log2 in Hb by lia. done.
Qed.

Lemma smear_32 x :
  0 ≤ x < 2 ^ 32 →
  let next := x in
  let next := Z.lor next (Z.shiftr next 1) in
  let next := Z.lor next (Z.shiftr next 2) in
  let next := Z.lor next (Z.shiftr next 4) in
  let next := Z.lor next (Z.shiftr next 8) in
  let next := Z.lor next (Z.shiftr next 16) in
  next = (if decide (x = 0) then 0 else 2 ^ (Z.log2 x + 1) - 1).
Proof.
  intros Hx. cbn zeta. case_decide as H0; [by subst|].
  assert (Hpos : ∀ a b, 0 ≤ a → 0 ≤ b → 0 ≤ Z.lor a (Z.shiftr a b)).
  { intros a b ??. apply Z.lor_nonneg. split; [done|]. by apply Z.shiftr_nonneg. }
  apply (smears_ones 32); [lia| |by repeat (apply Hpos; [|lia]); lia|].
  { apply Z.log2_lt_pow2; lia. }
  apply (smears_double 16), (smears_double 8), (smears_double 4), (smears_double 2),
    (smears_double 1), smears_refl; lia.
Qed.

(** The rounding used for every ring buffer and hash table size: a positive value
    up to [2^31] is rounded up to the nearest power of two; zero and anything larger
    wrap around to zero. *)
Lemma bio_next_pow2_spec v :
  0 ≤ v < 2 ^ 32 →
  bio_next_pow2 v = (if decide (1 ≤ v ≤ 2 ^ 31) then 2 ^ Z.log2_up v else 0).
Proof.
  intros Hv. unfold bio_next_pow2, u32.
  change 4294967296 with (2 ^ 32).
  assert (Hr : 0 ≤ (v - 1) `mod` 2 ^ 32 < 2 ^ 32) by (apply Z.mod_pos_bound; lia).
  rewrite (smear_32 _ Hr). clear Hr.
  destruct (decide (v = 0)) as [->|Hv0]; [reflexivity|].
  rewrite (Z.mod_small (v - 1)) by lia.
  destruct (decide (v - 1 = 0)) as [E|E].
  { replace v with 1 by lia. reflexivity. }
  rewrite Z.sub_add.
  assert (Hup : Z.log2 (v - 1) + 1 = Z.log2_up v).
  { rewrite Z.log2_up_eqn by lia. by rewrite <- Z.sub_1_r, Z.add_1_r. }
  rewrite Hup. case_decide as Hle.
  - apply Z.mod_small. split; [apply Z.pow_nonneg; lia|].
    apply Z.pow_lt_mono_r; [lia|lia|].
    assert (Z.log2_up v ≤ 31); [|lia].
    replace 31 with (Z.log2_up (2 ^ 31)) by reflexivity. apply Z.log2_up_le_mono. lia.
  - assert (Z.log2_up v = 32) as ->; [|reflexivity].
    apply Z.log2_up_unique; [lia|]. change (Z.pred 32) with 31. lia.
Qed.

(** [pow2 c]: [c] is a power of two that fits in 32 bits. *)
Definition pow2 (c : Z) : Prop := ∃ k, 0 ≤ k ≤ 31 ∧ c = 2 ^ k.

Lemma pow2_pos c : pow2 c → 0 < c ≤ 2 ^ 31.
Proof.
  intros (k & Hk & ->). split; [apply Z.pow_pos_nonneg; lia|].
  apply Z.pow_le_mono_r; lia.
Qed.

Lemma pow2_divides c : pow2 c → (c | 4294967296).
Proof.
  intros (k & Hk & ->). exists (2 ^ (32 - k)).
  rewrite <- Z.pow_add_r by lia. by replace (32 - k + k) with 32 by lia.
Qed.

Lemma bio_next_pow2_pow2 v : 1 ≤ v ≤ 2 ^ 31 → pow2 (bio_next_pow2 v) ∧ v ≤ bio_next_pow2 v.
Proof.
  intros Hv. rewrite bio_next_pow2_spec by lia. rewrite decide_True by lia. split.
  - exists (Z.log2_up v). split; [|done]. split; [apply Z.log2_up_nonneg|].
    replace 31 with (Z.log2_up (2 ^ 31)) by reflexivity. apply Z.log2_up_le_mono. lia.
  - destruct (decide (v = 1)) as [->|]; [done|]. apply Z.log2_up_spec. lia.
Qed.

(** On a power-of-two capacity, masking is the remainder. *)
Lemma bio_queue_index_mod v c :
  pow2 c → bio_queue_index v c = v `mod` c.
Proof.
  intros Hc. pose proof (pow2_pos _ Hc). unfold bio_queue_index, u32.
  rewrite Z.mod_small by lia. destruct Hc as (k & Hk & ->).
  rewrite Z.sub_1_r, <- Z.ones_equiv. apply Z.land_ones. lia.
Qed.

(** Counters wrap modulo 2^32, which is a multiple of the capacity: the index
    of a counter does not see the wrap-around. *)
Lemma u32_mod v c : pow2 c → u32 v `mod` c = v `mod` c.
Proof.
  intros Hc. unfold u32. pose proof (pow2_pos _ Hc).
  by apply Z.mod_mod_divide, pow2_divides.
Qed.

Lemma u32_range v : 0 ≤ u32 v < 4294967296.
Proof. apply Z.mod_pos_bound. lia. Qed.

Lemma u32_small v : 0 ≤ v < 4294967296 → u32 v = v.
Proof. apply Z.mod_small. Qed.

(** The distance between two wrapping counters. *)
Lemma u32_sub_wrap r n : 0 ≤ n < 4294967296 → u32 (u32 (r + n) - u32 r) = n.
Proof.
  intros Hn. unfold u32. rewrite <- Zminus_mod. replace (r + n - r) with n by lia.
  by apply Z.mod_small.
Qed.

(** [bio_next_pow2] is the least power of two that is not below its argument,
    for every argument for which there is one of 32 bits; otherwise it is zero. *)
Theorem next_pow2_least v :
  0 ≤ v < 2 ^ 32 →
  if decide (1 ≤ v ≤ 2 ^ 31)
  then pow2 (bio_next_pow2 v) ∧ v ≤ bio_next_pow2 v ∧
       ∀ c, pow2 c → v ≤ c → bio_next_pow2 v ≤ c
  else bio_next_pow2 v = 0.
Proof.
  intros Hv. case_decide as Hd; [|by rewrite bio_next_pow2_spec, decide_False].
  destruct (bio_next_pow2_pow2 v Hd) as [Hp Hle]. split_and!; [done..|].
  intros c (k & Hk & ->) Hc. rewrite bio_next_pow2_spec, decide_True by lia.
  apply Z.pow_le_mono_r; [lia|]. rewrite <- (Z.log2_up_pow2 k) by lia. by apply Z.log2_up_le_mono.
Qed.
