(* ===== verification/LinkList.v ===== *)
(** The intrusive circular lists of [src/internal.h]: the macros that link and
    unlink nodes through their [next] and [prev] pointers, and the lists that
    they represent. The other files of the development use these lists. *)
From S2P Require Import Prelude.

(** ** The code *)

(** [BIO_DEFINE_LIST_LINK]: the pointers of a node; [None] is [NULL]. *)
Record link := mk_link { next : option positive; prev : option positive }.

(** The memory in which the nodes are. *)
Abbreviation links := (gmap positive link).

Definition deref_link (p : option positive) : st links (positive * link) :=
  p ← need NullDeref p;
  h ← get;
  x ← need Dangling (h !! p);
  mret (p, x).

Definition set_next (p v : option positive) : st links unit :=
  r ← deref_link p;
  modify <[r.1 := mk_link v (prev r.2)]>.

Definition set_prev (p v : option positive) : st links unit :=
  r ← deref_link p;
  modify <[r.1 := mk_link (next r.2) v]>.

Definition get_next (p : option positive) : st links (option positive) :=
  r ← deref_link p; mret (next r.2).

Definition get_prev (p : option positive) : st links (option positive) :=
  r ← deref_link p; mret (prev r.2).

Definition BIO_LIST_INIT (list : positive) : st links unit :=
  _ ← set_next (Some list) (Some list);
  set_prev (Some list) (Some list).

Definition BIO_LIST_APPEND (list item : positive) : st links unit :=
  _ ← set_next (Some item) (Some list);
  last ← get_prev (Some list);
  _ ← set_prev (Some item) last;
  last ← get_prev (Some list);
  _ ← set_next last (Some item);
  set_prev (Some list) (Some item).

Definition BIO_LIST_REMOVE (item : option positive) : st links unit :=
  n ← get_next item;
  if decide (n ≠ None) then
    n ← get_next item;
    p ← get_prev item;
    _ ← set_prev n p;
    p ← get_prev item;
    n ← get_next item;
    _ ← set_next p n;
    _ ← set_next item None;
    set_prev item None
  else mret tt.

Definition BIO_LIST_IS_EMPTY (list : positive) : st links bool :=
  n ← get_next (Some list);
  mret (bool_decide (n = Some list) || bool_decide (n = None)).

Definition BIO_LIST_POP (list : positive) : st links unit :=
  n ← get_next (Some list);
  BIO_LIST_REMOVE n.

(** ** Representation *)

Definition nx (h : links) (p : positive) : option positive := h !! p ≫= next.
Definition pv (h : links) (p : positive) : option positive := h !! p ≫= prev.

(** Following the pointers from [x] visits the nodes of [w] one after the other. *)
Fixpoint chain (h : links) (x : positive) (w : list positive) : Prop :=
  match w with
  | [] => True
  | y :: w => nx h x = Some y ∧ pv h y = Some x ∧ chain h y w
  end.

(** The list with head [hd] has the items [l]; all the nodes exist. *)
Record circular (h : links) (hd : positive) (l : list positive) : Prop := {
  ci_nodup : NoDup (hd :: l);
  ci_nodes : ∀ p, p ∈ hd :: l → is_Some (h !! p);
  ci_chain : chain h hd (l ++ [hd]);
}.

(** A node that is in no list. *)
Definition unlinked (h : links) (p : positive) : Prop := h !! p = Some (mk_link None None).

(** ** Single writes *)

Section writes.
Context (h : links).

Lemma wp_set_next p v (Q : unit → links → Prop) :
  is_Some (h !! p) →
  (∀ h', (∀ q, nx h' q = if decide (p = q) then v else nx h q) → (∀ q, pv h' q = pv h q) →
    (∀ q, is_Some (h' !! q) ↔ is_Some (h !! q)) → (∀ q, q ≠ p → h' !! q = h !! q) → Q tt h') →
  wp (set_next (Some p) v) Q h.
Proof.
  intros [x Hp] HQ. unfold set_next, deref_link. wp_steps. cbn. wp_steps. apply HQ.
  - intros q. unfold nx. case_decide as E; [subst; by rewrite lookup_insert_eq|].
    by rewrite lookup_insert_ne.
  - intros q. unfold pv. destruct (decide (p = q)) as [<-|E]; [by rewrite lookup_insert_eq, Hp|].
    by rewrite lookup_insert_ne.
  - intros q. rewrite lookup_insert_is_Some'. split; [|by right]. intros [<-|?]; eauto.
  - intros q Hq. by rewrite lookup_insert_ne.
Qed.

Lemma wp_set_prev p v (Q : unit → links → Prop) :
  is_Some (h !! p) →
  (∀ h', (∀ q, nx h' q = nx h q) → (∀ q, pv h' q = if decide (p = q) then v else pv h q) →
    (∀ q, is_Some (h' !! q) ↔ is_Some (h !! q)) → (∀ q, q ≠ p → h' !! q = h !! q) → Q tt h') →
  wp (set_prev (Some p) v) Q h.
Proof.
  intros [x Hp] HQ. unfold set_prev, deref_link. wp_steps. cbn. wp_steps. apply HQ.
  - intros q. unfold nx. destruct (decide (p = q)) as [<-|E]; [by rewrite lookup_insert_eq, Hp|].
    by rewrite lookup_insert_ne.
  - intros q. unfold pv. case_decide as E; [subst; by rewrite lookup_insert_eq|].
    by rewrite lookup_insert_ne.
  - intros q. rewrite lookup_insert_is_Some'. split; [|by right]. intros [<-|?]; eauto.
  - intros q Hq. by rewrite lookup_insert_ne.
Qed.

Lemma wp_get_next p (Q : option positive → links → Prop) :
  is_Some (h !! p) → Q (nx h p) h → wp (get_next (Some p)) Q h.
Proof.
  intros [x Hp] HQ. unfold get_next, deref_link. wp_steps. cbn. unfold nx in HQ. by rewrite Hp in HQ.
Qed.

Lemma wp_get_prev p (Q : option positive → links → Prop) :
  is_Some (h !! p) → Q (pv h p) h → wp (get_prev (Some p)) Q h.
Proof.
  intros [x Hp] HQ. unfold get_prev, deref_link. wp_steps. cbn. unfold pv in HQ. by rewrite Hp in HQ.
Qed.
End writes.

(** ** Chains *)

(** The node from which the last link of a chain starts. *)
Fixpoint last_of (x : positive) (w : list positive) : positive :=
  match w with [] => x | y :: w => last_of y w end.

(** The first item of a list, or its head. *)
Definition head_of (hd : positive) (l : list positive) : positive :=
  match l with [] => hd | y :: _ => y end.

Lemma last_of_snoc x w y : last_of x (w ++ [y]) = y.
Proof. revert x. induction w as [|z w IH]; intros x; [done|apply IH]. Qed.

Lemma last_of_elem x w : last_of x w ∈ x :: w.
Proof.
  revert x. induction w as [|y w IH]; intros x; cbn; [by left|]. right. apply IH.
Qed.

Lemma chain_app h x w y k : chain h x (w ++ y :: k) ↔ chain h x (w ++ [y]) ∧ chain h y k.
Proof.
  revert x. induction w as [|z w IH]; intros x; cbn; [tauto|]. rewrite IH. tauto.
Qed.

Lemma chain_snoc h x w y :
  chain h x (w ++ [y]) ↔ chain h x w ∧ nx h (last_of x w) = Some y ∧ pv h y = Some (last_of x w).
Proof.
  revert x. induction w as [|z w IH]; intros x; cbn; [tauto|]. rewrite IH. tauto.
Qed.

(** A chain depends on the [next] of all nodes but the last, and on the [prev] of
    all but the first. *)
Lemma chain_ext h h' x w :
  NoDup (x :: w) → chain h x w →
  (∀ p, p ∈ x :: w → p ≠ last_of x w → nx h' p = nx h p) → (∀ p, p ∈ w → pv h' p = pv h p) →
  chain h' x w.
Proof.
  revert x. induction w as [|y w IH]; intros x Hnd; [done|]. cbn. intros (Hn & Hp & Hc) H1 H2.
  apply NoDup_cons in Hnd as [Hx Hnd].
  assert (Hl : x ≠ last_of y w).
  { intros ->. apply Hx, last_of_elem. }
  split_and!.
  - rewrite H1; [done|by left|done].
  - rewrite H2; [done|by left].
  - apply IH; [done|done| |].
    + intros p ? ?. apply H1; [by right|done].
    + intros p ?. apply H2. by right.
Qed.

(** ** The operations on the lists *)

(** Nodes outside of a list keep their pointers. *)
Definition untouched (ps : list positive) (h h' : links) : Prop := ∀ q, q ∉ ps → h' !! q = h !! q.

Lemma circular_nodup h hd l : circular h hd l → hd ∉ l ∧ NoDup l.
Proof. intros [H%NoDup_cons _ _]. done. Qed.

Lemma circular_prev h hd l :
  circular h hd l → pv h hd = Some (last_of hd l) ∧ nx h (last_of hd l) = Some hd ∧ chain h hd l.
Proof. intros [_ _ Hc]. apply chain_snoc in Hc. tauto. Qed.

Lemma list_init_spec h hd :
  is_Some (h !! hd) → wp (BIO_LIST_INIT hd) (λ _ h', circular h' hd [] ∧ untouched [hd] h h') h.
Proof.
  intros Hd. unfold BIO_LIST_INIT. wp_step. apply wp_set_next; [done|]. intros h1 Hn1 Hp1 Hs1 Hu1.
  apply wp_set_prev; [by apply Hs1|]. intros h2 Hn2 Hp2 Hs2 Hu2. split.
  - split; [apply NoDup_singleton| |].
    + intros p ->%list_elem_of_singleton. by apply Hs2, Hs1.
    + cbn. rewrite Hn2, Hn1, Hp2, decide_True, decide_True by done. done.
  - intros q Hq%not_elem_of_cons. rewrite Hu2, Hu1 by tauto. done.
Qed.

(** What appending and removing do to the pointers. *)
Lemma chain_link h h' hd l item :
  NoDup (hd :: l) → item ∉ hd :: l → chain h hd l →
  (∀ p, nx h' p = if decide (p = last_of hd l) then Some item else if decide (p = item) then Some hd else nx h p) →
  (∀ p, pv h' p = if decide (p = hd) then Some item else if decide (p = item) then Some (last_of hd l) else pv h p) →
  chain h' hd ((l ++ [item]) ++ [hd]).
Proof.
  intros Hnd Hi Hch HN HP. set (z := last_of hd l) in *.
  assert (Hz : z ∈ hd :: l) by apply last_of_elem.
  assert (Hzi : z ≠ item) by congruence.
  assert (Hhi : hd ≠ item) by (intros ->; apply Hi; by left).
  rewrite <- app_assoc. cbn. apply chain_app. cbn.
  rewrite HN, HP, decide_False, !decide_True by done. split; [|done].
  apply chain_snoc. fold z. rewrite HN, HP, decide_True, decide_False, decide_True by done.
  split_and!; [|done..]. eapply chain_ext; [done|done|..].
  - intros p Hpl Hpz. fold z in Hpz. rewrite HN, !decide_False; [done| |done]. congruence.
  - intros p Hpl. apply NoDup_cons in Hnd as [Hh _].
    rewrite HP, !decide_False; [done| |congruence]. intros ->. apply Hi. by right.
Qed.

Lemma chain_unlink h h' hd l1 l2 item :
  NoDup (item :: hd :: l1 ++ l2) → chain h hd l1 → chain h (head_of hd l2) (tail (l2 ++ [hd])) →
  (∀ p, p ≠ item → nx h' p = if decide (p = last_of hd l1) then Some (head_of hd l2) else nx h p) →
  (∀ p, p ≠ item → pv h' p = if decide (p = head_of hd l2) then Some (last_of hd l1) else pv h p) →
  chain h' hd ((l1 ++ l2) ++ [hd]).
Proof.
  intros [Hi Hnd]%NoDup_cons Hc1 Hc2 HN HP. set (a := last_of hd l1) in *.
  assert (Ha : a ∈ hd :: l1) by apply last_of_elem.
  assert (Hin : ∀ p, p ∈ hd :: l1 ++ l2 → p ≠ item) by congruence.
  assert (Hsub : ∀ p, p ∈ hd :: l1 → p ∈ hd :: l1 ++ l2).
  { intros p Hp. rewrite app_comm_cons. apply elem_of_app. by left. }
  pose proof Hnd as [Hh (Hl1 & Hl12 & Hl2)%NoDup_app]%NoDup_cons.
  assert (H1 : chain h' hd l1).
  { eapply chain_ext; [|done|..].
    - constructor; [|done]. intros ?. apply Hh, elem_of_app. by left.
    - intros p Hp Hpa. fold a in Hpa. rewrite HN, decide_False by auto. done.
    - intros p Hp. rewrite HP, decide_False; [done| |apply Hin, Hsub; by right]. intros ->.
      destruct l2 as [|c l2]; cbn in *; [apply Hh; by rewrite app_nil_r|].
      apply (Hl12 c Hp). by left. }
  destruct l2 as [|c l2]; cbn in *.
  { rewrite app_nil_r in *. apply chain_snoc. fold a.
    rewrite HN, HP, !decide_True by (done || apply Hin; auto; by left). done. }
  assert (Hin2 : ∀ p, p ∈ c :: l2 → p ∈ hd :: l1 ++ c :: l2).
  { intros p Hp. right. apply elem_of_app. by right. }
  assert (Hna : ∀ p, p ∈ c :: l2 → p ≠ a).
  { intros p Hp ->. apply elem_of_cons in Ha as [->|Ha]; [|by apply (Hl12 a)].
    apply Hh, elem_of_app. by right. }
  assert (Hhc : hd ≠ c) by (intros ->; apply Hh, elem_of_app; right; by left).
  rewrite <- app_assoc. cbn. apply chain_app. split.
  { apply chain_snoc. fold a. rewrite HN, HP, !decide_True by (done || apply Hin; auto; apply Hin2; by left). done. }
  apply chain_snoc in Hc2 as (Hc2 & Hnl & Hpl). apply chain_snoc.
  assert (Hlast : last_of c l2 ∈ c :: l2) by apply last_of_elem.
  rewrite HN, HP, !decide_False by (auto || apply Hin; by left). split_and!; [|done..].
  pose proof Hl2 as [Hc _]%NoDup_cons. eapply chain_ext; [exact Hl2|done|..].
  - intros p Hp _. rewrite HN, decide_False by auto. done.
  - intros p Hp. assert (p ∈ c :: l2) by (by right). rewrite HP, decide_False; [done| |by auto]. congruence.
Qed.

Lemma list_append_spec h hd l item :
  circular h hd l → item ∉ hd :: l → is_Some (h !! item) →
  wp (BIO_LIST_APPEND hd item) (λ _ h', circular h' hd (l ++ [item]) ∧
    untouched (item :: hd :: l) h h') h.
Proof.
  intros Hc Hi Hs. destruct (circular_prev _ _ _ Hc) as (Hp & Hn & Hch).
  pose proof Hc as [Hnd Hnodes _].
  assert (Hz : last_of hd l ∈ hd :: l) by apply last_of_elem.
  assert (Hhi : hd ≠ item) by (intros ->; apply Hi; by left).
  assert (Hzi : last_of hd l ≠ item) by congruence.
  assert (Hd : is_Some (h !! hd)) by (apply Hnodes; by left).
  unfold BIO_LIST_APPEND. wp_step. apply wp_set_next; [done|]. intros h1 Hn1 Hp1 Hs1 Hu1. wp_step.
  apply wp_get_prev; [by apply Hs1|]. rewrite Hp1, Hp. wp_step.
  apply wp_set_prev; [by apply Hs1|]. intros h2 Hn2 Hp2 Hs2 Hu2. wp_step.
  apply wp_get_prev; [by apply Hs2, Hs1|]. rewrite Hp2, decide_False, Hp1, Hp by done. wp_step.
  apply wp_set_next; [by apply Hs2, Hs1, Hnodes|]. intros h3 Hn3 Hp3 Hs3 Hu3.
  apply wp_set_prev; [by apply Hs3, Hs2, Hs1|]. intros h4 Hn4 Hp4 Hs4 Hu4.
  assert (Hsome : ∀ p, is_Some (h4 !! p) ↔ is_Some (h !! p)) by (intros p; by rewrite Hs4, Hs3, Hs2, Hs1).
  split; [split|].
  - rewrite app_comm_cons. by apply NoDup_snoc.
  - intros p. rewrite app_comm_cons, elem_of_app, list_elem_of_singleton.
    intros [?| ->]; apply Hsome; auto.
  - apply (chain_link h); [done..| |].
    + intros p. rewrite Hn4, Hn3, Hn2, Hn1. repeat case_decide; congruence.
    + intros p. rewrite Hp4, Hp3, Hp2, Hp1. repeat case_decide; congruence.
  - intros q Hq. rewrite !not_elem_of_cons in Hq. destruct Hq as (Hqi & Hqh & Hql).
    assert (q ≠ last_of hd l) by (intros ->; apply elem_of_cons in Hz as [?|?]; done).
    rewrite Hu4, Hu3, Hu2, Hu1 by done. done.
Qed.

(** Removing a node that is in no list changes nothing. *)
Lemma list_remove_unlinked h item :
  unlinked h item → wp (BIO_LIST_REMOVE (Some item)) (λ _ h', h' = h) h.
Proof.
  intros Hu. unfold BIO_LIST_REMOVE. wp_step. apply wp_get_next; [rewrite Hu; eauto|].
  unfold nx. rewrite Hu. cbn. rewrite decide_False by auto. by wp_steps.
Qed.

(** The writes of a removal, between two neighbours. *)
Lemma list_remove_writes h item a b :
  nx h item = Some b → pv h item = Some a → a ≠ item → b ≠ item →
  is_Some (h !! a) → is_Some (h !! b) →
  wp (BIO_LIST_REMOVE (Some item)) (λ _ h',
    (∀ p, p ≠ item → nx h' p = if decide (p = a) then Some b else nx h p) ∧
    (∀ p, p ≠ item → pv h' p = if decide (p = b) then Some a else pv h p) ∧
    (∀ p, is_Some (h' !! p) ↔ is_Some (h !! p)) ∧ unlinked h' item ∧ untouched [item; a; b] h h') h.
Proof.
  intros Hn Hp Ha Hb Hsa Hsb.
  assert (Hsi : is_Some (h !! item)) by (unfold nx in Hn; destruct (h !! item); [eauto|done]).
  unfold BIO_LIST_REMOVE. wp_step. apply wp_get_next; [done|]. rewrite Hn, decide_True by done.
  wp_step. apply wp_get_next; [done|]. wp_step. apply wp_get_prev; [done|]. rewrite Hn, Hp.
  wp_step. apply wp_set_prev; [done|]. intros h1 Hn1 Hp1 Hs1 Hu1.
  wp_step. apply wp_get_prev; [by apply Hs1|]. wp_step. apply wp_get_next; [by apply Hs1|].
  rewrite Hn1, Hn, Hp1, decide_False, Hp by done.
  wp_step. apply wp_set_next; [by apply Hs1|]. intros h2 Hn2 Hp2 Hs2 Hu2.
  wp_step. apply wp_set_next; [by apply Hs2, Hs1|]. intros h3 Hn3 Hp3 Hs3 Hu3.
  apply wp_set_prev; [by apply Hs3, Hs2, Hs1|]. intros h4 Hn4 Hp4 Hs4 Hu4.
  assert (Hsome : ∀ p, is_Some (h4 !! p) ↔ is_Some (h !! p)) by (intros p; by rewrite Hs4, Hs3, Hs2, Hs1).
  split_and!.
  - intros p Hpi. rewrite Hn4, Hn3, Hn2, Hn1. repeat case_decide; congruence.
  - intros p Hpi. rewrite Hp4, Hp3, Hp2, Hp1. repeat case_decide; congruence.
  - done.
  - unfold unlinked. destruct (proj2 (Hsome item) Hsi) as [[n p] E]. rewrite E. f_equal. f_equal.
    + specialize (Hn4 item). rewrite Hn3, decide_True in Hn4 by done. unfold nx in Hn4. by rewrite E in Hn4.
    + specialize (Hp4 item). rewrite decide_True in Hp4 by done. unfold pv in Hp4. by rewrite E in Hp4.
  - intros q Hq. rewrite !not_elem_of_cons in Hq. rewrite Hu4, Hu3, Hu2, Hu1 by tauto. done.
Qed.

Lemma list_remove_spec h hd l1 l2 item :
  circular h hd (l1 ++ item :: l2) →
  wp (BIO_LIST_REMOVE (Some item)) (λ _ h', circular h' hd (l1 ++ l2) ∧ unlinked h' item ∧
    untouched (hd :: l1 ++ item :: l2) h h') h.
Proof.
  intros [Hnd Hnodes Hch].
  assert (Hperm : hd :: l1 ++ item :: l2 ≡ₚ item :: hd :: l1 ++ l2).
  { rewrite <- Permutation_middle. apply perm_swap. }
  pose proof Hnd as Hnd'. rewrite Hperm in Hnd'. pose proof Hnd' as [Hi Hnd2]%NoDup_cons.
  rewrite <- app_assoc in Hch. cbn in Hch. apply chain_app in Hch as [Hc1 Hc2].
  apply chain_snoc in Hc1 as (Hc1 & Hna & Hpi).
  assert (Ha : last_of hd l1 ∈ hd :: l1 ++ l2).
  { rewrite app_comm_cons. apply elem_of_app. left. apply last_of_elem. }
  assert (Hb : head_of hd l2 ∈ hd :: l1 ++ l2).
  { destruct l2; [by left|]. right. apply elem_of_app. right. by left. }
  assert (Hc : nx h item = Some (head_of hd l2) ∧ chain h (head_of hd l2) (tail (l2 ++ [hd]))).
  { destruct l2; cbn in Hc2; tauto. }
  assert (Hs : ∀ p, p ∈ hd :: l1 ++ l2 → is_Some (h !! p)).
  { intros p Hp. apply Hnodes. rewrite Hperm. by right. }
  eapply wp_mono; [apply (list_remove_writes h item (last_of hd l1) (head_of hd l2))|]; try tauto;
    try (by apply Hs); try congruence.
  intros _ h' (HN & HP & Hsome & Hu & Hun). split_and!; [split|done|].
  - done.
  - intros p Hp. by apply Hsome, Hs.
  - eapply (chain_unlink h); [done|done|apply Hc|done|done].
  - intros q Hq. rewrite Hperm in Hq. apply not_elem_of_cons in Hq as [Hq1 Hq2].
    apply Hun. rewrite !not_elem_of_cons. split_and!; [done|congruence..|apply not_elem_of_nil].
Qed.

Lemma list_is_empty_spec h hd l :
  circular h hd l → wp (BIO_LIST_IS_EMPTY hd) (λ r h', h' = h ∧ r = bool_decide (l = [])) h.
Proof.
  intros [Hnd Hnodes Hc]. unfold BIO_LIST_IS_EMPTY. wp_step.
  apply wp_get_next; [apply Hnodes; by left|]. wp_steps. split; [done|].
  destruct l as [|x l]; cbn in Hc; destruct Hc as [-> _].
  - by rewrite bool_decide_true by done.
  - apply NoDup_cons in Hnd as [Hx _].
    rewrite !bool_decide_false; [done..|]. intros [= ->]. apply Hx. by left.
Qed.

(** ** Scripts of operations *)

Section script.
(** The nodes that the operations work with, and the head of the list. *)
Context (pool : list positive) (hd : positive).

Inductive list_op := Append (item : positive) | Remove (item : positive) | Pop.

Definition list_exec (op : list_op) : st links unit :=
  match op with
  | Append item => BIO_LIST_APPEND hd item
  | Remove item => BIO_LIST_REMOVE (Some item)
  | Pop => BIO_LIST_POP hd
  end.

Fixpoint list_execs (ops : list list_op) : st links unit :=
  match ops with
  | [] => mret tt
  | op :: ops => _ ← list_exec op; list_execs ops
  end.

(** What an operation means for the list. *)
Definition list_step (l : list positive) (op : list_op) : list positive :=
  match op with
  | Append item => l ++ [item]
  | Remove item => filter (λ p, p ≠ item) l
  | Pop => tail l
  end.

(** A node is appended only while it is in no list; there is something to pop. *)
Definition list_op_ok (l : list positive) (op : list_op) : Prop :=
  match op with
  | Append item => item ∈ pool ∧ item ∉ l
  | Remove item => item ∈ pool
  | Pop => l ≠ []
  end.

Fixpoint list_ops_ok (l : list positive) (ops : list list_op) : Prop :=
  match ops with
  | [] => True
  | op :: ops => list_op_ok l op ∧ list_ops_ok (list_step l op) ops
  end.

(** The list, with its other nodes unlinked. *)
Record list_repr (h : links) (l : list positive) : Prop := {
  lr_list : circular h hd l;
  lr_pool : ∀ p, p ∈ l → p ∈ pool;
  lr_free : ∀ p, p ∈ pool → p ∉ l → unlinked h p;
  lr_head : hd ∉ pool;
}.

Lemma list_repr_removed h h' l1 l2 item :
  list_repr h (l1 ++ item :: l2) → circular h' hd (l1 ++ l2) → unlinked h' item →
  untouched (hd :: l1 ++ item :: l2) h h' → list_repr h' (l1 ++ l2).
Proof.
  intros [Hc Hp Hf Hh] Hc' Hu Hun. split; [done| | |done].
  - intros p Hpl. apply Hp. rewrite <- Permutation_middle. by right.
  - intros p Hpp Hpl. destruct (decide (p = item)) as [->|Hne]; [done|].
    assert (Hn : p ∉ l1 ++ item :: l2).
    { rewrite <- Permutation_middle. by apply not_elem_of_cons. }
    unfold unlinked. rewrite Hun; [by apply Hf|]. apply not_elem_of_cons. split; [|done]. by intros ->.
Qed.

Lemma list_exec_spec h l op :
  list_repr h l → list_op_ok l op → wp (list_exec op) (λ _ h', list_repr h' (list_step l op)) h.
Proof.
  intros Hr Hok. pose proof Hr as [Hc Hp Hf Hh]. destruct op as [item|item|]; cbn in Hok |- *.
  - destruct Hok as [Hip Hil]. assert (item ∉ hd :: l) by (apply not_elem_of_cons; split; [by intros ->|done]).
    eapply wp_mono; [apply list_append_spec; [done..|]; rewrite Hf by done; eauto|].
    intros _ h' [Hc' Hun]. split; [done| | |done].
    + intros p Hp1. apply elem_of_app in Hp1 as [?|Hp1]; [auto|]. by apply list_elem_of_singleton in Hp1 as ->.
    + intros p Hpp [Hpl Hpi]%not_elem_of_app. unfold unlinked. rewrite Hun; [by apply Hf|].
      rewrite !not_elem_of_cons. split_and!; [|by intros ->|done]. intros ->. apply Hpi. by left.
  - destruct (decide (item ∈ l)) as [Hil|Hil].
    + destruct (list_elem_of_split _ _ Hil) as (l1 & l2 & ->).
      eapply wp_mono; [by apply list_remove_spec|]. intros _ h' (Hc' & Hu & Hun).
      pose proof (circular_nodup _ _ _ Hc) as [_ Hnd].
      apply NoDup_remove_mid in Hnd as [Hni _]. apply not_elem_of_app in Hni as [H1 H2].
      replace (filter _ _) with (l1 ++ l2); [by eapply list_repr_removed|].
      rewrite filter_app, filter_cons_False by auto.
      rewrite !list_filter_all; [done|apply Forall_forall; by intros p Hpl ->..].
    + eapply wp_mono; [by apply list_remove_unlinked, Hf|]. intros _ h' ->.
      rewrite list_filter_all; [done|]. apply Forall_forall. by intros p Hpl ->.
  - destruct l as [|x l]; [done|]. unfold BIO_LIST_POP. wp_step.
    pose proof Hc as [_ Hn Hch]. apply wp_get_next; [apply Hn; by left|].
    cbn in Hch. destruct Hch as [-> _].
    eapply wp_mono; [by apply (list_remove_spec _ hd [] l x)|]. intros _ h' (Hc' & Hu & Hun).
    by apply (list_repr_removed h _ [] l x).
Qed.

(** C22: The list macros implement lists: after any sequence of appends, removals and pops
    that links a node into one place at a time, the pointers represent the list that
    these operations make, the nodes that are not in it are unlinked, so that they can
    be removed again without effect, and the macro for emptiness answers for it. *)
Theorem list_macros_refine ops h l :
  list_repr h l → list_ops_ok l ops →
  wp (_ ← list_execs ops; BIO_LIST_IS_EMPTY hd) (λ r h',
    let l' := foldl list_step l ops in list_repr h' l' ∧ r = bool_decide (l' = [])) h.
Proof.
  revert h l. induction ops as [|op ops IH]; intros h l Hr Hok; cbn [list_execs foldl].
  - wp_steps. eapply wp_mono; [apply list_is_empty_spec, Hr|]. by intros r h' [-> ->].
  - destruct Hok as [Ho Hok]. do 2 apply wp_bind. eapply wp_mono; [by apply list_exec_spec|].
    intros u h1 Hr1. cbn beta in Hr1 |- *. apply (wp_bind_inv (list_execs ops) (λ _, BIO_LIST_IS_EMPTY hd)). by apply IH.
Qed.
End script.
