(* ===== verification/DynArray.v ===== *)
(** Dynamic arrays ([src/array.c], [src/array.h]): blocks of memory with a header
    before their elements, and the lists that they hold. The ready queues and the
    exit handlers of the library are such arrays. *)
From S2P Require Import Prelude.

Section array.
Context {X : Type}.
(** The size of an element, and whether the allocator has a block of some size. *)
Context (elem_size : Z) (available : Z → bool).

(** ** State *)

(** [bio_array_header_t] with its elements. Memory that was not written is [None]. *)
Record bio_array_header_t := mk_header {
  capacity : option Z;
  len : option Z;
  elems : list (option X);
}.

Definition sizeof_header : Z := 16.

(** [BIO_ARRAY(T)]: a variable that points to the elements of a block. *)
Inductive array :=
  | Null
  | Freed
  | Block (header : bio_array_header_t).

(** [bio_array__header_of], and the access to the header. *)
Definition bio_array__header_of : st array (option bio_array_header_t) :=
  a ← get;
  match a with
  | Null => mret None
  | Freed => fail Dangling
  | Block header => mret (Some header)
  end.

(** The length and the capacity that most operations start with. *)
Definition header_len (header : option bio_array_header_t) : st array Z :=
  match header with Some header => need Uninit (len header) | None => mret 0 end.

Definition header_capacity (header : option bio_array_header_t) : st array Z :=
  match header with Some header => need Uninit (capacity header) | None => mret 0 end.

(** ** The code *)

(** [bio_realloc]: the contents of the old block are kept, as far as they fit. *)
Definition bio_realloc (header : option bio_array_header_t) (size : Z) :
    st array bio_array_header_t :=
  if available size then
    let n := Z.to_nat ((size - sizeof_header) `div` elem_size) in
    let old := match header with Some header => elems header | None => [] end in
    mret (mk_header (header ≫= capacity) (header ≫= len)
      (take n old ++ replicate (n - length old) None))
  else fail NullDeref.

Definition bio_array_len : st array Z :=
  header ← bio_array__header_of; header_len header.

Definition bio_array_capacity : st array Z :=
  header ← bio_array__header_of; header_capacity header.

Definition bio_array_free : st array unit :=
  header ← bio_array__header_of;
  match header with
  | Some _ => modify (λ _, Freed)
  | None => mret tt
  end.

Definition bio_array_clear : st array unit :=
  header ← bio_array__header_of;
  match header with
  | Some header => modify (λ _, Block (mk_header (capacity header) (Some 0) (elems header)))
  | None => mret tt
  end.

Definition bio_array__prepare_push : st array Z :=
  header ← bio_array__header_of;
  len ← header_len header;
  capacity ← header_capacity header;
  if len <? capacity then
    header ← need NullDeref header;
    let new_len := u64 (len + 1) in
    _ ← modify (λ _, Block (mk_header (Some capacity) (Some new_len) (elems header)));
    mret new_len
  else
    let new_capacity := if capacity >? 0 then u64 (capacity * 2) else 2 in
    new_header ← bio_realloc header (u64 (sizeof_header + elem_size * new_capacity));
    let new_len := u64 (len + 1) in
    _ ← modify (λ _, Block (mk_header (Some new_capacity) (Some new_len) (elems new_header)));
    mret new_len.

Definition bio_array__do_reserve (new_capacity : Z) : st array unit :=
  header ← bio_array__header_of;
  current_capacity ← header_capacity header;
  if new_capacity <=? current_capacity then mret tt
  else
    new_header ← bio_realloc header (u64 (sizeof_header + elem_size * new_capacity));
    modify (λ _, Block (mk_header (Some new_capacity) (len new_header) (elems new_header))).

Definition bio_array__do_resize (new_len : Z) : st array unit :=
  header ← bio_array__header_of;
  current_capacity ← header_capacity header;
  if new_len <=? current_capacity then
    match header with
    | Some header =>
        modify (λ _, Block (mk_header (capacity header) (Some new_len) (elems header)))
    | None => mret tt
    end
  else
    new_header ← bio_realloc header (u64 (sizeof_header + elem_size * new_len));
    modify (λ _, Block (mk_header (Some new_len) (Some new_len) (elems new_header))).

Definition bio_array__do_pop : st array unit :=
  header ← bio_array__header_of;
  header ← need NullDeref header;
  len ← need Uninit (len header);
  modify (λ _, Block (mk_header (capacity header) (Some (u64 (len - 1))) (elems header))).

(** Reading and writing [array[i]]. *)
Definition array_get (i : Z) : st array X :=
  header ← bio_array__header_of;
  header ← need NullDeref header;
  x ← need OutOfBounds (zlookup (elems header) i);
  need Uninit x.

Definition array_set (i : Z) (x : X) : st array unit :=
  header ← bio_array__header_of;
  header ← need NullDeref header;
  _ ← need OutOfBounds (zlookup (elems header) i);
  modify (λ _, Block (mk_header (capacity header) (len header) (zinsert i (Some x) (elems header)))).

(** The macros of [src/array.h]. *)
Definition bio_array_push (element : X) : st array unit :=
  new_len ← bio_array__prepare_push;
  array_set (u64 (new_len - 1)) element.

Definition bio_array_reserve (new_capacity : Z) : st array unit := bio_array__do_reserve new_capacity.

Definition bio_array_resize (new_len : Z) : st array unit := bio_array__do_resize new_len.

Definition bio_array_pop : st array X :=
  _ ← bio_array__do_pop;
  n ← bio_array_len;
  array_get n.

(** ** Representation *)

(** The array holds the list [l]; [limit] bounds the capacity. *)
Definition holds_list (limit : Z) (a : array) (l : list X) : Prop :=
  match a with
  | Null => l = []
  | Freed => False
  | Block (mk_header c n es) =>
      ∃ cap, c = Some cap ∧ n = Some (zlen l) ∧ zlen l ≤ cap ≤ limit ∧ zlen es = cap ∧
        ∀ i x, zlookup l i = Some x → zlookup es i = Some (Some x)
  end.

(** Capacities up to [limit] are within the address space and available. *)
Record roomy (limit : Z) : Prop := {
  rm_elem : 0 < elem_size;
  rm_limit : 2 ≤ limit;
  rm_space : sizeof_header + elem_size * limit < 2 ^ 64;
  rm_available : ∀ c, 0 ≤ c ≤ limit → available (sizeof_header + elem_size * c) = true;
}.

(** ** The operations on the lists *)

Section spec.
Context (limit : Z) (Hroom : roomy limit).
Implicit Types (a : array) (l : list X).

Definition header_at a : option bio_array_header_t :=
  match a with Block header => Some header | _ => None end.

Lemma header_of_spec a l (Q : option bio_array_header_t → array → Prop) :
  holds_list limit a l → Q (header_at a) a → wp bio_array__header_of Q a.
Proof. intros Ha HQ. unfold bio_array__header_of. wp_step. by destruct a. Qed.

Lemma header_len_spec a l (Q : Z → array → Prop) a' :
  holds_list limit a l → Q (zlen l) a' → wp (header_len (header_at a)) Q a'.
Proof.
  intros Ha HQ. unfold header_len. destruct a as [| |[c n es]]; cbn in *; [by subst| done|].
  destruct Ha as (cap & -> & -> & _). by wp_steps.
Qed.

(** The capacity of an array, zero for none. *)
Definition cap_of a : Z := match a with Block header => default 0 (capacity header) | _ => 0 end.

Lemma cap_of_range a l : holds_list limit a l → zlen l ≤ cap_of a ∧ (cap_of a ≤ limit ∨ cap_of a = 0).
Proof.
  destruct a as [| |[c n es]]; cbn; [intros ->; unfold zlen; cbn; lia|done|].
  intros (cap & -> & _ & ? & _). cbn. lia.
Qed.

Lemma header_capacity_spec a l (Q : Z → array → Prop) a' :
  holds_list limit a l → Q (cap_of a) a' → wp (header_capacity (header_at a)) Q a'.
Proof.
  intros Ha HQ. unfold header_capacity. destruct a as [| |[c n es]]; cbn in *; [done|done|].
  destruct Ha as (cap & -> & _). by wp_steps.
Qed.

(** Growing keeps the elements, and makes room for more. *)
Lemma realloc_spec a l c (Q : bio_array_header_t → array → Prop) a' :
  holds_list limit a l → cap_of a ≤ c ≤ limit →
  (∀ new, len new = (header_at a ≫= len) → zlen (elems new) = c →
    (∀ i x, zlookup l i = Some x → zlookup (elems new) i = Some (Some x)) → Q new a') →
  wp (bio_realloc (header_at a) (u64 (sizeof_header + elem_size * c))) Q a'.
Proof.
  intros Ha Hc HQ. destruct Hroom as [He Hl Hs Hav].
  destruct (cap_of_range _ _ Ha) as [Hz _]. pose proof (zlen_nonneg l).
  unfold bio_realloc, u64. rewrite Z.mod_small by (unfold sizeof_header in *; nia).
  rewrite Hav by lia. wp_step.
  replace (sizeof_header + elem_size * c - sizeof_header) with (c * elem_size) by lia.
  rewrite Z.div_mul by lia.
  set (old := match header_at a with Some header => elems header | None => [] end).
  assert (Hold : zlen old ≤ c ∧ ∀ i x, zlookup l i = Some x → zlookup old i = Some (Some x)).
  { destruct a as [| |[cc n es]]; cbn in *; [subst; split; [unfold zlen; cbn; lia|]|done|].
    - intros i x Hi%zlookup_range. unfold zlen in Hi. cbn in Hi. lia.
    - destruct Ha as (cap & -> & _ & _ & <- & Hes). cbn in Hc. split; [lia|done]. }
  destruct Hold as [Hlen Hold]. unfold zlen in Hlen. apply HQ.
  - cbn. by destruct a.
  - cbn. unfold zlen. rewrite length_app, length_take, length_replicate. lia.
  - intros i x Hi%Hold. cbn. rewrite take_ge by lia. rewrite zlookup_app.
    pose proof (zlookup_range _ _ _ Hi). by rewrite decide_True by lia.
Qed.

Lemma array_set_spec c n es i x (Q : unit → array → Prop) :
  0 ≤ i < zlen es → Q tt (Block (mk_header c n (zinsert i (Some x) es))) →
  wp (array_set i x) Q (Block (mk_header c n es)).
Proof.
  intros Hi HQ. destruct (zlookup_in_range es i Hi) as [y Hy].
  unfold array_set, bio_array__header_of. wp_steps. cbn. by wp_steps.
Qed.

(** Writing the element after the last one. *)
Lemma push_last c n es l x cap :
  c = Some cap → n = Some (zlen l + 1) → zlen l + 1 ≤ cap ≤ limit → zlen es = cap →
  (∀ i y, zlookup l i = Some y → zlookup es i = Some (Some y)) →
  holds_list limit (Block (mk_header c n (zinsert (zlen l) (Some x) es))) (l ++ [x]).
Proof.
  intros -> -> Hc Hes Hl. exists cap. rewrite zlen_snoc, zlen_zinsert. split_and!; [done..|lia|lia|done|].
  intros i y Hy. pose proof (zlen_nonneg l). rewrite zlookup_app in Hy. case_decide as Hi.
  - rewrite zlookup_zinsert_ne by lia. by apply Hl.
  - pose proof (zlookup_range _ _ _ Hy) as Hr. change (zlen [x]) with 1 in Hr.
    assert (i = zlen l) as -> by lia. rewrite Z.sub_diag in Hy. cbn in Hy. injection Hy as ->.
    apply zlookup_zinsert_eq. lia.
Qed.

Lemma limit_small : limit < 2 ^ 64.
Proof. destruct Hroom. unfold sizeof_header in *. nia. Qed.

Lemma array_push_spec a l x :
  holds_list limit a l → 2 * zlen l ≤ limit →
  wp (bio_array_push x) (λ _ a', holds_list limit a' (l ++ [x])) a.
Proof.
  intros Ha Hl. pose proof (zlen_nonneg l). destruct (cap_of_range _ _ Ha) as [Hz Hc].
  pose proof limit_small as Hsm. pose proof (rm_limit _ Hroom) as H2.
  unfold bio_array_push, bio_array__prepare_push. apply wp_bind. wp_step.
  eapply header_of_spec; [done|]. wp_step. eapply header_len_spec; [done|].
  wp_step. eapply header_capacity_spec; [done|].
  assert (Hu : u64 (zlen l + 1) = zlen l + 1) by (apply Z.mod_small; lia).
  assert (Hu' : u64 (zlen l + 1 - 1) = zlen l) by (unfold u64; rewrite Z.mod_small; lia).
  destruct (Z.ltb_spec (zlen l) (cap_of a)) as [Hlt|Hge].
  - destruct a as [| |[c n es]]; cbn in Hlt; [lia|lia|]. cbn in Ha, Hc.
    destruct Ha as (cap & -> & -> & Hcap & Hes & Hel). cbn in Hlt, Hc |- *. wp_steps.
    rewrite Hu, Hu'. cbn [elems]. apply array_set_spec; [lia|]. eapply push_last; (done || lia).
  - set (nc := if cap_of a >? 0 then u64 (cap_of a * 2) else 2).
    assert (Hnc : zlen l + 1 ≤ nc ≤ limit).
    { unfold nc. destruct (Z.gtb_spec (cap_of a) 0); [|lia]. unfold u64. rewrite Z.mod_small; lia. }
    wp_step. eapply realloc_spec; [done|lia|]. intros new _ Hlen Hel. wp_steps.
    rewrite Hu, Hu'. cbn [elems]. apply array_set_spec; [lia|]. eapply push_last; (done || lia).
Qed.

Lemma array_pop_spec a l x :
  holds_list limit a (l ++ [x]) →
  wp bio_array_pop (λ r a', r = x ∧ holds_list limit a' l) a.
Proof.
  intros Ha. pose proof (zlen_nonneg l). pose proof limit_small as Hsm.
  destruct a as [| |[c n es]]; cbn in Ha; [by destruct l|done|].
  destruct Ha as (cap & -> & -> & Hcap & Hes & Hel). rewrite zlen_snoc in Hcap |- *.
  unfold bio_array_pop, bio_array__do_pop, bio_array_len, array_get, bio_array__header_of. wp_steps. cbn.
  wp_steps. replace (u64 (zlen l + 1 - 1)) with (zlen l) by (unfold u64; rewrite Z.mod_small; lia).
  assert (Hx : zlookup es (zlen l) = Some (Some x)) by by apply Hel, zlookup_snoc_eq.
  wp_steps. split; [done|]. exists cap. split_and!; [done..|lia|lia|done|]. intros i y Hy. apply Hel.
  pose proof (zlookup_range _ _ _ Hy). rewrite zlookup_app, decide_True by lia. done.
Qed.

Lemma array_clear_spec a l :
  holds_list limit a l → wp bio_array_clear (λ _ a', holds_list limit a' []) a.
Proof.
  intros Ha. unfold bio_array_clear. wp_step. eapply header_of_spec; [done|].
  destruct a as [| |[c n es]]; cbn in *; [done|done|]. destruct Ha as (cap & -> & _ & Hcap & Hes & _).
  wp_steps. pose proof (zlen_nonneg l). exists cap. split_and!; [done..|unfold zlen; cbn; lia|lia|done|].
  intros i x Hi%zlookup_range. unfold zlen in Hi. cbn in Hi. lia.
Qed.

Lemma array_get_spec a l i x :
  holds_list limit a l → zlookup l i = Some x → wp (array_get i) (λ r a', r = x ∧ a' = a) a.
Proof.
  intros Ha Hi. unfold array_get. wp_step. eapply header_of_spec; [done|].
  destruct a as [| |[c n es]]; cbn in *; [subst; apply zlookup_range in Hi; unfold zlen in Hi; cbn in Hi; lia|done|].
  destruct Ha as (cap & _ & _ & _ & _ & Hes). wp_steps. pose proof (Hes _ _ Hi). by wp_steps.
Qed.

Lemma array_len_spec a l :
  holds_list limit a l → wp bio_array_len (λ r a', r = zlen l ∧ a' = a) a.
Proof.
  intros Ha. unfold bio_array_len. wp_step. eapply header_of_spec; [done|].
  by eapply header_len_spec.
Qed.

(** More room, for an array that exists. *)
Lemma array_reserve_spec a l c :
  holds_list limit a l → a ≠ Null → 0 ≤ c ≤ limit →
  wp (bio_array_reserve c) (λ _ a', holds_list limit a' l ∧ c ≤ cap_of a') a.
Proof.
  intros Ha Hn Hc. unfold bio_array_reserve, bio_array__do_reserve. wp_step.
  eapply header_of_spec; [done|]. wp_step. eapply header_capacity_spec; [done|].
  destruct (Z.leb_spec c (cap_of a)); [by wp_steps|].
  destruct (cap_of_range _ _ Ha) as [Hz _].
  wp_step. eapply realloc_spec; [done|lia|]. intros new Hlen Hzl Hel. wp_steps.
  split; [|cbn; lia]. exists c. split_and!; [done| |lia|lia|done|done].
  rewrite Hlen. destruct a as [| |[cc n es]]; [done|done|]. cbn in Ha |- *. by destruct Ha as (cap & _ & -> & _).
Qed.

(** Cutting an array, or making it longer: the elements that are in both are kept. *)
Lemma array_resize_spec a l n :
  holds_list limit a l → 0 ≤ n ≤ zlen l →
  wp (bio_array_resize n) (λ _ a', holds_list limit a' (take (Z.to_nat n) l)) a.
Proof.
  intros Ha Hn. unfold bio_array_resize, bio_array__do_resize. wp_step.
  eapply header_of_spec; [done|]. wp_step. eapply header_capacity_spec; [done|].
  destruct (cap_of_range _ _ Ha) as [Hz _]. rewrite (proj2 (Z.leb_le _ _)) by lia.
  destruct a as [| |[c m es]]; cbn in *; [subst; wp_steps; by destruct (Z.to_nat n)|done|].
  destruct Ha as (cap & -> & _ & Hcap & Hes & Hel). wp_steps.
  assert (Hlen : zlen (take (Z.to_nat n) l) = n).
  { unfold zlen in *. rewrite length_take. lia. }
  exists cap. rewrite Hlen. split_and!; [done..|lia|lia|done|]. intros i x Hi. apply Hel.
  pose proof (zlookup_range _ _ _ Hi) as Hr. rewrite Hlen in Hr. unfold zlookup in *.
  rewrite decide_True in Hi |- * by lia. rewrite lookup_take in Hi. by case_decide.
Qed.

(** *** Scripts *)

Inductive array_op := Push (x : X) | Pop | Clear | Get (i : Z) | Len.
Inductive array_result := RUnit | RElem (x : X) | RLen (n : Z).

Definition array_exec (op : array_op) : st array array_result :=
  match op with
  | Push x => _ ← bio_array_push x; mret RUnit
  | Pop => x ← bio_array_pop; mret (RElem x)
  | Clear => _ ← bio_array_clear; mret RUnit
  | Get i => x ← array_get i; mret (RElem x)
  | Len => n ← bio_array_len; mret (RLen n)
  end.

(** What the operations mean for a list. *)
Inductive list_array_step (l : list X) : array_op → array_result → list X → Prop :=
  | las_push x : 2 * zlen l ≤ limit → list_array_step l (Push x) RUnit (l ++ [x])
  | las_pop l' x : l = l' ++ [x] → list_array_step l Pop (RElem x) l'
  | las_clear : list_array_step l Clear RUnit []
  | las_get i x : zlookup l i = Some x → list_array_step l (Get i) (RElem x) l
  | las_len : list_array_step l Len (RLen (zlen l)) l.

End spec.

(** A reserved array has no length: asking for it reads memory that was not written. *)
Lemma reserve_leaves_length_unset c :
  0 < c → available (u64 (sizeof_header + elem_size * c)) = true →
  (_ ← bio_array_reserve c; bio_array_len) Null = Err Uninit.
Proof.
  intros Hc Ha. unfold bio_array_reserve, bio_array__do_reserve, bio_array__header_of, bio_realloc,
    bio_array_len, bio_array__header_of, header_len, header_capacity.
  unfold mbind, st_bind, mret, st_ret, get, modify, need, fail. cbn.
  rewrite (proj2 (Z.leb_gt _ _)) by lia. cbn. rewrite Ha. done.
Qed.
End array.
