(* ===== verification/HandleTable.v ===== *)
(** The handle table ([src/handle.c]): generation-counted slots with a free
    list threaded through them, and its abstraction, a finite map from handles
    to tagged objects. *)
From S2P Require Import Prelude.

(** [bio_handle_t] ([include/bio/bio.h]). *)
Record bio_handle_t := mk_handle { index : Z; gen : Z }.

#[export] Instance bio_handle_eq_dec : EqDecision bio_handle_t.
Proof. solve_decision. Defined.
#[export] Program Instance bio_handle_countable : Countable bio_handle_t :=
  inj_countable' (λ h, (index h, gen h)) (λ p, mk_handle p.1 p.2) _.
Next Obligation. by intros []. Qed.

(** [BIO_INVALID_HANDLE]: all fields zero. *)
Definition BIO_INVALID_HANDLE : bio_handle_t := mk_handle 0 0.

(** [bio_handle_compare]: the differences fit in [int] for the handles that the
    table hands out. *)
Definition bio_handle_compare (lhs rhs : bio_handle_t) : Z :=
  if negb (index lhs =? index rhs) then index lhs - index rhs
  else gen lhs - gen rhs.

Lemma bio_handle_compare_eq h k : bio_handle_compare h k = 0 ↔ h = k.
Proof.
  destruct h as [i g], k as [j f]. unfold bio_handle_compare. cbn.
  destruct (Z.eqb_spec i j); cbn; split; [|intros [=]; lia| |intros [=]; lia].
  - intros. f_equal; lia.
  - intros. lia.
Qed.

Lemma bio_handle_compare_bool h k : (bio_handle_compare h k =? 0) = bool_decide (h = k).
Proof.
  pose proof (bio_handle_compare_eq h k) as H.
  destruct (Z.eqb_spec (bio_handle_compare h k) 0) as [E|E].
  - by rewrite bool_decide_true by tauto.
  - by rewrite bool_decide_false by tauto.
Qed.

Section handle_table.
Context {Tag Obj : Type} `{EqDecision Tag}.
Implicit Types (o : option Obj) (tg : Tag).

(** *** State *)

(** [bio_handle_slot_t]: [None] is [NULL]. *)
Record bio_handle_slot_t := mk_slot {
  tag : option Tag;
  obj : option Obj;
  slot_gen : Z;
  next_slot : Z;
}.

(** The handle-table fields of [bio_ctx_t]. *)
Record table := mk_table {
  handle_slots : list bio_handle_slot_t;
  handle_capacity : Z;
  next_handle_slot : Z;
  num_handles : Z;
}.

(** *** Operations *)

Definition BIO_INITIAL_HANDLE_CAPACITY : Z := 4.

(** The slot written by the loop of [bio_grow_handle_table]. *)
Definition fresh_slot (i : Z) : bio_handle_slot_t := mk_slot None None 0 (i + 1).

Definition bio_grow_handle_table (old_capacity new_capacity : Z) : st table unit :=
  modify (λ t, mk_table
    (take (Z.to_nat old_capacity) (handle_slots t)
       ++ (fresh_slot <$> seqZ old_capacity (new_capacity - old_capacity)))
    new_capacity old_capacity (num_handles t)).

Definition bio_handle_table_init : st table unit :=
  _ ← modify (λ t, mk_table [] (handle_capacity t) (next_handle_slot t) 0);
  bio_grow_handle_table 0 BIO_INITIAL_HANDLE_CAPACITY.

Definition bio_make_handle o tg : st table bio_handle_t :=
  t ← get;
  _ ← (if num_handles t >=? handle_capacity t
       then c ← int_of (handle_capacity t * 2);
            bio_grow_handle_table (handle_capacity t) c
       else mret tt);
  t ← get;
  let n := next_handle_slot t in
  slot ← need OutOfBounds (zlookup (handle_slots t) n);
  num ← int_of (num_handles t + 1);
  _ ← modify (λ t, mk_table
        (zinsert n (mk_slot (Some tg) o (slot_gen slot) (next_slot slot)) (handle_slots t))
        (handle_capacity t) (next_slot slot) num);
  i ← int_of (n + 1);
  mret (mk_handle i (slot_gen slot)).

(** The slot of a handle, after the range check of [bio_resolve_handle]. *)
Definition slot_of (t : table) (i : Z) : st table (option bio_handle_slot_t) :=
  if (0 <=? i) && (i <? handle_capacity t)
  then slot ← need OutOfBounds (zlookup (handle_slots t) i); mret (Some slot)
  else mret None.

Definition bio_resolve_handle (h : bio_handle_t) tg : st table (option Obj) :=
  t ← get;
  slot ← slot_of t (index h - 1);
  match slot with
  | Some slot =>
      if decide (slot_gen slot = gen h ∧ tag slot = Some tg)
      then mret (obj slot) else mret None
  | None => mret None
  end.

Definition bio_handle_info (h : bio_handle_t) : st table (option Tag) :=
  t ← get;
  slot ← slot_of t (index h - 1);
  match slot with
  | Some slot => if decide (slot_gen slot = gen h) then mret (tag slot) else mret None
  | None => mret None
  end.

Definition bio_close_handle (h : bio_handle_t) tg : st table (option Obj) :=
  t ← get;
  let i := index h - 1 in
  slot ← slot_of t i;
  match slot with
  | Some slot =>
      if decide (slot_gen slot = gen h ∧ tag slot = Some tg) then
        g ← int_of (slot_gen slot + 1);
        _ ← modify (λ t, mk_table
              (zinsert i (mk_slot (tag slot) (obj slot) g (next_handle_slot t))
                 (handle_slots t))
              (handle_capacity t) i (num_handles t - 1));
        mret (obj slot)
      else mret None
  | None => mret None
  end.

(** *** The free list and the abstraction *)

(** [chain slots cap i fl]: following [next_handle_slot] from [i] visits
    exactly [fl] and ends at [cap]. *)
Fixpoint chain (slots : list bio_handle_slot_t) (cap i : Z) (fl : list Z) : Prop :=
  match fl with
  | [] => i = cap
  | j :: fl => i = j ∧ ∃ s, zlookup slots j = Some s ∧ chain slots cap (next_slot s) fl
  end.

(** The free list, computed by walking it. *)
Fixpoint free_walk (n : nat) (slots : list bio_handle_slot_t) (i : Z) : list Z :=
  match n with
  | O => []
  | S n => match zlookup slots i with
           | Some s => i :: free_walk n slots (next_slot s)
           | None => []
           end
  end.

Definition free_list (t : table) : list Z :=
  free_walk (length (handle_slots t)) (handle_slots t) (next_handle_slot t).

(** What slot [i] stands for: a live handle, unless the slot is free. *)
Definition slot_entry (t : table) (i : Z) : option (bio_handle_t * (Tag * option Obj)) :=
  if decide (i ∈ free_list t) then None else
  s ← zlookup (handle_slots t) i;
  tg ← tag s;
  Some (mk_handle (i + 1) (slot_gen s), (tg, obj s)).

(** The abstraction: the live handles and what they stand for. *)
Definition live (t : table) : gmap bio_handle_t (Tag * option Obj) :=
  list_to_map (omap (slot_entry t) (seqZ 0 (zlen (handle_slots t)))).

(** A handle that the table has handed out at some point, or the invalid
    handle. *)
Definition known (t : table) (h : bio_handle_t) : Prop :=
  index h = 0 ∨
  ∃ s, zlookup (handle_slots t) (index h - 1) = Some s ∧
       (gen h < slot_gen s ∨ is_Some (live t !! h)).

(** The invariant. *)
Record wf (t : table) : Prop := {
  wf_capacity : zlen (handle_slots t) = handle_capacity t;
  wf_positive : 0 < handle_capacity t;
  wf_chain : chain (handle_slots t) (handle_capacity t) (next_handle_slot t) (free_list t);
  wf_nodup : NoDup (free_list t);
  wf_count : num_handles t = handle_capacity t - zlen (free_list t);
  wf_gen : ∀ i s, zlookup (handle_slots t) i = Some s → 0 ≤ slot_gen s;
  wf_tagged : ∀ i s, zlookup (handle_slots t) i = Some s → i ∉ free_list t → is_Some (tag s);
}.
(** How the table may change between two moments: handles stay known, and a
    known handle that is dead stays dead. *)
Definition evolves (t t' : table) : Prop :=
  ∀ k, known t k → known t' k ∧ (live t !! k = None → live t' !! k = None).

(** *** Free list *)

Lemma chain_range slots cap i fl j :
  chain slots cap i fl → j ∈ fl → 0 ≤ j < zlen slots.
Proof.
  revert i. induction fl as [|j' fl IH]; intros i; cbn.
  - intros _ []%not_elem_of_nil.
  - intros (_ & s & Hs & Hc) [->|Hj]%elem_of_cons; [by eapply zlookup_range|eauto].
Qed.

Lemma chain_zinsert slots cap i fl j x :
  j ∉ fl → chain slots cap i fl → chain (zinsert j x slots) cap i fl.
Proof.
  revert i. induction fl as [|j' fl IH]; intros i; cbn; [done|].
  intros [Hne Hni]%not_elem_of_cons (-> & s & Hs & Hc). split; [done|].
  exists s. rewrite zlookup_zinsert_ne by done. eauto.
Qed.

Lemma chain_free_walk slots i fl n :
  chain slots (zlen slots) i fl → (length fl ≤ n)%nat → free_walk n slots i = fl.
Proof.
  revert i n. induction fl as [|j fl IH]; intros i n; cbn.
  - intros -> _. destruct n; [done|]. cbn.
    destruct (zlookup slots (zlen slots)) eqn:E; [|done].
    apply zlookup_range in E. lia.
  - intros (-> & s & Hs & Hc) Hn. destruct n; [lia|]. cbn. rewrite Hs.
    f_equal. apply IH; [done|lia].
Qed.

Lemma chain_length slots cap i fl :
  chain slots cap i fl → NoDup fl → (length fl ≤ length slots)%nat.
Proof.
  intros Hc Hnd.
  assert (Hsub : fl ⊆+ seqZ 0 (zlen slots)).
  { apply NoDup_submseteq; [done|]. intros j Hj. apply elem_of_seqZ.
    pose proof (chain_range _ _ _ _ _ Hc Hj). lia. }
  apply submseteq_length in Hsub. rewrite length_seqZ in Hsub. unfold zlen in Hsub. lia.
Qed.

Lemma free_list_chain t fl :
  zlen (handle_slots t) = handle_capacity t →
  chain (handle_slots t) (handle_capacity t) (next_handle_slot t) fl →
  NoDup fl → free_list t = fl.
Proof.
  intros Hcap Hc Hnd. unfold free_list. apply chain_free_walk.
  - by rewrite Hcap.
  - by eapply chain_length.
Qed.

(** To establish the invariant it is enough to exhibit the free list. *)
Lemma wf_intro t fl :
  zlen (handle_slots t) = handle_capacity t → 0 < handle_capacity t →
  chain (handle_slots t) (handle_capacity t) (next_handle_slot t) fl → NoDup fl →
  num_handles t = handle_capacity t - zlen fl →
  (∀ i s, zlookup (handle_slots t) i = Some s → 0 ≤ slot_gen s) →
  (∀ i s, zlookup (handle_slots t) i = Some s → i ∉ fl → is_Some (tag s)) →
  wf t ∧ free_list t = fl.
Proof.
  intros H1 H2 H3 H4 H5 H6 H7.
  assert (free_list t = fl) as E by by apply free_list_chain.
  split; [|done]. by split; rewrite ?E.
Qed.

(** *** The abstraction *)

Lemma slot_entry_Some t i h tg o :
  slot_entry t i = Some (h, (tg, o)) ↔
  (i ∉ free_list t) ∧ ∃ s, zlookup (handle_slots t) i = Some s ∧
    tag s = Some tg ∧ obj s = o ∧ h = mk_handle (i + 1) (slot_gen s).
Proof.
  unfold slot_entry. case_decide; [naive_solver|].
  destruct (zlookup (handle_slots t) i) as [s|]; cbn; [|naive_solver].
  destruct (tag s) eqn:E; cbn; naive_solver.
Qed.

Lemma lookup_live t h tg o :
  live t !! h = Some (tg, o) ↔ slot_entry t (index h - 1) = Some (h, (tg, o)).
Proof.
  assert (Hin : ∀ k y, (k, y) ∈ omap (slot_entry t) (seqZ 0 (zlen (handle_slots t))) ↔
    slot_entry t (index k - 1) = Some (k, y)).
  { intros k [tg' o']. rewrite list_elem_of_omap. split.
    - intros (i & _ & H). pose proof H as (_ & s & _ & _ & _ & ->)%slot_entry_Some.
      cbn. by replace (i + 1 - 1) with i by lia.
    - intros H. exists (index k - 1). split; [|done].
      apply slot_entry_Some in H as (_ & s & Hs & _).
      apply elem_of_seqZ. apply zlookup_range in Hs. lia. }
  unfold live. split.
  - intros H%elem_of_list_to_map_2. by apply Hin.
  - intros H. apply elem_of_list_to_map_1'; [|by apply Hin].
    intros y Hy%Hin. congruence.
Qed.

Lemma live_spec t h tg o :
  live t !! h = Some (tg, o) ↔
  (index h - 1 ∉ free_list t) ∧ ∃ s, zlookup (handle_slots t) (index h - 1) = Some s ∧
    tag s = Some tg ∧ obj s = o ∧ slot_gen s = gen h.
Proof.
  rewrite lookup_live, slot_entry_Some. destruct h as [i g]; cbn.
  split; intros (Hf & s & Hs & Ht & Ho & Hg); split; try done; exists s;
    repeat split; try done; [by injection Hg|]. f_equal; [lia|done].
Qed.

Lemma live_index t h x : live t !! h = Some x → 0 < index h.
Proof.
  destruct x as [tg o]. intros (_ & s & Hs & _)%live_spec.
  apply zlookup_range in Hs. lia.
Qed.

Lemma known_invalid t : known t BIO_INVALID_HANDLE.
Proof. by left. Qed.

Lemma live_known t h : is_Some (live t !! h) → known t h.
Proof.
  intros [[tg o] H]. right. pose proof H as (_ & s & Hs & _)%live_spec.
  exists s. split; [done|]. right. by exists (tg, o).
Qed.

#[export] Instance evolves_preorder : PreOrder evolves.
Proof.
  split; [by intros t k Hk|].
  intros t1 t2 t3 H12 H23 k Hk. destruct (H12 k Hk) as [H2 Hd2].
  destruct (H23 k H2) as [H3 Hd3]. auto.
Qed.

(** *** Growth *)

Lemma zlookup_fresh a n i :
  0 ≤ i → zlookup (fresh_slot <$> seqZ a n) i =
    if decide (i < n) then Some (fresh_slot (a + i)) else None.
Proof.
  intros Hi. unfold zlookup. rewrite decide_True by done. rewrite list_lookup_fmap.
  case_decide.
  - rewrite (proj2 (lookup_seqZ a n (Z.to_nat i) (a + i))); [done|lia].
  - rewrite lookup_seqZ_ge; [done|lia].
Qed.

Lemma chain_fresh slots a n :
  0 ≤ n →
  (∀ i, a ≤ i < a + n → zlookup slots i = Some (fresh_slot i)) →
  chain slots (a + n) a (seqZ a n).
Proof.
  intros Hn. revert a. pattern n. apply natlike_ind; [| |done]; clear n Hn.
  - intros a _. rewrite seqZ_nil by lia. cbn. lia.
  - intros n Hn IH a Hs. rewrite seqZ_cons by lia. cbn. split; [done|].
    exists (fresh_slot a). split; [apply Hs; lia|]. cbn.
    replace (Z.pred (Z.succ n)) with n by lia.
    replace (Z.succ a) with (a + 1) by lia.
    replace (a + Z.succ n) with (a + 1 + n) by lia. apply IH. intros i Hi. apply Hs. lia.
Qed.

(** The table after growing from a full table to [c] slots. *)
Lemma grow_spec t n c :
  zlen (handle_slots t) = n → num_handles t = n → n < c →
  (∀ i s, zlookup (handle_slots t) i = Some s → 0 ≤ slot_gen s ∧ is_Some (tag s)) →
  wp (bio_grow_handle_table n c) (λ _ t',
    wf t' ∧ free_list t' = seqZ n (c - n) ∧
    handle_capacity t' = c ∧ num_handles t' = num_handles t ∧
    (∀ i, zlookup (handle_slots t') i =
       if decide (i < n) then zlookup (handle_slots t) i
       else if decide (i < c) then Some (fresh_slot i) else None)) t.
Proof.
  intros Hn Hnum Hc Hs. unfold bio_grow_handle_table. wp_step.
  pose proof (zlen_nonneg (handle_slots t)) as Hpos.
  rewrite take_ge by (unfold zlen in *; lia).
  set (slots := handle_slots t ++ (fresh_slot <$> seqZ n (c - n))).
  assert (Hlk : ∀ i, zlookup slots i =
     if decide (i < n) then zlookup (handle_slots t) i
     else if decide (i < c) then Some (fresh_slot i) else None).
  { intros i. unfold slots. rewrite zlookup_app, Hn. case_decide; [done|].
    rewrite zlookup_fresh by lia. replace (n + (i - n)) with i by lia.
    repeat case_decide; first [done|lia]. }
  assert (Hlen : zlen slots = c).
  { unfold slots. rewrite zlen_app, Hn. unfold zlen.
    rewrite length_fmap, length_seqZ. lia. }
  edestruct (wf_intro (mk_table slots c n (num_handles t)) (seqZ n (c - n))) as [Hwf Hfl];
    cbn; [done|lia| |apply NoDup_seqZ| | | |].
  - replace c with (n + (c - n)) at 1 by lia. apply chain_fresh; [lia|].
    intros i Hi. rewrite Hlk. by repeat case_decide; [lia| |lia].
  - rewrite Hnum. unfold zlen. rewrite length_seqZ. lia.
  - intros i s. rewrite Hlk. repeat case_decide; [|intros [= <-]; done|done].
    intros ?%Hs. naive_solver.
  - intros i s. rewrite Hlk. rewrite elem_of_seqZ. repeat case_decide; [|lia|done].
    intros ?%Hs. naive_solver.
  - by split_and!.
Qed.

Lemma init_spec t :
  wp bio_handle_table_init (λ _ t', wf t' ∧ live t' = ∅ ∧ num_handles t' = 0) t.
Proof.
  unfold bio_handle_table_init. wp_steps.
  eapply wp_mono.
  - apply grow_spec; cbn; try done.
    intros i s E. apply zlookup_range in E. unfold zlen in E. cbn in E. lia.
  - cbn. intros _ t' (Hwf & Hfl & Hc & Hn & Hlk). split_and!; [done| |done].
    apply map_empty. intros h. destruct (live t' !! h) as [[tg o]|] eqn:E; [|done].
    apply live_spec in E as (Hni & s & Hs & _). rewrite Hfl, elem_of_seqZ in Hni.
    apply zlookup_range in Hs. rewrite (wf_capacity _ Hwf), Hc in Hs.
    unfold BIO_INITIAL_HANDLE_CAPACITY in *. lia.
Qed.

(** A full table has no free slot; growing it changes no live handle. *)
Lemma wf_full t : wf t → num_handles t >= handle_capacity t → free_list t = [].
Proof.
  intros Hwf H. pose proof (wf_count _ Hwf). destruct (free_list t); [done|].
  unfold zlen in *. cbn in *. lia.
Qed.

Lemma ensure_room_spec t :
  wf t →
  wp (if num_handles t >=? handle_capacity t
      then c ← int_of (handle_capacity t * 2); bio_grow_handle_table (handle_capacity t) c
      else mret tt) (λ _ t',
    wf t' ∧ live t' = live t ∧ evolves t t' ∧ free_list t' ≠ []) t.
Proof.
  intros Hwf. pose proof (wf_positive _ Hwf) as Hpos.
  destruct (num_handles t >=? handle_capacity t) eqn:Hfull.
  - assert (Hge : num_handles t >= handle_capacity t) by lia.
    pose proof (wf_full _ Hwf Hge) as Hfl. pose proof (wf_count _ Hwf) as Hcnt.
    rewrite Hfl in Hcnt. wp_steps.
    eapply wp_mono; [apply grow_spec|].
    + apply wf_capacity. done.
    + unfold zlen in Hcnt. cbn in Hcnt. lia.
    + lia.
    + intros i s Hs. split; [by eapply wf_gen|]. eapply wf_tagged; [done..|].
      rewrite Hfl. apply not_elem_of_nil.
    + intros _ t' (Hwf' & Hfl' & Hc & Hn & Hlk).
      assert (Hlive : live t' = live t).
      { apply map_eq. intros h. apply option_eq. intros [tg o].
        rewrite !live_spec, Hfl, Hfl', elem_of_seqZ, Hlk.
        destruct (decide (index h - 1 < handle_capacity t)).
        - split; intros [? ?]; (split; [|done]); [apply not_elem_of_nil|lia].
        - split; intros [Hni (s & Hs & _)]; exfalso.
          + case_decide; [|done]. lia.
          + apply zlookup_range in Hs. rewrite (wf_capacity _ Hwf) in Hs. lia. }
      split_and!; [done|done| |].
      * intros k [Hk|(s & Hs & Hk)]; (split; [|by rewrite Hlive]); [by left|right].
        exists s. rewrite Hlk, Hlive. rewrite decide_True; [done|].
        apply zlookup_range in Hs. rewrite (wf_capacity _ Hwf) in Hs. lia.
      * rewrite Hfl'. rewrite seqZ_cons by lia. done.
  - wp_steps. split_and!; try done.
    intros E. pose proof (wf_count _ Hwf) as Hc. rewrite E in Hc. unfold zlen in Hc. cbn in Hc.
    lia.
Qed.

(** *** Taking a slot off the free list, putting one back *)

(** The table after the first free slot is taken. *)
Definition taken (t : table) (n : Z) (fl : list Z) (tg : Tag) o : table → Prop := λ t',
  ∃ s, zlookup (handle_slots t) n = Some s ∧
  handle_slots t' = zinsert n (mk_slot (Some tg) o (slot_gen s) (next_slot s)) (handle_slots t) ∧
  handle_capacity t' = handle_capacity t ∧
  next_handle_slot t' = next_slot s ∧ num_handles t' = num_handles t + 1.

Lemma take_spec t n fl tg o t' :
  wf t → free_list t = n :: fl → taken t n fl tg o t' →
  wf t' ∧ free_list t' = fl.
Proof.
  intros Hwf Hfl (s & Hs & E1 & E2 & E3 & E4). destruct Hwf as [Hcap Hpos Hc Hnd Hcnt Hg Ht].
  rewrite Hfl in *. apply NoDup_cons in Hnd as [Hni Hnd].
  cbn in Hc. destruct Hc as (_ & s' & Hs' & Hc). rewrite Hs in Hs'. injection Hs' as <-.
  apply wf_intro.
  - by rewrite E1, E2, zlen_zinsert.
  - by rewrite E2.
  - rewrite E1, E2, E3. by apply chain_zinsert.
  - done.
  - rewrite E4, E2, Hcnt. unfold zlen. cbn. lia.
  - intros i s'. rewrite E1, zlookup_zinsert. case_decide; [|by apply Hg].
    intros [= <-]. cbn. by eapply Hg.
  - intros i s'. rewrite E1, zlookup_zinsert. case_decide as Hd; [by intros [= <-]|].
    intros Hi Hif. eapply Ht; [done|]. apply not_elem_of_cons. split; [|done].
    intros ->. apply Hd. split; [done|]. by eapply zlookup_range.
Qed.

Lemma take_live t n fl tg o t' s :
  wf t → free_list t = n :: fl → taken t n fl tg o t' →
  zlookup (handle_slots t) n = Some s →
  live t' = <[mk_handle (n + 1) (slot_gen s) := (tg, o)]> (live t).
Proof.
  intros Hwf Hfl Htk Hs. pose proof (take_spec _ _ _ _ _ _ Hwf Hfl Htk) as [Hwf' Hfl'].
  destruct Htk as (s' & Hs' & E1 & _). rewrite Hs in Hs'. injection Hs' as <-.
  pose proof (wf_nodup _ Hwf) as Hnd. rewrite Hfl in Hnd. apply NoDup_cons in Hnd as [Hni _].
  apply map_eq. intros h. apply option_eq. intros [tg' o'].
  rewrite lookup_insert_Some, !live_spec, Hfl, Hfl', E1, zlookup_zinsert.
  pose proof (zlookup_range _ _ _ Hs) as Hr.
  destruct h as [i g]; cbn. case_decide as Hd.
  - destruct Hd as [-> _]. replace (i - 1 + 1) with i by lia. split.
    + intros (_ & s' & [= <-] & [= ->] & [= ->] & [= ->]). by left.
    + intros [[[= ->] [= -> ->]]|[_ [Hnin _]]]; [|set_solver].
      split; [done|]. by eexists.
  - split.
    + intros (Hf & s' & Hs' & Hrest). right.
      assert (i - 1 ≠ n) by (intros ?; subst n; tauto).
      split; [intros [= <- _]; lia|]. split; [by apply not_elem_of_cons|eauto].
    + intros [[[= <- _] _]|(_ & Hf & Hrest)]; [exfalso; apply Hd; split; lia|].
      apply not_elem_of_cons in Hf as [_ Hf]. eauto.
Qed.

Lemma taken_known t n fl tg o t' s :
  wf t → free_list t = n :: fl → taken t n fl tg o t' →
  zlookup (handle_slots t) n = Some s →
  ¬ known t (mk_handle (n + 1) (slot_gen s)) ∧ (∀ k, known t k → known t' k).
Proof.
  intros Hwf Hfl Htk Hs. pose proof (take_live _ _ _ _ _ _ _ Hwf Hfl Htk Hs) as Hlive.
  pose proof (zlookup_range _ _ _ Hs) as Hr. split.
  - intros [Hk|(s' & Hs' & Hk)]; cbn in *; [lia|].
    replace (n + 1 - 1) with n in Hs' by lia. rewrite Hs in Hs'. injection Hs' as <-.
    destruct Hk as [Hk|[[tg' o'] Hk]]; [lia|].
    apply live_spec in Hk as [Hnin _]. cbn in Hnin. apply Hnin. rewrite Hfl.
    replace (n + 1 - 1) with n by lia. set_solver.
  - destruct Htk as (s' & Hs' & E1 & _). rewrite Hs in Hs'. injection Hs' as <-.
    intros k [Hk|(sk & Hsk & Hk)]; [by left|right].
    rewrite E1, zlookup_zinsert. case_decide as Hd.
    + destruct Hd as [Hn _]. rewrite <- Hn, Hs in Hsk. injection Hsk as <-.
      eexists. split; [done|]. cbn. destruct Hk as [Hk|[x Hk]]; [by left|right].
      rewrite Hlive. rewrite lookup_insert. case_decide; eauto.
    + exists sk. split; [done|]. destruct Hk as [Hk|[x Hk]]; [by left|right].
      rewrite Hlive. rewrite lookup_insert. case_decide; eauto.
Qed.

(** The table after the live slot [n] is closed. *)
Definition released (t : table) (n : Z) (s : bio_handle_slot_t) : table :=
  mk_table (zinsert n (mk_slot (tag s) (obj s) (slot_gen s + 1) (next_handle_slot t))
              (handle_slots t))
    (handle_capacity t) n (num_handles t - 1).

Lemma release_spec t n s :
  wf t → n ∉ free_list t → zlookup (handle_slots t) n = Some s →
  wf (released t n s) ∧ free_list (released t n s) = n :: free_list t.
Proof.
  intros [Hcap Hpos Hc Hnd Hcnt Hg Ht] Hni Hs. pose proof (zlookup_range _ _ _ Hs) as Hr.
  apply wf_intro; cbn.
  - by rewrite zlen_zinsert.
  - done.
  - split; [done|]. eexists. split; [by apply zlookup_zinsert_eq|]. cbn.
    by apply chain_zinsert.
  - by apply NoDup_cons.
  - rewrite Hcnt. unfold zlen. cbn. lia.
  - intros i s'. rewrite zlookup_zinsert. case_decide; [|by apply Hg].
    intros [= <-]. cbn. apply Hg in Hs. lia.
  - intros i s'. rewrite zlookup_zinsert. case_decide as Hd.
    + intros _ []%not_elem_of_cons. by destruct Hd.
    + intros Hi [_ Hif]%not_elem_of_cons. by eapply Ht.
Qed.

Lemma release_live t h s x :
  wf t → live t !! h = Some x → zlookup (handle_slots t) (index h - 1) = Some s →
  live (released t (index h - 1) s) = delete h (live t).
Proof.
  intros Hwf Hl Hs. destruct x as [tg o].
  apply live_spec in Hl as (Hni & s' & Hs' & _ & _ & Hg).
  rewrite Hs in Hs'. injection Hs' as <-.
  pose proof (release_spec _ _ _ Hwf Hni Hs) as [_ Hfl'].
  apply map_eq. intros k. apply option_eq. intros [tg' o'].
  rewrite lookup_delete_Some, !live_spec, Hfl'. cbn [released handle_slots].
  rewrite zlookup_zinsert, not_elem_of_cons.
  destruct h as [i g], k as [j f]; cbn in *. case_decide as Hd.
  - destruct Hd as [Hij _]. split; [intros [[Hne _] _]; lia|].
    intros (Hne & Hf & s' & Hs' & _ & _ & Hf'). rewrite <- Hij in Hs'. simplify_eq.
    exfalso. apply Hne. f_equal. lia.
  - split.
    + intros [[_ Hf] Hrest]. split; [|by split]. intros [= <- <-]. apply Hd. split; [done|].
      by eapply zlookup_range.
    + intros (Hne & Hf & s' & Hs' & Hrest). split; [|eauto]. split; [|done].
      intros E. apply Hd. split; [lia|]. by eapply zlookup_range.
Qed.

Lemma released_known t h s x k :
  wf t → live t !! h = Some x → zlookup (handle_slots t) (index h - 1) = Some s →
  known t k → known (released t (index h - 1) s) k.
Proof.
  intros Hwf Hl Hs [Hk|(sk & Hsk & Hk)]; [by left|right].
  rewrite (release_live _ _ _ _ Hwf Hl Hs). cbn [released handle_slots].
  destruct x as [tg o]. apply live_spec in Hl as (Hni & s' & Hs' & _ & _ & Hg).
  rewrite zlookup_zinsert. case_decide as Hd.
  - destruct Hd as [Hij _]. rewrite <- Hij in Hsk. simplify_eq.
    eexists. split; [done|]. cbn. left. destruct Hk as [Hk|[[tg' o'] Hk]]; [lia|].
    apply live_spec in Hk as (_ & s'' & Hs'' & _ & _ & Hg'). rewrite <- Hij in Hs''.
    simplify_eq. lia.
  - exists sk. split; [done|]. destruct Hk as [Hk|Hk]; [by left|right].
    rewrite lookup_delete_ne; [done|]. intros <-. apply Hd. split; [done|].
    by eapply zlookup_range.
Qed.

(** *** The interface of the table *)

(** A new handle is one that was never handed out before. *)
Lemma make_spec t o tg :
  wf t →
  wp (bio_make_handle o tg) (λ h t',
    wf t' ∧ ¬ known t h ∧ live t' = <[h := (tg, o)]> (live t) ∧ evolves t t' ∧ 0 < index h) t.
Proof.
  intros Hwf. unfold bio_make_handle. wp_steps. eapply wp_mono; [by apply ensure_room_spec|].
  cbn beta. intros _ t1 (Hwf1 & Hlive1 & Hev1 & Hne). wp_steps.
  pose proof (wf_chain _ Hwf1) as Hc.
  destruct (free_list t1) as [|n fl] eqn:Hfl; [done|].
  cbn in Hc. destruct Hc as (Hn & s & Hs & Hc). rewrite Hn. clear Hne.
  wp_steps. cbn.
  set (t2 := mk_table _ _ _ _).
  assert (Htk : taken t1 n fl tg o t2) by by exists s.
  pose proof (take_spec _ _ _ _ _ _ Hwf1 Hfl Htk) as [Hwf2 Hfl2].
  pose proof (take_live _ _ _ _ _ _ _ Hwf1 Hfl Htk Hs) as Hlive2.
  pose proof (taken_known _ _ _ _ _ _ _ Hwf1 Hfl Htk Hs) as [Hnk Hk2].
  pose proof (zlookup_range _ _ _ Hs) as Hr. rewrite Hlive1 in Hlive2.
  assert (¬ known t (mk_handle (n + 1) (slot_gen s))) as Hnk1.
  { intros Hk. by apply Hev1 in Hk as [Hk _]. }
  split_and!; [done|done|done| |lia].
  intros k Hk. destruct (Hev1 k Hk) as [Hk1 Hd1]. split; [by apply Hk2|].
  intros Hd. rewrite Hlive2, lookup_insert_ne; [done|]. intros <-. done.
Qed.

Lemma slot_of_spec t i Q :
  wf t →
  (∀ s, zlookup (handle_slots t) i = Some s → Q (Some s) t) →
  (zlookup (handle_slots t) i = None → Q None t) →
  wp (slot_of t i) Q t.
Proof.
  intros Hwf H1 H2. unfold slot_of. rewrite <- (wf_capacity _ Hwf).
  destruct ((0 <=? i) && (i <? zlen (handle_slots t))) eqn:E.
  - destruct (zlookup_in_range (handle_slots t) i) as [s Hs]; [lia|]. wp_steps. eauto.
  - wp_steps. apply H2. destruct (zlookup _ _) eqn:E'; [|done].
    apply zlookup_range in E'. lia.
Qed.

(** Known handles of a free slot have an old generation. *)
Lemma known_free t h s :
  wf t → known t h → zlookup (handle_slots t) (index h - 1) = Some s →
  slot_gen s = gen h → is_Some (live t !! h).
Proof.
  intros Hwf [Hk|(s' & Hs' & [Hk|Hk])] Hs Hg; [|simplify_eq; lia|done].
  apply zlookup_range in Hs. lia.
Qed.

(** On known handles, resolving is looking up the abstract map. *)
Lemma resolve_spec t h tg :
  wf t → known t h →
  wp (bio_resolve_handle h tg) (λ r t', t' = t ∧
    r = match live t !! h with
        | Some (tg', o) => if decide (tg' = tg) then o else None
        | None => None
        end) t.
Proof.
  intros Hwf Hk. unfold bio_resolve_handle. wp_steps. apply slot_of_spec; [done|..].
  - intros s Hs. case_decide as Hd; wp_steps; (split; [done|]).
    + destruct Hd as [Hg Ht]. destruct (known_free _ _ _ Hwf Hk Hs Hg) as [[tg' o'] Hl].
      rewrite Hl. apply live_spec in Hl as (_ & s' & Hs' & Ht' & <- & _). simplify_eq.
      by rewrite decide_True.
    + destruct (live t !! h) as [[tg' o']|] eqn:Hl; [|done].
      apply live_spec in Hl as (_ & s' & Hs' & Ht' & <- & Hg). simplify_eq.
      rewrite decide_False; [done|]. intros ->. naive_solver.
  - intros Hs. wp_steps. split; [done|].
    destruct (live t !! h) as [[tg' o']|] eqn:Hl; [|done].
    apply live_spec in Hl as (_ & s' & Hs' & _). by rewrite Hs in Hs'.
Qed.

(** Closing a live handle with its tag deletes it from the abstract map and
    returns its object; in every other case nothing happens. *)
Lemma close_spec t h tg :
  wf t → known t h →
  wp (bio_close_handle h tg) (λ r t', wf t' ∧ evolves t t' ∧
    match live t !! h with
    | Some (tg', o) =>
        if decide (tg' = tg) then r = o ∧ live t' = delete h (live t) else r = None ∧ t' = t
    | None => r = None ∧ t' = t
    end) t.
Proof.
  intros Hwf Hk. unfold bio_close_handle. wp_steps. apply slot_of_spec; [done|..].
  - intros s Hs. case_decide as Hd; wp_steps.
    + destruct Hd as [Hg Ht]. destruct (known_free _ _ _ Hwf Hk Hs Hg) as [[tg' o'] Hl].
      fold (released t (index h - 1) s).
      pose proof (release_live _ _ _ _ Hwf Hl Hs) as Hlive.
      pose proof Hl as (Hni & s' & Hs' & Ht' & <- & _)%live_spec.
      pose proof (release_spec _ _ _ Hwf Hni Hs) as [Hwf' _].
      split_and!; [done| |].
      * intros k Hkk. split; [by eapply released_known|]. rewrite Hlive.
        intros Hd. rewrite lookup_delete. case_decide; done.
      * rewrite Hl. simplify_eq. by rewrite decide_True.
    + split_and!; [done|reflexivity|].
      destruct (live t !! h) as [[tg' o']|] eqn:Hl; [|done].
      apply live_spec in Hl as (_ & s' & Hs' & Ht' & <- & Hg). simplify_eq.
      rewrite decide_False; [done|]. intros ->. naive_solver.
  - intros Hs. wp_steps. split_and!; [done|reflexivity|].
    destruct (live t !! h) as [[tg' o']|] eqn:Hl; [|done].
    apply live_spec in Hl as (_ & s' & Hs' & _). by rewrite Hs in Hs'.
Qed.

End handle_table.
Arguments bio_handle_slot_t : clear implicits.
Arguments table : clear implicits.
