(* ===== verification/Pool.v ===== *)
(** The thread pool ([src/thread.c]): its workers, the messages that the main thread
    exchanges with them, and how they notify it.

    The queues of a worker are bounded lists here: [Spsc.v] proves that the queues of
    the code behave like that, however the accesses of their two threads are
    interleaved. A step of a worker is one access to a queue, to a message, or to the
    notifier. *)
From S2P Require Import Prelude HandleTable.

(** ** State *)

(** [bio_worker_msg_type_t]. *)
Inductive bio_worker_msg_type_t :=
  | BIO_WORKER_MSG_NOOP
  | BIO_WORKER_MSG_TERMINATE
  | BIO_WORKER_MSG_RUN.

#[export] Instance bio_worker_msg_type_eq_dec : EqDecision bio_worker_msg_type_t.
Proof. solve_decision. Defined.

(** [bio_worker_msg_t]. *)
Record bio_worker_msg_t := mk_worker_msg {
  wm_type : bio_worker_msg_type_t;
  wm_need_notification : bool;
  wm_fn : positive;  (* a function of the program *)
  wm_userdata : option positive;
  wm_signal : bio_handle_t;
}.

(** Where a worker is in [bio_async_worker]. *)
Inductive worker_phase :=
  | WIdle                                                (* bio_spscq_consume(..., true) *)
  | WSwitch (msg : positive)                             (* switch (msg->type) *)
  | WRespond (msg : positive) (running : bool)           (* msg->need_notification *)
  | WProduce (msg : positive) (notify running : bool)    (* bio_spscq_produce(..., true) *)
  | WNotify (running : bool)                             (* bio_platform_notify() *)
  | WStopped.

(** [bio_worker_thread_t]; moreover, the responses that the main thread has taken and is
    not done with. *)
Record bio_worker_thread_t := mk_worker {
  wk_phase : worker_phase;
  wk_requests : list positive;
  wk_responses : list positive;
  wk_load : Z;
  wk_taken : list positive;
}.

(** How a worker notifies the main thread ([src/linux/platform.h]): a counter that the
    main thread may wait on as a futex, or the counter of an eventfd. *)
Record notifier := mk_notifier {
  has_op_futex_wait : bool;
  notification_counter : Z;
  eventfd_counter : Z;
}.

(** The part of [bio_ctx_t] that the threads share, with the messages that are in a
    queue or in the hands of a worker. Moreover, the history: the messages that were
    sent to a worker, those whose functions were called, those whose signals were
    raised; and how often the main thread looked at what the workers do. *)
Record bio_pool_t := mk_pool {
  pl_workers : list bio_worker_thread_t;
  pl_queue_size : Z;
  pl_num_running : Z;  (* num_running_async_jobs *)
  pl_msgs : gmap positive bio_worker_msg_t;
  pl_next : positive;
  pl_notifier : notifier;
  pl_submitted : list positive;
  pl_ran : list positive;
  pl_reported : list positive;
  pl_looks : nat;
}.

Definition no_notifier : notifier := mk_notifier false 0 0.
Definition no_pool : bio_pool_t := mk_pool [] 0 0 ∅ 1 no_notifier [] [] [] 0.

Definition set_pl_workers (f : list bio_worker_thread_t → list bio_worker_thread_t) (p : bio_pool_t) : bio_pool_t :=
  mk_pool (f (pl_workers p)) (pl_queue_size p) (pl_num_running p) (pl_msgs p) (pl_next p) (pl_notifier p) (pl_submitted p) (pl_ran p) (pl_reported p) (pl_looks p).
Definition set_pl_queue_size (f : Z → Z) (p : bio_pool_t) : bio_pool_t :=
  mk_pool (pl_workers p) (f (pl_queue_size p)) (pl_num_running p) (pl_msgs p) (pl_next p) (pl_notifier p) (pl_submitted p) (pl_ran p) (pl_reported p) (pl_looks p).
Definition set_pl_num_running (f : Z → Z) (p : bio_pool_t) : bio_pool_t :=
  mk_pool (pl_workers p) (pl_queue_size p) (f (pl_num_running p)) (pl_msgs p) (pl_next p) (pl_notifier p) (pl_submitted p) (pl_ran p) (pl_reported p) (pl_looks p).
Definition set_pl_msgs (f : gmap positive bio_worker_msg_t → gmap positive bio_worker_msg_t) (p : bio_pool_t) : bio_pool_t :=
  mk_pool (pl_workers p) (pl_queue_size p) (pl_num_running p) (f (pl_msgs p)) (pl_next p) (pl_notifier p) (pl_submitted p) (pl_ran p) (pl_reported p) (pl_looks p).
Definition set_pl_next (f : positive → positive) (p : bio_pool_t) : bio_pool_t :=
  mk_pool (pl_workers p) (pl_queue_size p) (pl_num_running p) (pl_msgs p) (f (pl_next p)) (pl_notifier p) (pl_submitted p) (pl_ran p) (pl_reported p) (pl_looks p).
Definition set_pl_notifier (f : notifier → notifier) (p : bio_pool_t) : bio_pool_t :=
  mk_pool (pl_workers p) (pl_queue_size p) (pl_num_running p) (pl_msgs p) (pl_next p) (f (pl_notifier p)) (pl_submitted p) (pl_ran p) (pl_reported p) (pl_looks p).
Definition set_pl_submitted (f : list positive → list positive) (p : bio_pool_t) : bio_pool_t :=
  mk_pool (pl_workers p) (pl_queue_size p) (pl_num_running p) (pl_msgs p) (pl_next p) (pl_notifier p) (f (pl_submitted p)) (pl_ran p) (pl_reported p) (pl_looks p).
Definition set_pl_ran (f : list positive → list positive) (p : bio_pool_t) : bio_pool_t :=
  mk_pool (pl_workers p) (pl_queue_size p) (pl_num_running p) (pl_msgs p) (pl_next p) (pl_notifier p) (pl_submitted p) (f (pl_ran p)) (pl_reported p) (pl_looks p).
Definition set_pl_reported (f : list positive → list positive) (p : bio_pool_t) : bio_pool_t :=
  mk_pool (pl_workers p) (pl_queue_size p) (pl_num_running p) (pl_msgs p) (pl_next p) (pl_notifier p) (pl_submitted p) (pl_ran p) (f (pl_reported p)) (pl_looks p).
Definition set_pl_looks (f : nat → nat) (p : bio_pool_t) : bio_pool_t :=
  mk_pool (pl_workers p) (pl_queue_size p) (pl_num_running p) (pl_msgs p) (pl_next p) (pl_notifier p) (pl_submitted p) (pl_ran p) (pl_reported p) (f (pl_looks p)).
Definition set_wk_phase (ph : worker_phase) (w : bio_worker_thread_t) : bio_worker_thread_t :=
  mk_worker ph (wk_requests w) (wk_responses w) (wk_load w) (wk_taken w).
Definition set_wk_requests (l : list positive) (w : bio_worker_thread_t) : bio_worker_thread_t :=
  mk_worker (wk_phase w) l (wk_responses w) (wk_load w) (wk_taken w).
Definition set_wk_responses (l : list positive) (w : bio_worker_thread_t) : bio_worker_thread_t :=
  mk_worker (wk_phase w) (wk_requests w) l (wk_load w) (wk_taken w).
Definition set_wk_load (n : Z) (w : bio_worker_thread_t) : bio_worker_thread_t :=
  mk_worker (wk_phase w) (wk_requests w) (wk_responses w) n (wk_taken w).
Definition set_wk_taken (l : list positive) (w : bio_worker_thread_t) : bio_worker_thread_t :=
  mk_worker (wk_phase w) (wk_requests w) (wk_responses w) (wk_load w) l.

(** ** The workers *)

(** Memory that every thread can reach. *)
Definition get_worker (i : nat) : st bio_pool_t bio_worker_thread_t :=
  p ← get; need OutOfBounds (pl_workers p !! i).

Definition put_worker (i : nat) (w : bio_worker_thread_t) : st bio_pool_t unit :=
  modify (set_pl_workers <[i := w]>).

Definition deref_msg (msg : positive) : st bio_pool_t bio_worker_msg_t :=
  p ← get; need Dangling (pl_msgs p !! msg).

(** [bio_platform_notify] ([src/linux/platform.c]): what it does to the memory and to
    the eventfd. *)
Definition bio_platform_notify : st bio_pool_t unit :=
  modify (set_pl_notifier (λ n,
    if has_op_futex_wait n
    then mk_notifier true (u32 (notification_counter n + 1)) (eventfd_counter n)
    else mk_notifier false (notification_counter n) (u64 (eventfd_counter n + 1)))).

(** The next step of worker [i] in [bio_async_worker], if it does not have to wait. *)
Definition bio_async_worker (i : nat) : st bio_pool_t unit :=
  self ← get_worker i;
  match wk_phase self with
  | WIdle =>
      match wk_requests self with
      | [] => mret tt
      | msg :: requests => put_worker i (set_wk_phase (WSwitch msg) (set_wk_requests requests self))
      end
  | WSwitch msg =>
      m ← deref_msg msg;
      match wm_type m with
      | BIO_WORKER_MSG_NOOP => put_worker i (set_wk_phase (WRespond msg true) self)
      | BIO_WORKER_MSG_TERMINATE => put_worker i (set_wk_phase (WRespond msg false) self)
      | BIO_WORKER_MSG_RUN =>
          _ ← modify (set_pl_ran (λ l, l ++ [msg]));  (* msg->run.fn(msg->run.userdata) *)
          put_worker i (set_wk_phase (WRespond msg true) self)
      end
  | WRespond msg running =>
      m ← deref_msg msg;
      put_worker i (set_wk_phase (WProduce msg (wm_need_notification m) running) self)
  | WProduce msg notify running =>
      p ← get;
      if zlen (wk_responses self) <? pl_queue_size p * 2 then
        put_worker i
          (set_wk_phase
            (if notify : bool then WNotify running else if running : bool then WIdle else WStopped)
            (set_wk_responses (wk_responses self ++ [msg]) self))
      else mret tt
  | WNotify running =>
      _ ← bio_platform_notify;
      put_worker i (set_wk_phase (if running : bool then WIdle else WStopped) self)
  | WStopped => mret tt
  end.

(** Steps of several workers. *)
Fixpoint run_workers (l : list nat) : st bio_pool_t unit :=
  match l with
  | [] => mret tt
  | i :: l =>
      p ← get;
      _ ← (if decide (i < length (pl_workers p))%nat then bio_async_worker i else mret tt);
      run_workers l
  end.

(** ** The main thread and the queues *)

Section main.
(** Which workers take steps before the main thread looks for the [n]-th time. *)
Context (schedule : nat → list nat).

Definition look : st bio_pool_t unit :=
  p ← get;
  _ ← modify (set_pl_looks S);
  run_workers (schedule (pl_looks p)).

(** [bio_spscq_produce(&worker->request_queue, msg, false)], for a message that no
    other thread knows yet. *)
Definition produce_request (i : nat) (m : bio_worker_msg_t) : st bio_pool_t (option positive) :=
  _ ← look;
  w ← get_worker i;
  p ← get;
  if zlen (wk_requests w) <? pl_queue_size p then
    let msg := pl_next p in
    _ ← modify (set_pl_next Pos.succ);
    _ ← modify (set_pl_msgs <[msg := m]>);
    _ ← modify (set_pl_submitted (λ l, l ++ [msg]));
    _ ← put_worker i (set_wk_requests (wk_requests w ++ [msg]) w);
    mret (Some msg)
  else mret None.

(** [bio_spscq_consume(&worker->response_queue, false)]. *)
Definition consume_response (i : nat) : st bio_pool_t (option positive) :=
  _ ← look;
  w ← get_worker i;
  match wk_responses w with
  | [] => mret None
  | msg :: responses =>
      _ ← put_worker i (set_wk_taken (wk_taken w ++ [msg]) (set_wk_responses responses w));
      mret (Some msg)
  end.

(** [bio_run_async] when it sends its message to worker [i]: whether it was accepted. *)
Definition send_request (i : nat) (m : bio_worker_msg_t) : st bio_pool_t bool :=
  r ← produce_request i m;
  match r with
  | Some _ =>
      p ← get;
      n ← int_of (pl_num_running p + 1);
      _ ← modify (set_pl_num_running (λ _, n));
      w ← get_worker i;
      _ ← put_worker i (set_wk_load (u32 (wk_load w + 1)) w);
      mret true
  | None => mret false
  end.
End main.

(** The end of what [bio_thread_drain_responses] does with a job of worker [i]. *)
Definition count_down (i : nat) (msg : positive) : st bio_pool_t unit :=
  p ← get;
  n ← int_of (pl_num_running p - 1);
  _ ← modify (set_pl_num_running (λ _, n));
  w ← get_worker i;
  _ ← put_worker i (set_wk_load (u32 (wk_load w - 1)) w);
  modify (set_pl_reported (λ l, l ++ [msg])).

(** [bio_free(msg)], for a message that came from worker [i]. *)
Definition free_msg (i : nat) (msg : positive) : st bio_pool_t unit :=
  w ← get_worker i;
  _ ← put_worker i (set_wk_taken (filter (λ m, m ≠ msg) (wk_taken w)) w);
  _ ← deref_msg msg;
  modify (set_pl_msgs (delete msg)).

(** ** The invariant *)

(** The messages of a worker: those whose functions it has not called yet, and those
    that it is done with. *)
Definition pending (w : bio_worker_thread_t) : list positive :=
  wk_requests w ++ match wk_phase w with WSwitch msg => [msg] | _ => [] end.

Definition finished (w : bio_worker_thread_t) : list positive :=
  match wk_phase w with WRespond msg _ | WProduce msg _ _ => [msg] | _ => [] end ++
    wk_responses w ++ wk_taken w.

Definition inflight (w : bio_worker_thread_t) : list positive := pending w ++ finished w.

Definition all_pending (p : bio_pool_t) : list positive := pl_workers p ≫= pending.
Definition all_finished (p : bio_pool_t) : list positive := pl_workers p ≫= finished.
Definition all_inflight (p : bio_pool_t) : list positive := all_pending p ++ all_finished p.

(** Whether the worker goes on after the message that it deals with. *)
Definition goes_on (ph : worker_phase) : bool :=
  match ph with
  | WIdle | WSwitch _ => true
  | WRespond _ r | WProduce _ _ r | WNotify r => r
  | WStopped => false
  end.

Record worker_ok (qs : Z) (w : bio_worker_thread_t) : Prop := {
  wo_requests : zlen (wk_requests w) ≤ qs;
  wo_responses : zlen (wk_responses w) ≤ qs * 2;
  wo_load : wk_load w = zlen (inflight w);
  wo_runs : goes_on (wk_phase w) = true;
}.

(** The pool while it works. [K]: the signals that may be raised. *)
Record pool_runs (K : bio_handle_t → Prop) (p : bio_pool_t) : Prop := {
  pk_size : 0 < pl_queue_size p ≤ 2 ^ 30;
  pk_workers : Forall (worker_ok (pl_queue_size p)) (pl_workers p);
  pk_msgs : ∀ m, m ∈ all_inflight p → is_Some (pl_msgs p !! m);
  pk_jobs : map_Forall (λ m x, (m < pl_next p)%positive ∧ wm_type x = BIO_WORKER_MSG_RUN ∧
    K (wm_signal x)) (pl_msgs p);
  pk_fresh : ∀ m, m ∈ pl_submitted p → (m < pl_next p)%positive;
  pk_nodup : NoDup (pl_submitted p);
  pk_submitted : pl_submitted p ≡ₚ pl_reported p ++ all_inflight p;
  pk_ran : pl_ran p ≡ₚ pl_reported p ++ all_finished p;
  pk_running : pl_num_running p = zlen (all_inflight p);
  pk_int : pl_num_running p ≤ INT_MAX;
}.

(** There may be no pool yet. *)
Definition pool_ok (K : bio_handle_t → Prop) (p : bio_pool_t) : Prop :=
  pl_workers p = [] ∨ pool_runs K p.

Lemma pool_ok_mono (K K' : bio_handle_t → Prop) p :
  pool_ok K p → (∀ h, K h → K' h) → pool_ok K' p.
Proof.
  intros [?|[]] HK; [by left|right]. split; try done.
  intros m x Hx. destruct (pk_jobs0 _ _ Hx) as (? & ? & ?). auto.
Qed.

(** Equality of pools that were reached by different sequences of writes. *)
Ltac pool_eq :=
  cbv beta iota zeta delta [set_pl_workers set_pl_queue_size set_pl_num_running set_pl_msgs set_pl_next
    set_pl_notifier set_pl_submitted set_pl_ran set_pl_reported set_pl_looks pl_workers
    pl_queue_size pl_num_running pl_msgs pl_next pl_notifier pl_submitted pl_ran pl_reported pl_looks
    set_wk_phase set_wk_requests set_wk_responses set_wk_load set_wk_taken
    wk_phase wk_requests wk_responses wk_load wk_taken];
  rewrite ?list_insert_insert_eq.

(** A pool that was never used. *)
Definition fresh_pool (p : bio_pool_t) : Prop :=
  pl_workers p = [] ∧ pl_msgs p = ∅ ∧ pl_submitted p = [] ∧ pl_ran p = [] ∧ pl_reported p = [].

(** *** One worker changes *)

(** A worker takes a step: the messages [moved] were dealt with. *)
Lemma worker_moved K p i w w' moved :
  pool_runs K p → pl_workers p !! i = Some w → worker_ok (pl_queue_size p) w' →
  pending w ≡ₚ moved ++ pending w' → finished w' ≡ₚ moved ++ finished w →
  pool_runs K (set_pl_ran (λ l, l ++ moved) (set_pl_workers <[i := w']> p)).
Proof.
  intros [Hs Hw Hm Hj Hf Hn Hsub Hran Hrun Hint] Hi Hw' Hp Hq.
  destruct (bind_insert pending _ _ _ Hi) as (r1 & E1 & E1').
  destruct (bind_insert finished _ _ _ Hi) as (r2 & E2 & E2').
  set (p' := set_pl_ran _ _).
  assert (Hall : all_inflight p' ≡ₚ all_inflight p).
  { unfold all_inflight, all_pending, all_finished. cbn. rewrite E1, E2, E1', E2', Hp, Hq. solve_Permutation. }
  split; try done.
  - by apply Forall_insert.
  - intros m. rewrite Hall. apply Hm.
  - by rewrite Hall.
  - unfold all_finished in *. cbn. rewrite Hran, E2, E2', Hq. solve_Permutation.
  - by rewrite (zlen_perm _ _ Hall).
Qed.

Lemma worker_moved_nil K p i w w' :
  pool_runs K p → pl_workers p !! i = Some w → worker_ok (pl_queue_size p) w' →
  pending w ≡ₚ pending w' → finished w' ≡ₚ finished w →
  pool_runs K (set_pl_workers <[i := w']> p).
Proof.
  intros H Hi Hw' Hp Hq. pose proof (worker_moved K p i w w' [] H Hi Hw' Hp Hq) as [].
  split; try done. cbn in pk_ran0. by rewrite app_nil_r in pk_ran0.
Qed.

(** ** What the workers do *)

(** From the point of view of the main thread: the workers take requests, call their
    functions and respond. *)
Record worked (p p' : bio_pool_t) : Prop := {
  wd_size : pl_queue_size p' = pl_queue_size p;
  wd_running : pl_num_running p' = pl_num_running p;
  wd_msgs : pl_msgs p' = pl_msgs p;
  wd_next : pl_next p' = pl_next p;
  wd_submitted : pl_submitted p' = pl_submitted p;
  wd_reported : pl_reported p' = pl_reported p;
  wd_ran : pl_ran p `prefix_of` pl_ran p';
  wd_load : wk_load <$> pl_workers p' = wk_load <$> pl_workers p;
  wd_requests : ∀ i w, pl_workers p !! i = Some w → ∃ w', pl_workers p' !! i = Some w' ∧
    wk_requests w' `suffix_of` wk_requests w ∧ wk_responses w `prefix_of` wk_responses w' ∧
    wk_taken w' = wk_taken w;
}.

#[export] Instance worked_preorder : PreOrder worked.
Proof.
  split.
  - intros p. split; try done. intros i w Hw. exists w. by split_and!.
  - intros p1 p2 p3 [] []. split; try congruence; [by etrans|].
    intros i w (w2 & (w3 & ? & ? & ? & ?)%wd_requests1 & ? & ? & ?)%wd_requests0. exists w3.
    split_and!; [done|by etrans..].
Qed.

Lemma worked_length p p' : worked p p' → length (pl_workers p') = length (pl_workers p).
Proof. intros H. by rewrite <- !(length_fmap wk_load), (wd_load _ _ H). Qed.

(** One worker changes, and nothing else that matters. *)
Lemma worked_insert p i w w' ran nt :
  pl_workers p !! i = Some w → wk_load w' = wk_load w →
  wk_requests w' `suffix_of` wk_requests w → wk_responses w `prefix_of` wk_responses w' →
  wk_taken w' = wk_taken w →
  worked p (set_pl_notifier nt (set_pl_ran (λ l, l ++ ran) (set_pl_workers <[i := w']> p))).
Proof.
  intros Hi Hl Hr Hs Ht. split; cbn; try done.
  - by apply prefix_app_r.
  - rewrite list_fmap_insert, Hl. apply list_insert_id. by rewrite list_lookup_fmap, Hi.
  - intros j x Hx. destruct (decide (i = j)) as [<-|Hne].
    + simplify_eq. exists w'. rewrite list_lookup_insert_eq by by eapply lookup_lt_Some. done.
    + exists x. by rewrite list_lookup_insert_ne.
Qed.

Lemma pool_runs_notifier K p f : pool_runs K p → pool_runs K (set_pl_notifier f p).
Proof. by intros []. Qed.

Lemma get_worker_spec i p w (Q : bio_worker_thread_t → bio_pool_t → Prop) :
  pl_workers p !! i = Some w → Q w p → wp (get_worker i) Q p.
Proof. intros Hi HQ. unfold get_worker. by wp_steps. Qed.

Lemma deref_msg_spec m p x (Q : bio_worker_msg_t → bio_pool_t → Prop) :
  pl_msgs p !! m = Some x → Q x p → wp (deref_msg m) Q p.
Proof. intros Hi HQ. unfold deref_msg. by wp_steps. Qed.

(** What is known of a message that a worker has in its hands. *)
Lemma held_msg K p i w m :
  pool_runs K p → pl_workers p !! i = Some w → m ∈ inflight w →
  ∃ x, pl_msgs p !! m = Some x ∧ wm_type x = BIO_WORKER_MSG_RUN.
Proof.
  intros Hok Hi Hm. destruct (pk_msgs _ _ Hok m) as [x Hx].
  - unfold all_inflight, all_pending, all_finished. unfold inflight in Hm.
    rewrite elem_of_app in *. rewrite !list_elem_of_bind.
    apply list_elem_of_lookup_2 in Hi. destruct Hm; [left|right]; eauto.
  - exists x. split; [done|]. by destruct (pk_jobs _ _ Hok _ _ Hx) as (_ & ? & _).
Qed.

(** A worker takes a step. *)
Lemma worker_put K p i w w' moved nt :
  pool_runs K p → pl_workers p !! i = Some w → wk_load w' = wk_load w →
  wk_requests w' `suffix_of` wk_requests w → wk_responses w `prefix_of` wk_responses w' →
  wk_taken w' = wk_taken w →
  zlen (wk_responses w') ≤ pl_queue_size p * 2 → goes_on (wk_phase w') = true →
  pending w ≡ₚ moved ++ pending w' → finished w' ≡ₚ moved ++ finished w →
  let p' := set_pl_notifier nt (set_pl_ran (λ l, l ++ moved) (set_pl_workers <[i := w']> p)) in
  pool_runs K p' ∧ worked p p'.
Proof.
  intros Hok Hi Hl Hr Hs Ht Hlen Hg Hp Hf p'. split; [|by eapply worked_insert].
  apply pool_runs_notifier. eapply worker_moved; [done|done| |done|done].
  pose proof (pk_workers _ _ Hok) as Hws. rewrite Forall_forall in Hws.
  destruct (Hws w (list_elem_of_lookup_2 _ _ _ Hi)) as [H1 H2 H3 H4]. split; [|done| |done].
  - destruct Hr as [k Ek]. rewrite Ek, zlen_app in H1. pose proof (zlen_nonneg k). lia.
  - rewrite Hl, H3. apply zlen_perm. unfold inflight. rewrite Hp, Hf. solve_Permutation.
Qed.

Lemma worker_put_quiet K p i w w' nt :
  pool_runs K p → pl_workers p !! i = Some w → wk_load w' = wk_load w →
  wk_requests w' `suffix_of` wk_requests w → wk_responses w `prefix_of` wk_responses w' →
  wk_taken w' = wk_taken w →
  zlen (wk_responses w') ≤ pl_queue_size p * 2 → goes_on (wk_phase w') = true →
  pending w ≡ₚ pending w' → finished w' ≡ₚ finished w →
  let p' := set_pl_notifier nt (set_pl_workers <[i := w']> p) in pool_runs K p' ∧ worked p p'.
Proof.
  intros Hok Hi Hl Hr Hs Ht Hlen Hg Hp Hf.
  pose proof (worker_put K p i w w' [] nt Hok Hi Hl Hr Hs Ht Hlen Hg Hp Hf) as H.
  unfold set_pl_ran in H. cbn in H. by rewrite app_nil_r in H.
Qed.

Lemma worker_spec K i p :
  pool_runs K p → (i < length (pl_workers p))%nat →
  wp (bio_async_worker i) (λ _ p', pool_runs K p' ∧ worked p p') p.
Proof.
  intros Hok [w Hi]%lookup_lt_is_Some. pose proof (pk_workers _ _ Hok) as Hws.
  rewrite Forall_forall in Hws.
  destruct (Hws w (list_elem_of_lookup_2 _ _ _ Hi)) as [Hreq Hresp Hload Hruns].
  assert (Hheld : ∀ m, m ∈ inflight w → ∃ x, pl_msgs p !! m = Some x ∧ wm_type x = BIO_WORKER_MSG_RUN).
  { intros m. by eapply held_msg. }
  unfold bio_async_worker. wp_step. eapply get_worker_spec; [done|].
  unfold inflight, pending, finished in Hheld.
  destruct (wk_phase w) as [|m|m r|m nt r|r|] eqn:Eph; cbn in Hruns, Hheld; subst.
  - destruct (wk_requests w) as [|m l] eqn:Er; [wp_steps; split; [done|reflexivity]|].
    unfold put_worker. wp_steps. eapply (worker_put_quiet K p i w _ id); try done; cbn; rewrite ?Er.
    + by apply suffix_cons_r.
    + unfold pending. cbn. rewrite Eph, Er, app_nil_r. solve_Permutation.
    + unfold finished. cbn. by rewrite Eph.
  - destruct (Hheld m) as (x & Hx & Ht); [set_solver|]. wp_step. eapply deref_msg_spec; [done|].
    rewrite Ht. unfold put_worker. wp_steps.
    eapply (worker_put K p i w _ [m] id); try done.
    + unfold pending. cbn. rewrite Eph. rewrite app_nil_r. by rewrite Permutation_app_comm.
    + unfold finished. cbn. by rewrite Eph.
  - destruct (Hheld m) as (x & Hx & Ht); [set_solver|]. wp_step. eapply deref_msg_spec; [done|].
    unfold put_worker. wp_steps. eapply (worker_put_quiet K p i w _ id); try done.
    + unfold pending. cbn. by rewrite Eph.
    + unfold finished. cbn. by rewrite Eph.
  - wp_steps. destruct (Z.ltb_spec (zlen (wk_responses w)) (pl_queue_size p * 2)) as [Hlt|_];
      [|wp_steps; split; [done|reflexivity]].
    unfold put_worker. wp_steps. eapply (worker_put_quiet K p i w _ id); try done; cbn.
    + by apply prefix_app_r.
    + rewrite zlen_snoc. lia.
    + by destruct nt.
    + unfold pending. cbn. rewrite Eph. by destruct nt.
    + unfold finished. cbn. rewrite Eph. destruct nt; cbn; solve_Permutation.
  - unfold put_worker, bio_platform_notify. wp_steps.
    match goal with |- pool_runs _ (set_pl_workers _ (set_pl_notifier ?f _)) ∧ _ =>
      apply (worker_put_quiet K p i w (set_wk_phase WIdle w) f) end; try done.
    + unfold pending. cbn. by rewrite Eph.
    + unfold finished. cbn. by rewrite Eph.
  - done.
Qed.

Lemma run_workers_spec K l p :
  pool_runs K p → wp (run_workers l) (λ _ p', pool_runs K p' ∧ worked p p') p.
Proof.
  revert p. induction l as [|i l IH]; intros p Hok; cbn [run_workers]; [wp_steps; by split|].
  wp_steps. eapply (wp_mono _ (λ _ p', pool_runs K p' ∧ worked p p')).
  { case_decide; [by apply worker_spec|wp_steps; by split]. }
  intros [] p1 [Hok1 Hw1]. eapply wp_mono; [by apply IH|]. intros [] p2 [Hok2 Hw2]. split; [done|by etrans].
Qed.

Lemma run_workers_none l p : pl_workers p = [] → run_workers l p = Ok (tt, p).
Proof.
  intros Hp. induction l as [|i l IH]; [done|]. cbn [run_workers].
  unfold mbind, st_bind, get. rewrite decide_False by (rewrite Hp; cbn; lia). exact IH.
Qed.

(** ** The main thread *)

Section main_specs.
Context (K : bio_handle_t → Prop).

Lemma look_spec schedule p :
  pool_runs K p → wp (look schedule) (λ _ p', pool_runs K p' ∧ worked p p') p.
Proof.
  intros Hok. unfold look. wp_steps.
  assert (Hw : worked p (set_pl_looks S p)) by (split; try done; intros i w Hi; by exists w).
  eapply wp_mono; [apply run_workers_spec; by destruct Hok|]. intros [] p' [Hok' Hw'].
  split; [done|by etrans].
Qed.

Lemma worked_lookup p p' i w :
  worked p p' → pl_workers p !! i = Some w → ∃ w', pl_workers p' !! i = Some w' ∧ wk_load w' = wk_load w.
Proof.
  intros Hw Hi. destruct (wd_requests _ _ Hw _ _ Hi) as (w' & Hi' & _). exists w'. split; [done|].
  pose proof (f_equal (.!! i) (wd_load _ _ Hw)) as E. cbn in E.
  rewrite !list_lookup_fmap, Hi, Hi' in E. by injection E.
Qed.

Lemma in_workers p i w : pool_runs K p → pl_workers p !! i = Some w → worker_ok (pl_queue_size p) w.
Proof.
  intros Hok Hi. pose proof (pk_workers _ _ Hok) as Hws. rewrite Forall_forall in Hws.
  by eapply Hws, list_elem_of_lookup_2.
Qed.
(** A worker has no more messages than there are jobs. *)
Lemma inflight_bound p i w :
  pool_runs K p → pl_workers p !! i = Some w → zlen (inflight w) ≤ pl_num_running p.
Proof.
  intros Hok Hi. rewrite (pk_running _ _ Hok). unfold all_inflight, all_pending, all_finished.
  destruct (bind_insert pending _ _ _ Hi) as (r1 & -> & _).
  destruct (bind_insert finished _ _ _ Hi) as (r2 & -> & _).
  unfold inflight. rewrite !zlen_app. pose proof (zlen_nonneg r1). pose proof (zlen_nonneg r2). lia.
Qed.

Lemma load_exact p i w :
  pool_runs K p → pl_workers p !! i = Some w → u32 (wk_load w + 1) = wk_load w + 1.
Proof.
  intros Hok Hi. apply Z.mod_small. pose proof (inflight_bound _ _ _ Hok Hi) as Hb.
  rewrite (wo_load _ _ (in_workers _ _ _ Hok Hi)). pose proof (zlen_nonneg (inflight w)).
  pose proof (pk_int _ _ Hok). unfold INT_MAX in *. lia.
Qed.

(** The memory of a message and its place in the history, when it is sent. *)
Definition sent (i : nat) (m : bio_worker_msg_t) (w : bio_worker_thread_t) (p : bio_pool_t) : bio_pool_t :=
  set_pl_submitted (λ l, l ++ [pl_next p])
    (set_pl_msgs <[pl_next p := m]>
      (set_pl_next Pos.succ
        (set_pl_num_running (λ n, n + 1)
          (set_pl_workers <[i := set_wk_load (wk_load w + 1)
            (set_wk_requests (wk_requests w ++ [pl_next p]) w)]> p)))).

Lemma sent_runs p i w m :
  pool_runs K p → pl_workers p !! i = Some w → zlen (wk_requests w) < pl_queue_size p →
  wm_type m = BIO_WORKER_MSG_RUN → K (wm_signal m) → pl_num_running p < INT_MAX →
  pool_runs K (sent i m w p).
Proof.
  intros Hok Hi Hlt Hm HK Hint. pose proof (in_workers _ _ _ Hok Hi) as [H1 H2 H3 H4].
  destruct Hok as [Hs Hw Hms Hj Hf Hn Hsub Hran Hrun _]. set (x := pl_next p).
  set (w' := set_wk_load (wk_load w + 1) (set_wk_requests (wk_requests w ++ [x]) w)).
  destruct (bind_insert pending _ _ _ Hi) as (r1 & E1 & E1').
  destruct (bind_insert finished _ _ _ Hi) as (r2 & E2 & E2').
  assert (Hx : x ∉ pl_submitted p) by (intros ?%Hf; unfold x in *; lia).
  assert (Hpend : pending w' ≡ₚ pending w ++ [x]) by (unfold pending, w'; cbn; solve_Permutation).
  assert (Hall : all_inflight (sent i m w p) ≡ₚ all_inflight p ++ [x]).
  { unfold all_inflight, all_pending, all_finished.
    change (pl_workers (sent i m w p)) with (<[i := w']> (pl_workers p)). rewrite E1, E2, E1', E2', Hpend.
    change (finished w') with (finished w). solve_Permutation. }
  split.
  - done.
  - apply Forall_insert; [done|]. split; [|done| |done]; cbn.
    + rewrite zlen_snoc. lia.
    + change (wk_load w + 1 = zlen (inflight w')).
      assert (inflight w' ≡ₚ inflight w ++ [x]) as ->.
      { unfold inflight. rewrite Hpend. change (finished w') with (finished w). solve_Permutation. }
      by rewrite zlen_snoc, H3.
  - intros y. rewrite Hall, elem_of_app, list_elem_of_singleton. cbn. rewrite lookup_insert_is_Some'.
    intros [Hy| ->]; [right; by apply Hms|by left].
  - apply map_Forall_insert_2; cbn; [split_and!; [lia|done|done]|].
    eapply map_Forall_impl; [exact Hj|]. cbn. intros y z (? & ? & ?). split_and!; [lia|done..].
  - cbn. intros y. rewrite elem_of_app, list_elem_of_singleton. intros [Hy%Hf| ->]; lia.
  - cbn. by apply NoDup_snoc.
  - rewrite Hall. cbn. rewrite Hsub. solve_Permutation.
  - unfold all_finished. change (pl_workers (sent i m w p)) with (<[i := w']> (pl_workers p)).
    change (pl_ran (sent i m w p)) with (pl_ran p). change (pl_reported (sent i m w p)) with (pl_reported p).
    rewrite E2'. change (finished w') with (finished w).
    rewrite Hran. unfold all_finished. by rewrite E2.
  - rewrite (zlen_perm _ _ Hall), zlen_snoc. cbn. lia.
  - cbn. lia.
Qed.

(** [send_request]: the worker gets the message, unless its queue is full. *)
Lemma send_request_spec schedule p i m :
  pool_runs K p → (i < length (pl_workers p))%nat →
  wm_type m = BIO_WORKER_MSG_RUN → K (wm_signal m) →
  wp (send_request schedule i m) (λ b p', pool_runs K p' ∧ ∃ p1 w, worked p p1 ∧ pool_runs K p1 ∧
    pl_workers p1 !! i = Some w ∧
    if b : bool then p' = sent i m w p1 ∧ zlen (wk_requests w) < pl_queue_size p
    else p' = p1 ∧ zlen (wk_requests w) = pl_queue_size p) p.
Proof.
  intros Hok Hi Hm HK. unfold send_request, produce_request. apply wp_bind.
  wp_use look_spec; [done|]. intros [] p1 [Hok1 Hw1].
  apply lookup_lt_is_Some in Hi as [w0 Hi]. destruct (worked_lookup _ _ _ _ Hw1 Hi) as (w & Hw & _).
  pose proof (in_workers _ _ _ Hok1 Hw) as [H1 H2 H3 H4].
  rewrite (wd_size _ _ Hw1) in H1.
  wp_step. eapply get_worker_spec; [done|]. wp_steps. rewrite (wd_size _ _ Hw1).
  destruct (Z.ltb_spec (zlen (wk_requests w)) (pl_queue_size p)) as [Hlt|Hge].
  2: { wp_steps. split; [done|]. exists p1, w. split_and!; [done|done|done|done|lia]. }
  unfold put_worker. wp_steps. eapply get_worker_spec.
  { cbn. apply list_lookup_insert_eq. by eapply lookup_lt_Some. }
  wp_steps.
  match goal with |- pool_runs K ?q ∧ _ => assert (Hq : q = sent i m w p1) end.
  { cbn [wk_load set_wk_requests]. rewrite (load_exact p1 i w) by done. unfold sent. by pool_eq. }
  rewrite Hq. unfold in_int in *. cbn [pl_num_running set_pl_workers set_pl_submitted set_pl_msgs set_pl_next] in *.
  split.
  - apply sent_runs; try done; [by rewrite (wd_size _ _ Hw1)|]. unfold INT_MAX in *. lia.
  - exists p1, w. by split_and!.
Qed.
(** A response changes hands. *)
Definition taken (i : nat) (msg : positive) (l : list positive) (w : bio_worker_thread_t)
    (p : bio_pool_t) : bio_pool_t :=
  set_pl_workers <[i := set_wk_taken (wk_taken w ++ [msg]) (set_wk_responses l w)]> p.

Lemma taken_runs p i msg l w :
  pool_runs K p → pl_workers p !! i = Some w → wk_responses w = msg :: l →
  pool_runs K (taken i msg l w p).
Proof.
  intros Hok Hi Hl. pose proof (in_workers _ _ _ Hok Hi) as [H1 H2 H3 H4].
  set (w' := set_wk_taken (wk_taken w ++ [msg]) (set_wk_responses l w)).
  assert (Hf : finished w' ≡ₚ finished w) by (unfold finished; cbn; rewrite Hl; solve_Permutation).
  assert (Hw' : worker_ok (pl_queue_size p) w').
  { split; [done| | |done].
    - cbn. rewrite Hl, zlen_cons in H2. lia.
    - change (wk_load w = zlen (pending w ++ finished w')). by rewrite Hf, H3. }
  pose proof (worker_moved_nil _ _ _ _ _ Hok Hi Hw' (Permutation_refl _) Hf) as H. exact H.
Qed.

Lemma consume_response_spec schedule p i :
  pool_runs K p → (i < length (pl_workers p))%nat →
  wp (consume_response schedule i) (λ r p', pool_runs K p' ∧ ∃ p1 w, worked p p1 ∧ pool_runs K p1 ∧
    pl_workers p1 !! i = Some w ∧
    match r with
    | Some msg => ∃ l, wk_responses w = msg :: l ∧ p' = taken i msg l w p1
    | None => wk_responses w = [] ∧ p' = p1
    end) p.
Proof.
  intros Hok Hi. unfold consume_response. wp_use look_spec; [done|]. intros [] p1 [Hok1 Hw1].
  apply lookup_lt_is_Some in Hi as [w0 Hi]. destruct (worked_lookup _ _ _ _ Hw1 Hi) as (w & Hw & _).
  wp_step. eapply get_worker_spec; [done|]. unfold put_worker.
  destruct (wk_responses w) as [|msg l] eqn:El; wp_steps.
  - split; [done|]. exists p1, w. by split_and!.
  - split; [by eapply (taken_runs p1 i msg l w)|]. exists p1, w. split_and!; [done..|]. by exists l.
Qed.

(** A response was dealt with. *)
Definition reported (i : nat) (msg : positive) (w : bio_worker_thread_t) (p : bio_pool_t) : bio_pool_t :=
  set_pl_msgs (delete msg)
    (set_pl_reported (λ l, l ++ [msg])
      (set_pl_num_running (λ n, n - 1)
        (set_pl_workers <[i := set_wk_taken (filter (λ m, m ≠ msg) (wk_taken w))
          (set_wk_load (wk_load w - 1) w)]> p))).

Lemma inflight_nodup p : pool_runs K p → NoDup (pl_reported p ++ all_inflight p).
Proof. intros Hok. rewrite <- (pk_submitted _ _ Hok). apply Hok. Qed.

Lemma reported_runs p i msg w :
  pool_runs K p → pl_workers p !! i = Some w → msg ∈ wk_taken w →
  pool_runs K (reported i msg w p) ∧ zlen (all_inflight (reported i msg w p)) = zlen (all_inflight p) - 1.
Proof.
  intros Hok Hi Hmsg. pose proof (in_workers _ _ _ Hok Hi) as [H1 H2 H3 H4].
  pose proof (inflight_nodup _ Hok) as Hnd. apply NoDup_app in Hnd as (_ & _ & Hnd).
  destruct Hok as [Hs Hw Hms Hj Hf Hn Hsub Hran Hrun Hint].
  set (l := filter (λ m, m ≠ msg) (wk_taken w)).
  set (w' := set_wk_taken l (set_wk_load (wk_load w - 1) w)). set (p' := reported i msg w p).
  destruct (bind_insert pending _ _ _ Hi) as (r1 & E1 & E1').
  destruct (bind_insert finished _ _ _ Hi) as (r2 & E2 & E2').
  assert (Hl : wk_taken w ≡ₚ msg :: l).
  { apply filter_out; [|done]. unfold all_inflight, all_pending, all_finished in Hnd.
    rewrite E1, E2 in Hnd. unfold finished in Hnd. rewrite !NoDup_app in Hnd. tauto. }
  assert (Hfin : finished w ≡ₚ msg :: finished w').
  { unfold finished. change (wk_taken w') with l. rewrite Hl. cbn. solve_Permutation. }
  assert (Hall : all_inflight p ≡ₚ msg :: all_inflight p').
  { unfold all_inflight, all_pending, all_finished.
    change (pl_workers p') with (<[i := w']> (pl_workers p)). rewrite E1, E2, E1', E2', Hfin.
    change (pending w') with (pending w). solve_Permutation. }
  assert (Hlen : zlen (all_inflight p') = zlen (all_inflight p) - 1) by (rewrite Hall, zlen_cons; lia).
  split; [|done]. split.
  - done.
  - apply Forall_insert; [done|]. split; [done|done| |done].
    change (wk_load w - 1 = zlen (inflight w')). rewrite H3. unfold inflight.
    change (pending w') with (pending w). rewrite Hfin, !zlen_app, zlen_cons. lia.
  - intros y Hy. change (pl_msgs p') with (delete msg (pl_msgs p)).
    rewrite lookup_delete_ne; [apply Hms; rewrite Hall; by right|].
    intros <-. rewrite Hall in Hnd. by apply NoDup_cons in Hnd as [? _].
  - change (map_Forall (λ m x, (m < pl_next p)%positive ∧ wm_type x = BIO_WORKER_MSG_RUN ∧
      K (wm_signal x)) (delete msg (pl_msgs p))). by apply map_Forall_delete.
  - exact Hf.
  - exact Hn.
  - change (pl_submitted p ≡ₚ (pl_reported p ++ [msg]) ++ all_inflight p'). rewrite Hsub, Hall. solve_Permutation.
  - change (pl_ran p ≡ₚ (pl_reported p ++ [msg]) ++ all_finished p'). rewrite Hran.
    unfold all_finished. change (pl_workers p') with (<[i := w']> (pl_workers p)).
    rewrite E2, E2', Hfin. solve_Permutation.
  - rewrite Hlen. change (pl_num_running p - 1 = zlen (all_inflight p) - 1). lia.
  - change (pl_num_running p - 1 ≤ INT_MAX). lia.
Qed.

Lemma finish_response_spec p i msg w :
  pool_runs K p → pl_workers p !! i = Some w → msg ∈ wk_taken w →
  wp (_ ← count_down i msg; free_msg i msg) (λ _ p', p' = reported i msg w p) p.
Proof.
  intros Hok Hi Hmsg. pose proof (in_workers _ _ _ Hok Hi) as [H1 H2 H3 H4].
  assert (Hlen : (i < length (pl_workers p))%nat) by by eapply lookup_lt_Some.
  assert (Hin : msg ∈ inflight w) by (unfold inflight, finished; set_solver).
  destruct (held_msg _ _ _ _ _ Hok Hi Hin) as (x & Hx & _).
  unfold count_down, free_msg, put_worker. wp_steps.
  eapply get_worker_spec; [done|]. wp_steps. eapply get_worker_spec; [by apply list_lookup_insert_eq|].
  wp_steps. eapply deref_msg_spec; [done|]. wp_steps.
  unfold reported. replace (u32 (wk_load w - 1)) with (wk_load w - 1); [by pool_eq|].
  symmetry. apply Z.mod_small. pose proof (inflight_bound _ _ _ Hok Hi) as Hb.
  pose proof (pk_int _ _ Hok). unfold INT_MAX in *. pose proof (zlen_elem _ _ Hin). lia.
Qed.
End main_specs.

(** *** Jobs *)

(** The account of the jobs: each is run once at most and reported once at most, after it
    was run; the number of running jobs is that of the jobs that were not reported. *)
Record jobs_accounted (p : bio_pool_t) : Prop := {
  ja_submitted : NoDup (pl_submitted p);
  ja_ran : NoDup (pl_ran p) ∧ pl_ran p ⊆ pl_submitted p;
  ja_reported : NoDup (pl_reported p) ∧ pl_reported p ⊆ pl_ran p;
  ja_running : pl_num_running p = zlen (pl_submitted p) - zlen (pl_reported p);
  ja_none : pl_num_running p = 0 → pl_ran p ≡ₚ pl_submitted p ∧ pl_reported p ≡ₚ pl_submitted p;
}.

Lemma runs_accounted K p : pool_runs K p → jobs_accounted p.
Proof.
  intros [_ _ _ _ _ Hn Hsub Hran Hrun _]. unfold all_inflight in *.
  assert (Hs : pl_submitted p ≡ₚ pl_ran p ++ all_pending p) by (rewrite Hsub, Hran; solve_Permutation).
  assert (Hnd : NoDup (pl_ran p)) by (rewrite Hs in Hn; by apply NoDup_app in Hn as []).
  assert (Hz : zlen (pl_submitted p) = zlen (pl_reported p) + pl_num_running p)
    by (rewrite (zlen_perm _ _ Hsub), !zlen_app, Hrun, zlen_app; lia).
  split; [done| | |lia|].
  - split; [done|]. intros m Hm. rewrite Hs. set_solver.
  - split; [rewrite Hran in Hnd; by apply NoDup_app in Hnd as []|]. intros m Hm. rewrite Hran. set_solver.
  - intros E. rewrite E in Hrun. symmetry in Hrun. rewrite zlen_app in Hrun.
    pose proof (zlen_nonneg (all_pending p)). pose proof (zlen_nonneg (all_finished p)).
    assert (E1 : all_pending p = []) by (apply nil_length_inv; unfold zlen in *; lia).
    assert (E2 : all_finished p = []) by (apply nil_length_inv; unfold zlen in *; lia).
    rewrite E1, E2 in *. rewrite !app_nil_r in *. by rewrite Hsub, Hran.
Qed.
