(* ===== verification/Shutdown.v ===== *)
(** The end of the thread pool ([bio_thread_cleanup] in [src/thread.c]): every worker is
    told to terminate, and joined. The waits of the main thread are loops over [look]; the
    fuel of these is enough if every worker is scheduled again and again. *)
From S2P Require Import Prelude HandleTable Pool.

(** ** The code *)

Section code.
Context (schedule : nat → list nat).

(** [bio_spscq_consume(&worker->response_queue, true)]. *)
Fixpoint await_response (fuel i : nat) : st bio_pool_t positive :=
  match fuel with
  | O => fail OutOfFuel
  | S fuel =>
      r ← consume_response schedule i;
      match r with
      | Some msg => mret msg
      | None => await_response fuel i
      end
  end.

(** [if (msg != &terminate) { bio_free(msg); }]. *)
Definition discard (terminate : positive) (i : nat) (msg : positive) : st bio_pool_t unit :=
  if decide (msg = terminate) then
    w ← get_worker i;
    put_worker i (set_wk_taken (filter (λ m, m ≠ msg) (wk_taken w)) w)
  else free_msg i msg.

Fixpoint discard_responses (fuel i : nat) (terminate : positive) : st bio_pool_t unit :=
  match fuel with
  | O => fail OutOfFuel
  | S fuel =>
      r ← consume_response schedule i;
      match r with
      | Some msg => _ ← discard terminate i msg; discard_responses fuel i terminate
      | None => mret tt
      end
  end.

(** [bio_spscq_produce(&worker->request_queue, &terminate, false)]. *)
Definition produce_terminate (i : nat) (terminate : positive) : st bio_pool_t bool :=
  _ ← look schedule;
  w ← get_worker i;
  p ← get;
  if zlen (wk_requests w) <? pl_queue_size p then
    _ ← put_worker i (set_wk_requests (wk_requests w ++ [terminate]) w);
    mret true
  else mret false.

(** The loop that sends the message. *)
Fixpoint send_terminate (fuel i : nat) (terminate : positive) : st bio_pool_t unit :=
  match fuel with
  | O => fail OutOfFuel
  | S fuel =>
      sent_it ← produce_terminate i terminate;
      if sent_it : bool then mret tt
      else
        msg ← await_response fuel i;
        _ ← discard terminate i msg;
        _ ← discard_responses fuel i terminate;
        send_terminate fuel i terminate
  end.

(** [thrd_join]. *)
Fixpoint thrd_join (fuel i : nat) : st bio_pool_t unit :=
  match fuel with
  | O => fail OutOfFuel
  | S fuel =>
      _ ← look schedule;
      w ← get_worker i;
      match wk_phase w with
      | WStopped => mret tt
      | _ => thrd_join fuel i
      end
  end.

Definition cleanup_worker (fuel i : nat) (terminate : positive) : st bio_pool_t unit :=
  _ ← send_terminate fuel i terminate;
  _ ← discard_responses fuel i terminate;
  thrd_join fuel i.

(** The loop over [n] workers from [i] on. *)
Fixpoint cleanup_workers (fuel n i : nat) (terminate : positive) : st bio_pool_t unit :=
  match n with
  | O => mret tt
  | S n => _ ← cleanup_worker fuel i terminate; cleanup_workers fuel n (S i) terminate
  end.

(** [bio_thread_cleanup]; the message is on the stack of the main thread. *)
Definition terminate_msg : bio_worker_msg_t :=
  mk_worker_msg BIO_WORKER_MSG_TERMINATE false 1 None BIO_INVALID_HANDLE.

Definition bio_thread_cleanup (fuel : nat) : st bio_pool_t unit :=
  p ← get;
  let terminate := pl_next p in
  _ ← modify (set_pl_next Pos.succ);
  _ ← modify (set_pl_msgs <[terminate := terminate_msg]>);
  _ ← cleanup_workers fuel (length (pl_workers p)) 0 terminate;
  modify (set_pl_workers (λ _, [])).
End code.

(** ** One worker *)

(** What a worker has still to do, in this order; what it has in its hands to respond with;
    and all that it has. *)
Definition todo (w : bio_worker_thread_t) : list positive :=
  match wk_phase w with WSwitch msg => [msg] | _ => [] end ++ wk_requests w.

Definition hand (w : bio_worker_thread_t) : list positive :=
  match wk_phase w with WRespond msg _ | WProduce msg _ _ => [msg] | _ => [] end.

Definition unread (w : bio_worker_thread_t) : list positive := todo w ++ hand w ++ wk_responses w.
Definition held (w : bio_worker_thread_t) : list positive := unread w ++ wk_taken w.

(** The number of steps to the end. *)
Definition phase_steps (ph : worker_phase) : nat :=
  match ph with
  | WIdle | WStopped => 0
  | WSwitch _ => 4
  | WRespond _ _ => 3
  | WProduce _ _ _ => 2
  | WNotify _ => 1
  end.

Definition measure (w : bio_worker_thread_t) : nat := 5 * length (wk_requests w) + phase_steps (wk_phase w).

(** The worker waits for the main thread, or is at its end. *)
Definition stuck (qs : Z) (w : bio_worker_thread_t) : Prop :=
  match wk_phase w with
  | WIdle => wk_requests w = []
  | WProduce _ _ _ => qs * 2 ≤ zlen (wk_responses w)
  | WStopped => True
  | _ => False
  end.

Section worker.
Context (t : positive).
Implicit Types (w : bio_worker_thread_t).

(** The message is not there yet; it will be the last one, or was it. *)
Definition alive w : Prop := t ∉ todo w ∧ goes_on (wk_phase w) = true.

Definition stopping w : Prop :=
  (∃ l, todo w = l ++ [t] ∧ t ∉ l ∧ goes_on (wk_phase w) = true) ∨
  (todo w = [] ∧ goes_on (wk_phase w) = false).

Abbreviation jobs l := (filter (λ m, m ≠ t) l).

(** How a worker changes while the main thread does nothing with it. *)
Record moved w w' : Prop := {
  mv_unread : unread w' ≡ₚ unread w;
  mv_taken : wk_taken w' = wk_taken w;
  mv_requests : zlen (wk_requests w') ≤ zlen (wk_requests w);
  mv_alive : alive w → alive w';
  mv_stopping : stopping w → stopping w';
  mv_stopped : wk_phase w = WStopped → wk_phase w' = WStopped;
  mv_measure : (measure w' ≤ measure w)%nat;
}.

#[export] Instance moved_preorder : PreOrder moved.
Proof. split; [by split|]. intros w1 w2 w3 [] []. split; auto; [by etrans|congruence|lia|lia]. Qed.

(** One step: the jobs [ran] are run. *)
Record advanced (qs : Z) w (ran : list positive) w' : Prop := {
  ad_moved : moved w w';
  ad_jobs : jobs (todo w) ≡ₚ ran ++ jobs (todo w');
  ad_responses : zlen (wk_responses w) ≤ qs * 2 → zlen (wk_responses w') ≤ qs * 2;
  ad_measure : ¬ stuck qs w → (measure w' < measure w)%nat;
}.

Lemma advanced_stuck qs w : stuck qs w → advanced qs w [] w.
Proof. by split. Qed.

(** What the pool knows of a worker. *)
Record closing_worker (qs : Z) w : Prop := {
  cw_requests : zlen (wk_requests w) ≤ qs;
  cw_responses : zlen (wk_responses w) ≤ qs * 2;
  cw_mode : alive w ∨ stopping w;
}.

Lemma closing_worker_moved qs w ran w' :
  closing_worker qs w → advanced qs w ran w' → closing_worker qs w'.
Proof. intros [H1 H2 H3] [[P Ht Hr A B _ _] _ H6 _]. split; [lia|auto|naive_solver]. Qed.

(** A worker that is not at its end, and gets closer to it. *)
Lemma advanced_intro qs w ran w' :
  wk_phase w ≠ WStopped → (measure w' < measure w)%nat →
  unread w' ≡ₚ unread w → wk_taken w' = wk_taken w →
  zlen (wk_requests w') ≤ zlen (wk_requests w) →
  (zlen (wk_responses w) ≤ qs * 2 → zlen (wk_responses w') ≤ qs * 2) →
  jobs (todo w) ≡ₚ ran ++ jobs (todo w') →
  (alive w → alive w') → (stopping w → stopping w') → advanced qs w ran w'.
Proof. intros. split; [split|..]; try done; lia. Qed.

(** The same, when there is as much to do. *)
Lemma advanced_same qs w w' :
  wk_phase w ≠ WStopped → (measure w' < measure w)%nat →
  todo w' = todo w → hand w' ++ wk_responses w' ≡ₚ hand w ++ wk_responses w → wk_taken w' = wk_taken w →
  zlen (wk_requests w') ≤ zlen (wk_requests w) →
  (zlen (wk_responses w) ≤ qs * 2 → zlen (wk_responses w') ≤ qs * 2) →
  goes_on (wk_phase w') = goes_on (wk_phase w) → advanced qs w [] w'.
Proof.
  intros Hs Hm Ht Hh Hk Hr Hq Hg. apply advanced_intro; try done.
  - unfold unread. by rewrite Ht, Hh.
  - by rewrite Ht.
  - unfold alive. by rewrite Ht, Hg.
  - unfold stopping. by rewrite Ht, Hg.
Qed.

End worker.

(** ** The pool *)

Section pool.
(** The message that tells the workers to terminate. *)
Context (t : positive).
Implicit Types (p : bio_pool_t) (w : bio_worker_thread_t).

Abbreviation jobs l := (filter (λ m, m ≠ t) l).

Record closing p : Prop := {
  cl_size : 0 < pl_queue_size p;
  cl_workers : ∀ i w, pl_workers p !! i = Some w → closing_worker t (pl_queue_size p) w;
  cl_terminate : ∃ x, pl_msgs p !! t = Some x ∧ wm_type x = BIO_WORKER_MSG_TERMINATE;
  cl_known : ∀ m, m ∈ jobs (pl_workers p ≫= held) → ∃ x, pl_msgs p !! m = Some x ∧ wm_type x = BIO_WORKER_MSG_RUN;
  cl_jobs : pl_submitted p ≡ₚ pl_ran p ++ jobs (pl_workers p ≫= todo);
  cl_nodup : NoDup (jobs (pl_workers p ≫= held));
}.

(** *** Steps of a worker *)

(** The next request is taken. *)
Lemma take_advanced qs w m l :
  wk_phase w = WIdle → wk_requests w = m :: l →
  advanced t qs w [] (set_wk_phase (WSwitch m) (set_wk_requests l w)).
Proof.
  intros Hp Hl. apply advanced_same; unfold measure, todo, hand; rewrite ?Hp, ?Hl; try done; [cbn; lia|].
  cbn. rewrite zlen_cons. lia.
Qed.

(** A message is dealt with: a job, which is run, or the request to terminate. *)
Lemma job_advanced qs w m :
  wk_phase w = WSwitch m → m ≠ t → advanced t qs w [m] (set_wk_phase (WRespond m true) w).
Proof.
  intros Hp Hm. set (w' := set_wk_phase _ _).
  assert (Ht : todo w = m :: todo w') by (unfold todo; rewrite Hp; done).
  apply advanced_intro; try done.
  - by rewrite Hp.
  - unfold measure. rewrite Hp. cbn. lia.
  - unfold unread. rewrite Ht. unfold hand. rewrite Hp. cbn. solve_Permutation.
  - rewrite Ht, filter_cons_True by done. done.
  - unfold alive. rewrite Ht, Hp. cbn. set_solver.
  - unfold stopping. rewrite Ht, Hp. intros [(l & E & Hl & _)|[? _]]; [|done]. left.
    destruct l as [|m' l]; [by injection E as ->|]. injection E as -> E. exists l. split_and!; [done|set_solver|done].
Qed.

Lemma terminate_advanced qs w :
  wk_phase w = WSwitch t → alive t w ∨ stopping t w → advanced t qs w [] (set_wk_phase (WRespond t false) w).
Proof.
  intros Hp Hmode. set (w' := set_wk_phase _ _).
  assert (Ht : todo w = t :: todo w') by (unfold todo; rewrite Hp; done).
  assert (Hn : ¬ alive t w) by (intros [Ha _]; apply Ha; rewrite Ht; by left).
  assert (Hs : todo w' = []).
  { destruct Hmode as [?|[(l & E & Hl & _)|[E _]]]; [done| |by rewrite Ht in E].
    rewrite Ht in E. destruct l as [|m l]; [by injection E|]. injection E as <- E. destruct Hl. by left. }
  apply advanced_intro; try done.
  - by rewrite Hp.
  - unfold measure. rewrite Hp. cbn. lia.
  - unfold unread. rewrite Ht. unfold hand. rewrite Hp. cbn. solve_Permutation.
  - rewrite Ht, filter_cons_False by auto. done.
  - intros _. by right.
Qed.

(** It is a job, or the request to terminate, that a worker has. *)
Lemma held_known p i w m :
  closing p → pl_workers p !! i = Some w → m ∈ held w →
  ∃ x, pl_msgs p !! m = Some x ∧
    wm_type x = if decide (m = t) then BIO_WORKER_MSG_TERMINATE else BIO_WORKER_MSG_RUN.
Proof.
  intros Hc Hi Hm. case_decide as E; [subst; apply Hc|]. apply (cl_known _ Hc).
  apply list_elem_of_filter. split; [done|]. apply list_elem_of_bind. exists w.
  split; [done|]. by eapply list_elem_of_lookup_2.
Qed.

(** A worker has taken a step. *)
Definition stepped (i : nat) w' (ran : list positive) (f : notifier → notifier) p : bio_pool_t :=
  set_pl_notifier f (set_pl_ran (λ l, l ++ ran) (set_pl_workers <[i := w']> p)).

Lemma quiet_step i w' p : stepped i w' [] id p = set_pl_workers <[i := w']> p.
Proof. destruct p. unfold stepped, set_pl_notifier, set_pl_ran, set_pl_workers. cbn. by rewrite app_nil_r. Qed.

Lemma no_step i w p : pl_workers p !! i = Some w → stepped i w [] id p = p.
Proof.
  intros Hi. rewrite quiet_step. destruct p. unfold set_pl_workers. cbn in *. by rewrite list_insert_id.
Qed.

Lemma advance p i w :
  closing p → pl_workers p !! i = Some w → ∃ w' ran f,
    bio_async_worker i p = Ok (tt, stepped i w' ran f p) ∧ advanced t (pl_queue_size p) w ran w'.
Proof.
  intros Hc Hi. pose proof (cl_workers _ Hc _ _ Hi) as [H1 H2 H3].
  pose proof (held_known p i w) as Hmsg. unfold held, unread, todo, hand in Hmsg.
  unfold bio_async_worker, get_worker, deref_msg, put_worker, bio_platform_notify, modify, need, get,
    mbind, st_bind, mret, st_ret.
  rewrite Hi. destruct (wk_phase w) as [|m|m r|m nt r|r|] eqn:Hp; cbn beta iota.
  - destruct (wk_requests w) as [|m l] eqn:Hl.
    + exists w, [], id. rewrite no_step by done. split; [done|]. apply advanced_stuck. unfold stuck; by rewrite Hp.
    + eexists _, [], id. rewrite quiet_step. split; [done|]. by apply take_advanced.
  - destruct (Hmsg m) as (x & Hx & Ht); [done..|set_solver|]. rewrite Hx. case_decide as E; rewrite Ht.
    + subst. eexists _, [], id. rewrite quiet_step. split; [done|]. by apply terminate_advanced.
    + eexists _, [m], id. split; [done|]. by apply job_advanced.
  - destruct (Hmsg m) as (x & Hx & _); [done..|set_solver|]. rewrite Hx.
    eexists _, [], id. rewrite quiet_step. split; [done|].
    apply advanced_same; unfold measure, todo, hand; rewrite ?Hp; try done. cbn. lia.
  - destruct (Z.ltb_spec (zlen (wk_responses w)) (pl_queue_size p * 2)).
    + eexists _, [], id. rewrite quiet_step. split; [done|].
      apply advanced_same; unfold measure, todo, hand; rewrite ?Hp; try done; destruct nt, r; cbn;
        rewrite ?zlen_snoc; try lia; try done; by rewrite Permutation_app_comm.
    + exists w, [], id. rewrite no_step by done. split; [done|]. apply advanced_stuck. unfold stuck. by rewrite Hp.
  - eexists _, [], (λ n, if has_op_futex_wait n
      then mk_notifier true (u32 (notification_counter n + 1)) (eventfd_counter n)
      else mk_notifier false (notification_counter n) (u64 (eventfd_counter n + 1))).
    split; [unfold stepped; do 2 f_equal; destruct p; unfold set_pl_notifier, set_pl_ran, set_pl_workers; cbn; by rewrite app_nil_r|].
    apply advanced_same; unfold measure, todo, hand; rewrite ?Hp; try done; destruct r; cbn; try done; lia.
  - exists w, [], id. rewrite no_step by done. split; [done|]. apply advanced_stuck. unfold stuck. by rewrite Hp.
Qed.

(** A worker is replaced by one that has the same messages, or has dealt with some. *)
Lemma closing_insert p i w w' ran f :
  closing p → pl_workers p !! i = Some w → closing_worker t (pl_queue_size p) w' →
  jobs (held w') ≡ₚ jobs (held w) → jobs (todo w) ≡ₚ ran ++ jobs (todo w') →
  closing (stepped i w' ran f p).
Proof.
  intros [H1 H2 H3 H4 H5 H6] Hi Hw Hh Ht.
  destruct (bind_insert todo _ _ _ Hi) as (r1 & E1 & E1').
  destruct (bind_insert held _ _ _ Hi) as (r2 & E2 & E2').
  assert (Hall : jobs (<[i:=w']> (pl_workers p) ≫= held) ≡ₚ jobs (pl_workers p ≫= held)).
  { by rewrite E2, E2', !filter_app, Hh. }
  split.
  - done.
  - intros j w1 [(-> & <- & _)|[_ Hj]]%list_lookup_insert_Some; [done|]. by eapply H2.
  - done.
  - intros m. unfold stepped. cbn. rewrite Hall. apply H4.
  - change (pl_submitted p ≡ₚ (pl_ran p ++ ran) ++ jobs (<[i:=w']> (pl_workers p) ≫= todo)).
    rewrite H5, E1, E1', !filter_app, Ht. solve_Permutation.
  - unfold stepped. cbn. by rewrite Hall.
Qed.

(** The pool after some workers, those of [l], have taken steps. *)
Record progress (l : list nat) p p' : Prop := {
  pg_closing : closing p';
  pg_length : length (pl_workers p') = length (pl_workers p);
  pg_submitted : pl_submitted p' = pl_submitted p;
  pg_size : pl_queue_size p' = pl_queue_size p;
  pg_looks : pl_looks p' = pl_looks p;
  pg_workers : ∀ i w, pl_workers p !! i = Some w → ∃ w', pl_workers p' !! i = Some w' ∧ moved t w w' ∧
    (i ∉ l → w' = w) ∧ (i ∈ l → ¬ stuck (pl_queue_size p) w → (measure w' < measure w)%nat);
}.

Lemma progress_nil p : closing p → progress [] p p.
Proof. intros Hc. split; try done. intros i w Hi. exists w. split_and!; [done..|]. by intros ?%not_elem_of_nil. Qed.

Lemma progress_app l1 l2 p1 p2 p3 : progress l1 p1 p2 → progress l2 p2 p3 → progress (l1 ++ l2) p1 p3.
Proof.
  intros [_ A1 A2 A3 A4 A5] [B0 B1 B2 B3 B4 B5]. split; [done|congruence..|].
  intros i w Hi. destruct (A5 _ _ Hi) as (w1 & Hi1 & M1 & N1 & S1). destruct (B5 _ _ Hi1) as (w2 & Hi2 & M2 & N2 & S2).
  exists w2. split_and!; [done|by etrans| |].
  - intros Hn. rewrite N2 by set_solver. apply N1. set_solver.
  - rewrite elem_of_app. intros Hl Hs. destruct (decide (i ∈ l1)) as [H|H].
    + specialize (S1 H Hs). pose proof (mv_measure _ _ _ M2). lia.
    + rewrite <- (N1 H) in *. apply S2; [by destruct Hl|by rewrite A3].
Qed.

Lemma step_progress p i : closing p → (i < length (pl_workers p))%nat →
  ∃ p', bio_async_worker i p = Ok (tt, p') ∧ progress [i] p p'.
Proof.
  intros Hc [w Hi]%lookup_lt_is_Some. destruct (advance _ _ _ Hc Hi) as (w' & ran & f & E & Had).
  eexists. split; [exact E|]. split; try done.
  - eapply closing_insert; [done|done| | |].
    + eapply closing_worker_moved; [by eapply cl_workers|done].
    + pose proof (ad_moved _ _ _ _ _ Had) as M. unfold held.
      by rewrite (mv_unread _ _ _ M), (mv_taken _ _ _ M).
    + apply Had.
  - unfold stepped. cbn. by rewrite length_insert.
  - intros j w1 Hj. unfold stepped. cbn. destruct (decide (i = j)) as [<-|Hn].
    + assert (w1 = w) as -> by congruence. exists w'.
      rewrite list_lookup_insert_eq by (by eapply lookup_lt_Some). split_and!; [done|apply Had|set_solver|].
      intros _. apply Had.
    + exists w1. rewrite list_lookup_insert_ne by done. split_and!; [done..|]. intros ?%list_elem_of_singleton. congruence.
Qed.

Lemma run_progress l p : closing p → ∃ p', run_workers l p = Ok (tt, p') ∧
  progress (filter (λ i, i < length (pl_workers p))%nat l) p p'.
Proof.
  revert p. induction l as [|i l IH]; intros p Hc; [exists p; split; [done|by apply progress_nil]|].
  cbn [run_workers]. unfold mbind, st_bind, get. case_decide as Hi.
  - destruct (step_progress p i Hc Hi) as (p1 & -> & H1). destruct (IH p1) as (p2 & E2 & H2); [apply H1|].
    exists p2. split; [exact E2|]. rewrite filter_cons_True by done. rewrite (pg_length _ _ _ H1) in H2.
    exact (progress_app _ _ _ _ _ H1 H2).
  - destruct (IH p Hc) as (p2 & E2 & H2). exists p2. split; [exact E2|]. by rewrite filter_cons_False.
Qed.
End pool.

(** ** Enough fuel *)

(** With enough fuel, [m] ends in a value and a state that satisfy [Q], the same ones however
    much there is left. *)
Definition ends {A} (m : nat → st bio_pool_t A) (Q : A → bio_pool_t → Prop) (p : bio_pool_t) : Prop :=
  ∃ a p' f0, (∀ f, (f0 ≤ f)%nat → m f p = Ok (a, p')) ∧ Q a p'.

Lemma ends_ret {A} (a : A) (Q : A → bio_pool_t → Prop) p : Q a p → ends (λ _, mret a) Q p.
Proof. intros H. by exists a, p, 0%nat. Qed.

Lemma ends_run {A} (m : st bio_pool_t A) (Q : A → bio_pool_t → Prop) p a p' :
  m p = Ok (a, p') → Q a p' → ends (λ _, m) Q p.
Proof. intros E H. by exists a, p', 0%nat. Qed.

Lemma ends_bind {A B} (m : nat → st bio_pool_t A) (k : nat → A → st bio_pool_t B) Q p :
  ends m (λ a p', ends (λ f, k f a) Q p') p → ends (λ f, m f ≫= k f) Q p.
Proof.
  intros (a & p1 & f1 & E1 & b & p2 & f2 & E2 & H). exists b, p2, (f1 + f2)%nat. split; [|done].
  intros f Hf. unfold mbind, st_bind. rewrite E1 by lia. apply E2. lia.
Qed.

Lemma ends_mono {A} (m : nat → st bio_pool_t A) (P Q : A → bio_pool_t → Prop) p :
  ends m P p → (∀ a p', P a p' → Q a p') → ends m Q p.
Proof. intros (a & p' & f0 & E & H) HPQ. exists a, p', f0. split; [done|auto]. Qed.

Lemma ends_fuel {A} (m k : nat → st bio_pool_t A) Q p p1 :
  (∀ f, m (S f) p = k f p1) → ends k Q p1 → ends m Q p.
Proof.
  intros E (a & p' & f0 & Ek & H). exists a, p', (S f0). split; [|done].
  intros [|f] Hf; [lia|]. rewrite E. apply Ek. lia.
Qed.

(** ** The main thread *)

Section main_thread.
Context (schedule : nat → list nat) (t : positive).
Implicit Types (p : bio_pool_t) (w : bio_worker_thread_t).
Abbreviation jobs l := (filter (λ m, m ≠ t) l).

(** What does not change for the worse; but for worker [e], it may be told to terminate. *)
Record after (e : option nat) p p' : Prop := {
  af_length : length (pl_workers p') = length (pl_workers p);
  af_submitted : pl_submitted p' = pl_submitted p;
  af_size : pl_queue_size p' = pl_queue_size p;
  af_workers : ∀ i w, pl_workers p !! i = Some w → ∃ w', pl_workers p' !! i = Some w' ∧
    (e ≠ Some i → alive t w → alive t w') ∧ (stopping t w → stopping t w') ∧
    (wk_phase w = WStopped → wk_phase w' = WStopped) ∧
    (e ≠ Some i → (length (unread w') ≤ length (unread w))%nat);
}.

Lemma after_trans e p1 p2 p3 : after e p1 p2 → after e p2 p3 → after e p1 p3.
Proof.
  intros [A1 A2 A3 A4] [B1 B2 B3 B4]. split; [congruence..|].
  intros i w Hi. destruct (A4 _ _ Hi) as (w1 & Hi1 & ? & ? & ? & ?).
  destruct (B4 _ _ Hi1) as (w2 & Hi2 & ? & ? & ? & ?). exists w2. split_and!; [done|auto..|].
  intros He. assert (length (unread w1) ≤ length (unread w))%nat by auto.
  assert (length (unread w2) ≤ length (unread w1))%nat by auto. lia.
Qed.

Lemma after_but i p p' : after None p p' → after (Some i) p p'.
Proof.
  intros [A1 A2 A3 A4]. split; try done. intros j w Hj. destruct (A4 _ _ Hj) as (w' & ? & ? & ? & ? & ?).
  exists w'. split_and!; auto.
Qed.

Lemma progress_after l p p' : progress t l p p' → after None p p'.
Proof.
  intros [_ A1 A2 A3 _ A4]. split; try done. intros i w Hi. destruct (A4 _ _ Hi) as (w' & Hi' & M & _).
  exists w'. split_and!; [done|intros _; apply M|apply M|apply M|]. intros _. by rewrite (mv_unread _ _ _ M).
Qed.

Lemma look_progress p : closing t p → ∃ p', look schedule p = Ok (tt, p') ∧
  progress t (filter (λ i, i < length (pl_workers p))%nat (schedule (pl_looks p))) (set_pl_looks S p) p'.
Proof.
  intros Hc. unfold look, mbind, st_bind, get, modify.
  apply (run_progress t _ (set_pl_looks S p)). by destruct Hc.
Qed.

Lemma look_after p p' l : progress t l (set_pl_looks S p) p' → closing t p' ∧ after None p p'.
Proof. intros H. split; [apply H|]. pose proof (progress_after _ _ _ H) as []. by split. Qed.

(** *** Waits *)

(** Every worker takes steps again and again. *)
Definition fair (n : nat) : Prop := ∀ i k, (i < n)%nat → ∃ k', (k ≤ k')%nat ∧ i ∈ schedule k'.

(** A loop that looks what the workers do until [next] has a result; it waits for worker
    [i], which is not stuck before. *)
Section wait.
Context {A : Type} (m : nat → st bio_pool_t A) (next : bio_pool_t → option (A * bio_pool_t)) (i : nat)
  (J : Z → bio_worker_thread_t → Prop).
Context (Hm : ∀ f p p1, look schedule p = Ok (tt, p1) → is_Some (pl_workers p1 !! i) →
  m (S f) p = match next p1 with Some r => Ok r | None => m f p1 end).
Context (HJ : ∀ qs w w', J qs w → moved t w w' → J qs w').
Context (Hnext : ∀ p w, closing t p → pl_workers p !! i = Some w → J (pl_queue_size p) w → next p = None →
  ¬ stuck (pl_queue_size p) w).

Lemma wait_from n d p w :
  closing t p → pl_workers p !! i = Some w → J (pl_queue_size p) w → ¬ stuck (pl_queue_size p) w →
  measure w = n → i ∈ schedule (pl_looks p + d)%nat → fair (length (pl_workers p)) →
  ends m (λ a p', ∃ p1, closing t p1 ∧ after None p p1 ∧ next p1 = Some (a, p')) p.
Proof.
  revert d p w. induction (lt_wf n) as [n _ IHn]. intros d. induction d as [|d IHd]; intros p w Hc Hi HJw Hs Hn Hd Hf.
  all: destruct (look_progress p Hc) as (p1 & E & Hpg); destruct (look_after _ _ _ Hpg) as [Hc1 Ha1];
    pose proof (pg_workers _ _ _ _ Hpg i w Hi) as (w1 & Hi1 & M & Hsame & Hless).
  all: destruct (next p1) as [[a p']|] eqn:En;
    [exists a, p', 1%nat; split; [intros [|f] ?; [lia|]; by rewrite (Hm _ _ _ E (mk_is_Some _ _ Hi1)), En|by exists p1]|].
  all: assert (HJ1 : J (pl_queue_size p1) w1) by (rewrite (af_size _ _ _ Ha1); by eapply HJ).
  all: assert (Hs1 : ¬ stuck (pl_queue_size p1) w1) by by eapply Hnext.
  all: assert (Hf1 : fair (length (pl_workers p1))) by by rewrite (af_length _ _ _ Ha1).
  all: assert (Hk : pl_looks p1 = S (pl_looks p)) by exact (pg_looks _ _ _ _ Hpg).
  all: apply (ends_fuel m m _ p p1); [intros f; by rewrite (Hm _ _ _ E (mk_is_Some _ _ Hi1)), En|].
  all: eapply (ends_mono m (λ a p', ∃ p2, closing t p2 ∧ after None p1 p2 ∧ next p2 = Some (a, p')));
    [|intros a p' (p2 & ? & ? & ?); exists p2; split_and!; [done|by eapply after_trans|done]].
  - destruct (Hf1 i (pl_looks p1)) as (k & Hk1 & Hk2); [by eapply lookup_lt_Some|].
    eapply (IHn (measure w1)); [|done..| |done]; 
      [|replace (pl_looks p1 + (k - pl_looks p1))%nat with k by lia; done].
    subst n. apply Hless; [|done]. rewrite Nat.add_0_r in Hd. apply list_elem_of_filter.
    split; [by eapply lookup_lt_Some|done].
  - destruct (decide (measure w1 < n)%nat) as [Hlt|Hge].
    + destruct (Hf1 i (pl_looks p1)) as (k & Hk1 & Hk2); [by eapply lookup_lt_Some|].
      eapply (IHn (measure w1)); [|done..| |done]; 
        [done|replace (pl_looks p1 + (k - pl_looks p1))%nat with k by lia; done].
    + eapply IHd; [done..| | |done].
      * pose proof (mv_measure _ _ _ M). lia.
      * rewrite Hk. by replace (S (pl_looks p) + d)%nat with (pl_looks p + S d)%nat by lia.
Qed.

Lemma wait_ends p w :
  closing t p → pl_workers p !! i = Some w → J (pl_queue_size p) w → fair (length (pl_workers p)) →
  ends m (λ a p', ∃ p1, closing t p1 ∧ after None p p1 ∧ next p1 = Some (a, p')) p.
Proof.
  intros Hc Hi HJw Hf. destruct (look_progress p Hc) as (p1 & E & Hpg). destruct (look_after _ _ _ Hpg) as [Hc1 Ha1].
  pose proof (pg_workers _ _ _ _ Hpg i w Hi) as (w1 & Hi1 & M & _).
  assert (HJ1 : J (pl_queue_size p1) w1) by (rewrite (af_size _ _ _ Ha1); by eapply HJ).
  destruct (next p1) as [[a p']|] eqn:En;
    [exists a, p', 1%nat; split; [intros [|f] ?; [lia|]; by rewrite (Hm _ _ _ E (mk_is_Some _ _ Hi1)), En|by exists p1]|].
  assert (Hf1 : fair (length (pl_workers p1))) by by rewrite (af_length _ _ _ Ha1).
  destruct (Hf1 i (pl_looks p1)) as (k & Hk1 & Hk2); [by eapply lookup_lt_Some|].
  apply (ends_fuel m m _ p p1); [intros f; by rewrite (Hm _ _ _ E (mk_is_Some _ _ Hi1)), En|].
  eapply ends_mono; [eapply (wait_from _ (k - pl_looks p1) p1 w1); try done; [by eapply Hnext|]|].
  - by replace (pl_looks p1 + (k - pl_looks p1))%nat with k by lia.
  - intros a p' (p2 & ? & ? & ?). exists p2. split_and!; [done|by eapply after_trans|done].
Qed.
End wait.

(** *** Responses *)

Lemma closing_worker_same qs w w' :
  closing_worker t qs w → wk_phase w' = wk_phase w → wk_requests w' = wk_requests w →
  zlen (wk_responses w') ≤ zlen (wk_responses w) → closing_worker t qs w'.
Proof.
  intros [H1 H2 H3] Hp Hr Hs. split; [by rewrite Hr|lia|]. unfold alive, stopping, todo in *. by rewrite Hp, Hr.
Qed.

(** Worker [i] has one message less. *)
Definition shrunk (i : nat) p p' : Prop := ∀ w, pl_workers p !! i = Some w →
  ∃ w', pl_workers p' !! i = Some w' ∧ S (length (unread w')) = length (unread w).

(** The worker [w] after [msg] was taken from its responses and freed. *)
Definition discarded (msg : positive) (l : list positive) w : bio_worker_thread_t :=
  set_wk_taken (filter (λ m, m ≠ msg) (wk_taken w ++ [msg])) (set_wk_responses l w).

Lemma discarded_after p i msg l w g :
  pl_workers p !! i = Some w → wk_responses w = msg :: l →
  let p' := set_pl_msgs g (set_pl_workers <[i := discarded msg l w]> p) in
  after None p p' ∧ shrunk i p p'.
Proof.
  intros Hi Hl p'. assert (Hlen : (i < length (pl_workers p))%nat) by by eapply lookup_lt_Some.
  assert (Hu : S (length (unread (discarded msg l w))) = length (unread w)).
  { unfold unread. change (todo (discarded msg l w)) with (todo w). change (hand (discarded msg l w)) with (hand w).
    change (wk_responses (discarded msg l w)) with l. rewrite Hl, !length_app. cbn [length]. lia. }
  split.
  - split; try done; [apply length_insert|]. intros j w1 Hj. cbn. destruct (decide (i = j)) as [<-|Hn].
    + assert (w1 = w) as -> by congruence. exists (discarded msg l w). rewrite list_lookup_insert_eq by done.
      split_and!; try done. lia.
    + exists w1. rewrite list_lookup_insert_ne by done. split_and!; done || lia.
  - intros w1 Hj. assert (w1 = w) as -> by congruence. exists (discarded msg l w).
    cbn. by rewrite list_lookup_insert_eq.
Qed.

Lemma discard_ends p i msg l w :
  closing t p → pl_workers p !! i = Some w → wk_responses w = msg :: l →
  ∃ p', discard t i msg (taken i msg l w p) = Ok (tt, p') ∧ closing t p' ∧ after None p p' ∧ shrunk i p p'.
Proof.
  intros Hc Hi Hl. assert (Hlen : (i < length (pl_workers p))%nat) by by eapply lookup_lt_Some.
  pose proof (cl_workers _ _ Hc _ _ Hi) as Hw.
  assert (Hw' : closing_worker t (pl_queue_size p) (discarded msg l w)).
  { eapply closing_worker_same; [done..|]. rewrite Hl, zlen_cons. cbn. lia. }
  assert (Hmsg : msg ∈ held w) by (unfold held, unread; rewrite Hl; set_solver).
  unfold discard, free_msg, get_worker, put_worker, deref_msg, need, modify, get, mbind, st_bind, mret, st_ret, taken.
  case_decide as E; cbn [set_pl_workers pl_workers pl_msgs]; rewrite list_lookup_insert_eq by done;
    set (w' := set_wk_taken (wk_taken w ++ [msg]) _);
    assert (Hd : set_wk_taken (filter (λ m, m ≠ msg) (wk_taken w')) w' = discarded msg l w) by done.
  - exists (set_pl_msgs id (set_pl_workers <[i := discarded msg l w]> p)). split_and!.
    + cbn beta iota. rewrite Hd. do 2 f_equal. by pool_eq.
    + change (closing t (set_pl_workers <[i := discarded msg l w]> p)). rewrite <- quiet_step.
      apply (closing_insert t p i w); try done. subst msg. unfold held, unread. rewrite Hl.
      change (todo (discarded t l w)) with (todo w). change (hand (discarded t l w)) with (hand w).
      cbn [wk_responses wk_taken discarded set_wk_taken set_wk_responses].
      rewrite (filter_app _ _ (filter _ _)), list_filter_filter_l by done. rewrite !filter_app.
      rewrite (filter_cons_False _ t l), (filter_cons_False _ t []) by auto. cbn. by rewrite app_nil_r.
    + by eapply discarded_after.
    + by eapply discarded_after.
  - destruct (held_known t p i w msg Hc Hi Hmsg) as (x & Hx & _).
    exists (set_pl_msgs (delete msg) (set_pl_workers <[i := discarded msg l w]> p)). split_and!.
    + cbn [set_pl_workers pl_msgs]. rewrite Hx. cbn beta iota. rewrite Hd. do 2 f_equal. by pool_eq.
    + destruct Hc as [H1 H2 [xt Ht] H4 H5 H6].
      destruct (bind_insert held _ _ _ Hi) as (r2 & E2 & E2'). destruct (bind_insert todo _ _ _ Hi) as (r1 & E1 & E1').
      assert (Hh : jobs (pl_workers p ≫= held) ≡ₚ msg :: jobs (<[i:=discarded msg l w]> (pl_workers p) ≫= held)).
      { assert (Hn : msg ∉ wk_taken w).
        { rewrite E2 in H6. unfold held, unread in H6. rewrite Hl, !filter_app, filter_cons_True in H6 by done.
          rewrite !NoDup_app in H6. intros Hin. destruct H6 as ((_ & Hd' & _) & _). apply (Hd' msg).
          - set_solver.
          - by apply list_elem_of_filter. }
        rewrite E2, E2'. unfold held, unread.
        change (todo (discarded msg l w)) with (todo w). change (hand (discarded msg l w)) with (hand w).
        cbn [wk_responses wk_taken discarded set_wk_taken set_wk_responses].
        rewrite Hl, (filter_app _ (wk_taken w)), filter_cons_False by auto. rewrite (list_filter_all _ (wk_taken w)).
        - rewrite !filter_app, filter_cons_True by done. cbn. rewrite app_nil_r. solve_Permutation.
        - apply Forall_forall. intros m Hm. congruence. }
      rewrite Hh in H6. apply NoDup_cons in H6 as [Hnew Hnd]. split; cbn.
      * done.
      * intros j w1 [(-> & <- & _)|[_ Hj]]%list_lookup_insert_Some; [done|]. by eapply H2.
      * exists xt. by rewrite lookup_delete_ne.
      * intros m Hm. rewrite lookup_delete_ne by (intros ->; done). apply H4. rewrite Hh. by right.
      * rewrite H5, E1, E1'. change (todo (discarded msg l w)) with (todo w). done.
      * done.
    + by eapply discarded_after.
    + by eapply discarded_after.
Qed.

Lemma consume_run p p1 i w1 :
  look schedule p = Ok (tt, p1) → pl_workers p1 !! i = Some w1 →
  consume_response schedule i p = Ok (match wk_responses w1 with
    | [] => (None, p1) | msg :: l => (Some msg, taken i msg l w1 p1) end).
Proof.
  intros E Hi. unfold consume_response, get_worker, mbind, st_bind, need, get, put_worker, modify, mret, st_ret.
  rewrite E, Hi. by destruct (wk_responses w1).
Qed.

(** The first response of a worker that has messages. *)
Lemma await_ends p i w :
  closing t p → pl_workers p !! i = Some w → alive t w → unread w ≠ [] → fair (length (pl_workers p)) →
  ends (λ f, await_response schedule f i) (λ msg p', ∃ p1 w1 l, closing t p1 ∧ after None p p1 ∧
    pl_workers p1 !! i = Some w1 ∧ wk_responses w1 = msg :: l ∧ p' = taken i msg l w1 p1) p.
Proof.
  intros Hc Hi Ha Hu Hf.
  set (next := λ p1, match pl_workers p1 !! i with
    | Some w1 => match wk_responses w1 with [] => None | msg :: l => Some (msg, taken i msg l w1 p1) end
    | None => None end).
  eapply ends_mono; [apply (wait_ends _ next i (λ _ w, alive t w ∧ unread w ≠ [])) with (w := w); try done|].
  - intros f q q1 E [w1 Hi1]. cbn [await_response]. unfold mbind at 1, st_bind at 1.
    rewrite (consume_run _ _ _ _ E Hi1). unfold next. rewrite Hi1. by destruct (wk_responses w1).
  - intros _ w1 w2 [H1 H2] M. split; [by apply M|]. intros E. apply H2, Permutation_nil. rewrite <- E. apply M.
  - intros q w1 Hq Hi1 [[Hn Hg] Hu1] Hnone. unfold next in Hnone. rewrite Hi1 in Hnone.
    destruct (wk_responses w1) as [|? ?] eqn:Er; [|done]. pose proof (cl_size _ _ Hq).
    unfold stuck. unfold unread, todo, hand in Hu1. rewrite Er in *.
    destruct (wk_phase w1); try (by intros ?); [intros E; by rewrite E in Hu1|]. unfold zlen. cbn. lia.
  - intros msg p' (p1 & Hc1 & Ha1 & E). unfold next in E. destruct (pl_workers p1 !! i) as [w1|] eqn:Hi1; [|done].
    destruct (wk_responses w1) as [|msg' l] eqn:Er; [done|]. injection E as -> <-. by exists p1, w1, l.
Qed.

(** The responses that are there. *)
Lemma discard_responses_ends n p i w :
  closing t p → pl_workers p !! i = Some w → length (unread w) = n →
  ends (λ f, discard_responses schedule f i t) (λ _ p', closing t p' ∧ after None p p' ∧
    ∃ w', pl_workers p' !! i = Some w' ∧ wk_responses w' = []) p.
Proof.
  revert p w. induction (lt_wf n) as [n _ IH]. intros p w Hc Hi Hn.
  destruct (look_progress p Hc) as (p1 & E & Hpg). destruct (look_after _ _ _ Hpg) as [Hc1 Ha1].
  destruct (af_workers _ _ _ Ha1 _ _ Hi) as (w1 & Hi1 & _ & _ & _ & Hl1). specialize (Hl1 ltac:(done)).
  pose proof (consume_run _ _ _ _ E Hi1) as Ec. destruct (wk_responses w1) as [|msg l] eqn:Er.
  - eapply (ends_fuel _ (λ _, mret tt) _ p p1); [|apply ends_ret; split_and!; [done|done|by exists w1]].
    intros f. cbn [discard_responses]. unfold mbind, st_bind. by rewrite Ec.
  - destruct (discard_ends _ _ _ _ _ Hc1 Hi1 Er) as (p2 & E2 & Hc2 & Ha2 & Hsh).
    destruct (Hsh _ Hi1) as (w2 & Hi2 & Hl2).
    eapply (ends_fuel _ (λ f, discard_responses schedule f i t) _ p p2).
    { intros f. cbn [discard_responses]. unfold mbind, st_bind. by rewrite Ec, E2. }
    eapply ends_mono; [eapply (IH (length (unread w2))); [lia|done..]|]. intros [] p3 (? & ? & ?).
    split_and!; [done| |done]. do 2 (eapply after_trans; [done|]). done.
Qed.

(** *** The end of a worker *)

(** The message is put in the queue of a worker, if there is room. *)
Lemma produce_run p i w :
  closing t p → pl_workers p !! i = Some w → alive t w →
  ∃ p' b, produce_terminate schedule i t p = Ok (b, p') ∧ closing t p' ∧ after (Some i) p p' ∧
    ∃ w', pl_workers p' !! i = Some w' ∧ if b : bool then stopping t w' else after None p p' ∧ unread w' ≠ [].
Proof.
  intros Hc Hi Ha. destruct (look_progress p Hc) as (p1 & E & Hpg). destruct (look_after _ _ _ Hpg) as [Hc1 Ha1].
  destruct (af_workers _ _ _ Ha1 _ _ Hi) as (w1 & Hi1 & Halive & _). specialize (Halive ltac:(done) Ha).
  unfold produce_terminate, get_worker, put_worker, mbind, st_bind, need, get, modify, mret, st_ret. rewrite E, Hi1.
  destruct (Z.ltb_spec (zlen (wk_requests w1)) (pl_queue_size p1)) as [Hlt|Hge].
  2: { exists p1, false. split_and!; [done..|by apply after_but|]. exists w1. split_and!; [done..|].
    pose proof (cl_size _ _ Hc1). unfold unread, todo. intros [[_ E0]%app_eq_nil _]%app_eq_nil.
    rewrite E0 in Hge. unfold zlen in Hge. cbn in Hge. lia. }
  set (w' := set_wk_requests (wk_requests w1 ++ [t]) w1).
  assert (Ht : todo w' = todo w1 ++ [t]) by apply app_assoc.
  assert (Hs : stopping t w').
  { destruct Halive as [Hn Hg]. left. by exists (todo w1). }
  assert (Hjobs : ∀ l, jobs (l ++ [t]) = jobs l).
  { intros l. rewrite filter_app, filter_cons_False by auto. apply app_nil_r. }
  assert (Hh : held w' ≡ₚ held w1 ++ [t]).
  { unfold held, unread. rewrite Ht. change (hand w') with (hand w1). cbn. solve_Permutation. }
  eexists _, true. split; [done|]. split_and!.
  - rewrite <- quiet_step. apply (closing_insert t p1 i w1); try done; cbn [app].
    + pose proof (cl_workers _ _ Hc1 _ _ Hi1) as [H1 H2 H3]. split; [cbn; rewrite zlen_snoc; lia|done|by right].
    + by rewrite Hh, Hjobs.
    + by rewrite Ht, Hjobs.
  - eapply after_trans; [by apply after_but|]. split; try done; [apply length_insert|].
    intros j w2 Hj. cbn. destruct (decide (i = j)) as [<-|Hn].
    + assert (w2 = w1) as -> by congruence. exists w'. rewrite list_lookup_insert_eq by (by eapply lookup_lt_Some).
      by split_and!.
    + exists w2. rewrite list_lookup_insert_ne by done. split_and!; done || lia.
  - exists w'. cbn. by rewrite list_lookup_insert_eq by (by eapply lookup_lt_Some).
Qed.

Lemma fair_after e p p' : after e p p' → fair (length (pl_workers p)) → fair (length (pl_workers p')).
Proof. intros Ha. by rewrite (af_length _ _ _ Ha). Qed.

Lemma send_ends n p i w :
  closing t p → pl_workers p !! i = Some w → alive t w → length (unread w) = n → fair (length (pl_workers p)) →
  ends (λ f, send_terminate schedule f i t) (λ _ p', closing t p' ∧ after (Some i) p p' ∧
    ∃ w', pl_workers p' !! i = Some w' ∧ stopping t w') p.
Proof.
  revert p w. induction (lt_wf n) as [n _ IH]. intros p w Hc Hi Ha Hn Hf.
  destruct (produce_run _ _ _ Hc Hi Ha) as (p1 & [] & E1 & Hc1 & Ha1 & w1 & Hi1 & H1).
  - eapply (ends_fuel _ (λ _, mret tt) _ p p1); [|apply ends_ret; split_and!; [done|done|by exists w1]].
    intros f. cbn [send_terminate]. unfold mbind, st_bind. by rewrite E1.
  - destruct H1 as [Hb1 Hu1]. destruct (af_workers _ _ _ Hb1 _ _ Hi) as (w1' & Hi1' & Hal & _ & _ & Hl1).
    assert (w1' = w1) as -> by congruence. specialize (Hal ltac:(done) Ha). specialize (Hl1 ltac:(done)).
    eapply (ends_fuel _ (λ f, msg ← await_response schedule f i; _ ← discard t i msg;
      _ ← discard_responses schedule f i t; send_terminate schedule f i t) _ p p1).
    { intros f. cbn [send_terminate]. unfold mbind at 1, st_bind at 1. by rewrite E1. }
    apply ends_bind. eapply ends_mono; [eapply await_ends; [done..|by eapply fair_after]|].
    intros msg q (p2 & w2 & l & Hc2 & Ha2 & Hi2 & Hl & ->).
    destruct (af_workers _ _ _ Ha2 _ _ Hi1) as (w2' & Hi2' & Hal2 & _ & _ & Hl2).
    assert (w2' = w2) as -> by congruence. specialize (Hl2 ltac:(done)).
    destruct (discard_ends _ _ _ _ _ Hc2 Hi2 Hl) as (p3 & E3 & Hc3 & Ha3 & Hsh).
    destruct (Hsh _ Hi2) as (w3 & Hi3 & Hl3).
    apply ends_bind. eapply ends_run; [exact E3|]. apply ends_bind.
    eapply ends_mono; [by eapply discard_responses_ends|]. intros [] p4 (Hc4 & Ha4 & _).
    assert (Ha14 : after None p1 p4) by (eapply after_trans; [done|by eapply after_trans]).
    destruct (af_workers _ _ _ Ha14 _ _ Hi1) as (w4 & Hi4 & Hal4 & _).
    destruct (af_workers _ _ _ Ha4 _ _ Hi3) as (w4' & Hi4' & _ & _ & _ & Hl4).
    assert (w4' = w4) as -> by congruence. specialize (Hl4 ltac:(done)).
    assert (Ha04 : after None p p4) by by eapply after_trans.
    eapply ends_mono; [eapply (IH (length (unread w4))); [lia|done|done|by apply Hal4|done|by eapply fair_after]|].
    intros [] p5 (? & ? & ?). split_and!; [done| |done]. eapply after_trans; [by apply after_but|done].
Qed.

(** [thrd_join] does not wait for ever: the worker has room for all its responses. *)
Lemma join_ends p i w :
  closing t p → pl_workers p !! i = Some w → stopping t w → wk_responses w = [] → fair (length (pl_workers p)) →
  ends (λ f, thrd_join schedule f i) (λ _ p', closing t p' ∧ after None p p' ∧
    ∃ w', pl_workers p' !! i = Some w' ∧ wk_phase w' = WStopped) p.
Proof.
  intros Hc Hi Hs Hr Hf.
  set (next := λ p1, match pl_workers p1 !! i with
    | Some w1 => match wk_phase w1 with WStopped => Some (tt, p1) | _ => None end | None => None end).
  set (J := λ qs w, stopping t w ∧ zlen (unread w) ≤ qs + 1).
  assert (HJ0 : J (pl_queue_size p) w).
  { split; [done|]. pose proof (cw_requests _ _ _ (cl_workers _ _ Hc _ _ Hi)).
    unfold unread, todo, hand. rewrite Hr, !zlen_app. pose proof (zlen_nonneg (wk_requests w)).
    destruct (wk_phase w); cbn; unfold zlen in *; cbn; lia. }
  eapply ends_mono; [apply (wait_ends _ next i J) with (w := w); try done|].
  - intros f q q1 E [w1 Hi1]. cbn [thrd_join]. unfold get_worker, mbind, st_bind, need, get, mret, st_ret. rewrite E.
    unfold next. rewrite Hi1. cbn beta iota. by destruct (wk_phase w1).
  - intros qs w1 w2 [H1 H2] M. split; [by apply M|]. by rewrite (mv_unread _ _ _ M).
  - intros q w1 Hq Hi1 [Hs1 Hu1] Hnone. unfold next in Hnone. rewrite Hi1 in Hnone. pose proof (cl_size _ _ Hq).
    unfold stuck. unfold stopping, unread, todo, hand in *.
    destruct (wk_phase w1) eqn:Hp; try (by intros ?).
    + intros E. rewrite E in Hs1. destruct Hs1 as [(l & E1 & _)|[_ ?]]; [by destruct l|done].
    + rewrite !zlen_app in Hu1. pose proof (zlen_nonneg (wk_requests w1)). unfold zlen in *. cbn in *. lia.
  - intros [] p' (p1 & Hc1 & Ha1 & E). unfold next in E. destruct (pl_workers p1 !! i) as [w1|] eqn:Hi1; [|done].
    destruct (wk_phase w1) eqn:Hp; try done. injection E as <-. split_and!; [done|done|by exists w1].
Qed.

Lemma cleanup_worker_ends p i w :
  closing t p → pl_workers p !! i = Some w → alive t w → fair (length (pl_workers p)) →
  ends (λ f, cleanup_worker schedule f i t) (λ _ p', closing t p' ∧ after (Some i) p p' ∧
    ∃ w', pl_workers p' !! i = Some w' ∧ wk_phase w' = WStopped) p.
Proof.
  intros Hc Hi Ha Hf. unfold cleanup_worker. apply ends_bind.
  eapply ends_mono; [by eapply send_ends|]. intros [] p1 (Hc1 & Ha1 & w1 & Hi1 & Hs1). apply ends_bind.
  eapply ends_mono; [by eapply discard_responses_ends|]. intros [] p2 (Hc2 & Ha2 & w2 & Hi2 & Hr2).
  destruct (af_workers _ _ _ Ha2 _ _ Hi1) as (w2' & Hi2' & _ & Hs2 & _). assert (w2' = w2) as -> by congruence.
  assert (Ha02 : after (Some i) p p2) by (eapply after_trans; [done|by apply after_but]).
  eapply ends_mono; [eapply join_ends; [done|done|by apply Hs2|done|by eapply fair_after]|].
  intros [] p3 (? & ? & ?). split_and!; [done| |done]. eapply after_trans; [done|by apply after_but].
Qed.

Lemma cleanup_workers_ends n i p :
  closing t p → (i + n)%nat = length (pl_workers p) → fair (length (pl_workers p)) →
  (∀ j w, pl_workers p !! j = Some w → (j < i)%nat → wk_phase w = WStopped) →
  (∀ j w, pl_workers p !! j = Some w → (i ≤ j)%nat → alive t w) →
  ends (λ f, cleanup_workers schedule f n i t) (λ _ p', closing t p' ∧ pl_submitted p' = pl_submitted p ∧
    ∀ j w, pl_workers p' !! j = Some w → wk_phase w = WStopped) p.
Proof.
  revert i p. induction n as [|n IH]; intros i p Hc Hn Hf Hdone Halive; cbn [cleanup_workers].
  - apply ends_ret. split_and!; [done..|]. intros j w Hj. eapply Hdone; [done|].
    apply lookup_lt_Some in Hj. lia.
  - destruct (lookup_lt_is_Some_2 (pl_workers p) i) as [w Hi]; [lia|]. apply ends_bind.
    eapply ends_mono; [eapply cleanup_worker_ends; [done|done|by eapply Halive|done]|].
    intros [] p1 (Hc1 & Ha1 & w1 & Hi1 & Hw1). rewrite <- (af_submitted _ _ _ Ha1).
    assert (Hback : ∀ j w', pl_workers p1 !! j = Some w' → ∃ w0, pl_workers p !! j = Some w0).
    { intros j w' Hj. apply lookup_lt_is_Some. rewrite <- (af_length _ _ _ Ha1). by eapply lookup_lt_Some. }
    apply IH; [done|rewrite (af_length _ _ _ Ha1); lia|by eapply fair_after|..].
    + intros j w' Hj Hlt. destruct (decide (j = i)) as [->|Hne]; [congruence|].
      destruct (Hback _ _ Hj) as [w0 Hj0]. destruct (af_workers _ _ _ Ha1 _ _ Hj0) as (w2 & Hj2 & _ & _ & Hst & _).
      assert (w2 = w') as -> by congruence. apply Hst. eapply Hdone; [done|lia].
    + intros j w' Hj Hle. destruct (Hback _ _ Hj) as [w0 Hj0].
      destruct (af_workers _ _ _ Ha1 _ _ Hj0) as (w2 & Hj2 & Hal & _). assert (w2 = w') as -> by congruence.
      apply Hal; [intros [= ->]; lia|]. eapply Halive; [done|lia].
Qed.
End main_thread.

(** ** The end of the pool *)

Lemma bind_perm {A B} (f g : A → list B) l : (∀ x, f x ≡ₚ g x) → l ≫= f ≡ₚ l ≫= g.
Proof. intros H. induction l as [|x l IH]; [done|]. cbn. by rewrite H, IH. Qed.

Lemma bind_app_perm {A B} (f g : A → list B) l : l ≫= (λ x, f x ++ g x) ≡ₚ (l ≫= f) ++ (l ≫= g).
Proof. induction l as [|x l IH]; [done|]. cbn. rewrite IH. solve_Permutation. Qed.

Lemma todo_pending p : pl_workers p ≫= todo ≡ₚ all_pending p.
Proof. apply bind_perm. intros w. unfold todo, pending. apply Permutation_app_comm. Qed.

Lemma held_inflight p : pl_workers p ≫= held ≡ₚ all_inflight p.
Proof.
  unfold all_inflight, all_pending, all_finished. rewrite <- bind_app_perm. apply bind_perm. intros w.
  unfold held, unread, todo, hand, pending, finished. solve_Permutation.
Qed.

(** The pool, and the message on the stack of [bio_thread_cleanup]. *)
Definition begun (p : bio_pool_t) : bio_pool_t :=
  set_pl_msgs <[pl_next p := terminate_msg]> (set_pl_next Pos.succ p).

Lemma begun_closing K p : pool_runs K p →
  closing (pl_next p) (begun p) ∧ ∀ i w, pl_workers p !! i = Some w → alive (pl_next p) w.
Proof.
  intros Hok. assert (Hnew : ∀ m, m ∈ all_inflight p → m ≠ pl_next p).
  { intros m Hm ->. destruct (pk_msgs _ _ Hok _ Hm) as [x Hx]. apply (pk_jobs _ _ Hok) in Hx as [? _]. lia. }
  assert (Hall : filter (λ m, m ≠ pl_next p) (pl_workers p ≫= held) ≡ₚ all_inflight p).
  { rewrite held_inflight. rewrite list_filter_all; [done|]. by apply Forall_forall. }
  assert (Hlive : ∀ i w, pl_workers p !! i = Some w → alive (pl_next p) w).
  { intros i w Hi. split; [|apply (in_workers K p i w Hok Hi)]. intros Hm. eapply Hnew; [|done].
    rewrite <- held_inflight. apply list_elem_of_bind. exists w. split; [|by eapply list_elem_of_lookup_2].
    unfold held, unread. set_solver. }
  split; [|done]. pose proof (inflight_nodup _ _ Hok) as Hnd. apply NoDup_app in Hnd as (_ & _ & Hnd).
  pose proof Hok as [Hs Hw Hms Hj Hf Hn Hsub Hran Hrun Hint]. split.
  - apply Hs.
  - intros i w Hi. pose proof (in_workers K p i w Hok Hi) as []. split; [done..|]. left. by eapply Hlive.
  - exists terminate_msg. unfold begun. cbn. by rewrite lookup_insert_eq.
  - intros m. change (pl_workers (begun p)) with (pl_workers p). rewrite Hall. intros Hm.
    destruct (Hms _ Hm) as [x Hx]. exists x. unfold begun. cbn. rewrite lookup_insert_ne by (symmetry; by apply Hnew).
    split; [done|]. by apply Hj in Hx as (_ & ? & _).
  - change (pl_submitted p ≡ₚ pl_ran p ++ filter (λ m, m ≠ pl_next p) (pl_workers p ≫= todo)).
    rewrite todo_pending, list_filter_all.
    + rewrite Hsub, Hran. unfold all_inflight. solve_Permutation.
    + apply Forall_forall. intros m Hm. apply Hnew. unfold all_inflight. set_solver.
  - change (pl_workers (begun p)) with (pl_workers p). by rewrite Hall.
Qed.

(** C9: The thread pool comes to its end, whatever its workers and the queues are full of,
    if every worker is scheduled again and again: there is a number of steps after which
    [bio_thread_cleanup] has returned, without touching freed memory; every worker was
    joined, and every job that was ever sent to the pool was run, once. *)
Theorem cleanup_terminates K schedule p :
  pool_runs K p → fair schedule (length (pl_workers p)) →
  ∃ fuel p', (∀ f, (fuel ≤ f)%nat → bio_thread_cleanup schedule f p = Ok (tt, p')) ∧
    pl_workers p' = [] ∧ pl_submitted p' = pl_submitted p ∧ pl_ran p' ≡ₚ pl_submitted p.
Proof.
  intros Hok Hf. destruct (begun_closing _ _ Hok) as [Hc Hlive].
  assert (ends (λ f, cleanup_workers schedule f (length (pl_workers p)) 0 (pl_next p)) (λ _ p', closing (pl_next p) p' ∧
    pl_submitted p' = pl_submitted p ∧ ∀ j w, pl_workers p' !! j = Some w → wk_phase w = WStopped) (begun p))
    as (a & p1 & f0 & E & Hc1 & Hsub & Hstop).
  { apply (cleanup_workers_ends schedule (pl_next p) _ 0 (begun p)); [done|done|done|lia|]. intros j w Hj _. by eapply Hlive. }
  exists f0, (set_pl_workers (λ _, []) p1). split_and!; [|done|done|].
  - intros f Hle. unfold bio_thread_cleanup, mbind, st_bind, get, modify. cbn beta iota.
    change (set_pl_msgs <[pl_next p:=terminate_msg]> (set_pl_next Pos.succ p)) with (begun p). rewrite E by done. by destruct a.
  - change (pl_ran p1 ≡ₚ pl_submitted p). rewrite <- Hsub, (cl_jobs _ _ Hc1).
    assert (pl_workers p1 ≫= todo = []) as ->; [|by rewrite app_nil_r].
    assert (Ht : ∀ w, w ∈ pl_workers p1 → todo w = []).
    { intros w [j Hj]%list_elem_of_lookup_1. pose proof (Hstop _ _ Hj) as Hp.
      destruct (cw_mode _ _ _ (cl_workers _ _ Hc1 _ _ Hj)) as [[_ H]|[(? & _ & _ & H)|[H _]]];
        [by rewrite Hp in H..|done]. }
    revert Ht. clear. induction (pl_workers p1) as [|w l IH]; intros Ht; [done|]. cbn.
    rewrite Ht by (by left). apply IH. intros w' Hw'. apply Ht. by right.
Qed.
