(* ===== verification/Uring.v ===== *)
(** The io_uring of the Linux platform ([src/linux/platform.h], [src/linux/platform.c]):
    the submission queue, the requests that the kernel works on, and the completion
    queue.

    liburing and the kernel are not part of the program: what the kernel does in a call
    is given by a sequence of steps. A step says which of the requests under way are
    completed, and with which results; the ring is created such that this happens only
    when the thread enters the kernel. *)
From S2P Require Import Prelude HandleTable.

(** ** State *)

(** The user data of an entry: none, [&BIO_SIGNAL_POLL_DATA], a request. *)
Inductive io_data :=
  | NoData
  | PollData
  | ReqData (req : positive).

#[export] Instance io_data_eq_dec : EqDecision io_data.
Proof. solve_decision. Defined.

(** What an entry of the submission queue asks for. *)
Inductive io_op :=
  | OpRead (fd size : Z)
  | OpFutexWait (expected : Z)
  | OpClose (fd : Z)
  | OpOther (op : positive).

Record io_uring_sqe := mk_sqe { sqe_op : option io_op; sqe_data : io_data }.
Record io_uring_cqe := mk_cqe { cqe_data : io_data; cqe_res : Z; cqe_flags : Z }.

(** [bio_io_req_t]. *)
Record bio_io_req_t := mk_io_req { rq_signal : bio_handle_t; rq_res : Z; rq_flags : Z }.

(** [bio_platform_t], with the requests on the stacks of the coroutines. The completion
    queue is the sequence of all completions; those before [cq_head] were consumed, those
    before [cq_seen] were looked at. The counters of the notifier are in [Pool.v]. *)
Record bio_platform_t := mk_platform_t {
  ring_entries : Z;
  ring_sq : list io_uring_sqe;
  ring_inflight : list io_uring_sqe;
  ring_cq : list io_uring_cqe;
  cq_head : nat;
  cq_seen : nat;
  kernel_calls : nat;  (* how often the kernel was entered *)
  io_reqs : gmap positive bio_io_req_t;
  next_req : positive;
  signal_polled : bool;
  signalfd : Z;
  eventfd : Z;
  ack_counter : Z;
  has_op_bind : bool;
  has_op_listen : bool;
}.

Definition set_ring_sq (f : list io_uring_sqe → list io_uring_sqe) (s : bio_platform_t) : bio_platform_t :=
  mk_platform_t (ring_entries s) (f (ring_sq s)) (ring_inflight s) (ring_cq s) (cq_head s)
    (cq_seen s) (kernel_calls s) (io_reqs s) (next_req s) (signal_polled s) (signalfd s)
    (eventfd s) (ack_counter s) (has_op_bind s) (has_op_listen s).
Definition set_ring_inflight (f : list io_uring_sqe → list io_uring_sqe) (s : bio_platform_t) : bio_platform_t :=
  mk_platform_t (ring_entries s) (ring_sq s) (f (ring_inflight s)) (ring_cq s) (cq_head s)
    (cq_seen s) (kernel_calls s) (io_reqs s) (next_req s) (signal_polled s) (signalfd s)
    (eventfd s) (ack_counter s) (has_op_bind s) (has_op_listen s).
Definition set_ring_cq (f : list io_uring_cqe → list io_uring_cqe) (s : bio_platform_t) : bio_platform_t :=
  mk_platform_t (ring_entries s) (ring_sq s) (ring_inflight s) (f (ring_cq s)) (cq_head s)
    (cq_seen s) (kernel_calls s) (io_reqs s) (next_req s) (signal_polled s) (signalfd s)
    (eventfd s) (ack_counter s) (has_op_bind s) (has_op_listen s).
Definition set_cq_head (f : nat → nat) (s : bio_platform_t) : bio_platform_t :=
  mk_platform_t (ring_entries s) (ring_sq s) (ring_inflight s) (ring_cq s) (f (cq_head s))
    (cq_seen s) (kernel_calls s) (io_reqs s) (next_req s) (signal_polled s) (signalfd s)
    (eventfd s) (ack_counter s) (has_op_bind s) (has_op_listen s).
Definition set_cq_seen (f : nat → nat) (s : bio_platform_t) : bio_platform_t :=
  mk_platform_t (ring_entries s) (ring_sq s) (ring_inflight s) (ring_cq s) (cq_head s) (f
    (cq_seen s)) (kernel_calls s) (io_reqs s) (next_req s) (signal_polled s) (signalfd s)
    (eventfd s) (ack_counter s) (has_op_bind s) (has_op_listen s).
Definition set_kernel_calls (f : nat → nat) (s : bio_platform_t) : bio_platform_t :=
  mk_platform_t (ring_entries s) (ring_sq s) (ring_inflight s) (ring_cq s) (cq_head s) (cq_seen
    s) (f (kernel_calls s)) (io_reqs s) (next_req s) (signal_polled s) (signalfd s) (eventfd s)
    (ack_counter s) (has_op_bind s) (has_op_listen s).
Definition set_io_reqs (f : gmap positive bio_io_req_t → gmap positive bio_io_req_t) (s : bio_platform_t) : bio_platform_t :=
  mk_platform_t (ring_entries s) (ring_sq s) (ring_inflight s) (ring_cq s) (cq_head s) (cq_seen
    s) (kernel_calls s) (f (io_reqs s)) (next_req s) (signal_polled s) (signalfd s) (eventfd s)
    (ack_counter s) (has_op_bind s) (has_op_listen s).
Definition set_next_req (f : positive → positive) (s : bio_platform_t) : bio_platform_t :=
  mk_platform_t (ring_entries s) (ring_sq s) (ring_inflight s) (ring_cq s) (cq_head s) (cq_seen
    s) (kernel_calls s) (io_reqs s) (f (next_req s)) (signal_polled s) (signalfd s) (eventfd s)
    (ack_counter s) (has_op_bind s) (has_op_listen s).
Definition set_signal_polled (f : bool → bool) (s : bio_platform_t) : bio_platform_t :=
  mk_platform_t (ring_entries s) (ring_sq s) (ring_inflight s) (ring_cq s) (cq_head s) (cq_seen
    s) (kernel_calls s) (io_reqs s) (next_req s) (f (signal_polled s)) (signalfd s) (eventfd s)
    (ack_counter s) (has_op_bind s) (has_op_listen s).
Definition set_ack_counter (f : Z → Z) (s : bio_platform_t) : bio_platform_t :=
  mk_platform_t (ring_entries s) (ring_sq s) (ring_inflight s) (ring_cq s) (cq_head s) (cq_seen
    s) (kernel_calls s) (io_reqs s) (next_req s) (signal_polled s) (signalfd s) (eventfd s) (f
    (ack_counter s)) (has_op_bind s) (has_op_listen s).

Definition no_platform : bio_platform_t :=
  mk_platform_t 0 [] [] [] 0 0 0 ∅ 1 false 0 0 0 false false.

(** ** The ring *)

(** What the kernel does when it is entered: whether it refuses the new entries, what it
    returns if it took none, and which requests are completed: the position of each among
    those under way, its result and flags. *)
Record kernel_step := mk_kernel_step {
  ks_refused : bool;
  ks_result : Z;
  ks_done : list (nat * Z * Z);
}.

(** How long the thread stays in the kernel: not at all, until there is a completion, or
    for a while. *)
Inductive ring_wait :=
  | GetEvents
  | WaitForOne
  | WaitTimeout (tv_sec tv_nsec : Z).

Section ring.
(** The step that the kernel takes when it is entered for the [n]-th time. *)
Context (kernel : nat → ring_wait → kernel_step).

(** [io_uring_get_sqe]: the position of a free entry. *)
Definition io_uring_get_sqe : st bio_platform_t (option nat) :=
  s ← get;
  if zlen (ring_sq s) <? ring_entries s then
    _ ← modify (set_ring_sq (λ l, l ++ [mk_sqe None NoData]));
    mret (Some (length (ring_sq s)))
  else mret None.

(** [io_uring_prep_...] and [io_uring_sqe_set_data]. *)
Definition prep (sqe : nat) (op : io_op) : st bio_platform_t unit :=
  s ← get;
  e ← need OutOfBounds (ring_sq s !! sqe);
  modify (set_ring_sq <[sqe := mk_sqe (Some op) (sqe_data e)]>).

Definition io_uring_sqe_set_data (sqe : nat) (d : io_data) : st bio_platform_t unit :=
  s ← get;
  e ← need OutOfBounds (ring_sq s !! sqe);
  modify (set_ring_sq <[sqe := mk_sqe (sqe_op e) d]>).

(** One completion. *)
Definition complete (s : bio_platform_t) (d : nat * Z * Z) : bio_platform_t :=
  let '(i, res, flags) := d in
  match ring_inflight s !! i with
  | Some e =>
      set_ring_inflight (delete i)
        (set_ring_cq (λ l, l ++ [mk_cqe (sqe_data e) res flags]) s)
  | None => s
  end.

(** The new entries are handed over to the kernel. *)
Definition hand_over (s : bio_platform_t) : bio_platform_t :=
  set_ring_sq (λ _, []) (set_ring_inflight (λ l, l ++ ring_sq s) s).

(** [io_uring_submit_and_get_events], [io_uring_submit_and_wait],
    [io_uring_submit_and_wait_timeout]: the number of entries that were submitted, or
    what the wait returned. *)
Definition io_uring_enter (wait : ring_wait) : st bio_platform_t Z :=
  s ← get;
  let k := kernel (kernel_calls s) wait in
  let s1 := set_kernel_calls S s in
  let s2 := if ks_refused k then s1 else hand_over s1 in
  _ ← modify (λ _, foldl complete s2 (ks_done k));
  mret (if ks_refused k then ks_result k
        else if zlen (ring_sq s) =? 0 then ks_result k else zlen (ring_sq s)).

(** The first completion that was not consumed, if there is one. *)
Definition io_uring_peek_cqe (s : bio_platform_t) (head : nat) : option io_uring_cqe := ring_cq s !! head.

(** [io_uring_cq_advance]. *)
Definition io_uring_cq_advance (n : nat) : st bio_platform_t unit := modify (set_cq_head (λ h, h + n)%nat).
End ring.

(** ** The invariant *)

(** The user data of everything that was not looked at yet. *)
Definition outstanding (s : bio_platform_t) : list io_data :=
  (sqe_data <$> ring_sq s ++ ring_inflight s) ++ (cqe_data <$> drop (cq_seen s) (ring_cq s)).

Definition req_of (d : io_data) : option positive := match d with ReqData p => Some p | _ => None end.
Definition is_poll (d : io_data) : bool := match d with PollData => true | _ => false end.

(** The requests that are under way. *)
Definition requests (s : bio_platform_t) : list positive := omap req_of (outstanding s).

(** [K]: the signals that may be raised. *)
Record ring_ok (K : bio_handle_t → Prop) (s : bio_platform_t) : Prop := {
  rg_entries : 2 ≤ ring_entries s;
  rg_sq : zlen (ring_sq s) ≤ ring_entries s;
  rg_head : (cq_head s ≤ cq_seen s ≤ length (ring_cq s))%nat;
  rg_reqs : ∀ p, p ∈ requests s → is_Some (io_reqs s !! p);
  rg_once : NoDup (requests s);
  rg_known : map_Forall (λ p r, (p < next_req s)%positive ∧ K (rq_signal r)) (io_reqs s);
  rg_poll : zlen (filter (λ d, is_poll d = true) (outstanding s)) = if signal_polled s then 1 else 0;
}.

Lemma ring_ok_mono (K K' : bio_handle_t → Prop) s :
  ring_ok K s → (∀ h, K h → K' h) → ring_ok K' s.
Proof.
  intros [] HK. split; try done. intros p r Hr. destruct (rg_known0 _ _ Hr). auto.
Qed.

(** What is outstanding changes its place. *)
Lemma ring_ok_perm K s s' :
  ring_ok K s → outstanding s' ≡ₚ outstanding s → ring_entries s' = ring_entries s →
  zlen (ring_sq s') ≤ ring_entries s → (cq_head s' ≤ cq_seen s' ≤ length (ring_cq s'))%nat →
  io_reqs s' = io_reqs s → next_req s' = next_req s → signal_polled s' = signal_polled s →
  ring_ok K s'.
Proof.
  intros [] Ho He Hs Hh Hr Hn Hp.
  assert (Hq : requests s' ≡ₚ requests s) by (unfold requests; by rewrite Ho).
  split; [by rewrite He|by rewrite He|done| | | |].
  - intros p. rewrite Hq, Hr. auto.
  - by rewrite Hq.
  - by rewrite Hr, Hn.
  - by rewrite Ho, Hp.
Qed.

(** *** The operations *)

(** A new entry, without data, at the end of the submission queue. *)
Lemma get_sqe_spec K s (Q : option nat → bio_platform_t → Prop) :
  ring_ok K s →
  (∀ i s', i = length (ring_sq s) → s' = set_ring_sq (λ l, l ++ [mk_sqe None NoData]) s →
    zlen (ring_sq s) < ring_entries s → ring_ok K s' → requests s' ≡ₚ requests s → Q (Some i) s') →
  (zlen (ring_sq s) = ring_entries s → Q None s) →
  wp io_uring_get_sqe Q s.
Proof.
  intros Hok HS HN. pose proof (rg_sq _ _ Hok). unfold io_uring_get_sqe. wp_steps.
  destruct (Z.ltb_spec (zlen (ring_sq s)) (ring_entries s)) as [Hlt|]; wp_steps; [|apply HN; lia].
  set (s' := set_ring_sq _ s).
  assert (Ho : outstanding s' ≡ₚ NoData :: outstanding s).
  { unfold outstanding. cbn. rewrite !fmap_app. cbn. solve_Permutation. }
  assert (Hq : requests s' ≡ₚ requests s) by (unfold requests; by rewrite Ho).
  apply HS; try done. destruct Hok. split; try done.
  - cbn. rewrite zlen_snoc. lia.
  - intros p. rewrite Hq. apply rg_reqs0.
  - by rewrite Hq.
  - rewrite Ho. exact rg_poll0.
Qed.

(** The user data of an entry is set. *)
Lemma set_data_outstanding s i e d :
  ring_sq s !! i = Some e → sqe_data e = NoData →
  NoData :: outstanding (set_ring_sq <[i := mk_sqe (sqe_op e) d]> s) ≡ₚ d :: outstanding s.
Proof.
  intros Hi He. unfold outstanding. cbn. rewrite !fmap_app, list_fmap_insert. cbn.
  assert (Hi' : (sqe_data <$> ring_sq s) !! i = Some NoData) by (rewrite list_lookup_fmap, Hi; cbn; by rewrite He).
  pose proof (insert_exchange _ _ _ d Hi') as Hp. rewrite !app_comm_cons, Hp. done.
Qed.

Lemma prep_spec K s i op e (Q : unit → bio_platform_t → Prop) :
  ring_ok K s → ring_sq s !! i = Some e →
  (let s' := set_ring_sq <[i := mk_sqe (Some op) (sqe_data e)]> s in
    ring_ok K s' → requests s' = requests s → Q tt s') →
  wp (prep i op) Q s.
Proof.
  intros Hok Hi HQ. unfold prep. wp_steps.
  assert (Ho : outstanding (set_ring_sq <[i := mk_sqe (Some op) (sqe_data e)]> s) = outstanding s).
  { unfold outstanding. cbn. rewrite !fmap_app, list_fmap_insert. cbn. by rewrite list_insert_id
      by (by rewrite list_lookup_fmap, Hi). }
  apply HQ; [|unfold requests; by rewrite Ho]. apply (ring_ok_perm K s); try done.
  - by rewrite Ho.
  - cbn. unfold zlen. rewrite length_insert. apply Hok.
  - apply Hok.
Qed.

(** An entry gets its data. *)
Lemma set_data_spec s i e d (Q : unit → bio_platform_t → Prop) :
  ring_sq s !! i = Some e → Q tt (set_ring_sq <[i := mk_sqe (sqe_op e) d]> s) →
  wp (io_uring_sqe_set_data i d) Q s.
Proof. intros Hi HQ. unfold io_uring_sqe_set_data. by wp_steps. Qed.

Lemma set_data_requests s i e d :
  ring_sq s !! i = Some e → sqe_data e = NoData → req_of d = None →
  requests (set_ring_sq <[i := mk_sqe (sqe_op e) d]> s) ≡ₚ requests s.
Proof.
  intros Hi He Hd. pose proof (set_data_outstanding s i e d Hi He) as Ho.
  set (s' := set_ring_sq _ s) in *.
  change (requests s') with (omap req_of (NoData :: outstanding s')). rewrite Ho. cbn. by rewrite Hd.
Qed.

(** The poll for exit signals is submitted when there is none. *)
Lemma set_poll_ok K s i e :
  ring_ok K s → ring_sq s !! i = Some e → sqe_data e = NoData → signal_polled s = false →
  ring_ok K (set_signal_polled (λ _, true) (set_ring_sq <[i := mk_sqe (sqe_op e) PollData]> s)).
Proof.
  intros Hok Hi He Hp. pose proof (set_data_outstanding s i e PollData Hi He) as Ho.
  set (s' := set_ring_sq _ s) in *.
  assert (Hq : requests s' ≡ₚ requests s).
  { change (requests s') with (omap req_of (NoData :: outstanding s')). by rewrite Ho. }
  destruct Hok. rewrite Hp in rg_poll0. split; try done.
  - cbn. unfold zlen. rewrite length_insert. exact rg_sq0.
  - intros p. change (p ∈ requests s' → is_Some (io_reqs s !! p)). rewrite Hq. apply rg_reqs0.
  - change (NoDup (requests s')). by rewrite Hq.
  - change (zlen (filter (λ d, is_poll d = true) (NoData :: outstanding s')) = 1). rewrite Ho.
    change (zlen (PollData :: filter (λ d, is_poll d = true) (outstanding s)) = 1).
    by rewrite zlen_cons, rg_poll0.
Qed.

(** [bio_submit_io_req] before it waits: a request on the stack of the caller, which the
    entry points to. *)
Definition begin_req (sqe : nat) (signal : bio_handle_t) : st bio_platform_t positive :=
  s ← get;
  let req := next_req s in
  _ ← modify (set_next_req Pos.succ);
  _ ← modify (set_io_reqs <[req := mk_io_req signal 0 0]>);
  _ ← io_uring_sqe_set_data sqe (ReqData req);
  mret req.

Lemma begin_req_spec (K : bio_handle_t → Prop) s i e signal (Q : positive → bio_platform_t → Prop) :
  ring_ok K s → ring_sq s !! i = Some e → sqe_data e = NoData → K signal →
  (∀ s', ring_ok K s' → requests s' ≡ₚ next_req s :: requests s → cq_head s' = cq_head s → cq_seen s' = cq_seen s →
    io_reqs s' = <[next_req s := mk_io_req signal 0 0]> (io_reqs s) → Q (next_req s) s') →
  wp (begin_req i signal) Q s.
Proof.
  intros Hok Hi He HK HQ. unfold begin_req, io_uring_sqe_set_data. wp_steps. cbn.
  pose proof (set_data_outstanding s i e (ReqData (next_req s)) Hi He) as Ho.
  match goal with |- Q _ ?x => set (s' := x) end.
  assert (Ho' : NoData :: outstanding s' ≡ₚ ReqData (next_req s) :: outstanding s) by exact Ho.
  assert (Hq : requests s' ≡ₚ next_req s :: requests s).
  { change (requests s') with (omap req_of (NoData :: outstanding s')). by rewrite Ho'. }
  destruct Hok.
  assert (Hf : next_req s ∉ requests s).
  { intros [r Hr]%rg_reqs0. destruct (rg_known0 _ _ Hr). lia. }
  apply HQ; try done. split; try done.
  - cbn. unfold zlen. rewrite length_insert. exact rg_sq0.
  - intros p. rewrite Hq, elem_of_cons. unfold s'. cbn. rewrite lookup_insert_is_Some'.
    intros [->|Hp]; [by left|right; auto].
  - rewrite Hq. by constructor.
  - unfold s'. cbn. apply map_Forall_insert_2; [split; [lia|done]|].
    eapply map_Forall_impl; [exact rg_known0|]. cbn. intros p r [? ?]. split; [lia|done].
  - change (zlen (filter (λ d, is_poll d = true) (NoData :: outstanding s')) = if signal_polled s then 1 else 0).
    by rewrite Ho'.
Qed.

(** The kernel moves entries and completes requests; nothing is lost or made up. *)
Record entered (s s' : bio_platform_t) : Prop := {
  en_outstanding : outstanding s' ≡ₚ outstanding s;
  en_entries : ring_entries s' = ring_entries s;
  en_sq : ring_sq s' = ring_sq s;
  en_head : cq_head s' = cq_head s;
  en_seen : cq_seen s' = cq_seen s;
  en_cq : ring_cq s `prefix_of` ring_cq s';
  en_reqs : io_reqs s' = io_reqs s;
  en_next : next_req s' = next_req s;
  en_polled : signal_polled s' = signal_polled s;
}.

#[export] Instance entered_preorder : PreOrder entered.
Proof.
  split; [by split|]. intros s1 s2 s3 [] []. split; try congruence; by etrans.
Qed.

Lemma complete_entered s d : (cq_seen s ≤ length (ring_cq s))%nat → entered s (complete s d).
Proof.
  intros Hs. destruct d as [[i res] flags]. unfold complete. destruct (ring_inflight s !! i) as [e|] eqn:Hi; [|done].
  split; try done; cbn; [|by apply prefix_app_r]. unfold outstanding. cbn.
  rewrite drop_app_le by done. rewrite !fmap_app. cbn.
  assert (Hp : ring_inflight s ≡ₚ e :: delete i (ring_inflight s)) by by apply delete_Permutation.
  rewrite Hp at 2. cbn. solve_Permutation.
Qed.

Lemma complete_all_entered s l : (cq_seen s ≤ length (ring_cq s))%nat → entered s (foldl complete s l).
Proof.
  revert s. induction l as [|d l IH]; intros s Hs; cbn; [done|].
  pose proof (complete_entered s d Hs) as He. etrans; [exact He|]. apply IH.
  rewrite (en_seen _ _ He). apply (Nat.le_trans _ _ _ Hs). apply prefix_length, He.
Qed.

Lemma entered_ok K s s' : ring_ok K s → entered s s' → ring_ok K s'.
Proof.
  intros Hok []. apply (ring_ok_perm K s); try done.
  - rewrite en_sq0. apply Hok.
  - rewrite en_head0, en_seen0. pose proof (rg_head _ _ Hok). pose proof (prefix_length _ _ en_cq0). lia.
Qed.

(** The kernel takes the entries that it is given. *)
Definition kernel_accepts (kernel : nat → ring_wait → kernel_step) : Prop :=
  ∀ n wait, ks_refused (kernel n wait) = false.

Record kernel_ran (s s' : bio_platform_t) : Prop := {
  kr_outstanding : outstanding s' ≡ₚ outstanding s;
  kr_sq : ring_sq s' = [];
  kr_head : cq_head s' = cq_head s;
  kr_seen : cq_seen s' = cq_seen s;
  kr_cq : ring_cq s `prefix_of` ring_cq s';
  kr_reqs : io_reqs s' = io_reqs s;
  kr_polled : signal_polled s' = signal_polled s;
}.

Lemma enter_spec kernel wait K s (Q : Z → bio_platform_t → Prop) :
  kernel_accepts kernel → ring_ok K s →
  (∀ r s', ring_ok K s' → kernel_ran s s' → Q r s') →
  wp (io_uring_enter kernel wait) Q s.
Proof.
  intros Hacc Hok HQ. unfold io_uring_enter. wp_steps. rewrite Hacc.
  set (s1 := hand_over (set_kernel_calls S s)).
  assert (Ho : outstanding s1 ≡ₚ outstanding s).
  { unfold outstanding. cbn. rewrite !fmap_app. solve_Permutation. }
  assert (Hok1 : ring_ok K s1).
  { apply (ring_ok_perm K s); try done; [|apply Hok]. pose proof (rg_entries _ _ Hok). unfold zlen. cbn. lia. }
  pose proof (complete_all_entered s1 (ks_done (kernel (kernel_calls s) wait)) ltac:(apply (rg_head _ _ Hok1))) as He.
  apply HQ; [by eapply entered_ok|]. destruct He. split; try done.
  by rewrite en_outstanding0.
Qed.

(** The thread looks at the next completion. *)
Lemma see_outstanding s e :
  ring_cq s !! cq_seen s = Some e → outstanding s ≡ₚ cqe_data e :: outstanding (set_cq_seen S s).
Proof.
  intros He. unfold outstanding. cbn. rewrite (drop_S _ _ _ He). cbn. solve_Permutation.
Qed.

Lemma see_ok K s e :
  ring_ok K s → ring_cq s !! cq_seen s = Some e →
  let s' := set_cq_seen S s in
  match cqe_data e with
  | PollData => signal_polled s = true ∧ ring_ok K (set_signal_polled (λ _, false) s')
  | ReqData p => (∃ r, io_reqs s !! p = Some r ∧ K (rq_signal r)) ∧ p ∉ requests s' ∧ ring_ok K s'
  | NoData => ring_ok K s'
  end.
Proof.
  intros Hok He s'. pose proof (see_outstanding s e He) as Ho.
  assert (Hlt : (cq_seen s < length (ring_cq s))%nat) by by eapply lookup_lt_Some.
  assert (Hq : requests s ≡ₚ omap req_of (cqe_data e :: outstanding s')) by (unfold requests; by rewrite Ho).
  destruct Hok. assert (Hh : (cq_head s' ≤ cq_seen s' ≤ length (ring_cq s'))%nat) by (cbn; lia).
  rewrite Ho in rg_poll0.
  destruct (cqe_data e) as [| |p]; cbn in Hq.
  - change (requests s ≡ₚ requests s') in Hq. split; try done.
    + intros p. rewrite <- Hq. apply rg_reqs0.
    + by rewrite <- Hq.
  - change (requests s ≡ₚ requests s') in Hq.
    change (zlen (PollData :: filter (λ d, is_poll d = true) (outstanding s')) = if signal_polled s then 1 else 0)
      in rg_poll0.
    rewrite zlen_cons in rg_poll0. pose proof (zlen_nonneg (filter (λ d, is_poll d = true) (outstanding s'))).
    destruct (signal_polled s) eqn:Ep; [|lia]. split; [done|]. split; try done.
    + intros p. change (p ∈ requests s' → is_Some (io_reqs s !! p)). rewrite <- Hq. apply rg_reqs0.
    + change (NoDup (requests s')). by rewrite <- Hq.
    + change (zlen (filter (λ d, is_poll d = true) (outstanding s')) = 0). lia.
  - change (requests s ≡ₚ p :: requests s') in Hq. rewrite Hq in rg_once0.
    apply NoDup_cons in rg_once0 as [Hp Hnd]. split_and!; [|done|].
    + destruct (rg_reqs0 p) as [r Hr]; [rewrite Hq; by left|]. exists r.
      split; [done|]. by destruct (rg_known0 _ _ Hr).
    + split; try done. intros q Hin. apply rg_reqs0. rewrite Hq. by right.
Qed.

(** A request gets its result. *)
Lemma set_req_ok (K : bio_handle_t → Prop) s p r :
  ring_ok K s → is_Some (io_reqs s !! p) → K (rq_signal r) → ring_ok K (set_io_reqs <[p := r]> s).
Proof.
  intros [] [r0 Hp] HK. split; try done.
  - intros q Hq. cbn. apply lookup_insert_is_Some'. right. by apply rg_reqs0.
  - cbn. apply map_Forall_insert_2; [|done]. split; [|done]. by destruct (rg_known0 _ _ Hp).
Qed.

(** *** Completions *)

(** A completion is delivered to the request that it is for. *)
Definition deliver (m : gmap positive bio_io_req_t) (cqe : io_uring_cqe) : gmap positive bio_io_req_t :=
  match cqe_data cqe with
  | ReqData p => alter (λ r, mk_io_req (rq_signal r) (cqe_res cqe) (cqe_flags cqe)) p m
  | _ => m
  end.

(** The requests that a list of completions is for. *)
Definition addressees (l : list io_uring_cqe) : list positive := omap req_of (cqe_data <$> l).

(** The completions that were looked at. *)
Definition looked_at (s : bio_platform_t) : list io_uring_cqe := take (cq_seen s) (ring_cq s).

(** The completions [l] were looked at and delivered. *)
Record completed (s : bio_platform_t) (l : list io_uring_cqe) (s' : bio_platform_t) : Prop := {
  cp_cq : ring_cq s `prefix_of` ring_cq s';
  cp_seen : looked_at s' = looked_at s ++ l;
  cp_reqs : io_reqs s' = foldl deliver (io_reqs s) l;
  cp_requests : requests s ≡ₚ addressees l ++ requests s';
}.

Lemma completed_trans s1 l1 s2 l2 s3 :
  completed s1 l1 s2 → completed s2 l2 s3 → completed s1 (l1 ++ l2) s3.
Proof.
  intros [] []. split.
  - by etrans.
  - by rewrite cp_seen1, cp_seen0, app_assoc.
  - by rewrite foldl_app, <- cp_reqs0.
  - unfold addressees. rewrite fmap_app, omap_app, cp_requests0, cp_requests1. by rewrite app_assoc.
Qed.

(** Nothing was looked at. *)
Record quiet (s s' : bio_platform_t) : Prop := {
  qt_cq : ring_cq s' = ring_cq s;
  qt_head : cq_head s' = cq_head s;
  qt_seen : cq_seen s' = cq_seen s;
  qt_reqs : io_reqs s' = io_reqs s;
  qt_requests : requests s' ≡ₚ requests s;
}.

#[export] Instance quiet_preorder : PreOrder quiet.
Proof. split; [by split|]. intros s1 s2 s3 [] []. split; congruence || by etrans. Qed.

Lemma quiet_completed s s' : quiet s s' → completed s [] s'.
Proof. intros [E1 _ E2 E3 E4]. split; unfold looked_at; by rewrite ?E1, ?E2, ?E3, ?app_nil_r, ?E4. Qed.

Lemma kernel_ran_completed K s s' : ring_ok K s → kernel_ran s s' → completed s [] s'.
Proof.
  intros Hok []. split; [done| |done|].
  - destruct kr_cq0 as [k E]. unfold looked_at. rewrite kr_seen0, E, take_app_le, app_nil_r; [done|apply Hok].
  - unfold requests. by rewrite kr_outstanding0.
Qed.

(** The user data of a request is not changed by the completions of others. *)
Lemma deliver_signal l (m : gmap positive bio_io_req_t) p :
  rq_signal <$> foldl deliver m l !! p = rq_signal <$> m !! p.
Proof.
  revert m. induction l as [|e l IH]; intros m; cbn; [done|]. rewrite IH. unfold deliver.
  destruct (cqe_data e) as [| |q]; [done..|]. rewrite lookup_alter. destruct (decide (q = p)) as [->|]; [|done].
  by destruct (m !! p).
Qed.

Lemma deliver_other l (m : gmap positive bio_io_req_t) p :
  p ∉ addressees l → foldl deliver m l !! p = m !! p.
Proof.
  revert m. unfold addressees. induction l as [|e l IH]; intros m; [done|]. cbn [fmap list_fmap foldl omap list_omap].
  unfold deliver at 2. destruct (cqe_data e) as [| |q]; cbn; [by apply IH..|].
  intros [Hne Hp]%not_elem_of_cons. rewrite IH by done. by apply lookup_alter_ne.
Qed.

(** A request that is completed once has the result of its completion. *)
Lemma deliver_once l (m : gmap positive bio_io_req_t) p cqe r :
  NoDup (addressees l) → cqe ∈ l → cqe_data cqe = ReqData p → m !! p = Some r →
  foldl deliver m l !! p = Some (mk_io_req (rq_signal r) (cqe_res cqe) (cqe_flags cqe)).
Proof.
  intros Hnd (l1 & l2 & ->)%list_elem_of_split Hd Hp. unfold addressees in Hnd.
  rewrite fmap_app, omap_app in Hnd. cbn in Hnd. rewrite Hd in Hnd. cbn in Hnd.
  apply NoDup_app in Hnd as (_ & Hdisj & [Hp2 _]%NoDup_cons).
  rewrite foldl_app. cbn. rewrite deliver_other by done.
  assert (Hp1 : foldl deliver m l1 !! p = Some r).
  { rewrite deliver_other; [done|]. intros Hin. apply (Hdisj p); [done|by left]. }
  unfold deliver at 1. rewrite Hd, lookup_alter_eq, Hp1. done.
Qed.

(** The next completion. *)
Lemma see_completed s e s' :
  ring_cq s !! cq_seen s = Some e → ring_cq s' = ring_cq s → cq_seen s' = S (cq_seen s) →
  io_reqs s' = deliver (io_reqs s) e → requests s' ≡ₚ requests (set_cq_seen S s) → completed s [e] s'.
Proof.
  intros He Ecq Es Er Eq. split; [by rewrite Ecq| |done|].
  - unfold looked_at. rewrite Es, Ecq. by apply take_S_r.
  - rewrite Eq. unfold requests at 1. rewrite (see_outstanding s e He). unfold addressees. cbn.
    by destruct (cqe_data e).
Qed.
