(* ===== verification/Net.v ===== *)
(** Network addresses ([include/bio/net.h], [src/net.c]) and their order. *)
From S2P Require Import Prelude.

(** ** Addresses *)

(** [bio_addr_type_t]. *)
Inductive bio_addr_type_t := BIO_ADDR_IPV4 | BIO_ADDR_IPV6 | BIO_ADDR_NAMED.

#[export] Instance bio_addr_type_eq_dec : EqDecision bio_addr_type_t.
Proof. solve_decision. Defined.

(** The value of an enumerator. *)
Definition addr_type_value (t : bio_addr_type_t) : Z :=
  match t with BIO_ADDR_IPV4 => 0 | BIO_ADDR_IPV6 => 1 | BIO_ADDR_NAMED => 2 end.

(** [bio_socket_type_t]. *)
Inductive bio_socket_type_t := BIO_SOCKET_STREAM | BIO_SOCKET_DATAGRAM.

(** [bio_addr_t]: the member of the union that its type selects. Arrays of [char] are
    lists of bytes. *)
Inductive bio_addr_t :=
  | Ipv4 (ipv4 : list Z)
  | Ipv6 (ipv6 : list Z)
  | Named (len : Z) (name : list Z).

Definition addr_type (a : bio_addr_t) : bio_addr_type_t :=
  match a with Ipv4 _ => BIO_ADDR_IPV4 | Ipv6 _ => BIO_ADDR_IPV6 | Named _ _ => BIO_ADDR_NAMED end.

(** Addresses with all bytes zero, [{ 0 }] with a type. *)
Definition zero_addr (t : bio_addr_type_t) : bio_addr_t :=
  match t with
  | BIO_ADDR_IPV4 => Ipv4 (replicate 4 0)
  | BIO_ADDR_IPV6 => Ipv6 (replicate 16 0)
  | BIO_ADDR_NAMED => Named 0 (replicate 256 0)
  end.

Definition BIO_PORT_ANY : Z := 0.
Definition BIO_ADDR_IPV4_ANY : bio_addr_t := Ipv4 [0; 0; 0; 0].
Definition BIO_ADDR_IPV4_LOOPBACK : bio_addr_t := Ipv4 [127; 0; 0; 1].
Definition BIO_ADDR_IPV6_ANY : bio_addr_t := Ipv6 (replicate 16 0).
Definition BIO_ADDR_IPV6_LOOPBACK : bio_addr_t := Ipv6 (replicate 15 0 ++ [1]).

(** [memcmp]: only the sign of its result is specified. *)
Fixpoint compare_bytes (n : nat) (l k : list Z) : res Z :=
  match n with
  | O => Ok 0
  | S n =>
      match l, k with
      | x :: l, y :: k => if x <? y then Ok (-1) else if y <? x then Ok 1 else compare_bytes n l k
      | _, _ => Err OutOfBounds
      end
  end.

Definition memcmp (l k : list Z) (n : Z) : res Z :=
  if n <? 0 then Err OutOfBounds else compare_bytes (Z.to_nat n) l k.

Definition bio_net_address_compare (lhs rhs : bio_addr_t) : res Z :=
  match lhs, rhs with
  | Ipv4 l, Ipv4 r => memcmp l r 4
  | Ipv6 l, Ipv6 r => memcmp l r 16
  | Named llen lname, Named rlen rname =>
      let lhs_len := to_int llen in
      let rhs_len := to_int rlen in
      let min_len := if lhs_len <? rhs_len then lhs_len else rhs_len in
      match memcmp lname rname min_len with
      | Ok cmp => if negb (cmp =? 0) then Ok cmp else Ok (lhs_len - rhs_len)
      | Err e => Err e
      end
  | _, _ => Ok (addr_type_value (addr_type lhs) - addr_type_value (addr_type rhs))
  end.

(** ** Addresses as byte strings *)

(** The arrays have the sizes that they are declared with. *)
Definition addr_ok (a : bio_addr_t) : Prop :=
  match a with
  | Ipv4 l => length l = 4%nat
  | Ipv6 l => length l = 16%nat
  | Named len name => length name = 256%nat ∧ 0 ≤ len ≤ 256
  end.

(** What an address is about: its type and its bytes. *)
Definition addr_key (a : bio_addr_t) : list Z :=
  addr_type_value (addr_type a) ::
  match a with
  | Ipv4 l | Ipv6 l => l
  | Named len name => take (Z.to_nat len) name
  end.

(** The lexicographic order. *)
Fixpoint lex (l k : list Z) : comparison :=
  match l, k with
  | [], [] => Eq
  | [], _ :: _ => Lt
  | _ :: _, [] => Gt
  | x :: l, y :: k => match x ?= y with Eq => lex l k | c => c end
  end.

Lemma lex_eq l k : lex l k = Eq ↔ l = k.
Proof.
  revert k. induction l as [|x l IH]; intros [|y k]; cbn; try done.
  destruct (Z.compare_spec x y) as [->|H|H]; [|split; [done|intros [= -> ->]; lia]..].
  rewrite IH. split; [by intros ->|by intros [=]].
Qed.

Lemma lex_antisym l k : lex k l = CompOpp (lex l k).
Proof.
  revert k. induction l as [|x l IH]; intros [|y k]; cbn; try done.
  rewrite Z.compare_antisym. destruct (x ?= y); cbn; [apply IH|done..].
Qed.

Lemma lex_trans l k j : lex l k = Lt → lex k j = Lt → lex l j = Lt.
Proof.
  revert k j. induction l as [|x l IH]; intros [|y k] [|z j]; cbn; try done.
  destruct (Z.compare_spec x y) as [->|H|H]; [|intros _|done].
  - destruct (Z.compare_spec y z); [apply IH|done..].
  - destruct (Z.compare_spec y z) as [->|H'|H']; [|intros _|done].
    + intros _. by rewrite (proj2 (Z.compare_lt_iff _ _)).
    + by rewrite (proj2 (Z.compare_lt_iff _ _)) by lia.
Qed.

(** The sign of a comparison. *)
Definition sign (z : Z) : comparison := z ?= 0.

Lemma sign_sub x y : sign (x - y) = (x ?= y).
Proof. unfold sign. symmetry. destruct (Z.compare_spec x y), (Z.compare_spec (x - y) 0); lia || done. Qed.

Lemma compare_bytes_lex n l k :
  (n ≤ length l)%nat → (n ≤ length k)%nat →
  ∃ z, compare_bytes n l k = Ok z ∧ sign z = lex (take n l) (take n k).
Proof.
  revert l k. induction n as [|n IH]; intros [|x l] [|y k]; cbn; try lia; eauto. intros Hl Hk.
  destruct (Z.ltb_spec x y), (Z.ltb_spec y x), (Z.compare_spec x y); try lia; eauto.
  apply IH; lia.
Qed.

(** Comparing the common prefix, then the lengths. *)
Lemma lex_prefix (l k : list Z) n m :
  (n ≤ length l)%nat → (m ≤ length k)%nat →
  lex (take n l) (take m k) =
    match lex (take (n `min` m) l) (take (n `min` m) k) with
    | Eq => Nat.compare n m
    | c => c
    end.
Proof.
  revert l k m. induction n as [|n IH]; intros l k [|m]; cbn; try done.
  - destruct l, k; cbn; done || lia.
  - destruct l; cbn; done || lia.
  - destruct l as [|x l], k as [|y k]; cbn; try lia. intros Hl Hk. destruct (x ?= y); try done.
    apply IH; lia.
Qed.

Lemma address_compare_lex a b :
  addr_ok a → addr_ok b →
  ∃ z, bio_net_address_compare a b = Ok z ∧ sign z = lex (addr_key a) (addr_key b).
Proof.
  intros Ha Hb. unfold addr_key.
  destruct a as [l|l|n l], b as [k|k|m k]; cbn in Ha, Hb; cbn [bio_net_address_compare];
    try (eexists; split; [reflexivity|]; reflexivity).
  - destruct (compare_bytes_lex 4 l k) as (z & Hz & Hs); [lia..|]. exists z. split; [done|].
    rewrite Hs, !take_ge by lia. done.
  - destruct (compare_bytes_lex 16 l k) as (z & Hz & Hs); [lia..|]. exists z. split; [done|].
    rewrite Hs, !take_ge by lia. done.
  - destruct Ha as [Hl Hn], Hb as [Hk Hm]. rewrite !to_int_small by (unfold INT_MIN, INT_MAX; lia).
    assert (Hmin : Z.to_nat (if n <? m then n else m) = Nat.min (Z.to_nat n) (Z.to_nat m))
      by (destruct (Z.ltb_spec n m); lia).
    unfold memcmp. rewrite (proj2 (Z.ltb_ge _ _)) by (destruct (Z.ltb_spec n m); lia). rewrite Hmin.
    destruct (compare_bytes_lex (Nat.min (Z.to_nat n) (Z.to_nat m)) l k) as (z & Hz & Hs); [lia..|].
    cbn [addr_type addr_type_value lex]. rewrite Z.compare_refl, lex_prefix by lia. rewrite Hz, <- Hs.
    destruct (Z.eqb_spec z 0) as [->|Hne]; cbn; eexists; (split; [reflexivity|]).
    + rewrite sign_sub. rewrite <- Nat2Z.inj_compare, !Z2Nat.id by lia. done.
    + unfold sign. destruct (Z.compare_spec z 0); done || lia.
Qed.

(** The comparison of addresses orders them totally: it is zero exactly for equal
    addresses, reversing the arguments reverses the sign, and it is transitive. It
    stays within the arrays. *)
Theorem address_compare_total_order a b c :
  addr_ok a → addr_ok b → addr_ok c →
  ∃ ab ba bc ac,
    bio_net_address_compare a b = Ok ab ∧ bio_net_address_compare b a = Ok ba ∧
    bio_net_address_compare b c = Ok bc ∧ bio_net_address_compare a c = Ok ac ∧
    (ab = 0 ↔ addr_key a = addr_key b) ∧ (ab < 0 ↔ 0 < ba) ∧ (ab < 0 → bc < 0 → ac < 0).
Proof.
  intros Ha Hb Hc.
  destruct (address_compare_lex a b Ha Hb) as (ab & Eab & Sab).
  destruct (address_compare_lex b a Hb Ha) as (ba & Eba & Sba).
  destruct (address_compare_lex b c Hb Hc) as (bc & Ebc & Sbc).
  destruct (address_compare_lex a c Ha Hc) as (ac & Eac & Sac).
  exists ab, ba, bc, ac. split_and!; [done..| | |].
  - rewrite <- lex_eq, <- Sab. symmetry. apply Z.compare_eq_iff.
  - rewrite lex_antisym, <- Sab in Sba. unfold sign in *.
    destruct (Z.compare_spec ab 0), (Z.compare_spec ba 0); cbn in *; lia || done.
  - unfold sign in *. rewrite <- !Z.compare_lt_iff, Sab, Sbc, Sac. apply lex_trans.
Qed.
