(* ===== verification/Io.v ===== *)
(** What the functions for files, sockets and buffers work with: their objects, the
    handles of these, and the requests that they submit to the operating system.

    The operating system is not part of the program. It is a state with a function that
    carries out one request; the theorems say what they rely on. While a request is under
    way its coroutine sleeps, and the others may do anything that [others] stands for. *)
From stdpp Require Import strings.
From S2P Require Import Prelude HandleTable Error.

(** ** Requests *)

(** The addresses of the socket calls: [struct sockaddr_in], [sockaddr_in6], [sockaddr_un].
    Ports are in network byte order. *)
Inductive sockaddr :=
  | sockaddr_in (sin_family sin_port : Z) (sin_addr : list Z)
  | sockaddr_in6 (sin6_family sin6_port : Z) (sin6_addr : list Z)
  | sockaddr_un (sun_family : Z) (sun_path : list Z).

Definition sa_family (a : sockaddr) : Z :=
  match a with sockaddr_in f _ _ | sockaddr_in6 f _ _ | sockaddr_un f _ => f end.

(** A request as [io_uring_prep_...] or a system call describes it. *)
Inductive request :=
  | req_open (path : string) (flags mode : Z)
  | req_close (fd : Z)
  | req_read (fd size offset : Z)
  | req_write (fd : Z) (buf : list Z) (offset : Z)
  | req_fsync (fd : Z)
  | req_statx (fd : Z)
  | req_lseek (fd offset whence : Z)
  | req_socket (domain type protocol : Z)
  | req_bind (fd : Z) (addr : sockaddr) (len : Z)
  | req_listen (fd backlog : Z)
  | req_accept (fd : Z)
  | req_connect (fd : Z) (addr : sockaddr) (len : Z)
  | req_shutdown (fd how : Z)
  | req_send (fd : Z) (buf : list Z)
  | req_recv (fd size : Z)
  (* where the operating system has a position of its own for the descriptor *)
  | req_read_next (fd size : Z)
  | req_write_next (fd : Z) (buf : list Z)
  | req_fstat (fd : Z)
  (* asynchronous operations, with the address of their [struct aiocb], and their events *)
  | req_aio_read (aio : positive) (fd size offset : Z)
  | req_aio_write (aio : positive) (fd : Z) (buf : list Z) (offset : Z)
  | req_aio_fsync (aio : positive) (fd : Z)
  | req_aio_event (aio : positive)
  | req_aio_error (aio : positive)
  | req_aio_return (aio : positive)
  | req_aio_cancel (fd : Z) (aio : positive)
  | req_kevent (fd filter : Z).

(** What comes back: the result, negative for an error; the bytes that were written to
    the memory of the caller; the size that [statx] or [fstat] found. *)
Record reply := mk_reply { rp_res : Z; rp_data : list Z; rp_stx_size : Z }.

(** ** State *)

(** Tags of handles. *)
Inductive io_tag :=
  | BIO_FILE_HANDLE
  | BIO_SOCKET_HANDLE
  | BIO_BUFFER_HANDLE
  | OTHER_HANDLE (n : positive).

#[export] Instance io_tag_eq_dec : EqDecision io_tag.
Proof. solve_decision. Defined.

(** The callbacks of a buffer: those of the library, and those of programs. *)
Inductive bio_read_fn_t := ReadFile | ReadSocket | ReadUser (fn : positive).
Inductive bio_write_fn_t := WriteFile | WriteSocket | WriteUser (fn : positive).
Inductive bio_flush_fn_t := FlushFile | FlushUser (fn : positive).

(** [bio_buffer_options_t]; a pointer as a context is a handle as well here. *)
Record bio_buffer_options_t := mk_buffer_options {
  bo_ctx : bio_handle_t;
  bo_read_fn : option bio_read_fn_t;
  bo_write_fn : option bio_write_fn_t;
  bo_flush_fn : option bio_flush_fn_t;
  bo_size : Z;
}.

(** [bio_io_buffer_impl_t]; memory that was not written is [None]. *)
Record bio_io_buffer_impl_t := mk_buffer {
  bf_options : bio_buffer_options_t;
  bf_offset : Z;
  bf_data_size : Z;
  bf_data : list (option Z);
}.

Section io.
(** The state of the operating system, and the objects that a platform has for files
    and sockets. *)
Context {OS File Sock : Type}.

(** The part of the memory that the functions for input and output use. On FreeBSD it has
    the [bio_io_req_t] on the stacks of the coroutines that wait: whether they are cancelled. *)
Record io_ctx := mk_io {
  io_table : table io_tag positive;
  io_next : positive;
  files : gmap positive File;
  sockets : gmap positive Sock;
  buffers : gmap positive bio_io_buffer_impl_t;
  os : OS;
  io_reqs : gmap positive bool;
}.

Definition set_io_table (t : table io_tag positive) (s : io_ctx) : io_ctx :=
  mk_io t (io_next s) (files s) (sockets s) (buffers s) (os s) (io_reqs s).
Definition set_io_next (n : positive) (s : io_ctx) : io_ctx :=
  mk_io (io_table s) n (files s) (sockets s) (buffers s) (os s) (io_reqs s).
Definition set_files (m : gmap positive File) (s : io_ctx) : io_ctx :=
  mk_io (io_table s) (io_next s) m (sockets s) (buffers s) (os s) (io_reqs s).
Definition set_sockets (m : gmap positive Sock) (s : io_ctx) : io_ctx :=
  mk_io (io_table s) (io_next s) (files s) m (buffers s) (os s) (io_reqs s).
Definition set_buffers (m : gmap positive bio_io_buffer_impl_t) (s : io_ctx) : io_ctx :=
  mk_io (io_table s) (io_next s) (files s) (sockets s) m (os s) (io_reqs s).
Definition set_os (o : OS) (s : io_ctx) : io_ctx :=
  mk_io (io_table s) (io_next s) (files s) (sockets s) (buffers s) o (io_reqs s).
Definition set_io_reqs (m : gmap positive bool) (s : io_ctx) : io_ctx :=
  mk_io (io_table s) (io_next s) (files s) (sockets s) (buffers s) (os s) m.

(** ** Memory and handles *)

Definition io_malloc : st io_ctx positive :=
  s ← get; _ ← modify (set_io_next (Pos.succ (io_next s))); mret (io_next s).

Definition io_make_handle (p : positive) (tg : io_tag) : st io_ctx bio_handle_t :=
  zoom io_table set_io_table (bio_make_handle (Some p) tg).
Definition io_resolve_handle (h : bio_handle_t) (tg : io_tag) : st io_ctx (option positive) :=
  zoom io_table set_io_table (bio_resolve_handle h tg).
Definition io_close_handle (h : bio_handle_t) (tg : io_tag) : st io_ctx (option positive) :=
  zoom io_table set_io_table (bio_close_handle h tg).

(** Access through a pointer, and [bio_free]. *)
Definition deref_file (p : positive) : st io_ctx File := s ← get; need Dangling (files s !! p).
Definition store_file (p : positive) (x : File) : st io_ctx unit :=
  _ ← deref_file p; modify (λ s, set_files (<[p := x]> (files s)) s).
Definition free_file (p : positive) : st io_ctx unit :=
  _ ← deref_file p; modify (λ s, set_files (delete p (files s)) s).
Definition deref_socket (p : positive) : st io_ctx Sock := s ← get; need Dangling (sockets s !! p).
Definition store_socket (p : positive) (x : Sock) : st io_ctx unit :=
  _ ← deref_socket p; modify (λ s, set_sockets (<[p := x]> (sockets s)) s).
Definition free_socket (p : positive) : st io_ctx unit :=
  _ ← deref_socket p; modify (λ s, set_sockets (delete p (sockets s)) s).
Definition deref_buffer (p : positive) : st io_ctx bio_io_buffer_impl_t :=
  s ← get; need Dangling (buffers s !! p).
Definition store_buffer (p : positive) (x : bio_io_buffer_impl_t) : st io_ctx unit :=
  _ ← deref_buffer p; modify (λ s, set_buffers (<[p := x]> (buffers s)) s).
Definition free_buffer (p : positive) : st io_ctx unit :=
  _ ← deref_buffer p; modify (λ s, set_buffers (delete p (buffers s)) s).

(** *** Invariant *)

(** The handles with a tag stand for objects of their own. *)
Definition handles_ok {X} (t : table io_tag positive) (n : positive) (tg : io_tag) (m : gmap positive X) : Prop :=
  (∀ h o, live t !! h = Some (tg, o) → ∃ p, o = Some p ∧ is_Some (m !! p) ∧ (p < n)%positive) ∧
  (∀ h h' o, live t !! h = Some (tg, o) → live t !! h' = Some (tg, o) → h = h').

Record io_wf (s : io_ctx) : Prop := {
  iw_table : wf (io_table s);
  iw_files : handles_ok (io_table s) (io_next s) BIO_FILE_HANDLE (files s);
  iw_sockets : handles_ok (io_table s) (io_next s) BIO_SOCKET_HANDLE (sockets s);
  iw_buffers : handles_ok (io_table s) (io_next s) BIO_BUFFER_HANDLE (buffers s);
}.

(** What holds on to whatever happens. *)
Definition io_evolves (s s' : io_ctx) : Prop :=
  evolves (io_table s) (io_table s') ∧ (io_next s ≤ io_next s')%positive.

Definition io_known (s : io_ctx) (h : bio_handle_t) : Prop := known (io_table s) h.

#[export] Instance io_evolves_preorder : PreOrder io_evolves.
Proof.
  split.
  - intros s. split; [done|lia].
  - intros s1 s2 s3 [H1 H2] [H3 H4]. split; [|lia]. intros k Hk.
    destruct (H1 k Hk) as [Hk2 Hd]. destruct (H3 k Hk2) as [Hk3 Hd']. split; [done|]. auto.
Qed.

(** The object of a handle. *)
Definition object_of (s : io_ctx) (h : bio_handle_t) (tg : io_tag) : option positive :=
  match live (io_table s) !! h with
  | Some (tg', o) => if decide (tg' = tg) then o else None
  | None => None
  end.

Lemma object_of_live s h tg p : object_of s h tg = Some p ↔ live (io_table s) !! h = Some (tg, Some p).
Proof.
  unfold object_of. destruct (live (io_table s) !! h) as [[tg' o]|]; [|done].
  case_decide; naive_solver.
Qed.

Lemma io_resolve_spec s h tg (Q : option positive → io_ctx → Prop) :
  io_wf s → io_known s h → Q (object_of s h tg) s → wp (io_resolve_handle h tg) Q s.
Proof.
  intros Hwf Hk HQ. unfold io_resolve_handle. wp_step.
  eapply wp_mono; [apply resolve_spec; [apply Hwf|done]|]. intros r t [-> ->].
  fold (object_of s h tg). by destruct s.
Qed.

Lemma file_object s h p :
  io_wf s → object_of s h BIO_FILE_HANDLE = Some p → is_Some (files s !! p).
Proof. intros Hwf [q [E [H _]]]%object_of_live%(iw_files _ Hwf). by simplify_eq. Qed.

Lemma socket_object s h p :
  io_wf s → object_of s h BIO_SOCKET_HANDLE = Some p → is_Some (sockets s !! p).
Proof. intros Hwf [q [E [H _]]]%object_of_live%(iw_sockets _ Hwf). by simplify_eq. Qed.

Lemma buffer_object s h p :
  io_wf s → object_of s h BIO_BUFFER_HANDLE = Some p → is_Some (buffers s !! p).
Proof. intros Hwf [q [E [H _]]]%object_of_live%(iw_buffers _ Hwf). by simplify_eq. Qed.

(** *** Changes of the objects *)

Lemma handles_ok_insert {X} t n tg (m : gmap positive X) p x :
  handles_ok t n tg m → handles_ok t n tg (<[p := x]> m).
Proof.
  intros [H1 H2]. split; [|done]. intros h o Hl. destruct (H1 h o Hl) as (q & -> & Hq & Hn).
  exists q. split_and!; [done| |done]. apply lookup_insert_is_Some'. by right.
Qed.

Lemma handles_ok_delete {X} t n tg (m : gmap positive X) p :
  (∀ h, live t !! h ≠ Some (tg, Some p)) → handles_ok t n tg m → handles_ok t n tg (delete p m).
Proof.
  intros Hp [H1 H2]. split; [|done]. intros h o Hl. destruct (H1 h o Hl) as (q & -> & Hq & Hn).
  exists q. split_and!; [done| |done]. rewrite lookup_delete_ne; [done|]. intros ->. by eapply Hp.
Qed.

Lemma handles_ok_next {X} t n n' tg (m : gmap positive X) :
  (n ≤ n')%positive → handles_ok t n tg m → handles_ok t n' tg m.
Proof.
  intros Hn [H1 H2]. split; [|done]. intros h o Hl. destruct (H1 h o Hl) as (q & -> & Hq & Hlt).
  exists q. split_and!; [done..|lia].
Qed.

(** A new handle, for a new object if it has the tag. *)
Lemma handles_ok_make {X} t t' n tg tg' (m : gmap positive X) h p :
  live t' = <[h := (tg', Some p)]> (live t) → (p < n)%positive →
  (tg' = tg → is_Some (m !! p) ∧ ∀ h', live t !! h' ≠ Some (tg, Some p)) →
  handles_ok t n tg m → handles_ok t' n tg m.
Proof.
  intros Hl Hn Hp [H1 H2]. split.
  - intros k o. rewrite Hl, lookup_insert. case_decide as E; [intros [= -> <-]|eauto]. exists p. naive_solver.
  - intros k k' o. rewrite Hl, !lookup_insert. repeat case_decide; subst; try done; [| |eauto].
    + intros [= -> <-] E. by destruct (proj2 (Hp eq_refl) k').
    + intros E [= -> <-]. by destruct (proj2 (Hp eq_refl) k).
Qed.

Lemma handles_ok_close {X} t t' n tg (m : gmap positive X) h :
  live t' = delete h (live t) → handles_ok t n tg m → handles_ok t' n tg m.
Proof.
  intros Hl [H1 H2]. split; rewrite Hl.
  - intros k o [_ Hk]%lookup_delete_Some. eauto.
  - intros k k' o [_ Hk]%lookup_delete_Some [_ Hk']%lookup_delete_Some. eauto.
Qed.

Lemma malloc_wf s : io_wf s → io_wf (set_io_next (Pos.succ (io_next s)) s).
Proof. intros []. split; cbn; [done|eapply handles_ok_next; [|done]; lia..]. Qed.

Lemma insert_file_wf s p x : io_wf s → io_wf (set_files (<[p := x]> (files s)) s).
Proof. intros []. split; cbn; auto using handles_ok_insert. Qed.

Lemma insert_socket_wf s p x : io_wf s → io_wf (set_sockets (<[p := x]> (sockets s)) s).
Proof. intros []. split; cbn; auto using handles_ok_insert. Qed.

Lemma insert_buffer_wf s p x : io_wf s → io_wf (set_buffers (<[p := x]> (buffers s)) s).
Proof. intros []. split; cbn; auto using handles_ok_insert. Qed.

(** No handle stands for the object. *)
Definition unreferenced (s : io_ctx) (tg : io_tag) (p : positive) : Prop :=
  ∀ h, live (io_table s) !! h ≠ Some (tg, Some p).

Lemma delete_file_wf s p :
  unreferenced s BIO_FILE_HANDLE p → io_wf s → io_wf (set_files (delete p (files s)) s).
Proof. intros Hp []. split; cbn; auto using handles_ok_delete. Qed.

Lemma delete_socket_wf s p :
  unreferenced s BIO_SOCKET_HANDLE p → io_wf s → io_wf (set_sockets (delete p (sockets s)) s).
Proof. intros Hp []. split; cbn; auto using handles_ok_delete. Qed.

Lemma delete_buffer_wf s p :
  unreferenced s BIO_BUFFER_HANDLE p → io_wf s → io_wf (set_buffers (delete p (buffers s)) s).
Proof. intros Hp []. split; cbn; auto using handles_ok_delete. Qed.

(** The object that a handle with the tag stands for exists. *)
Definition has_object (s : io_ctx) (tg : io_tag) (p : positive) : Prop :=
  match tg with
  | BIO_FILE_HANDLE => is_Some (files s !! p)
  | BIO_SOCKET_HANDLE => is_Some (sockets s !! p)
  | BIO_BUFFER_HANDLE => is_Some (buffers s !! p)
  | OTHER_HANDLE _ => True
  end.

Lemma io_make_spec s p tg (Q : bio_handle_t → io_ctx → Prop) :
  io_wf s → has_object s tg p → unreferenced s tg p → (p < io_next s)%positive →
  (∀ h t, io_wf (set_io_table t s) → ¬ io_known s h →
    live t = <[h := (tg, Some p)]> (live (io_table s)) → evolves (io_table s) t → Q h (set_io_table t s)) →
  wp (io_make_handle p tg) Q s.
Proof.
  intros Hwf Ho Hu Hp HQ. unfold io_make_handle. wp_step.
  eapply wp_mono; [apply make_spec, Hwf|]. intros h t (Ht & Hk & Hl & He & _). apply HQ; [|done..].
  destruct Hwf. split; cbn; [done|eapply handles_ok_make; [done..| |done]..]; intros ->; by split.
Qed.

Lemma io_close_spec s h tg (Q : option positive → io_ctx → Prop) :
  io_wf s → io_known s h → (∀ n, tg ≠ OTHER_HANDLE n) →
  (object_of s h tg = None → Q None s) →
  (∀ p t, object_of s h tg = Some p → io_wf (set_io_table t s) → has_object s tg p →
    live t = delete h (live (io_table s)) → evolves (io_table s) t →
    unreferenced (set_io_table t s) tg p → Q (Some p) (set_io_table t s)) →
  wp (io_close_handle h tg) Q s.
Proof.
  intros Hwf Hk Htg Hn Hs. unfold io_close_handle. wp_step.
  eapply wp_mono; [apply close_spec; [apply Hwf|done]|]. intros r t (Ht & He & H).
  destruct (live (io_table s) !! h) as [[tg' o]|] eqn:Hl.
  2: { destruct H as [-> ->]. destruct s; apply Hn. unfold object_of. cbn in *. by rewrite Hl. }
  case_decide as E.
  2: { destruct H as [-> ->]. destruct s; apply Hn. unfold object_of. cbn in *. rewrite Hl. by rewrite decide_False. }
  subst tg'. destruct H as [-> Hd].
  assert (Hok : ∃ p, o = Some p ∧ has_object s tg p ∧
    ∀ h', live (io_table s) !! h' = Some (tg, Some p) → h' = h).
  { destruct tg; cbn; [pose proof (iw_files _ Hwf) as [H1 H2]|pose proof (iw_sockets _ Hwf) as [H1 H2]|
      pose proof (iw_buffers _ Hwf) as [H1 H2]|by destruct (Htg n)];
      destruct (H1 _ _ Hl) as (p & -> & Hp & _); eauto 10. }
  destruct Hok as (p & -> & Ho & Hu). apply Hs; [by apply object_of_live| |done..|].
  - destruct Hwf. split; cbn; eauto using handles_ok_close.
  - intros h'. cbn. rewrite Hd. intros [Hne Hh']%lookup_delete_Some. by apply Hne, eq_sym, Hu.
Qed.

End io.
Arguments io_ctx : clear implicits.

(** ** Requests to the operating system *)

Section requests.
(** On Windows the type [Req] of requests is another one. *)
Context {OS File Sock Req : Type}.
(** What the other coroutines, the threads and the users of the operating system do while
    the caller sleeps; what the operating system does; how it describes an error. *)
Context (others : io_ctx OS File Sock → io_ctx OS File Sock).
Context (kernel : Req → OS → reply * OS).
Context (strerror : Z → string).

(** A call that returns at once. *)
Definition system_call (req : Req) : st (io_ctx OS File Sock) reply :=
  s ← get;
  _ ← modify (set_os (kernel req (os s)).2);
  mret (kernel req (os s)).1.

(** The C library: [-1] and [errno] for an error. *)
Definition libc_call (req : Req) : st (io_ctx OS File Sock) (Z * Z) :=
  r ← system_call req;
  mret (if rp_res r <? 0 then (-1, - rp_res r) else (rp_res r, 0)).

(** A request that the caller waits for: [bio_acquire_io_req], [io_uring_prep_...] and
    [bio_submit_io_req] on Linux. *)
Definition perform (req : Req) : st (io_ctx OS File Sock) reply :=
  _ ← modify others;
  r ← system_call req;
  _ ← modify others;
  mret r.

(** [bio_run_async_and_wait]: the caller sleeps while a worker runs the task. *)
Definition run_async_and_wait {A} (task : st (io_ctx OS File Sock) A) : st (io_ctx OS File Sock) A :=
  _ ← modify others;
  result ← task;
  _ ← modify others;
  mret result.

(** [bio_format_errno]. *)
Definition bio_format_errno (code : Z) : string := strerror code.

(** [(bio_set_errno)]. *)
Definition bio_set_errno (error : error_ptr) (code : Z) (file : string) (line : Z) : error_ptr :=
  (λ _, mk_error (Some BIO_PLATFORM_ERROR) code (Some bio_format_errno) file line) <$> error.

Definition bio_result_to_size (result : Z) (error : error_ptr) (file : string) (line : Z) : Z * error_ptr :=
  if result >=? 0 then (result, error) else (0, bio_set_errno error (- result) file line).

Definition bio_result_to_bool (result : Z) (error : error_ptr) (file : string) (line : Z) : bool * error_ptr :=
  if result >=? 0 then (true, error) else (false, bio_set_errno error (- result) file line).

(** The loop of the functions that deal with short writes. *)
Fixpoint write_all {S} (fuel : nat) (write : list Z → error_ptr → st S (Z * error_ptr)) (buf : list Z)
    (total : Z) (error : error_ptr) : st S (Z * error_ptr) :=
  match fuel with
  | O => fail OutOfFuel
  | Datatypes.S fuel =>
      if total <? zlen buf then
        r ← write (drop (Z.to_nat total) buf) error;
        let '(bytes_written, error) := r in
        if bytes_written =? 0 then mret (total, error)
        else write_all fuel write buf (u64 (total + bytes_written)) error
      else mret (total, error)
  end.

(** The same for short reads; [buf] is what was read so far. *)
Fixpoint read_all {S} (fuel : nat) (read : Z → error_ptr → st S (Z * list Z * error_ptr)) (size : Z)
    (total : Z) (buf : list Z) (error : error_ptr) : st S (Z * list Z * error_ptr) :=
  match fuel with
  | O => fail OutOfFuel
  | Datatypes.S fuel =>
      if total <? size then
        r ← read (size - total) error;
        let '(bytes_read, data, error) := r in
        let buf := buf ++ data in
        if bytes_read =? 0 then mret (total, buf, error)
        else read_all fuel read size (u64 (total + bytes_read)) buf error
      else mret (total, buf, error)
  end.

(** *** What the others respect *)

Record polite : Prop := {
  po_wf : ∀ s, io_wf s → io_wf (others s);
  po_evolves : ∀ s, io_wf s → io_evolves s (others s);
}.

Lemma system_call_spec req s (Q : reply → io_ctx OS File Sock → Prop) :
  Q (kernel req (os s)).1 (set_os (kernel req (os s)).2 s) → wp (system_call req) Q s.
Proof. intros HQ. unfold system_call. by wp_steps. Qed.

Lemma set_os_wf (s : io_ctx OS File Sock) o : io_wf s → io_wf (set_os o s).
Proof. by intros []. Qed.

Lemma perform_spec req s (Q : reply → io_ctx OS File Sock → Prop) :
  (let s1 := others s in let s2 := set_os (kernel req (os s1)).2 s1 in
   Q (kernel req (os s1)).1 (others s2)) →
  wp (perform req) Q s.
Proof. intros HQ. unfold perform. wp_steps. apply system_call_spec. wp_steps. exact HQ. Qed.

(** The invariant across a request. *)
Lemma perform_safe req s (Q : reply → io_ctx OS File Sock → Prop) :
  polite → io_wf s →
  (∀ s', io_wf s' → io_evolves s s' → Q (kernel req (os (others s))).1 s') →
  wp (perform req) Q s.
Proof.
  intros [Hwf Hev] Hs HQ. apply perform_spec. apply HQ.
  - by apply Hwf, set_os_wf, Hwf.
  - etrans; [by apply Hev|]. change (io_evolves (set_os (kernel req (os (others s))).2 (others s))
      (others (set_os (kernel req (os (others s))).2 (others s)))).
    by apply Hev, set_os_wf, Hwf.
Qed.
End requests.

Definition bio_io_close {OS File Sock} (others : io_ctx OS File Sock → io_ctx OS File Sock)
    (kernel : request → OS → reply * OS) (fd : Z) : st (io_ctx OS File Sock) Z :=
  r ← perform others kernel (req_close fd); mret (rp_res r).

(** ** Loops over short transfers

    With a bound on how much one step transfers, a loop needs at most one step for each
    byte. *)
Section transfers.
Context {S : Type} (P stopped : list Z → error_ptr → S → Prop).

(** [P done error s]: what is true once the bytes [done] were transferred; [stopped]: what
    is true when nothing more was. *)
Lemma write_all_spec write buf :
  zlen buf < 2 ^ 64 →
  (∀ l k error s, buf = l ++ k → k ≠ [] → P l error s →
    wp (write k error) (λ r s', 0 ≤ r.1 ≤ zlen k ∧
      if r.1 =? 0 then stopped l r.2 s' else P (l ++ take (Z.to_nat r.1) k) r.2 s') s) →
  ∀ fuel l k error s, buf = l ++ k → (length k < fuel)%nat → P l error s →
    wp (write_all fuel write buf (zlen l) error)
      (λ r s', ∃ l' k', buf = l' ++ k' ∧ r.1 = zlen l' ∧
        if decide (k' = []) then P l' r.2 s' else stopped l' r.2 s') s.
Proof.
  intros Hlen Hw. induction fuel as [|fuel IH]; intros l k error s Hbuf Hf HP; [lia|]. cbn [write_all].
  destruct (Z.ltb_spec (zlen l) (zlen buf)) as [Hlt|Hge].
  - rewrite Hbuf, zlen_app in Hlt. assert (Hk : k ≠ []) by (intros ->; unfold zlen in Hlt; cbn in Hlt; lia).
    wp_step. replace (drop (Z.to_nat (zlen l)) buf) with k
      by (rewrite Hbuf; unfold zlen; by rewrite Nat2Z.id, drop_app_length).
    eapply wp_mono; [by apply Hw|]. intros [n error'] s' (Hn & HP'). cbn in Hn, HP' |- *.
    assert (Hb : buf = (l ++ take (Z.to_nat n) k) ++ drop (Z.to_nat n) k)
      by (by rewrite <- app_assoc, take_drop).
    destruct (Z.eqb_spec n 0) as [->|Hne].
    + wp_steps. exists l, k. by rewrite decide_False.
    + replace (u64 (zlen l + n)) with (zlen (l ++ take (Z.to_nat n) k)).
      { eapply IH; [done| |done]. rewrite length_drop. destruct k; [done|]. cbn in *. lia. }
      rewrite Hbuf in Hlen. rewrite zlen_app in Hlen |- *. unfold u64, zlen in *.
      rewrite Z.mod_small by lia. rewrite length_take. lia.
  - assert (k = []) as ->.
    { rewrite Hbuf, zlen_app in Hge. destruct k; [done|]. unfold zlen in Hge. cbn in Hge. lia. }
    wp_steps. exists l, []. by rewrite decide_True.
Qed.

Lemma read_all_spec read size :
  size < 2 ^ 64 →
  (∀ l error s, zlen l < size → P l error s →
    wp (read (size - zlen l) error)
      (λ r s', r.1.1 = zlen r.1.2 ∧ zlen r.1.2 ≤ size - zlen l ∧
        if r.1.1 =? 0 then stopped l r.2 s' else P (l ++ r.1.2) r.2 s') s) →
  ∀ fuel l error s, zlen l ≤ size → (Z.to_nat (size - zlen l) < fuel)%nat → P l error s →
    wp (read_all fuel read size (zlen l) l error)
      (λ r s', r.1.1 = zlen r.1.2 ∧ zlen r.1.2 ≤ size ∧
        if zlen r.1.2 <? size then stopped r.1.2 r.2 s' else P r.1.2 r.2 s') s.
Proof.
  intros Hsize Hr. induction fuel as [|fuel IH]; intros l error s Hle Hf HP; cbn [read_all]; [lia|].
  destruct (Z.ltb_spec (zlen l) size) as [Hlt|Hge].
  2: { wp_steps. cbn. rewrite (proj2 (Z.ltb_ge _ _)) by lia. done. }
  wp_step. eapply wp_mono; [by apply Hr|]. intros [[n data] error'] s' (Hn & Hd & HP').
  cbn in Hn, Hd, HP' |- *.
  pose proof (zlen_nonneg data). pose proof (zlen_nonneg l).
  destruct (Z.eqb_spec n 0) as [->|Hne].
  - wp_steps. cbn. assert (data = []) as ->.
    { destruct data; [done|]. unfold zlen in Hn. cbn in Hn. lia. }
    rewrite app_nil_r, (proj2 (Z.ltb_lt _ _)) by done. done.
  - replace (u64 (zlen l + n)) with (zlen (l ++ data))
      by (rewrite zlen_app; unfold u64; rewrite Z.mod_small; lia).
    apply IH; [rewrite zlen_app; lia..|done].
Qed.
End transfers.
