(* ===== verification/Cursor.v ===== *)
(** What the functions for files promise, on every platform: an open file is a list of bytes
    with a position. *)
From Stdlib Require Import Ascii.
From stdpp Require Import strings.
From S2P Require Import Prelude HandleTable Error Io.

(** The origins of a position. *)
Definition SEEK_SET : Z := 0.
Definition SEEK_CUR : Z := 1.
Definition SEEK_END : Z := 2.

(** A character of a string, which ends with a null character. *)
Definition char_at (n : nat) (s : string) : Ascii.ascii := default Ascii.zero (String.get n s).

(** ** The bytes of a file *)

(** Bytes written at an offset; a gap is filled with zeros. *)
Definition splice (off : Z) (data l : list Z) : list Z :=
  if decide (data = []) then l
  else take (Z.to_nat off) l ++ replicate (Z.to_nat off - length l) 0 ++ data ++ drop (Z.to_nat off + length data) l.

(** [read] at an offset: an error, or some of the bytes there, none only at the end. *)
Definition read_reply (l : list Z) (size off : Z) (r : reply) : Prop :=
  (rp_res r < 0 ∧ rp_data r = []) ∨
  (rp_res r = zlen (rp_data r) ∧ zlen (rp_data r) ≤ size ∧
   rp_data r = take (length (rp_data r)) (drop (Z.to_nat off) l) ∧
   (rp_data r = [] → size = 0 ∨ zlen l ≤ off)).

(** [write] at an offset: an error, or some of the bytes are written, at least one. *)
Definition write_reply (l buf : list Z) (off : Z) (r : reply) (l' : list Z) : Prop :=
  (rp_res r < 0 ∧ l' = l) ∨
  (0 ≤ rp_res r ≤ zlen buf ∧ off + rp_res r < 2 ^ 63 ∧
   l' = splice off (take (Z.to_nat (rp_res r)) buf) l ∧ (rp_res r = 0 → buf = [])).

Lemma read_reply_bound l size off r :
  read_reply l size off r → 0 ≤ off < 2 ^ 63 → zlen l < 2 ^ 63 → off + zlen (rp_data r) < 2 ^ 63.
Proof.
  intros Hr Ho Hl. destruct (rp_data r) as [|x data] eqn:E; [unfold zlen; cbn; lia|].
  destruct Hr as [[_ Hd]|(_ & _ & Hdata & _)]; [congruence|]. rewrite E in Hdata.
  apply (f_equal length) in Hdata. rewrite length_take, length_drop in Hdata.
  assert (1 ≤ length (x :: data))%nat by (cbn; lia). unfold zlen in *. lia.
Qed.

Lemma zlen_splice off data l :
  0 ≤ off → data ≠ [] → zlen (splice off data l) = Z.max (zlen l) (off + zlen data).
Proof.
  intros Ho Hd. unfold splice, zlen. rewrite decide_False by done.
  rewrite !length_app, length_take, length_replicate, length_drop. lia.
Qed.

Lemma splice_app off d1 d2 l : 0 ≤ off →
  splice (off + zlen d1) d2 (splice off d1 l) = splice off (d1 ++ d2) l.
Proof.
  intros Ho. destruct (decide (d1 = [])) as [->|H1].
  { unfold splice at 2. rewrite decide_True by done. cbn. by rewrite Z.add_0_r. }
  destruct (decide (d2 = [])) as [->|H2].
  { unfold splice at 1. rewrite decide_True by done. by rewrite app_nil_r. }
  assert (Hlen : Z.to_nat (off + zlen d1) = (Z.to_nat off + length d1)%nat) by (unfold zlen; lia).
  unfold splice. rewrite !decide_False by (by destruct d1). rewrite Hlen.
  set (front := take (Z.to_nat off) l ++ replicate (Z.to_nat off - length l) 0).
  assert (Hf : length front = Z.to_nat off)
    by (unfold front; rewrite length_app, length_take, length_replicate; lia).
  rewrite !(app_assoc (take (Z.to_nat off) l)). fold front.
  assert (Hf1 : length (front ++ d1) = (Z.to_nat off + length d1)%nat) by (rewrite length_app; lia).
  rewrite !(app_assoc front d1), take_app_length', drop_app_ge by lia.
  replace (Z.to_nat off + length d1 - length ((front ++ d1) ++ _))%nat with 0%nat
    by (rewrite (length_app (front ++ d1)); lia). cbn [replicate app].
  rewrite Hf1, drop_drop, length_app, <- (app_assoc front), (app_assoc d1). do 2 f_equal.
  f_equal. lia.
Qed.

Lemma splice_read off data l : 0 ≤ off →
  data = take (length data) (drop (Z.to_nat off) (splice off data l)).
Proof.
  intros Ho. unfold splice. case_decide as E; [by rewrite E|]. rewrite app_assoc, drop_app_length'.
  - by rewrite take_app_length.
  - rewrite length_app, length_take, length_replicate. lia.
Qed.

(** ** Operations *)

Inductive file_op :=
  | Read (size : Z)
  | Write (buf : list Z)
  | Seek (offset origin : Z)
  | Tell
  | Flush
  | Stat.

Inductive file_result :=
  | RRead (n : Z) (data : list Z) (error : error_ptr)
  | RWrite (n : Z) (error : error_ptr)
  | RBool (b : bool) (error : error_ptr)
  | RTell (pos : Z) (error : error_ptr)
  | RStat (b : bool) (size : option Z) (error : error_ptr).

(** Offsets that are within a file. *)
Definition file_op_ok (pos : Z) (op : file_op) : Prop :=
  match op with
  | Read size => 0 ≤ size
  | Seek offset origin =>
      (origin = SEEK_SET → 0 ≤ offset < 2 ^ 63) ∧ (origin = SEEK_CUR → 0 ≤ pos + offset)
  | _ => True
  end.

(** ** Their effects *)

Section cursor.
(** An error was reported, where the caller wants to know. *)
Context (failed : error_ptr → error_ptr → Prop).

Inductive cursor_step (l : list Z) (pos : Z) (error : error_ptr) :
    file_op → file_result → list Z → Z → Prop :=
  | cs_read size data :
      zlen data ≤ size → data = take (length data) (drop (Z.to_nat pos) l) →
      (data = [] → size = 0 ∨ zlen l ≤ pos) →
      cursor_step l pos error (Read size) (RRead (zlen data) data error) l (pos + zlen data)
  | cs_read_fails size error' : failed error error' →
      cursor_step l pos error (Read size) (RRead 0 [] error') l pos
  | cs_write buf n : 0 ≤ n ≤ zlen buf → (n = 0 → buf = []) →
      cursor_step l pos error (Write buf) (RWrite n error) (splice pos (take (Z.to_nat n) buf) l) (pos + n)
  | cs_write_fails buf error' : failed error error' →
      cursor_step l pos error (Write buf) (RWrite 0 error') l pos
  | cs_seek_set offset :
      cursor_step l pos error (Seek offset SEEK_SET) (RBool true error) l offset
  | cs_seek_cur offset :
      cursor_step l pos error (Seek offset SEEK_CUR) (RBool true error) l (pos + offset)
  | cs_seek_fails offset origin error' : origin ≠ SEEK_SET → origin ≠ SEEK_CUR → failed error error' →
      cursor_step l pos error (Seek offset origin) (RBool false error') l pos
  | cs_tell : cursor_step l pos error Tell (RTell pos error) l pos
  | cs_flush : cursor_step l pos error Flush (RBool true error) l pos
  | cs_flush_fails error' : failed error error' →
      cursor_step l pos error Flush (RBool false error') l pos
  | cs_stat : cursor_step l pos error Stat (RStat true (Some (zlen l)) error) l pos
  | cs_stat_none : cursor_step l pos error Stat (RStat true None error) l pos
  | cs_stat_fails error' : failed error error' →
      cursor_step l pos error Stat (RStat false None error') l pos.
End cursor.

(** ** The result depends on what was transferred *)

(** How much an operation did. *)
Definition amount (r : file_result) : Z :=
  match r with
  | RRead n _ _ | RWrite n _ => n
  | RBool b _ => Z.b2z b
  | RTell _ _ => 0
  | RStat _ size _ => if size is Some _ then 1 else 0
  end.

(** Results that are the same but for the errors that were reported. *)
Definition same_result (r1 r2 : file_result) : Prop :=
  match r1, r2 with
  | RRead n1 data1 _, RRead n2 data2 _ => n1 = n2 ∧ data1 = data2
  | RWrite n1 _, RWrite n2 _ => n1 = n2
  | RBool b1 _, RBool b2 _ => b1 = b2
  | RTell pos1 _, RTell pos2 _ => pos1 = pos2
  | RStat _ size1 _, RStat _ size2 _ => size1 = size2
  | _, _ => False
  end.

Lemma cursor_agree F1 F2 l pos e1 e2 op r1 r2 l1 l2 pos1 pos2 :
  cursor_step F1 l pos e1 op r1 l1 pos1 → cursor_step F2 l pos e2 op r2 l2 pos2 → amount r1 = amount r2 →
  same_result r1 r2 ∧ l1 = l2 ∧ pos1 = pos2.
Proof.
  assert (Hz : ∀ data : list Z, zlen data = 0 → data = []).
  { intros [|x data] H; [done|]. unfold zlen in H. cbn in H. lia. }
  assert (Hs : ∀ buf, splice pos (take (Z.to_nat 0) buf) l = l) by (intros buf; unfold splice; by rewrite decide_True).
  intros H1 H2 Ha. destruct H1; inversion H2; subst; cbn in Ha |- *; try done; try lia.
  - assert (data = data0) as ->; [|done].
    match goal with E : data = _, E0 : data0 = _ |- _ => rewrite E, E0 end.
    unfold zlen in Ha. by replace (length data0) with (length data) by lia.
  - rewrite (Hz _ Ha). by rewrite Z.add_0_r.
  - rewrite (Hz _ (eq_sym Ha)). by rewrite Z.add_0_r.
  - by subst.
  - subst. by rewrite Hs, Z.add_0_r.
  - subst. by rewrite Hs, Z.add_0_r.
Qed.

(** ** The interface of a platform *)

(** The functions of a platform for a file in the state [file_at l pos]: a cursor over [l] at
    [pos]. *)
Class Cursor {S : Type} (failed : file_op → error_ptr → error_ptr → Prop)
    (exec : file_op → error_ptr → st S file_result) (file_at : list Z → Z → S → Prop) : Prop :=
  cursor_exec l pos s op error :
    file_at l pos s → file_op_ok pos op →
    wp (exec op error) (λ r s', ∃ l' pos', cursor_step (failed op) l pos error op r l' pos' ∧ file_at l' pos' s') s.

Lemma cursors_agree {S1 S2} F1 exec1 at1 F2 exec2 at2 l pos op e1 e2 (s1 : S1) (s2 : S2) r1 r2 s1' s2' :
  Cursor F1 exec1 at1 → Cursor F2 exec2 at2 → at1 l pos s1 → at2 l pos s2 → file_op_ok pos op →
  exec1 op e1 s1 = Ok (r1, s1') → exec2 op e2 s2 = Ok (r2, s2') → amount r1 = amount r2 →
  same_result r1 r2 ∧ ∃ l' pos', at1 l' pos' s1' ∧ at2 l' pos' s2' ∧ cursor_step (F1 op) l pos e1 op r1 l' pos'.
Proof.
  intros C1 C2 H1 H2 Hok E1 E2 Ha.
  destruct (wp_elim _ _ _ _ _ (C1 _ _ _ _ e1 H1 Hok) E1) as (l1 & p1 & Hst1 & H1').
  destruct (wp_elim _ _ _ _ _ (C2 _ _ _ _ e2 H2 Hok) E2) as (l2 & p2 & Hst2 & H2').
  destruct (cursor_agree _ _ _ _ _ _ _ _ _ _ _ _ _ Hst1 Hst2 Ha) as (Hs & <- & <-). eauto 10.
Qed.
