(* ===== verification/LinuxFile.v ===== *)
(** Files on Linux ([src/linux/file.c], [include/bio/file.h]): a file has a descriptor
    and, if it is seekable, an offset of its own. *)
From Stdlib Require Import Ascii.
From stdpp Require Import strings.
From S2P Require Import Prelude HandleTable Error Io Cursor.

(** ** State *)

(** [bio_file_impl_t]. *)
Record bio_file_impl_t := mk_file { fl_fd : Z; fl_offset : Z; fl_seekable : bool }.

(** The constants of the operating system. *)
Definition O_RDONLY : Z := 0.
Definition O_WRONLY : Z := 1.
Definition O_RDWR : Z := 2.
Definition O_CREAT : Z := 64.
Definition O_TRUNC : Z := 512.
Definition O_APPEND : Z := 1024.
Definition O_CLOEXEC : Z := 524288.
Definition S_IRUSR : Z := 256.
Definition S_IWUSR : Z := 128.
Definition ENOTSUP : Z := 95.
Definition INT32_MAX : Z := 2147483647.

Local Infix "|||" := Z.lor (at level 50, left associativity).

Section code.
Context {OS Sock : Type}.
Context (others : io_ctx OS bio_file_impl_t Sock → io_ctx OS bio_file_impl_t Sock).
Context (kernel : request → OS → reply * OS).
Context (strerror : Z → string).
Abbreviation io := (io_ctx OS bio_file_impl_t Sock).
Abbreviation here := "src/linux/file.c"%string.
Local Abbreviation set_errno := (bio_set_errno strerror).

(** ** The code *)

Definition bio_file_from_fd (fd offset : Z) (seekable : bool) : st io bio_handle_t :=
  p ← io_malloc;
  _ ← modify (λ s : io, set_files (<[p := mk_file fd (if seekable then offset else -1) seekable]> (files s)) s);
  io_make_handle p BIO_FILE_HANDLE.

(** [BIO_STDIN], [BIO_STDOUT] and [BIO_STDERR]. *)
Definition bio_fs_init : st io (bio_handle_t * bio_handle_t * bio_handle_t) :=
  stdin ← bio_file_from_fd 0 (-1) false;
  stdout ← bio_file_from_fd 1 (-1) false;
  stderr ← bio_file_from_fd 2 (-1) false;
  mret (stdin, stdout, stderr).

(** [bio_free] of what [bio_close_handle] returns. *)
Definition free_closed (file : bio_handle_t) : st io unit :=
  impl ← io_close_handle file BIO_FILE_HANDLE;
  match impl with Some p => free_file p | None => mret tt end.

Definition bio_fs_cleanup (stdin stdout stderr : bio_handle_t) : st io unit :=
  _ ← free_closed stdin;
  _ ← free_closed stdout;
  free_closed stderr.

Definition bio_fs_test_lseek (fd whence : Z) : st io Z :=
  r ← libc_call kernel (req_lseek fd 0 whence);
  mret r.1.

(** [bio_run_async_and_wait]: the caller sleeps while a worker runs the task. *)
Definition run_lseek (fd whence : Z) : st io Z :=
  _ ← modify others;
  result ← bio_fs_test_lseek fd whence;
  _ ← modify others;
  mret result.

Definition bio_fdopen (fd : Z) : st io bio_handle_t :=
  bio_file_from_fd (to_int fd) (-1) false.

Definition bio_funwrap (file : bio_handle_t) : st io Z :=
  impl ← io_resolve_handle file BIO_FILE_HANDLE;
  match impl with
  | Some impl => x ← deref_file impl; mret (u64 (fl_fd x))
  | None => mret (u64 (-1))
  end.

(** The translation of the mode to flags; the second character is read only if the first
    one is not the end. *)
Definition open_flags (mode : string) : option Z :=
  let plus := bool_decide (char_at 1 mode = "+"%char) in
  if decide (char_at 0 mode = "r"%char) then Some (if plus then O_RDWR else O_RDONLY)
  else if decide (char_at 0 mode = "w"%char) then
    Some (if plus then O_RDWR ||| O_CREAT ||| O_TRUNC else O_WRONLY ||| O_CREAT ||| O_TRUNC)
  else if decide (char_at 0 mode = "a"%char) then
    Some (if plus then O_RDWR ||| O_CREAT ||| O_APPEND else O_WRONLY ||| O_CREAT ||| O_APPEND)
  else None.

Definition bio_fopen (filename mode : string) (error : error_ptr) :
    st io (bool * option bio_handle_t * error_ptr) :=
  match open_flags mode with
  | None => mret (false, None, bio_set_core_error error BIO_ERROR_INVALID_ARGUMENT here 100)
  | Some flags =>
      r ← perform others kernel (req_open filename (flags ||| O_CLOEXEC) (S_IRUSR ||| S_IWUSR));
      let fd := rp_res r in
      if fd >=? 0 then
        let whence := if Z.land flags O_APPEND >? 0 then SEEK_END else SEEK_CUR in
        result ← run_lseek fd whence;
        file ← bio_file_from_fd fd result (result >=? 0);
        mret (true, Some file, error)
      else mret (false, None, set_errno error (- fd) here 116)
  end.

Definition bio_fwrite (file : bio_handle_t) (buf : list Z) (error : error_ptr) : st io (Z * error_ptr) :=
  impl ← io_resolve_handle file BIO_FILE_HANDLE;
  match impl with
  | Some impl =>
      x ← deref_file impl;
      let size := if zlen buf <? INT32_MAX then zlen buf else INT32_MAX in
      r ← perform others kernel (req_write (fl_fd x) (take (Z.to_nat size) buf) (u64 (fl_offset x)));
      let '(bytes_written, error) := bio_result_to_size strerror (rp_res r) error here 134 in
      x ← deref_file impl;
      _ ← (if fl_seekable x
           then store_file impl (mk_file (fl_fd x) (to_i64 (u64 (fl_offset x + bytes_written))) (fl_seekable x))
           else mret tt);
      mret (bytes_written, error)
  | None => mret (0, bio_set_core_error error BIO_ERROR_INVALID_ARGUMENT here 140)
  end.

(** The result comes with the bytes that were written to [buf]. *)
Definition bio_fread (file : bio_handle_t) (size : Z) (error : error_ptr) :
    st io (Z * list Z * error_ptr) :=
  impl ← io_resolve_handle file BIO_FILE_HANDLE;
  match impl with
  | Some impl =>
      x ← deref_file impl;
      let size := if size <? INT32_MAX then size else INT32_MAX in
      r ← perform others kernel (req_read (fl_fd x) size (u64 (fl_offset x)));
      let '(bytes_read, error) := bio_result_to_size strerror (rp_res r) error here 158 in
      x ← deref_file impl;
      _ ← (if fl_seekable x
           then store_file impl (mk_file (fl_fd x) (to_i64 (u64 (fl_offset x + bytes_read))) (fl_seekable x))
           else mret tt);
      mret (bytes_read, rp_data r, error)
  | None => mret (0, [], bio_set_core_error error BIO_ERROR_INVALID_ARGUMENT here 164)
  end.

Definition bio_fflush (file : bio_handle_t) (error : error_ptr) : st io (bool * error_ptr) :=
  impl ← io_resolve_handle file BIO_FILE_HANDLE;
  match impl with
  | Some impl =>
      x ← deref_file impl;
      r ← perform others kernel (req_fsync (fl_fd x));
      mret (bio_result_to_bool strerror (rp_res r) error here 176)
  | None => mret (false, bio_set_core_error error BIO_ERROR_INVALID_ARGUMENT here 178)
  end.

Definition bio_fclose (file : bio_handle_t) (error : error_ptr) : st io (bool * error_ptr) :=
  impl ← io_close_handle file BIO_FILE_HANDLE;
  match impl with
  | Some impl =>
      x ← deref_file impl;
      _ ← free_file impl;
      result ← bio_io_close others kernel (fl_fd x);
      mret (bio_result_to_bool strerror result error here 190)
  | None => mret (false, bio_set_core_error error BIO_ERROR_INVALID_ARGUMENT here 192)
  end.

Definition bio_fseek (file : bio_handle_t) (offset origin : Z) (error : error_ptr) :
    st io (bool * error_ptr) :=
  impl ← io_resolve_handle file BIO_FILE_HANDLE;
  match impl with
  | Some impl =>
      x ← deref_file impl;
      if fl_seekable x then
        if origin =? SEEK_SET then
          _ ← store_file impl (mk_file (fl_fd x) offset (fl_seekable x));
          mret (true, error)
        else if origin =? SEEK_CUR then
          n ← i64_of (fl_offset x + offset);
          _ ← store_file impl (mk_file (fl_fd x) n (fl_seekable x));
          mret (true, error)
        else mret (false, set_errno error ENOTSUP here 214)
      else mret (false, set_errno error ENOTSUP here 218)
  | None => mret (false, bio_set_core_error error BIO_ERROR_INVALID_ARGUMENT here 222)
  end.

Definition bio_ftell (file : bio_handle_t) (error : error_ptr) : st io (Z * error_ptr) :=
  impl ← io_resolve_handle file BIO_FILE_HANDLE;
  match impl with
  | Some impl =>
      x ← deref_file impl;
      if fl_seekable x then mret (fl_offset x, error)
      else mret (-1, set_errno error ENOTSUP here 237)
  | None => mret (-1, bio_set_core_error error BIO_ERROR_INVALID_ARGUMENT here 241)
  end.

(** The size is only set on success; [-1] is [true] as a [bool]. *)
Definition bio_fstat (file : bio_handle_t) (error : error_ptr) : st io (bool * option Z * error_ptr) :=
  impl ← io_resolve_handle file BIO_FILE_HANDLE;
  match impl with
  | Some impl =>
      x ← deref_file impl;
      r ← perform others kernel (req_statx (fl_fd x));
      if rp_res r =? 0 then mret (true, Some (rp_stx_size r), error)
      else
        let '(b, error) := bio_result_to_bool strerror (rp_res r) error here 258 in
        mret (b, None, error)
  | None => mret (true, None, bio_set_core_error error BIO_ERROR_INVALID_ARGUMENT here 261)
  end.

(** The helpers of [include/bio/file.h]. *)
Definition bio_fwrite_exactly (file : bio_handle_t) (buf : list Z) (error : error_ptr) :
    st io (Z * error_ptr) :=
  write_all (S (length buf)) (bio_fwrite file) buf 0 error.

Definition bio_fread_exactly (file : bio_handle_t) (size : Z) (error : error_ptr) :
    st io (Z * list Z * error_ptr) :=
  read_all (S (Z.to_nat size)) (bio_fread file) size 0 [] error.

(** ** What the operating system does with regular files *)

(** The contents of the regular file that a descriptor stands for. *)
Context (contents : OS → Z → option (list Z)).

(** The documented behaviour of the requests. *)
Record regular_files : Prop := {
  rf_read o fd size off l : contents o fd = Some l → 0 ≤ size → 0 ≤ off < 2 ^ 63 →
    contents (kernel (req_read fd size off) o).2 fd = Some l ∧
    read_reply l size off (kernel (req_read fd size off) o).1;
  rf_write o fd buf off l : contents o fd = Some l → zlen l < 2 ^ 63 → 0 ≤ off < 2 ^ 63 →
    ∃ l', contents (kernel (req_write fd buf off) o).2 fd = Some l' ∧
      write_reply l buf off (kernel (req_write fd buf off) o).1 l';
  rf_fsync o fd l : contents o fd = Some l →
    contents (kernel (req_fsync fd) o).2 fd = Some l;
  rf_statx o fd l : contents o fd = Some l →
    contents (kernel (req_statx fd) o).2 fd = Some l ∧
    (rp_res (kernel (req_statx fd) o).1 = 0 → rp_stx_size (kernel (req_statx fd) o).1 = zlen l);
}.

(** The handle [h] is a seekable file with the contents [l] and the offset [pos]. *)
Record file_at (h : bio_handle_t) (p : positive) (fd : Z) (l : list Z) (pos : Z) (s : io) : Prop := {
  fa_wf : io_wf s;
  fa_object : object_of s h BIO_FILE_HANDLE = Some p;
  fa_impl : files s !! p = Some (mk_file fd pos true);
  fa_contents : contents (os s) fd = Some l;
  fa_pos : 0 ≤ pos < 2 ^ 63;
  fa_len : zlen l < 2 ^ 63;
}.

(** ** A file is a list of bytes with a position *)

Definition file_exec (file : bio_handle_t) (op : file_op) (error : error_ptr) : st io file_result :=
  match op with
  | Read size => r ← bio_fread file size error; let '(n, data, error) := r in mret (RRead n data error)
  | Write buf => r ← bio_fwrite file buf error; let '(n, error) := r in mret (RWrite n error)
  | Seek offset origin => r ← bio_fseek file offset origin error; let '(b, error) := r in mret (RBool b error)
  | Tell => r ← bio_ftell file error; let '(n, error) := r in mret (RTell n error)
  | Flush => r ← bio_fflush file error; let '(b, error) := r in mret (RBool b error)
  | Stat => r ← bio_fstat file error; let '(b, size, error) := r in mret (RStat b size error)
  end.

(** An error of the operating system was reported, where the caller wants to know. *)
Definition failed (error error' : error_ptr) : Prop :=
  ∃ code line, 0 < code ∧ error' = set_errno error code here line.

Local Abbreviation cursor_step := (cursor_step failed).

(** The operating system never refuses to write. *)
Definition writes_succeed : Prop :=
  ∀ o fd buf offset, 0 ≤ rp_res (kernel (req_write fd buf offset) o).1.

Section spec.
Context (Hregular : regular_files) (h : bio_handle_t) (p : positive) (fd : Z).
(** Nobody else uses the file. *)
Context (Hmine : ∀ l pos s, file_at h p fd l pos s → file_at h p fd l pos (others s)).

Lemma file_at_known l pos s : file_at h p fd l pos s → io_known s h.
Proof. intros Hf. apply live_known. rewrite (proj1 (object_of_live _ _ _ _) (fa_object _ _ _ _ _ _ Hf)). eauto. Qed.

Lemma file_at_resolve l pos s (Q : option positive → io → Prop) :
  file_at h p fd l pos s → Q (Some p) s → wp (io_resolve_handle h BIO_FILE_HANDLE) Q s.
Proof.
  intros Hf HQ. apply io_resolve_spec; [apply Hf|by eapply file_at_known|].
  by rewrite (fa_object _ _ _ _ _ _ Hf).
Qed.

Lemma file_at_deref l pos s (Q : bio_file_impl_t → io → Prop) :
  file_at h p fd l pos s → Q (mk_file fd pos true) s → wp (deref_file p) Q s.
Proof. intros Hf HQ. unfold deref_file. wp_step. by eapply wp_need; [apply Hf|]. Qed.

Lemma file_at_store l pos pos' s (Q : unit → io → Prop) :
  file_at h p fd l pos s → 0 ≤ pos' < 2 ^ 63 →
  (∀ s', file_at h p fd l pos' s' → Q tt s') →
  wp (store_file p (mk_file fd pos' true)) Q s.
Proof.
  intros Hf Hp HQ. unfold store_file. wp_step. eapply file_at_deref; [done|]. wp_step. apply HQ.
  destruct Hf. split; cbn; [by apply insert_file_wf|done|by rewrite lookup_insert_eq|done..].
Qed.

(** A request to the operating system, with what it does to the contents. *)
Lemma file_at_perform req l pos s (Post : reply → list Z → Prop) (Q : reply → io → Prop) :
  file_at h p fd l pos s →
  (∀ o, contents o fd = Some l → ∃ l', contents (kernel req o).2 fd = Some l' ∧
    zlen l' < 2 ^ 63 ∧ Post (kernel req o).1 l') →
  (∀ r l' s', Post r l' → file_at h p fd l' pos s' → Q r s') →
  wp (perform others kernel req) Q s.
Proof.
  intros Hf Hk HQ. apply perform_spec. cbn zeta.
  destruct (Hk _ (fa_contents _ _ _ _ _ _ (Hmine _ _ _ Hf))) as (l' & Hl' & Hlen & Hpost).
  eapply HQ; [done|]. apply Hmine. destruct (Hmine _ _ _ Hf). by split; cbn; [apply set_os_wf|..].
Qed.

Lemma fread_spec l pos s size error :
  file_at h p fd l pos s → 0 ≤ size →
  wp (bio_fread h size error) (λ r s', ∃ l' pos',
    cursor_step l pos error (Read size) (RRead r.1.1 r.1.2 r.2) l' pos' ∧ file_at h p fd l' pos' s') s.
Proof.
  intros Hf Hs. unfold bio_fread. wp_step. eapply file_at_resolve; [done|].
  wp_step. eapply file_at_deref; [done|]. wp_step.
  pose proof (fa_pos _ _ _ _ _ _ Hf) as Hpos. cbn [fl_fd fl_offset].
  rewrite (u64_small pos) by lia. set (n := if size <? INT32_MAX then size else INT32_MAX).
  assert (Hn : 0 ≤ n ≤ size) by (unfold n, INT32_MAX; destruct (Z.ltb_spec size 2147483647); lia).
  eapply (file_at_perform _ _ _ _ (λ r l', l' = l ∧ read_reply l n pos r)); [done| |].
  { intros o Ho. destruct (rf_read Hregular o fd n pos l) as [? ?]; [done|lia|lia|].
    exists l. split_and!; [done|apply Hf|done..]. }
  intros r l' s1 [-> Hr] Hf1. unfold bio_result_to_size.
  destruct (Z.geb_spec (rp_res r) 0) as [Hge|Hlt].
  - destruct Hr as [[? _]|(Hres & Hle & Hdata & Hend)]; [lia|].
    wp_step. eapply file_at_deref; [done|]. wp_step. cbn [fl_seekable fl_fd fl_offset].
    assert (Hmax : pos + zlen (rp_data r) < 2 ^ 63).
    { eapply (read_reply_bound l n pos r); [right; done|done|apply Hf]. }
    pose proof (zlen_nonneg (rp_data r)). rewrite Hres, to_i64_u64 by lia.
    eapply file_at_store; [done|lia|]. intros s2 Hf2. wp_steps.
    exists l, (pos + zlen (rp_data r)). split; [|done]. cbn. constructor; [lia|done|].
    intros E. destruct (Hend E) as [?|?]; [|by right]. left. unfold n, INT32_MAX in *.
    destruct (Z.ltb_spec size 2147483647); lia.
  - destruct Hr as [[_ Hd]|(Hres & _)]; [|pose proof (zlen_nonneg (rp_data r)); lia].
    wp_step. eapply file_at_deref; [done|]. wp_step. cbn [fl_seekable fl_fd fl_offset].
    rewrite Z.add_0_r, to_i64_u64 by lia.
    eapply file_at_store; [done|lia|]. intros s2 Hf2. wp_steps.
    exists l, pos. split; [|done]. cbn. rewrite Hd. constructor. eexists _, _. split; [|done]. lia.
Qed.

Lemma fwrite_outcome l pos s buf error :
  file_at h p fd l pos s →
  wp (bio_fwrite h buf error) (λ r s', (∃ l' pos',
    cursor_step l pos error (Write buf) (RWrite r.1 r.2) l' pos' ∧ file_at h p fd l' pos' s') ∧
    (writes_succeed → r.1 = 0 → buf = [])) s.
Proof.
  intros Hf. unfold bio_fwrite. wp_step. eapply file_at_resolve; [done|].
  wp_step. eapply file_at_deref; [done|]. wp_step.
  pose proof (fa_pos _ _ _ _ _ _ Hf) as Hpos. cbn [fl_fd fl_offset].
  rewrite (u64_small pos) by lia. set (n := if zlen buf <? INT32_MAX then zlen buf else INT32_MAX).
  assert (Hn : 0 ≤ n ≤ zlen buf ∧ (n = 0 → zlen buf = 0)).
  { pose proof (zlen_nonneg buf). unfold n, INT32_MAX. destruct (Z.ltb_spec (zlen buf) 2147483647); lia. }
  set (buf' := take (Z.to_nat n) buf).
  assert (Hbuf : zlen buf' = n) by (unfold buf', zlen in *; rewrite length_take; lia).
  eapply (file_at_perform _ _ _ _ (λ r l', write_reply l buf' pos r l' ∧ (writes_succeed → 0 ≤ rp_res r))); [done| |].
  { intros o Ho. destruct (rf_write Hregular o fd buf' pos l) as (l' & ? & Hr); [done|apply Hf|lia|].
    exists l'. split_and!; [done| |done|by intros Hok; apply Hok]. pose proof (fa_len _ _ _ _ _ _ Hf).
    destruct Hr as [[_ ->]|(Hr & Hm & -> & _)]; [done|].
    destruct (decide (take (Z.to_nat (rp_res (kernel (req_write fd buf' pos) o).1)) buf' = [])) as [E|E].
    { unfold splice. by rewrite decide_True. }
    rewrite zlen_splice by (done || lia). unfold zlen in *. rewrite length_take. lia. }
  intros r l' s1 [Hr Hno] Hf1. unfold bio_result_to_size.
  destruct (Z.geb_spec (rp_res r) 0) as [Hge|Hlt].
  - destruct Hr as [[? _]|(Hres & Hm & Hl' & Hend)]; [lia|].
    wp_step. eapply file_at_deref; [done|]. wp_step. cbn [fl_seekable fl_fd fl_offset].
    rewrite to_i64_u64 by lia. eapply file_at_store; [done|lia|]. intros s2 Hf2. wp_steps.
    assert (Hall : rp_res r = 0 → buf = []).
    { intros E. apply Hend in E. apply nil_length_inv. rewrite E in Hbuf. unfold zlen in *. cbn in Hbuf. lia. }
    split; [|done]. exists l', (pos + rp_res r). split; [|done]. cbn.
    assert (Htake : take (Z.to_nat (rp_res r)) buf' = take (Z.to_nat (rp_res r)) buf).
    { unfold buf'. rewrite take_take. f_equal. lia. }
    rewrite Hl', Htake. constructor; [lia|done].
  - destruct Hr as [[_ ->]|(Hres & _)]; [|lia].
    wp_step. eapply file_at_deref; [done|]. wp_step. cbn [fl_seekable fl_fd fl_offset].
    rewrite Z.add_0_r, to_i64_u64 by lia.
    eapply file_at_store; [done|lia|]. intros s2 Hf2. wp_steps.
    split; [|by intros Hok; apply Hno in Hok; lia]. exists l, pos. split; [|done]. cbn. constructor. eexists _, _. split; [|done]. lia.
Qed.

Lemma fwrite_spec l pos s buf error :
  file_at h p fd l pos s →
  wp (bio_fwrite h buf error) (λ r s', ∃ l' pos',
    cursor_step l pos error (Write buf) (RWrite r.1 r.2) l' pos' ∧ file_at h p fd l' pos' s') s.
Proof. intros Hf. eapply wp_mono; [by apply fwrite_outcome|]. by intros r s' [H _]. Qed.

Lemma fseek_spec l pos s offset origin error :
  file_at h p fd l pos s → file_op_ok pos (Seek offset origin) →
  wp (bio_fseek h offset origin error) (λ r s', ∃ l' pos',
    cursor_step l pos error (Seek offset origin) (RBool r.1 r.2) l' pos' ∧ file_at h p fd l' pos' s') s.
Proof.
  intros Hf [H1 H2]. unfold bio_fseek. wp_step. eapply file_at_resolve; [done|].
  wp_step. eapply file_at_deref; [done|]. cbn [fl_seekable fl_fd fl_offset].
  destruct (Z.eqb_spec origin SEEK_SET) as [->|Hset].
  { wp_step. eapply file_at_store; [done|auto|]. intros s1 Hf1. wp_steps. exists l, offset.
    split; [constructor|done]. }
  destruct (Z.eqb_spec origin SEEK_CUR) as [->|Hcur].
  - wp_steps. assert (Hr : 0 ≤ pos + offset < 2 ^ 63).
    { apply andb_prop in H as [_ ?%Z.leb_le]. specialize (H2 eq_refl). lia. }
    eapply file_at_store; [done|done|]. intros s1 Hf1. wp_steps. exists l, (pos + offset).
    split; [constructor|done].
  - wp_steps. exists l, pos. split; [|done]. constructor; [done..|]. eexists ENOTSUP, _. by split.
Qed.

Lemma linux_file_exec l pos s op error :
  file_at h p fd l pos s → file_op_ok pos op →
  wp (file_exec h op error) (λ r s', ∃ l' pos',
    cursor_step l pos error op r l' pos' ∧ file_at h p fd l' pos' s') s.
Proof.
  intros Hf Hok. destruct op as [size|buf|offset origin| | |]; cbn [file_exec].
  - wp_step. eapply wp_mono; [by apply fread_spec|]. intros [[n data] e] s' H. by wp_steps.
  - wp_step. eapply wp_mono; [by apply fwrite_spec|]. intros [n e] s' H. by wp_steps.
  - wp_step. eapply wp_mono; [by apply fseek_spec|]. intros [b e] s' H. by wp_steps.
  - unfold bio_ftell. wp_steps. eapply file_at_resolve; [done|].
    wp_step. eapply file_at_deref; [done|]. cbn [fl_seekable fl_offset]. wp_steps.
    exists l, pos. split; [constructor|done].
  - unfold bio_fflush. wp_steps. eapply file_at_resolve; [done|].
    wp_step. eapply file_at_deref; [done|]. wp_step.
    eapply (file_at_perform _ _ _ _ (λ r l', l' = l)); [done| |].
    { intros o Ho. exists l. split_and!; [by apply rf_fsync|apply Hf|done]. }
    intros r l' s1 -> Hf1. wp_steps. unfold bio_result_to_bool.
    destruct (Z.geb_spec (rp_res r) 0); wp_steps; exists l, pos; (split; [|done]); constructor.
    eexists _, _. split; [|done]. lia.
  - unfold bio_fstat. wp_steps. eapply file_at_resolve; [done|].
    wp_step. eapply file_at_deref; [done|]. wp_step.
    eapply (file_at_perform _ _ _ _ (λ r l', l' = l ∧ (rp_res r = 0 → rp_stx_size r = zlen l))); [done| |].
    { intros o Ho. exists l. destruct (rf_statx Hregular o fd l Ho) as [? ?]. split_and!; [done|apply Hf|done..]. }
    intros r l' s1 [-> Hsize] Hf1. destruct (Z.eqb_spec (rp_res r) 0) as [E|E].
    + wp_steps. exists l, pos. rewrite (Hsize E). split; [constructor|done].
    + unfold bio_result_to_bool.
      destruct (Z.geb_spec (rp_res r) 0); wp_steps; exists l, pos; (split; [|done]); constructor.
      eexists _, _. split; [|done]. lia.
Qed.

(** C25: A file that is open, seekable and used by nobody else behaves like a list of bytes
    with a position, whatever happens in the rest of the program while its operations
    wait: reading and writing move the position by what was transferred, transfers may
    be short, and a failure changes nothing and sets the error. *)
Theorem file_refines_cursor l pos s op error :
  file_at h p fd l pos s → file_op_ok pos op →
  wp (file_exec h op error) (λ r s', ∃ l' pos',
    cursor_step l pos error op r l' pos' ∧ file_at h p fd l' pos' s') s.
Proof. apply linux_file_exec. Qed.

(** *** Transfers of a whole buffer *)

(** If the caller asked for errors, one is reported. *)
Definition reported (error : error_ptr) (s : io) : Prop := error ≠ None → is_Some (error_of error).

Lemma failed_reported error error' s : failed error error' → reported error' s.
Proof. intros (code & line & _ & ->) Hn. destruct error as [e|]; [cbn; eauto|done]. Qed.

(** Errors stay reported. *)
Definition keeps_error (error error' : error_ptr) : Prop :=
  (error = None ↔ error' = None) ∧ (is_Some (error_of error) → is_Some (error_of error')).

Lemma failed_keeps error error' : failed error error' → keeps_error error error'.
Proof. intros (code & line & _ & ->). by destruct error. Qed.

Lemma keeps_error_trans e1 e2 e3 : keeps_error e1 e2 → keeps_error e2 e3 → keeps_error e1 e3.
Proof. unfold keeps_error. tauto. Qed.

(** What is true after some bytes were written, or read. *)
Definition written l pos error done error' s' : Prop :=
  keeps_error error error' ∧ file_at h p fd (splice pos done l) (pos + zlen done) s'.

Definition read_back l pos error done error' s' : Prop :=
  done = take (length done) (drop (Z.to_nat pos) l) ∧
  keeps_error error error' ∧ file_at h p fd l (pos + zlen done) s'.

Lemma fwrite_exactly_spec l pos s buf error :
  file_at h p fd l pos s → zlen buf < 2 ^ 64 →
  wp (bio_fwrite_exactly h buf error) (λ r s', ∃ done rest, buf = done ++ rest ∧ r.1 = zlen done ∧
    written l pos error done r.2 s' ∧ (rest = [] ∨ reported r.2 s' ∧ ¬ writes_succeed)) s.
Proof.
  intros Hf Hlen. unfold bio_fwrite_exactly. eapply wp_mono.
  - apply (write_all_spec (written l pos error)
      (λ d e s, written l pos error d e s ∧ reported e s ∧ ¬ writes_succeed) _ buf Hlen) with (l := []) (k := buf);
      [|done|lia|].
    + intros d k e s1 Hbuf Hk [He Hf1]. eapply wp_mono; [by apply fwrite_outcome|].
      intros [n e'] s2 ((l2 & pos2 & Hstep & Hf2) & Hno). cbn in Hno |- *. inversion Hstep; subst.
      * rewrite splice_app in Hf2 by (apply (fa_pos _ _ _ _ _ _ Hf)). split; [done|].
        destruct (Z.eqb_spec n 0) as [->|Hne].
        { match goal with H : 0 = 0 → _ |- _ => by rewrite (H eq_refl) in Hk end. }
        assert (Hn : zlen (d ++ take (Z.to_nat n) k) = zlen d + n).
        { rewrite zlen_app. unfold zlen in *. rewrite length_take. lia. }
        split; [done|]. by rewrite Hn, Z.add_assoc.
      * pose proof (zlen_nonneg k). split; [lia|]. cbn.
        split; [split; [|done]|split; [by eapply failed_reported|by intros Hok; apply Hk, Hno]].
        eapply keeps_error_trans; [done|by apply failed_keeps].
    + split; [done|]. unfold zlen. cbn. rewrite Z.add_0_r. unfold splice. by rewrite decide_True.
  - intros [n e] s' (d & rest & Hb & Hn & Hst). exists d, rest.
    case_decide; [by auto|]. destruct Hst. by auto.
Qed.

Lemma fread_exactly_spec l pos s size error :
  file_at h p fd l pos s → 0 ≤ size < 2 ^ 64 → size = 0 ∨ pos + size ≤ zlen l →
  wp (bio_fread_exactly h size error) (λ r s', r.1.1 = zlen r.1.2 ∧ zlen r.1.2 ≤ size ∧
    read_back l pos error r.1.2 r.2 s' ∧ (size = r.1.1 ∨ reported r.2 s')) s.
Proof.
  intros Hf Hsize Hend. unfold bio_fread_exactly. eapply wp_mono.
  - apply (read_all_spec (read_back l pos error)
      (λ d e s, read_back l pos error d e s ∧ reported e s) _ size) with (l := []);
      [lia| |unfold zlen; cbn; lia..|].
    + intros d e s1 Hd (Hdata & He & Hf1). eapply wp_mono; [apply fread_spec; [done|lia]|].
      intros [[n data] e'] s2 (l2 & pos2 & Hstep & Hf2). cbn. pose proof (zlen_nonneg d).
      inversion Hstep; subst.
      * split_and!; [done|done|]. destruct (Z.eqb_spec (zlen data) 0) as [Hz|Hz].
        { destruct data as [|x data]; [|unfold zlen in Hz; cbn in Hz; lia].
          match goal with H : [] = [] → _ |- _ => destruct (H eq_refl); lia end. }
        split_and!; [|done|by rewrite zlen_app, Z.add_assoc].
        rewrite length_app, <- take_take_drop, drop_drop, <- Hdata. f_equal.
        pose proof (fa_pos _ _ _ _ _ _ Hf).
        replace (Z.to_nat pos + length d)%nat with (Z.to_nat (pos + zlen d)) by (unfold zlen; lia). done.
      * split_and!; [done|unfold zlen in *; cbn; lia|]. cbn. split; [|by eapply failed_reported].
        split_and!; [done| |done]. eapply keeps_error_trans; [done|by apply failed_keeps].
    + split_and!; try done. unfold zlen. cbn. by rewrite Z.add_0_r.
  - intros [[n data] e] s' (Hn & Hle & Hst). cbn in *. split; [done|]. split; [done|].
    destruct (Z.ltb_spec (zlen data) size); [destruct Hst; by auto|]. split; [done|]. left. lia.
Qed.

(** C29: Writing a buffer and reading it back: whatever short transfers happen on the way,
    what is read is the beginning of what was written, and if it is not all of it then
    an error is reported to a caller who asked for errors. *)
Theorem write_then_read_back l pos s buf error :
  file_at h p fd l pos s → zlen buf < 2 ^ 63 →
  wp (w ← bio_fwrite_exactly h buf error;
      q ← bio_fseek h pos SEEK_SET w.2;
      bio_fread_exactly h w.1 q.2)
    (λ r s', let '(n, data, error') := r in
      n = zlen data ∧ data = take (length data) buf ∧
      (data = buf ∨ (error ≠ None → is_Some (error_of error')))) s.
Proof.
  intros Hf Hlen. wp_step. eapply wp_mono; [apply fwrite_exactly_spec; [done|lia]|].
  intros [w e1] s1 (d & rest & -> & Hw & [He1 Hf1] & Hst1). cbn in Hw, He1, Hst1 |- *. subst w. wp_step.
  pose proof (fa_pos _ _ _ _ _ _ Hf) as Hpos.
  eapply wp_mono; [apply fseek_spec; [done|by split]|].
  intros [b e2] s2 (l2 & pos2 & Hstep & Hf2). cbn in Hstep |- *.
  assert (E : e2 = e1 ∧ l2 = splice pos d l ∧ pos2 = pos)
    by (inversion Hstep; subst; [done|by exfalso]).
  destruct E as (-> & -> & ->). pose proof (splice_read pos d l ltac:(lia)) as Hd.
  pose proof (zlen_nonneg d). pose proof (zlen_nonneg rest). rewrite zlen_app in Hlen.
  eapply wp_mono; [apply fread_exactly_spec; [done|lia|]|].
  - destruct (decide (d = [])) as [->|Hne]; [by left|right]. rewrite zlen_splice by (done || lia). lia.
  - intros [[n data] e3] s3 (Hn & Hle & (Hdata & He3 & _) & Hst3). cbn in Hn, Hle, Hdata, He3, Hst3 |- *.
    assert (Hlen2 : (length data ≤ length d)%nat) by (unfold zlen in Hle; lia).
    assert (Hpre : data = take (length data) d).
    { rewrite Hd, take_take, Nat.min_l by done. done. }
    split_and!; [done|by rewrite take_app_le|].
    destruct Hst3 as [Hall|Hst3]; [|right; intros Hn'; apply Hst3; by intros E%He3%He1].
    assert (data = d) as -> by (rewrite Hpre; apply take_ge; unfold zlen in *; lia).
    destruct Hst1 as [->|[Hst1 _]]; [left; by rewrite app_nil_r|right].
    intros Hn'. apply He3, Hst1. by intros E%He1.
Qed.
End spec.

(** ** New files *)

Lemma file_from_fd_spec (fd offset : Z) (seekable : bool) s (Q : bio_handle_t → io → Prop) :
  io_wf s →
  (∀ h s', io_wf s' → io_evolves s s' → os s' = os s → ¬ io_known s h →
    object_of s' h BIO_FILE_HANDLE = Some (io_next s) →
    files s' !! io_next s = Some (mk_file fd (if seekable then offset else -1) seekable) → Q h s') →
  wp (bio_file_from_fd fd offset seekable) Q s.
Proof.
  intros Hwf HQ. unfold bio_file_from_fd, io_malloc. wp_steps.
  set (s1 := set_files _ _).
  assert (Hwf1 : io_wf s1) by by apply insert_file_wf, malloc_wf.
  apply io_make_spec; [done|cbn; rewrite lookup_insert_eq; eauto| |cbn; lia|].
  { intros h Hh. destruct (proj1 (iw_files _ Hwf) _ _ Hh) as (q & [= <-] & _ & Hlt). lia. }
  intros h t Hwf2 Hk Hl He. apply HQ; [done| |done|done| |by cbn; rewrite lookup_insert_eq].
  - split; [done|]. cbn. lia.
  - apply object_of_live. cbn. by rewrite Hl, lookup_insert_eq.
Qed.

(** A regular file that was opened is at the position that the operating system gives. *)
Lemma fopen_spec filename mode flags l pos error s :
  polite others → io_wf s → open_flags mode = Some flags →
  (∀ s : io, io_wf s → contents (os (others s)) = contents (os s)) →
  0 ≤ pos < 2 ^ 63 → zlen l < 2 ^ 63 →
  (∀ o, 0 ≤ rp_res (kernel (req_open filename (flags ||| O_CLOEXEC) (S_IRUSR ||| S_IWUSR)) o).1 →
     let '(r, o') := kernel (req_open filename (flags ||| O_CLOEXEC) (S_IRUSR ||| S_IWUSR)) o in
     contents o' (rp_res r) = Some l) →
  (∀ fd whence o, contents o fd = Some l →
     let '(r, o') := kernel (req_lseek fd 0 whence) o in rp_res r = pos ∧ contents o' fd = Some l) →
  wp (bio_fopen filename mode error) (λ r s',
    match r.1.2 with
    | Some h => r.1.1 = true ∧ ∃ p fd, file_at h p fd l pos s'
    | None => r.1.1 = false
    end) s.
Proof.
  intros Hpo Hwf Hflags Hoth Hpos Hlen Hopen Hseek. unfold bio_fopen. rewrite Hflags. wp_step.
  apply perform_spec. cbn zeta. set (s1 := others s). set (req := req_open _ _ _).
  assert (Hwf1 : io_wf s1) by by apply Hpo.
  set (s2 := set_os (kernel req (os s1)).2 s1). assert (Hwf2 : io_wf s2) by by apply set_os_wf.
  specialize (Hopen (os s1)). fold req in Hopen.
  destruct (Z.geb_spec (rp_res (kernel req (os s1)).1) 0) as [Hge|Hlt]; [|by wp_steps].
  destruct (kernel req (os s1)) as [r o'] eqn:Ek. cbn in Hge |- *. specialize (Hopen Hge).
  assert (Hwf3 : io_wf (others s2)) by by apply Hpo.
  wp_step. unfold run_lseek. wp_steps. unfold bio_fs_test_lseek, libc_call. wp_steps. apply system_call_spec.
  assert (Hwf4 : io_wf (others (others s2))) by by apply Hpo.
  set (s4 := others (others s2)) in *. set (whence := if _ >? 0 then SEEK_END else SEEK_CUR).
  assert (Hc : contents (os s4) (rp_res r) = Some l).
  { unfold s4. by rewrite !Hoth by done. }
  specialize (Hseek (rp_res r) whence (os s4) Hc).
  destruct (kernel (req_lseek (rp_res r) 0 whence) (os s4)) as [r2 o2] eqn:Ek2. destruct Hseek as [Hr2 Hc2].
  cbn. rewrite Hr2, (proj2 (Z.ltb_ge _ _)) by lia. wp_steps. cbn. rewrite (proj2 (Z.geb_le _ _)) by lia.
  assert (Hwf5 : io_wf (set_os o2 s4)) by by apply set_os_wf.
  apply file_from_fd_spec; [by apply Hpo|]. intros h s5 Hwf6 He Hos Hk Ho Hf. wp_steps. cbn. split; [done|].
  eexists _, (rp_res r). split; [done|done|done| |done|done]. by rewrite Hos, Hoth.
Qed.

(** ** Handles that are not of an open file *)

Definition invalid (error : error_ptr) (line : Z) : error_ptr :=
  bio_set_core_error error BIO_ERROR_INVALID_ARGUMENT here line.

(** What the operations return then. *)
Definition dead_result (op : file_op) (error : error_ptr) : file_result :=
  match op with
  | Read _ => RRead 0 [] (invalid error 164)
  | Write _ => RWrite 0 (invalid error 140)
  | Seek _ _ => RBool false (invalid error 222)
  | Tell => RTell (-1) (invalid error 241)
  | Flush => RBool false (invalid error 178)
  | Stat => RStat true None (invalid error 261)
  end.

Lemma dead_file_spec s h op error :
  io_wf s → io_known s h → object_of s h BIO_FILE_HANDLE = None →
  wp (file_exec h op error) (λ r s', r = dead_result op error ∧ s' = s) s.
Proof.
  intros Hwf Hk Hn.
  destruct op; cbn [file_exec]; wp_step;
    unfold bio_fread, bio_fwrite, bio_fseek, bio_ftell, bio_fflush, bio_fstat; wp_step;
    (apply io_resolve_spec; [done..|]; rewrite Hn; by wp_steps).
Qed.

Lemma free_closed_wf s p : io_wf s → unreferenced s BIO_FILE_HANDLE p → is_Some (files s !! p) →
  wp (free_file p) (λ _ (s' : io), io_wf s' ∧ io_table s' = io_table s ∧ io_next s' = io_next s) s.
Proof.
  intros Hwf Hu [x Hx]. unfold free_file, deref_file. wp_steps. 
  split; [by apply delete_file_wf|done].
Qed.

Lemma closed_object (s s' : io) t h p :
  object_of s h BIO_FILE_HANDLE = Some p → live t = delete h (live (io_table s)) →
  evolves (io_table s) t → evolves t (io_table s') → io_known s h → object_of s' h BIO_FILE_HANDLE = None.
Proof.
  intros Ho Hl He He' Hk. unfold object_of.
  rewrite (proj2 (He' h (proj1 (He h Hk)))); [done|]. by rewrite Hl, lookup_delete_eq.
Qed.

Lemma fclose_spec s h error :
  polite others → io_wf s → io_known s h →
  wp (bio_fclose h error) (λ r s', io_wf s' ∧ io_known s' h ∧ object_of s' h BIO_FILE_HANDLE = None) s.
Proof.
  intros Hpo Hwf Hk. unfold bio_fclose. wp_step. apply io_close_spec; [done..| |].
  { intros Hn. by wp_steps. }
  intros p t Ho Hwf1 [x Hx] Hl He Hu. wp_step. unfold deref_file at 1. wp_step.
  eapply wp_need; [done|]. wp_step. eapply wp_mono; [by apply free_closed_wf|].
  intros _ s1 (Hwf2 & Ht & Hn). unfold bio_io_close. wp_steps.
  apply perform_safe; [done..|]. intros s2 Hwf3 [He3 _]. wp_steps. rewrite Ht in He3.
  split_and!; [done|by apply He3, He|]. eapply closed_object; eauto.
Qed.

End code.
