(* ===== verification/BsdFile.v ===== *)
(** Files on FreeBSD ([src/freebsd/file.c]): reading and writing are asynchronous operations
    (aio) of the operating system or, for descriptors that do not support them, jobs of the
    thread pool. *)
From Stdlib Require Import Ascii.
From stdpp Require Import strings.
From S2P Require Import Prelude HandleTable Error Io Cursor.

(** ** State *)

(** [bio_aio_support_t]. *)
Inductive bio_aio_support_t :=
  | BIO_AIO_SUPPORT_UNKNOWN
  | BIO_AIO_SUPPORT_ENABLED
  | BIO_AIO_SUPPORT_DISABLED.

#[export] Instance bio_aio_support_eq_dec : EqDecision bio_aio_support_t.
Proof. solve_decision. Defined.

(** [bio_file_impl_t]; [aio]: the [struct aiocb] on the stack of a coroutine that waits. *)
Record bio_file_impl_t := mk_file {
  fl_fd : Z;
  fl_offset : Z;
  fl_seekable : bool;
  fl_aio_support : bio_aio_support_t;
  fl_aio : option positive;
}.

Definition set_fl_offset (n : Z) (x : bio_file_impl_t) : bio_file_impl_t :=
  mk_file (fl_fd x) n (fl_seekable x) (fl_aio_support x) (fl_aio x).
Definition set_fl_aio_support (b : bio_aio_support_t) (x : bio_file_impl_t) : bio_file_impl_t :=
  mk_file (fl_fd x) (fl_offset x) (fl_seekable x) b (fl_aio x).
Definition set_fl_aio (a : option positive) (x : bio_file_impl_t) : bio_file_impl_t :=
  mk_file (fl_fd x) (fl_offset x) (fl_seekable x) (fl_aio_support x) a.

(** The constants of the operating system. *)
Definition O_RDONLY : Z := 0.
Definition O_WRONLY : Z := 1.
Definition O_RDWR : Z := 2.
Definition O_NONBLOCK : Z := 4.
Definition O_APPEND : Z := 8.
Definition O_CREAT : Z := 512.
Definition O_TRUNC : Z := 1024.
Definition O_CLOEXEC : Z := 1048576.
Definition S_IRUSR : Z := 256.
Definition S_IWUSR : Z := 128.
Definition EBUSY : Z := 16.
Definition EOPNOTSUPP : Z := 45.
Definition ENOTSUP : Z := EOPNOTSUPP.
Definition AIO_NOTCANCELED : Z := 2.

Local Infix "|||" := Z.lor (at level 50, left associativity).

Section code.
Context {OS Sock : Type}.
Context (others : io_ctx OS bio_file_impl_t Sock → io_ctx OS bio_file_impl_t Sock).
Context (kernel : request → OS → reply * OS).
Context (strerror : Z → string).
Abbreviation io := (io_ctx OS bio_file_impl_t Sock).
Abbreviation here := "src/freebsd/file.c"%string.
Local Abbreviation set_errno := (bio_set_errno strerror).

(** ** The code *)

Definition bio_file_from_fd (fd offset : Z) (seekable : bool) : st io bio_handle_t :=
  p ← io_malloc;
  _ ← modify (λ s : io, set_files (<[p := mk_file fd (if seekable then offset else 0) seekable
        BIO_AIO_SUPPORT_UNKNOWN None]> (files s)) s);
  io_make_handle p BIO_FILE_HANDLE.

(** [BIO_STDIN], [BIO_STDOUT] and [BIO_STDERR]. *)
Definition bio_fs_init : st io (bio_handle_t * bio_handle_t * bio_handle_t) :=
  stdin ← bio_file_from_fd 0 0 false;
  stdout ← bio_file_from_fd 1 0 false;
  stderr ← bio_file_from_fd 2 0 false;
  mret (stdin, stdout, stderr).

(** [bio_free] of what [bio_close_handle] returns. *)
Definition free_closed (file : bio_handle_t) : st io unit :=
  impl ← io_close_handle file BIO_FILE_HANDLE;
  match impl with Some p => free_file p | None => mret tt end.

Definition bio_fs_cleanup (stdin stdout stderr : bio_handle_t) : st io unit :=
  _ ← free_closed stdin;
  _ ← free_closed stdout;
  free_closed stderr.

Definition bio_fdopen (fd : Z) : st io bio_handle_t :=
  bio_file_from_fd (to_int fd) (-1) false.

Definition bio_funwrap (file : bio_handle_t) : st io Z :=
  impl ← io_resolve_handle file BIO_FILE_HANDLE;
  match impl with
  | Some impl => x ← deref_file impl; mret (u64 (fl_fd x))
  | None => mret (u64 (-1))
  end.

(** The result and the offset. *)
Definition bio_fs_fopen (filename : string) (flags : Z) : st io (Z * Z) :=
  r ← libc_call kernel (req_open filename flags (S_IRUSR ||| S_IWUSR));
  let '(fd, errno) := r in
  if fd <? 0 then mret (- errno, 0)
  else
    o ← libc_call kernel (req_lseek fd 0 (if Z.land flags O_APPEND >? 0 then SEEK_END else SEEK_CUR));
    mret (fd, o.1).

(** The translation of the mode to flags; the second character is read only if the first
    one is not the end. *)
Definition open_flags (mode : string) : option Z :=
  let plus := bool_decide (char_at 1 mode = "+"%char) in
  if decide (char_at 0 mode = "r"%char) then Some (if plus then O_RDWR else O_RDONLY)
  else if decide (char_at 0 mode = "w"%char) then
    Some (if plus then O_RDWR ||| O_CREAT ||| O_TRUNC else O_WRONLY ||| O_CREAT ||| O_TRUNC)
  else if decide (char_at 0 mode = "a"%char) then
    Some (if plus then O_RDWR ||| O_CREAT ||| O_APPEND else O_WRONLY ||| O_CREAT ||| O_APPEND)
  else None.

Definition bio_fopen (filename mode : string) (error : error_ptr) :
    st io (bool * option bio_handle_t * error_ptr) :=
  match open_flags mode with
  | None => mret (false, None, bio_set_core_error error BIO_ERROR_INVALID_ARGUMENT here 123)
  | Some flags =>
      r ← run_async_and_wait others (bio_fs_fopen filename (flags ||| O_CLOEXEC ||| O_NONBLOCK));
      let '(result, offset) := r in
      if result >=? 0 then
        file ← bio_file_from_fd result offset (offset >=? 0);
        mret (true, Some file, error)
      else mret (false, None, set_errno error (- result) here 136)
  end.

Definition bio_fclose (file : bio_handle_t) (error : error_ptr) : st io (bool * error_ptr) :=
  impl ← io_close_handle file BIO_FILE_HANDLE;
  match impl with
  | Some impl =>
      x ← deref_file impl;
      let fd := fl_fd x in
      busy ← match fl_aio x with
             | Some aio => r ← system_call kernel (req_aio_cancel fd aio); mret (rp_res r =? AIO_NOTCANCELED)
             | None => mret false
             end;
      if busy : bool then mret (false, set_errno error EBUSY here 150)
      else
        _ ← free_file impl;
        r ← libc_call kernel (req_close fd);
        let '(result, errno) := r in
        if result =? 0 then mret (true, error)
        else mret (false, set_errno error errno here 158)
  | None => mret (false, bio_set_core_error error BIO_ERROR_INVALID_ARGUMENT here 163)
  end.

Definition bio_fseek (file : bio_handle_t) (offset origin : Z) (error : error_ptr) :
    st io (bool * error_ptr) :=
  impl ← io_resolve_handle file BIO_FILE_HANDLE;
  match impl with
  | Some impl =>
      x ← deref_file impl;
      if fl_seekable x then
        if origin =? SEEK_SET then
          _ ← store_file impl (set_fl_offset offset x);
          mret (true, error)
        else if origin =? SEEK_CUR then
          n ← i64_of (fl_offset x + offset);
          _ ← store_file impl (set_fl_offset n x);
          mret (true, error)
        else mret (false, set_errno error ENOTSUP here 185)
      else mret (false, set_errno error ENOTSUP here 189)
  | None => mret (false, bio_set_core_error error BIO_ERROR_INVALID_ARGUMENT here 193)
  end.

Definition bio_ftell (file : bio_handle_t) (error : error_ptr) : st io (Z * error_ptr) :=
  impl ← io_resolve_handle file BIO_FILE_HANDLE;
  match impl with
  | Some impl =>
      x ← deref_file impl;
      if fl_seekable x then mret (fl_offset x, error)
      else mret (-1, set_errno error ENOTSUP here 208)
  | None => mret (-1, bio_set_core_error error BIO_ERROR_INVALID_ARGUMENT here 212)
  end.

(** *** In the thread pool *)

(** The tasks: the result is negative for an error. *)
Definition bio_fs_write (fd : Z) (buf : list Z) : st io Z :=
  r ← libc_call kernel (req_write_next fd buf);
  let '(result, errno) := r in
  mret (if result >=? 0 then result else - errno).

Definition bio_fs_read (fd size : Z) : st io (Z * list Z) :=
  r ← system_call kernel (req_read_next fd size);
  mret (rp_res r, rp_data r).

Definition bio_fs_fsync (fd : Z) : st io Z :=
  r ← libc_call kernel (req_fsync fd);
  let '(result, errno) := r in
  mret (if result >=? 0 then result else - errno).

Definition bio_fwrite_in_async_thread (impl : positive) (buf : list Z) (error : error_ptr) :
    st io (Z * error_ptr) :=
  x ← deref_file impl;
  result ← run_async_and_wait others (bio_fs_write (fl_fd x) buf);
  if result >=? 0 then mret (result, error)
  else mret (0, set_errno error (- result) here 273).

Definition bio_fread_in_async_thread (impl : positive) (size : Z) (error : error_ptr) :
    st io (Z * list Z * error_ptr) :=
  x ← deref_file impl;
  r ← run_async_and_wait others (bio_fs_read (fl_fd x) size);
  let '(result, data) := r in
  if result >=? 0 then mret (result, data, error)
  else mret (0, data, set_errno error (- result) here 294).

Definition bio_fsync_in_async_thread (impl : positive) (error : error_ptr) : st io (bool * error_ptr) :=
  x ← deref_file impl;
  result ← run_async_and_wait others (bio_fs_fsync (fl_fd x));
  if result >=? 0 then mret (true, error)
  else mret (false, set_errno error (- result) here 306).

(** *** Asynchronous operations *)

(** [bio_wait_for_io]: the event for the operation comes while the others run. *)
Definition wait_for_aio (aio : positive) : st io unit :=
  _ ← perform others kernel (req_aio_event aio); mret tt.

(** What the three functions have in common: an operation is submitted and waited for. The
    result is negative for an error; then the bytes that were read, and the file, resolved
    again. Nothing cancels these requests. *)
Definition run_aio (file : bio_handle_t) (impl : positive) (op : positive → request) :
    st io (Z * list Z * option positive) :=
  x ← deref_file impl;
  match fl_aio x with
  | Some _ => mret (- EBUSY, [], Some impl)
  | None =>
      aio ← io_malloc;  (* struct aiocb aio *)
      r ← libc_call kernel (op aio);
      let '(submission_status, errno) := r in
      if negb (submission_status =? 0) then mret (- errno, [], Some impl)
      else
        _ ← store_file impl (set_fl_aio (Some aio) x);
        _ ← wait_for_aio aio;
        impl ← io_resolve_handle file BIO_FILE_HANDLE;
        _ ← match impl with
            | Some impl => x ← deref_file impl; store_file impl (set_fl_aio None x)
            | None => mret tt
            end;
        r ← system_call kernel (req_aio_error aio);
        let error_code := rp_res r in
        if negb (error_code =? 0) then mret (- error_code, [], impl)
        else
          r ← system_call kernel (req_aio_return aio);
          mret (rp_res r, rp_data r, impl)
  end.

(** [if (impl->seekable) { impl->offset += (size_t)result; }]. *)
Definition move_offset (impl : option positive) (result : Z) : st io unit :=
  impl ← need NullDeref impl;
  x ← deref_file impl;
  if fl_seekable x then store_file impl (set_fl_offset (to_i64 (u64 (fl_offset x + result))) x)
  else mret tt.

Definition bio_fwrite_aio (file : bio_handle_t) (impl : positive) (buf : list Z) : st io Z :=
  x ← deref_file impl;
  r ← run_aio file impl (λ aio, req_aio_write aio (fl_fd x) buf (fl_offset x));
  let '(result, _, impl) := r in
  if result <? 0 then mret result
  else _ ← move_offset impl result; mret result.

Definition bio_fread_aio (file : bio_handle_t) (impl : positive) (size : Z) : st io (Z * list Z) :=
  x ← deref_file impl;
  r ← run_aio file impl (λ aio, req_aio_read aio (fl_fd x) size (fl_offset x));
  let '(result, data, impl) := r in
  if result <? 0 then mret (result, data)
  else _ ← move_offset impl result; mret (result, data).

Definition bio_fsync_aio (file : bio_handle_t) (impl : positive) : st io Z :=
  x ← deref_file impl;
  r ← run_aio file impl (λ aio, req_aio_fsync aio (fl_fd x));
  let '(result, _, _) := r in
  mret result.

(** [impl->aio_support = ...]. *)
Definition set_aio_support (impl : positive) (b : bio_aio_support_t) : st io unit :=
  x ← deref_file impl; store_file impl (set_fl_aio_support b x).

Definition bio_fwrite (file : bio_handle_t) (buf : list Z) (error : error_ptr) : st io (Z * error_ptr) :=
  impl ← io_resolve_handle file BIO_FILE_HANDLE;
  match impl with
  | Some impl =>
      x ← deref_file impl;
      match fl_aio_support x with
      | BIO_AIO_SUPPORT_UNKNOWN =>
          result ← bio_fwrite_aio file impl buf;
          if result >=? 0 then
            _ ← set_aio_support impl BIO_AIO_SUPPORT_ENABLED;
            mret (result, error)
          else if result =? - EOPNOTSUPP then
            _ ← set_aio_support impl BIO_AIO_SUPPORT_DISABLED;
            bio_fwrite_in_async_thread impl buf error
          else mret (0, set_errno error (- result) here 472)
      | BIO_AIO_SUPPORT_ENABLED =>
          result ← bio_fwrite_aio file impl buf;
          if result >=? 0 then mret (result, error)
          else mret (0, set_errno error (- result) here 481)
      | BIO_AIO_SUPPORT_DISABLED => bio_fwrite_in_async_thread impl buf error
      end
  | None => mret (0, bio_set_core_error error BIO_ERROR_INVALID_ARGUMENT here 489)
  end.

(** The result comes with the bytes that were written to [buf]. *)
Definition bio_fread (file : bio_handle_t) (size : Z) (error : error_ptr) :
    st io (Z * list Z * error_ptr) :=
  impl ← io_resolve_handle file BIO_FILE_HANDLE;
  match impl with
  | Some impl =>
      x ← deref_file impl;
      match fl_aio_support x with
      | BIO_AIO_SUPPORT_UNKNOWN =>
          r ← bio_fread_aio file impl size;
          let '(result, data) := r in
          if result >=? 0 then
            _ ← set_aio_support impl BIO_AIO_SUPPORT_ENABLED;
            mret (result, data, error)
          else if result =? - EOPNOTSUPP then
            _ ← set_aio_support impl BIO_AIO_SUPPORT_DISABLED;
            bio_fread_in_async_thread impl size error
          else mret (0, data, set_errno error (- result) here 513)
      | BIO_AIO_SUPPORT_ENABLED =>
          r ← bio_fread_aio file impl size;
          let '(result, data) := r in
          if result >=? 0 then mret (result, data, error)
          else mret (0, data, set_errno error (- result) here 522)
      | BIO_AIO_SUPPORT_DISABLED => bio_fread_in_async_thread impl size error
      end
  | None => mret (0, [], bio_set_core_error error BIO_ERROR_INVALID_ARGUMENT here 530)
  end.

Definition bio_fflush (file : bio_handle_t) (error : error_ptr) : st io (bool * error_ptr) :=
  impl ← io_resolve_handle file BIO_FILE_HANDLE;
  match impl with
  | Some impl =>
      x ← deref_file impl;
      match fl_aio_support x with
      | BIO_AIO_SUPPORT_UNKNOWN =>
          result ← bio_fsync_aio file impl;
          if result >=? 0 then
            _ ← set_aio_support impl BIO_AIO_SUPPORT_ENABLED;
            mret (true, error)
          else if result =? - EOPNOTSUPP then
            _ ← set_aio_support impl BIO_AIO_SUPPORT_DISABLED;
            bio_fsync_in_async_thread impl error
          else mret (false, set_errno error (- result) here 549)
      | BIO_AIO_SUPPORT_ENABLED =>
          result ← bio_fsync_aio file impl;
          if result >=? 0 then mret (true, error)
          else mret (false, set_errno error (- result) here 558)
      | BIO_AIO_SUPPORT_DISABLED => bio_fsync_in_async_thread impl error
      end
  | None => mret (false, bio_set_core_error error BIO_ERROR_INVALID_ARGUMENT here 566)
  end.

(** The result, [errno] for an error, and the size. *)
Definition bio_fs_fstat (fd : Z) : st io (Z * Z) :=
  r ← system_call kernel (req_fstat fd);
  mret (if rp_res r =? 0 then 0 else - rp_res r, rp_stx_size r).

(** The size is only set on success. *)
Definition bio_fstat (file : bio_handle_t) (error : error_ptr) : st io (bool * option Z * error_ptr) :=
  impl ← io_resolve_handle file BIO_FILE_HANDLE;
  match impl with
  | Some impl =>
      x ← deref_file impl;
      r ← run_async_and_wait others (bio_fs_fstat (fl_fd x));
      let '(result, size) := r in
      if result =? 0 then mret (true, Some size, error)
      else mret (false, None, set_errno error result here 601)
  | None => mret (false, None, bio_set_core_error error BIO_ERROR_INVALID_ARGUMENT here 605)
  end.

(** ** What the operating system does with regular files *)

(** An asynchronous operation, until its result is fetched. *)
Inductive aio_state :=
  | AioPending (req : request)
  | AioDone (r : reply).

(** The contents of the regular file that a descriptor stands for; the operations. *)
Context (contents : OS → Z → option (list Z)) (aio_of : OS → positive → option aio_state).

(** The operations on a file. *)
Definition aio_request (aio : positive) (fd : Z) (req : request) : Prop :=
  match req with
  | req_aio_read a f _ _ | req_aio_write a f _ _ | req_aio_fsync a f => a = aio ∧ f = fd
  | _ => False
  end.

(** What comes of them. *)
Definition aio_reply (l : list Z) (req : request) (r : reply) (l' : list Z) : Prop :=
  match req with
  | req_aio_read _ _ size off => l' = l ∧ read_reply l size off r
  | req_aio_write _ _ buf off => write_reply l buf off r l'
  | _ => l' = l
  end.

(** Operations that make sense. *)
Definition aio_valid (l : list Z) (req : request) : Prop :=
  match req with
  | req_aio_read _ _ size off => 0 ≤ size ∧ 0 ≤ off < 2 ^ 63
  | req_aio_write _ _ buf off => zlen l < 2 ^ 63 ∧ 0 ≤ off < 2 ^ 63
  | _ => True
  end.

(** The documented behaviour of the requests, for files that support asynchronous operations. *)
Record regular_files : Prop := {
  rf_submit o aio fd req l : aio_request aio fd req → contents o fd = Some l →
    let '(r, o') := kernel req o in
    contents o' fd = Some l ∧
    if rp_res r <? 0 then rp_res r ≠ - EOPNOTSUPP
    else rp_res r = 0 ∧ aio_of o' aio = Some (AioPending req);
  rf_event o aio fd req l : aio_request aio fd req → aio_valid l req →
    contents o fd = Some l → aio_of o aio = Some (AioPending req) →
    let o' := (kernel (req_aio_event aio) o).2 in
    ∃ r l', aio_of o' aio = Some (AioDone r) ∧ contents o' fd = Some l' ∧
      aio_reply l req r l' ∧ rp_res r ≠ - EOPNOTSUPP;
  rf_error o aio fd l r : contents o fd = Some l → aio_of o aio = Some (AioDone r) →
    let '(r', o') := kernel (req_aio_error aio) o in
    rp_res r' = (if rp_res r <? 0 then - rp_res r else 0) ∧
    contents o' fd = Some l ∧ aio_of o' aio = Some (AioDone r);
  rf_return o aio fd l r : contents o fd = Some l → aio_of o aio = Some (AioDone r) →
    let '(r', o') := kernel (req_aio_return aio) o in r' = r ∧ contents o' fd = Some l;
  rf_fstat o fd l : contents o fd = Some l →
    let '(r, o') := kernel (req_fstat fd) o in
    contents o' fd = Some l ∧ rp_res r ≤ 0 ∧ (rp_res r = 0 → rp_stx_size r = zlen l);
}.

(** The handle [h] is a seekable file with the contents [l] and the offset [pos]; [a] is
    the operation that is under way. *)
Record file_in (h : bio_handle_t) (p : positive) (fd : Z) (l : list Z) (pos : Z) (b : bio_aio_support_t)
    (a : option positive) (s : io) : Prop := {
  fa_wf : io_wf s;
  fa_object : object_of s h BIO_FILE_HANDLE = Some p;
  fa_impl : files s !! p = Some (mk_file fd pos true b a);
  fa_contents : contents (os s) fd = Some l;
  fa_pos : 0 ≤ pos < 2 ^ 63;
  fa_len : zlen l < 2 ^ 63;
}.

Definition file_at h p fd l pos (s : io) : Prop :=
  ∃ b, b ≠ BIO_AIO_SUPPORT_DISABLED ∧ file_in h p fd l pos b None s.

(** ** A file is a list of bytes with a position *)

Definition file_exec (file : bio_handle_t) (op : file_op) (error : error_ptr) : st io file_result :=
  match op with
  | Read size => r ← bio_fread file size error; let '(n, data, error) := r in mret (RRead n data error)
  | Write buf => r ← bio_fwrite file buf error; let '(n, error) := r in mret (RWrite n error)
  | Seek offset origin => r ← bio_fseek file offset origin error; let '(b, error) := r in mret (RBool b error)
  | Tell => r ← bio_ftell file error; let '(n, error) := r in mret (RTell n error)
  | Flush => r ← bio_fflush file error; let '(b, error) := r in mret (RBool b error)
  | Stat => r ← bio_fstat file error; let '(b, size, error) := r in mret (RStat b size error)
  end.

(** An error of the operating system was reported, where the caller wants to know. *)
Definition failed (error error' : error_ptr) : Prop :=
  ∃ code line, 0 < code ∧ error' = set_errno error code here line.

Local Abbreviation cursor_step := (cursor_step failed).

Section spec.
Context (Hregular : regular_files) (h : bio_handle_t) (p : positive) (fd : Z).
(** Nobody else uses the file, or the operation of the caller. *)
Context (Hmine : ∀ l pos b a s, file_in h p fd l pos b a s → file_in h p fd l pos b a (others s) ∧
  ∀ aio, a = Some aio → aio_of (os (others s)) aio = aio_of (os s) aio).

Abbreviation file_in := (file_in h p fd).
Abbreviation file_at := (file_at h p fd).

Lemma file_in_resolve l pos b a s (Q : option positive → io → Prop) :
  file_in l pos b a s → Q (Some p) s → wp (io_resolve_handle h BIO_FILE_HANDLE) Q s.
Proof.
  intros Hf HQ. apply io_resolve_spec; [apply Hf| |by rewrite (fa_object _ _ _ _ _ _ _ _ Hf)].
  apply live_known. rewrite (proj1 (object_of_live _ _ _ _) (fa_object _ _ _ _ _ _ _ _ Hf)). eauto.
Qed.

Lemma file_in_deref l pos b a s (Q : bio_file_impl_t → io → Prop) :
  file_in l pos b a s → Q (mk_file fd pos true b a) s → wp (deref_file p) Q s.
Proof. intros Hf HQ. unfold deref_file. wp_step. by eapply wp_need; [apply Hf|]. Qed.

Lemma file_in_store l pos b a pos' b' a' s (Q : unit → io → Prop) :
  file_in l pos b a s → 0 ≤ pos' < 2 ^ 63 →
  (∀ s', file_in l pos' b' a' s' → os s' = os s → Q tt s') →
  wp (store_file p (mk_file fd pos' true b' a')) Q s.
Proof.
  intros Hf Hp HQ. unfold store_file. wp_step. eapply file_in_deref; [done|]. wp_step. apply HQ; [|done].
  destruct Hf. split; cbn; [by apply insert_file_wf|done|by rewrite lookup_insert_eq|done..].
Qed.

Lemma file_in_os l l' pos b a s o :
  file_in l pos b a s → contents o fd = Some l' → zlen l' < 2 ^ 63 → file_in l' pos b a (set_os o s).
Proof. intros [] Hc Hl. by split; [apply set_os_wf|..]. Qed.

Lemma aio_reply_failed l req r l' : aio_reply l req r l' → rp_res r < 0 → l' = l.
Proof.
  destruct req; try done; cbn; [by intros [-> _]|]. intros [[_ ->]|[? _]] ?; [done|lia].
Qed.

Lemma aio_reply_len l req r l' : zlen l < 2 ^ 63 → aio_valid l req → aio_reply l req r l' → zlen l' < 2 ^ 63.
Proof.
  intros Hl Hv. destruct req; try (by intros ->); cbn; [by intros [-> _]|]. destruct Hv as [_ Hoff].
  intros [[_ ->]|(Hres & Hmax & -> & _)]; [done|]. set (data := take _ _).
  destruct (decide (data = [])) as [->|Hne]; [unfold splice; by rewrite decide_True|].
  rewrite zlen_splice by (done || lia). assert (zlen data ≤ rp_res r); [|lia].
  unfold data, zlen in *. rewrite length_take. lia.
Qed.

(** An asynchronous operation: either it is not accepted, or it is carried out. *)
Lemma run_aio_spec l pos b s op :
  file_in l pos b None s → (∀ aio, aio_request aio fd (op aio) ∧ aio_valid l (op aio)) →
  wp (run_aio h p op) (λ res s', let '(result, data, impl) := res in result ≠ - EOPNOTSUPP ∧
    ((result < 0 ∧ data = [] ∧ file_in l pos b None s') ∨
     ∃ aio r l', 0 ≤ rp_res r ∧ aio_reply l (op aio) r l' ∧ result = rp_res r ∧ data = rp_data r ∧
       impl = Some p ∧ file_in l' pos b None s')) s.
Proof.
  intros Hf Hop. unfold run_aio. wp_step. eapply file_in_deref; [done|]. cbn [fl_aio].
  unfold io_malloc. wp_steps. set (aio := io_next s). set (s0 := set_io_next _ s).
  assert (Hf0 : file_in l pos b None s0) by (destruct Hf; split; try done; by apply malloc_wf).
  destruct (Hop aio) as [Hreq Hvalid]. unfold libc_call. wp_step. apply system_call_spec.
  pose proof (rf_submit Hregular (os s0) aio fd (op aio) l Hreq (fa_contents _ _ _ _ _ _ _ _ Hf0)) as Hsub.
  destruct (kernel (op aio) (os s0)) as [r o1]. destruct Hsub as [Hc1 Hr]. cbn [fst snd].
  assert (Hf1 : file_in l pos b None (set_os o1 s0)) by (eapply file_in_os; [done..|apply Hf]).
  destruct (Z.ltb_spec (rp_res r) 0) as [Hlt|Hge]; wp_step.
  { cbn. wp_steps. rewrite Z.opp_involutive. split; [done|]. by left. }
  destruct Hr as [-> Ha1]. cbn. wp_step.
  apply (file_in_store l pos b None pos b (Some aio) _ _ Hf1 (fa_pos _ _ _ _ _ _ _ _ Hf)). intros s2 Hf2 Hos2.
  wp_step. unfold wait_for_aio. wp_step. apply perform_spec. cbn zeta.
  destruct (Hmine _ _ _ _ _ Hf2) as [Hf3 Ha3]. specialize (Ha3 aio eq_refl). rewrite Hos2 in Ha3. cbn in Ha3.
  pose proof (rf_event Hregular (os (others s2)) aio fd (op aio) l Hreq Hvalid (fa_contents _ _ _ _ _ _ _ _ Hf3)
    ltac:(by rewrite Ha3)) as (r1 & l' & Ha4 & Hc4 & Hrep & Hne).
  assert (Hlen : zlen l' < 2 ^ 63) by (eapply aio_reply_len; [apply Hf|done..]).
  set (s4 := set_os _ (others s2)). assert (Hf4 : file_in l' pos b (Some aio) s4) by by eapply file_in_os.
  destruct (Hmine _ _ _ _ _ Hf4) as [Hf5 Ha5]. specialize (Ha5 aio eq_refl).
  change (os s4) with (kernel (req_aio_event aio) (os (others s2))).2 in Ha5. rewrite Ha4 in Ha5.
  wp_steps. eapply file_in_resolve; [done|]. wp_step. wp_step. eapply file_in_deref; [done|].
  apply (file_in_store l' pos b (Some aio) pos b None _ _ Hf5 (fa_pos _ _ _ _ _ _ _ _ Hf)). intros s6 Hf6 Hos6.
  wp_step. apply system_call_spec. rewrite Hos6.
  pose proof (rf_error Hregular (os (others s4)) aio fd l' r1 (fa_contents _ _ _ _ _ _ _ _ Hf5) Ha5) as Herr.
  destruct (kernel (req_aio_error aio) (os (others s4))) as [r2 o2]. destruct Herr as (Hr2 & Hc2 & Ha2). cbn [fst snd].
  assert (Hf7 : file_in l' pos b None (set_os o2 s6)) by by eapply file_in_os.
  rewrite Hr2. destruct (Z.ltb_spec (rp_res r1) 0) as [Hneg|Hpos].
  { rewrite (proj2 (Z.eqb_neq _ _)) by lia. cbn. wp_steps. rewrite Z.opp_involutive. split; [done|]. left.
    split; [done|]. by rewrite (aio_reply_failed _ _ _ _ Hrep Hneg) in Hf7. }
  cbn. wp_step. apply system_call_spec.
  pose proof (rf_return Hregular o2 aio fd l' r1 Hc2 Ha2) as Hret. cbn [os set_os].
  destruct (kernel (req_aio_return aio) o2) as [r3 o3]. destruct Hret as [-> Hc3]. cbn [fst snd]. wp_steps.
  split; [done|]. right. exists aio, r1, l'. split_and!; try done. by eapply file_in_os.
Qed.

Lemma move_offset_spec l pos b n s (Q : unit → io → Prop) :
  file_in l pos b None s → 0 ≤ n → pos + n < 2 ^ 63 →
  (∀ s', file_in l (pos + n) b None s' → Q tt s') → wp (move_offset (Some p) n) Q s.
Proof.
  intros Hf Hn Hmax HQ. pose proof (fa_pos _ _ _ _ _ _ _ _ Hf). unfold move_offset. wp_steps.
  eapply file_in_deref; [done|]. cbn [fl_seekable fl_offset]. rewrite to_i64_u64 by lia.
  eapply file_in_store; [done|lia|]. intros s' Hf' _. by apply HQ.
Qed.

Lemma fwrite_aio_spec l pos b s buf :
  file_in l pos b None s →
  wp (bio_fwrite_aio h p buf) (λ n s', n ≠ - EOPNOTSUPP ∧
    ((n < 0 ∧ file_in l pos b None s') ∨
     (0 ≤ n ≤ zlen buf ∧ (n = 0 → buf = []) ∧ file_in (splice pos (take (Z.to_nat n) buf) l) (pos + n) b None s'))) s.
Proof.
  intros Hf. unfold bio_fwrite_aio. wp_step. eapply file_in_deref; [done|]. cbn [fl_fd fl_offset]. wp_step.
  eapply wp_mono; [eapply run_aio_spec; [done|]; intros aio; split; [done|]; split; apply Hf|].
  intros [[n data] impl] s1 (Hne & Hr). cbn beta iota in Hne, Hr |- *.
  destruct Hr as [(Hlt & _ & Hf1)|(aio & r & l' & Hge & Hrep & -> & _ & -> & Hf1)].
  - rewrite (proj2 (Z.ltb_lt _ _)) by done. wp_steps. split; [done|]. by left.
  - rewrite (proj2 (Z.ltb_ge _ _)) by done. cbn in Hrep.
    destruct Hrep as [[? _]|(Hres & Hmax & -> & Hend)]; [lia|]. wp_step.
    eapply move_offset_spec; [done..|]. intros s2 Hf2. wp_steps. split; [done|]. right.
    split; [exact Hres|]. split; [exact Hend|exact Hf2].
Qed.

Lemma fread_aio_spec l pos b s size :
  file_in l pos b None s → 0 ≤ size →
  wp (bio_fread_aio h p size) (λ r s', r.1 ≠ - EOPNOTSUPP ∧
    ((r.1 < 0 ∧ r.2 = [] ∧ file_in l pos b None s') ∨
     (r.1 = zlen r.2 ∧ zlen r.2 ≤ size ∧ r.2 = take (length r.2) (drop (Z.to_nat pos) l) ∧
      (r.2 = [] → size = 0 ∨ zlen l ≤ pos) ∧ file_in l (pos + zlen r.2) b None s'))) s.
Proof.
  intros Hf Hs. unfold bio_fread_aio. wp_step. eapply file_in_deref; [done|]. cbn [fl_fd fl_offset]. wp_step.
  eapply wp_mono; [eapply run_aio_spec; [done|]; intros aio; split; [done|]; split; [done|apply Hf]|].
  intros [[n data] impl] s1 (Hne & Hr). cbn beta iota in Hne, Hr |- *.
  destruct Hr as [(Hlt & -> & Hf1)|(aio & r & l' & Hge & [-> Hrep] & -> & -> & -> & Hf1)].
  - rewrite (proj2 (Z.ltb_lt _ _)) by done. wp_steps. split; [done|]. by left.
  - rewrite (proj2 (Z.ltb_ge _ _)) by done. pose proof Hrep as [[? _]|(Hres & Hle & Hdata & Hend)]; [lia|].
    pose proof (zlen_nonneg (rp_data r)).
    assert (Hmax : pos + zlen (rp_data r) < 2 ^ 63) by (eapply read_reply_bound; [done|apply Hf..]).
    wp_step. eapply move_offset_spec; [done|lia|by rewrite Hres|]. intros s2 Hf2. wp_steps. split; [done|].
    right. cbn [fst snd]. rewrite Hres in Hf2. split_and!; [done..|exact Hend|done].
Qed.

Lemma set_aio_support_spec l pos b b' s (Q : unit → io → Prop) :
  file_in l pos b None s → (∀ s', file_in l pos b' None s' → Q tt s') → wp (set_aio_support p b') Q s.
Proof.
  intros Hf HQ. unfold set_aio_support. wp_step. eapply file_in_deref; [done|].
  eapply file_in_store; [done|apply Hf|]. intros s' Hf' _. by apply HQ.
Qed.

(** The result of a function, with the position and the contents after it. *)
Definition stepped l pos error op (r : file_result) s' : Prop :=
  ∃ l' pos', cursor_step l pos error op r l' pos' ∧ file_at l' pos' s'.

Lemma stepped_in l pos error op r l' pos' b s' :
  cursor_step l pos error op r l' pos' → file_in l' pos' b None s' → b ≠ BIO_AIO_SUPPORT_DISABLED →
  stepped l pos error op r s'.
Proof. intros Hst Hf Hb. exists l', pos'. split; [done|]. by exists b. Qed.

Lemma failed_errno n error line : n < 0 → failed error (set_errno error (- n) here line).
Proof. intros Hn. exists (- n), line. split; [lia|done]. Qed.

Lemma bsd_fwrite_spec l pos s buf error :
  file_at l pos s →
  wp (bio_fwrite h buf error) (λ r s', stepped l pos error (Write buf) (RWrite r.1 r.2) s') s.
Proof.
  intros (b & Hb & Hf). unfold bio_fwrite. wp_step. eapply file_in_resolve; [done|].
  wp_step. eapply file_in_deref; [done|]. cbn [fl_aio_support].
  destruct b; [| |done]; wp_step; (eapply wp_mono; [by apply fwrite_aio_spec|]); cbn beta;
    intros n s1 (Hne & Hr); (destruct (Z.geb_spec n 0) as [Hge|Hlt];
      [destruct Hr as [[? _]|(Hn & Hend & Hf1)]; [lia|]|destruct Hr as [[_ Hf1]|(? & _)]; [|lia]]).
  - wp_step. eapply set_aio_support_spec; [done|]. intros s2 Hf2. wp_steps.
    eapply stepped_in; [by constructor|done..].
  - rewrite (proj2 (Z.eqb_neq _ _)) by done. wp_steps. eapply stepped_in; [|done..]. constructor. by apply failed_errno.
  - wp_steps. eapply stepped_in; [by constructor|done..].
  - wp_steps. eapply stepped_in; [|done..]. constructor. by apply failed_errno.
Qed.

Lemma bsd_fread_spec l pos s size error :
  file_at l pos s → 0 ≤ size →
  wp (bio_fread h size error) (λ r s', stepped l pos error (Read size) (RRead r.1.1 r.1.2 r.2) s') s.
Proof.
  intros (b & Hb & Hf) Hs. unfold bio_fread. wp_step. eapply file_in_resolve; [done|].
  wp_step. eapply file_in_deref; [done|]. cbn [fl_aio_support].
  destruct b; [| |done]; wp_step; (eapply wp_mono; [by apply fread_aio_spec|]); cbn beta;
    intros [n data] s1 (Hne & Hr); cbn [fst snd] in Hne, Hr; pose proof (zlen_nonneg data);
    (destruct (Z.geb_spec n 0) as [Hge|Hlt];
      [destruct Hr as [[? _]|(-> & Hle & Hdata & Hend & Hf1)]; [lia|]
      |destruct Hr as [(_ & -> & Hf1)|(? & _)]; [|lia]]).
  - wp_step. eapply set_aio_support_spec; [done|]. intros s2 Hf2. wp_steps.
    eapply stepped_in; [by constructor|done..].
  - rewrite (proj2 (Z.eqb_neq _ _)) by done. wp_steps. eapply stepped_in; [|done..]. constructor. by apply failed_errno.
  - wp_steps. eapply stepped_in; [by constructor|done..].
  - wp_steps. eapply stepped_in; [|done..]. constructor. by apply failed_errno.
Qed.

Lemma fsync_aio_spec l pos b s :
  file_in l pos b None s →
  wp (bio_fsync_aio h p) (λ n s', n ≠ - EOPNOTSUPP ∧ file_in l pos b None s') s.
Proof.
  intros Hf. unfold bio_fsync_aio. wp_step. eapply file_in_deref; [done|]. cbn [fl_fd]. wp_step.
  eapply wp_mono; [by eapply run_aio_spec|]. intros [[n data] impl] s1 (Hne & Hr). cbn beta iota in Hne, Hr |- *.
  destruct Hr as [(_ & _ & Hf1)|(aio & r & l' & _ & -> & _ & _ & _ & Hf1)]; by wp_steps.
Qed.

Lemma bsd_fflush_spec l pos s error :
  file_at l pos s → wp (bio_fflush h error) (λ r s', stepped l pos error Flush (RBool r.1 r.2) s') s.
Proof.
  intros (b & Hb & Hf). unfold bio_fflush. wp_step. eapply file_in_resolve; [done|].
  wp_step. eapply file_in_deref; [done|]. cbn [fl_aio_support].
  destruct b; [| |done]; wp_step; (eapply wp_mono; [by apply fsync_aio_spec|]); cbn beta; intros n s1 [Hne Hf1];
    destruct (Z.geb_spec n 0) as [Hge|Hlt].
  - wp_step. eapply set_aio_support_spec; [done|]. intros s2 Hf2. wp_steps. eapply stepped_in; [by constructor|done..].
  - rewrite (proj2 (Z.eqb_neq _ _)) by done. wp_steps. eapply stepped_in; [|done..]. constructor. by apply failed_errno.
  - wp_steps. eapply stepped_in; [by constructor|done..].
  - wp_steps. eapply stepped_in; [|done..]. constructor. by apply failed_errno.
Qed.

Lemma bsd_fseek_spec l pos s offset origin error :
  file_at l pos s → file_op_ok pos (Seek offset origin) →
  wp (bio_fseek h offset origin error) (λ r s', stepped l pos error (Seek offset origin) (RBool r.1 r.2) s') s.
Proof.
  intros (b & Hb & Hf) [H1 H2]. unfold bio_fseek. wp_step. eapply file_in_resolve; [done|].
  wp_step. eapply file_in_deref; [done|]. cbn [fl_seekable fl_offset].
  destruct (Z.eqb_spec origin SEEK_SET) as [->|Hset].
  { wp_step. eapply file_in_store; [done|auto|]. intros s1 Hf1 _. wp_steps. eapply stepped_in; [constructor|done..]. }
  destruct (Z.eqb_spec origin SEEK_CUR) as [->|Hcur].
  - wp_steps. assert (Hr : 0 ≤ pos + offset < 2 ^ 63).
    { apply andb_prop in H as [_ ?%Z.leb_le]. specialize (H2 eq_refl). lia. }
    eapply file_in_store; [done|done|]. intros s1 Hf1 _. wp_steps. eapply stepped_in; [constructor|done..].
  - wp_steps. eapply stepped_in; [|done..]. constructor; [done..|]. exists ENOTSUP, 185. by split.
Qed.

Lemma bsd_fstat_spec l pos s error :
  file_at l pos s → wp (bio_fstat h error) (λ r s', stepped l pos error Stat (RStat r.1.1 r.1.2 r.2) s') s.
Proof.
  intros (b & Hb & Hf). unfold bio_fstat. wp_step. eapply file_in_resolve; [done|].
  wp_step. eapply file_in_deref; [done|]. cbn [fl_fd]. unfold run_async_and_wait, bio_fs_fstat. wp_steps.
  destruct (Hmine _ _ _ _ _ Hf) as [Hf1 _]. apply system_call_spec. wp_steps.
  pose proof (rf_fstat Hregular (os (others s)) fd l (fa_contents _ _ _ _ _ _ _ _ Hf1)) as Hst.
  destruct (kernel (req_fstat fd) (os (others s))) as [r o]. destruct Hst as (Hc & Hle & Hsize). cbn [fst snd].
  assert (Hf2 : file_in l pos b None (set_os o (others s))) by (eapply file_in_os; [done..|apply Hf1]).
  destruct (Hmine _ _ _ _ _ Hf2) as [Hf3 _].
  destruct (Z.eqb_spec (rp_res r) 0) as [E|E].
  - cbn. wp_steps. rewrite (Hsize E). eapply stepped_in; [by constructor|done..].
  - rewrite (proj2 (Z.eqb_neq _ _)) by lia. wp_steps. eapply stepped_in; [|done..]. constructor. apply failed_errno. lia.
Qed.

Lemma freebsd_file_exec l pos s op error :
  file_at l pos s → file_op_ok pos op →
  wp (file_exec h op error) (λ r s', ∃ l' pos',
    cursor_step l pos error op r l' pos' ∧ file_at l' pos' s') s.
Proof.
  intros Hf Hok. destruct op as [size|buf|offset origin| | |]; cbn [file_exec].
  - wp_step. eapply wp_mono; [by apply bsd_fread_spec|]. intros [[n data] e] s' H. by wp_steps.
  - wp_step. eapply wp_mono; [by apply bsd_fwrite_spec|]. intros [n e] s' H. by wp_steps.
  - wp_step. eapply wp_mono; [by apply bsd_fseek_spec|]. intros [b e] s' H. by wp_steps.
  - destruct Hf as (b & Hb & Hf). unfold bio_ftell. wp_steps. eapply file_in_resolve; [done|].
    wp_step. eapply file_in_deref; [done|]. cbn [fl_seekable fl_offset]. wp_steps.
    eapply stepped_in; [constructor|done..].
  - wp_step. eapply wp_mono; [by apply bsd_fflush_spec|]. intros [b e] s' H. by wp_steps.
  - wp_step. eapply wp_mono; [by apply bsd_fstat_spec|]. intros [[b sz] e] s' H. by wp_steps.
Qed.

(** C27: An open file on FreeBSD is the same cursor over a list of bytes as on Linux: a file
    that is seekable, supports asynchronous operations and is used by nobody else, also
    while its operations are under way and the first of them finds out whether they are
    supported. *)
Theorem freebsd_file_refines_cursor l pos s op error :
  file_at l pos s → file_op_ok pos op →
  wp (file_exec h op error) (λ r s', ∃ l' pos',
    cursor_step l pos error op r l' pos' ∧ file_at l' pos' s') s.
Proof. apply freebsd_file_exec. Qed.
End spec.

(** ** New files *)

Lemma bsd_file_from_fd_spec (fd offset : Z) (seekable : bool) s (Q : bio_handle_t → io → Prop) :
  io_wf s →
  (∀ h s', io_wf s' → io_evolves s s' → os s' = os s →
    object_of s' h BIO_FILE_HANDLE = Some (io_next s) →
    files s' !! io_next s = Some (mk_file fd (if seekable then offset else 0) seekable BIO_AIO_SUPPORT_UNKNOWN None) →
    Q h s') →
  wp (bio_file_from_fd fd offset seekable) Q s.
Proof.
  intros Hwf HQ. unfold bio_file_from_fd, io_malloc. wp_steps.
  set (s1 := set_files _ _).
  assert (Hwf1 : io_wf s1) by by apply insert_file_wf, malloc_wf.
  apply io_make_spec; [done|cbn; rewrite lookup_insert_eq; eauto| |cbn; lia|].
  { intros h Hh. destruct (proj1 (iw_files _ Hwf) _ _ Hh) as (q & [= <-] & _ & Hlt). lia. }
  intros h t Hwf2 Hk Hl He. apply HQ; [done| |done| |by cbn; rewrite lookup_insert_eq].
  - split; [done|]. cbn. lia.
  - apply object_of_live. cbn. by rewrite Hl, lookup_insert_eq.
Qed.
End code.
