(* ===== verification/Windows.v ===== *)
(** What the files of [src/windows] share ([common.h], the end of [platform.c]): calls of the
    Windows API, overlapped operations, and errors. *)
From stdpp Require Import strings.
From S2P Require Import Prelude HandleTable Error Net Io.

(** ** Requests *)

(** [OVERLAPPED], with its address. *)
Record overlapped := mk_overlapped { ov_at : positive; ov_Offset : Z; ov_OffsetHigh : Z }.

(** Extension functions of sockets, by their GUID. *)
Inductive ws_extension := WSAID_ACCEPTEX | WSAID_CONNECTEX.

(** The calls; a handle is a number. [rq_completion]: the packet that the completion port
    gets for an operation. *)
Inductive win_request :=
  | rq_GetStdHandle (std : Z)
  | rq_CreateFileA (filename : string) (access share disposition attributes : Z)
  | rq_CloseHandle (h : Z)
  | rq_ReadFile (h size : Z) (ov : overlapped)
  | rq_WriteFile (h : Z) (buf : list Z) (ov : overlapped)
  | rq_FlushFileBuffers (h : Z)
  | rq_GetFileInformationByHandle (h : Z)
  | rq_CreateIoCompletionPort (h : Z)
  | rq_SetFileCompletionNotificationModes (h flags : Z)
  | rq_GetOverlappedResult (h : Z) (ov : overlapped)
  | rq_CancelIo (h : Z)
  | rq_completion (ov : positive)
  (* sockets *)
  | rq_WSASocket (family type flags : Z)
  | rq_bind (h : Z) (addr : sockaddr) (len : Z)
  | rq_listen (h backlog : Z)
  | rq_WSAIoctl (h : Z) (fn : ws_extension) (ov : overlapped)
  | rq_getsockname (h : Z)
  | rq_getsockopt_type (h : Z)
  | rq_getsockopt_protocol_info (h : Z)
  | rq_setsockopt_accept_context (h listener : Z)
  | rq_AcceptEx (h client : Z) (ov : overlapped)
  | rq_ConnectEx (h : Z) (addr : sockaddr) (len : Z) (ov : overlapped)
  | rq_WSASend (h : Z) (buf : list Z) (ov : overlapped)
  | rq_WSARecv (h size : Z) (ov : overlapped)
  | rq_WSAGetOverlappedResult (h : Z) (ov : overlapped)
  | rq_shutdown (h how : Z)
  | rq_closesocket (h : Z)
  (* named pipes *)
  | rq_CreateNamedPipeA (name : list Z) (open_mode pipe_mode : Z)
  | rq_CreateFile (name : list Z) (access disposition attributes : Z)
  | rq_SetNamedPipeHandleState (h mode : Z)
  | rq_GetFileNameInfo (h : Z)
  | rq_WideCharToMultiByte (wide : list Z) (size : Z)
  | rq_GetNamedPipeInfo (h : Z)
  | rq_ConnectNamedPipe (h : Z) (ov : overlapped)
  | rq_DisconnectNamedPipe (h : Z).

(** The constants of the API. *)
Definition INVALID_HANDLE_VALUE : Z := 18446744073709551615.
Definition MAXDWORD : Z := 4294967295.
Definition ERROR_SUCCESS : Z := 0.
Definition ERROR_INVALID_HANDLE : Z := 6.
Definition ERROR_HANDLE_EOF : Z := 38.
Definition ERROR_NOT_SUPPORTED : Z := 50.
Definition ERROR_IO_PENDING : Z := 997.
Definition FILE_SKIP_COMPLETION_PORT_ON_SUCCESS : Z := 1.

(** What [GetLastError] returns after a call; a call that fails gives its negative. *)
Definition last_error (r : reply) : Z := if rp_res r <? 0 then - rp_res r else ERROR_SUCCESS.
Definition succeeded (r : reply) : bool := rp_res r >=? 0.

Lemma succeeded_ge r : succeeded r = true ↔ 0 ≤ rp_res r.
Proof. unfold succeeded. by rewrite Z.geb_leb, Z.leb_le. Qed.

Lemma last_error_failed r : succeeded r = false → last_error r = - rp_res r ∧ 0 < last_error r.
Proof.
  unfold succeeded, last_error. rewrite Z.geb_leb, Z.leb_gt. intros H. rewrite (proj2 (Z.ltb_lt _ _)) by done. lia.
Qed.

Lemma last_error_zero r : (last_error r =? ERROR_SUCCESS) = succeeded r.
Proof.
  unfold last_error, succeeded, ERROR_SUCCESS. rewrite Z.geb_leb.
  destruct (Z.ltb_spec (rp_res r) 0); [|by rewrite (proj2 (Z.leb_le _ _))].
  rewrite (proj2 (Z.leb_gt _ _)) by done. apply Z.eqb_neq. lia.
Qed.

Lemma pending_reply r :
  rp_res r = - ERROR_IO_PENDING → succeeded r = false ∧ (last_error r =? ERROR_IO_PENDING) = true.
Proof. unfold succeeded, last_error. intros ->. done. Qed.

(** [bio_completion_mode_t]. *)
Inductive bio_completion_mode_t :=
  | BIO_COMPLETION_MODE_UNKNOWN
  | BIO_COMPLETION_MODE_ALWAYS
  | BIO_COMPLETION_MODE_SKIP_ON_SUCCESS.

#[export] Instance bio_completion_mode_eq_dec : EqDecision bio_completion_mode_t.
Proof. solve_decision. Defined.

(** [bio_io_req_t]. *)
Record bio_io_req_t := mk_io_req { rq_overlapped : overlapped; rq_signal : bio_handle_t }.

(** The tag of signals. *)
Definition BIO_SIGNAL_HANDLE : io_tag := OTHER_HANDLE 1.

(** *** The words of 64-bit numbers *)

Lemma low_word n : Z.land n 4294967295 = n `mod` 2 ^ 32.
Proof. change 4294967295 with (Z.ones 32). by rewrite Z.land_ones. Qed.

(** A number from its words. *)
Lemma join_words n : 0 ≤ n → Z.lor (Z.shiftl (Z.shiftr n 32) 32) (Z.land n 4294967295) = n.
Proof.
  intros Hn. change 4294967295 with (Z.ones 32). apply Z.bits_inj'. intros k Hk.
  rewrite Z.lor_spec, Z.shiftl_spec, Z.land_spec, Z.testbit_ones_nonneg by lia.
  destruct (Z.ltb_spec k 32).
  - by rewrite (Z.testbit_neg_r _ (k - 32)), andb_true_r by lia.
  - rewrite Z.shiftr_spec, andb_false_r, orb_false_r by lia. f_equal. lia.
Qed.

Lemma high_word n : 0 ≤ n < 2 ^ 64 → Z.land (Z.shiftr n 32) 4294967295 = Z.shiftr n 32.
Proof.
  intros Hn. rewrite low_word, Z.shiftr_div_pow2 by lia. apply Z.mod_small.
  split; [apply Z.div_pos; lia|apply Z.div_lt_upper_bound; lia].
Qed.

Lemma join_words_u64 n : 0 ≤ n < 2 ^ 64 → Z.lor (u64 (Z.shiftl (Z.shiftr n 32) 32)) (Z.land n 4294967295) = n.
Proof.
  intros Hn. rewrite u64_small; [apply join_words; lia|].
  rewrite Z.shiftl_mul_pow2, Z.shiftr_div_pow2 by lia.
  pose proof (Z.mul_div_le n (2 ^ 32)). pose proof (Z.div_pos n (2 ^ 32)). lia.
Qed.

Section code.
Context {OS File Sock : Type}.
Context (others : io_ctx OS File Sock → io_ctx OS File Sock).
Context (kernel : win_request → OS → reply * OS).
Context (strerror : Z → string).
Abbreviation io := (io_ctx OS File Sock).

(** ** Errors *)

Definition bio_format_error (code : Z) : string := strerror code.

(** [(bio_set_error)]. *)
Definition bio_set_error (error : error_ptr) (code : Z) (file : string) (line : Z) : error_ptr :=
  (λ _, mk_error (Some BIO_PLATFORM_ERROR) (to_int code) (Some bio_format_error) file line) <$> error.

(** ** Operations *)

Definition bio_prepare_io_req : st io bio_io_req_t :=
  req ← io_malloc;
  signal ← io_make_handle req BIO_SIGNAL_HANDLE;
  mret (mk_io_req (mk_overlapped req 0 0) signal).

Definition bio_raise_signal (signal : bio_handle_t) : st io unit :=
  _ ← io_close_handle signal BIO_SIGNAL_HANDLE; mret tt.

(** The caller sleeps until the packet of the operation is there, for which the platform
    raises the signal ([Iocp.v]). *)
Definition bio_wait_for_io (req : bio_io_req_t) : st io unit :=
  _ ← modify others;
  _ ← system_call kernel (rq_completion (ov_at (rq_overlapped req)));
  _ ← bio_raise_signal (rq_signal req);
  modify others.

Definition bio_maybe_wait_after_success (req : bio_io_req_t) (completion_mode : bio_completion_mode_t) :
    st io unit :=
  if decide (completion_mode = BIO_COMPLETION_MODE_SKIP_ON_SUCCESS) then bio_raise_signal (rq_signal req)
  else bio_wait_for_io req.

(** What the functions that start an operation do then, as in [bio_fread]: the outcome, and
    whether the operation was pending. The completion mode is read after it was started, and
    [result] is the call for the outcome of an operation that was pending. *)
Definition overlapped_op (req : bio_io_req_t) (start : st io reply) (mode : st io bio_completion_mode_t)
    (result : st io reply) : st io (reply * bool) :=
  r ← start;
  if succeeded r then
    completion_mode ← mode;
    _ ← bio_maybe_wait_after_success req completion_mode;
    mret (r, false)
  else if last_error r =? ERROR_IO_PENDING then
    _ ← bio_wait_for_io req;
    r ← result;
    mret (r, true)
  else mret (r, false).

(** ** What they leave alone *)

(** Signals come and go; the other objects stay. *)
Record signals_only (s s' : io) : Prop := {
  so_wf : io_wf s';
  so_evolves : io_evolves s s';
  so_object h tg : tg ≠ BIO_SIGNAL_HANDLE → object_of s' h tg = object_of s h tg;
  so_files : files s' = files s;
  so_sockets : sockets s' = sockets s;
  so_buffers : buffers s' = buffers s;
  so_reqs : Io.io_reqs s' = Io.io_reqs s;
  so_os : os s' = os s;
}.

Lemma signals_only_trans s1 s2 s3 : signals_only s1 s2 → signals_only s2 s3 → signals_only s1 s3.
Proof.
  intros [] []. split; try congruence; [by etrans|]. intros h tg Htg.
  match goal with H : ∀ h tg, _ → object_of s3 h tg = _ |- _ => rewrite H by done end. auto.
Qed.

Lemma signals_only_known s s' h : signals_only s s' → io_known s h → io_known s' h.
Proof. intros H Hk. by apply (so_evolves _ _ H). Qed.

(** An operation that only changes handles of signals. *)
Lemma signals_only_table (s : io) n t :
  wf t → evolves (io_table s) t → (io_next s ≤ n)%positive → io_wf s →
  (∀ h tg o, tg ≠ BIO_SIGNAL_HANDLE → live t !! h = Some (tg, o) ↔ live (io_table s) !! h = Some (tg, o)) →
  signals_only s (set_io_table t (set_io_next n s)).
Proof.
  intros Ht He Hn [] Hl.
  assert (Hok : ∀ X tg (m : gmap positive X), tg ≠ BIO_SIGNAL_HANDLE →
    handles_ok (io_table s) (io_next s) tg m → handles_ok t n tg m).
  { intros X tg m Htg [H1 H2]. split.
    - intros h o H%Hl; [|done]. destruct (H1 h o H) as (p & -> & Hp & Hlt). exists p. split_and!; [done..|lia].
    - intros h h' o H%Hl H'%Hl; eauto. }
  split; try done.
  - split; cbn; [done|by apply Hok..].
  - intros h tg Htg. apply option_eq. intros p. rewrite !object_of_live. by apply Hl.
Qed.

Lemma win_prepare_spec s (Q : bio_io_req_t → io → Prop) :
  io_wf s →
  (∀ req s', signals_only s s' → io_known s' (rq_signal req) →
    rq_overlapped req = mk_overlapped (io_next s) 0 0 → Q req s') →
  wp bio_prepare_io_req Q s.
Proof.
  intros Hwf HQ. unfold bio_prepare_io_req, io_malloc, io_make_handle. wp_steps.
  eapply wp_mono; [apply make_spec, Hwf|]. intros h t (Ht & Hk & Hl & He & _). wp_steps. cbn in Hk, Hl, He.
  apply HQ; [|by apply live_known; cbn; rewrite Hl, lookup_insert_eq; eauto|done].
  apply signals_only_table; [done..|lia|done|]. intros k tg o Htg. rewrite Hl.
  destruct (decide (h = k)) as [->|Hne]; [|by rewrite lookup_insert_ne].
  rewrite lookup_insert_eq. split; [intros [= <- _]; done|]. intros E. destruct Hk. apply live_known. by rewrite E.
Qed.

Lemma win_raise_spec s signal (Q : unit → io → Prop) :
  io_wf s → io_known s signal → (∀ s', signals_only s s' → Q tt s') → wp (bio_raise_signal signal) Q s.
Proof.
  intros Hwf Hk HQ. unfold bio_raise_signal, io_close_handle. wp_steps.
  eapply wp_mono; [apply close_spec; [apply Hwf|done]|]. intros r t (Ht & He & H). wp_steps. apply HQ.
  replace (set_io_table t s) with (set_io_table t (set_io_next (io_next s) s)) by by destruct s.
  apply signals_only_table; [done..|lia|done|]. intros k tg o Htg.
  destruct (live (io_table s) !! signal) as [[tg' o']|] eqn:E; [|destruct H as [_ ->]; done].
  case_decide as Hd; destruct H as [_ H]; [|by rewrite H]. subst tg'. rewrite H.
  destruct (decide (signal = k)) as [->|Hne]; [|by rewrite lookup_delete_ne].
  rewrite lookup_delete_eq. split; [done|]. rewrite E. intros [= <- _]. done.
Qed.

(** *** Waiting *)

Context (Hpolite : polite others).

Lemma others_known s h : io_wf s → io_known s h → io_known (others s) h.
Proof. intros Hwf Hk. by apply (po_evolves _ Hpolite _ Hwf). Qed.

Lemma wait_for_io_spec req s (Q : unit → io → Prop) :
  io_wf s → io_known s (rq_signal req) →
  (∀ s', signals_only (set_os (kernel (rq_completion (ov_at (rq_overlapped req))) (os (others s))).2 (others s)) s' →
    Q tt (others s')) →
  wp (bio_wait_for_io req) Q s.
Proof.
  intros Hwf Hk HQ. unfold bio_wait_for_io. wp_steps. apply system_call_spec. wp_step.
  apply win_raise_spec; [by apply set_os_wf, Hpolite|by apply (others_known s)|]. intros s' Hs'. wp_steps. by apply HQ.
Qed.

Lemma maybe_wait_spec req completion_mode s (Q : unit → io → Prop) :
  io_wf s → io_known s (rq_signal req) →
  (∀ s', signals_only s s' → Q tt s') →
  (∀ s', signals_only (set_os (kernel (rq_completion (ov_at (rq_overlapped req))) (os (others s))).2 (others s)) s' →
    Q tt (others s')) →
  wp (bio_maybe_wait_after_success req completion_mode) Q s.
Proof.
  intros Hwf Hk H1 H2. unfold bio_maybe_wait_after_success. case_decide;
    [by apply win_raise_spec|by apply wait_for_io_spec].
Qed.
End code.
