(* ===== verification/WinFile.v ===== *)
(** Files on Windows ([src/windows/file.c]): reading and writing are overlapped operations that
    a thread of the pool starts; their end is awaited where they do not finish at once. *)
From Stdlib Require Import Ascii.
From stdpp Require Import strings.
From S2P Require Import Prelude Bits HandleTable Error Io Cursor Windows.

(** ** State *)

(** [bio_file_impl_t]. *)
Record bio_file_impl_t := mk_file {
  fl_handle : Z;
  fl_completion_mode : bio_completion_mode_t;
  fl_offset : Z;
}.

Definition set_fl_offset (n : Z) (x : bio_file_impl_t) : bio_file_impl_t :=
  mk_file (fl_handle x) (fl_completion_mode x) n.

(** The modes of [bio_fopen], and the constants of the API. *)
Definition BIO_MODE_READ : Z := 1.
Definition BIO_MODE_WRITE : Z := 2.
Definition BIO_MODE_APPEND : Z := 4.
Definition GENERIC_READ : Z := 2147483648.
Definition GENERIC_WRITE : Z := 1073741824.
Definition CREATE_ALWAYS : Z := 2.
Definition OPEN_EXISTING : Z := 3.
Definition OPEN_ALWAYS : Z := 4.
Definition FILE_SHARE_READ : Z := 1.
Definition FILE_ATTRIBUTE_NORMAL : Z := 128.
Definition FILE_FLAG_OVERLAPPED : Z := 1073741824.
Definition STD_INPUT_HANDLE : Z := 4294967286.
Definition STD_OUTPUT_HANDLE : Z := 4294967285.
Definition STD_ERROR_HANDLE : Z := 4294967284.

Local Infix "|||" := Z.lor (at level 50, left associativity).

Section code.
Context {OS Sock : Type}.
Context (others : io_ctx OS bio_file_impl_t Sock → io_ctx OS bio_file_impl_t Sock).
Context (kernel : win_request → OS → reply * OS).
Context (strerror : Z → string).
Abbreviation io := (io_ctx OS bio_file_impl_t Sock).
Abbreviation here := "src/windows/file.c"%string.
Local Abbreviation set_error := (bio_set_error strerror).
Local Abbreviation win_call := (system_call kernel).

(** ** Tasks of the thread pool

    The reply has what they store in their arguments: the handle or the number of bytes, or
    the error. *)

Definition bio_fs_open_file (filename : string) (desired_access creation_disposition : Z) : st io reply :=
  win_call (rq_CreateFileA filename desired_access FILE_SHARE_READ creation_disposition
    (FILE_ATTRIBUTE_NORMAL ||| FILE_FLAG_OVERLAPPED)).

Definition bio_fs_read_file (handle size : Z) (ov : overlapped) : st io reply :=
  win_call (rq_ReadFile handle size ov).

Definition bio_fs_write_file (handle : Z) (buf : list Z) (ov : overlapped) : st io reply :=
  win_call (rq_WriteFile handle buf ov).

Definition bio_fs_close_file (handle : Z) : st io Z :=
  _ ← win_call (rq_CancelIo handle);
  r ← win_call (rq_CloseHandle handle);
  mret (last_error r).

Definition bio_fs_flush_file (handle : Z) : st io Z :=
  r ← win_call (rq_FlushFileBuffers handle);
  mret (last_error r).

(** The two halves of the size come as the data of the reply; [None]: [stat] is not written to. *)
Definition bio_fs_stat_file (handle : Z) : st io (Z * option Z) :=
  r ← win_call (rq_GetFileInformationByHandle handle);
  if succeeded r then
    nFileSizeHigh ← need OutOfBounds (rp_data r !! 0%nat);
    nFileSizeLow ← need OutOfBounds (rp_data r !! 1%nat);
    mret (last_error r, Some (u64 (Z.shiftl nFileSizeHigh 32) ||| nFileSizeLow))
  else mret (last_error r, None).

(** ** The code *)

(** It always succeeds. *)
Definition bio_fdopen (fd : Z) : st io bio_handle_t :=
  r ← win_call (rq_CreateIoCompletionPort fd);
  completion_mode ←
    (if succeeded r then
       r ← win_call (rq_SetFileCompletionNotificationModes fd FILE_SKIP_COMPLETION_PORT_ON_SUCCESS);
       mret (if succeeded r then BIO_COMPLETION_MODE_SKIP_ON_SUCCESS else BIO_COMPLETION_MODE_ALWAYS)
     else mret BIO_COMPLETION_MODE_SKIP_ON_SUCCESS);
  impl ← io_malloc;
  _ ← modify (λ s : io, set_files (<[impl := mk_file fd completion_mode 0]> (files s)) s);
  io_make_handle impl BIO_FILE_HANDLE.

(** [GetStdHandle]. *)
Definition std_handle (n : Z) : st io Z :=
  r ← win_call (rq_GetStdHandle n);
  mret (if succeeded r then rp_res r else INVALID_HANDLE_VALUE).

(** [BIO_STDIN], [BIO_STDOUT] and [BIO_STDERR]. *)
Definition bio_fs_init : st io (bio_handle_t * bio_handle_t * bio_handle_t) :=
  h ← std_handle STD_INPUT_HANDLE; stdin ← bio_fdopen h;
  h ← std_handle STD_OUTPUT_HANDLE; stdout ← bio_fdopen h;
  h ← std_handle STD_ERROR_HANDLE; stderr ← bio_fdopen h;
  mret (stdin, stdout, stderr).

(** [bio_free] of what [bio_close_handle] returns. *)
Definition free_closed (file : bio_handle_t) : st io unit :=
  impl ← io_close_handle file BIO_FILE_HANDLE;
  match impl with Some p => free_file p | None => mret tt end.

Definition bio_fs_cleanup (stdin stdout stderr : bio_handle_t) : st io unit :=
  _ ← free_closed stdin;
  _ ← free_closed stdout;
  free_closed stderr.

(** The flags, the access and the disposition after the first character of the mode. *)
Definition primary_mode (c : ascii) : Z * Z * Z :=
  if decide (c = "r"%char) then (BIO_MODE_READ, GENERIC_READ, OPEN_EXISTING)
  else if decide (c = "w"%char) then (BIO_MODE_WRITE, GENERIC_WRITE, CREATE_ALWAYS)
  else if decide (c = "a"%char) then (BIO_MODE_WRITE ||| BIO_MODE_APPEND, GENERIC_WRITE, OPEN_ALWAYS)
  else (0, 0, 0).

(** One of the others. *)
Definition mode_flag (m : Z * Z * Z) (c : ascii) : Z * Z * Z :=
  let '(modeFlags, desired_access, creation_disposition) := m in
  let has flag := negb (Z.land modeFlags flag =? 0) in
  if decide (c = "+"%char) then
    (modeFlags, GENERIC_READ ||| GENERIC_WRITE,
     if has BIO_MODE_READ then OPEN_EXISTING
     else if has BIO_MODE_WRITE && negb (has BIO_MODE_APPEND) then CREATE_ALWAYS
     else if has BIO_MODE_APPEND then OPEN_ALWAYS
     else creation_disposition)
  else m.

(** The access and the disposition. The first character is skipped even if it is the end of
    the string: what follows is not part of it. *)
Definition parse_mode (mode : string) : st io (Z * Z) :=
  match mode with
  | EmptyString => fail OutOfBounds
  | String c mode =>
      let '(_, desired_access, creation_disposition) :=
        foldl mode_flag (primary_mode c) (String.list_ascii_of_string mode) in
      mret (desired_access, creation_disposition)
  end.

Definition bio_fopen (filename mode : string) (error : error_ptr) :
    st io (bool * option bio_handle_t * error_ptr) :=
  m ← parse_mode mode;
  let '(desired_access, creation_disposition) := m in
  args ← run_async_and_wait others (bio_fs_open_file filename desired_access creation_disposition);
  if negb (last_error args =? ERROR_SUCCESS) then
    mret (false, None, set_error error (last_error args) here 205)
  else
    file ← bio_fdopen (rp_res args);
    mret (true, Some file, error).

Definition bio_funwrap (file : bio_handle_t) : st io Z :=
  impl ← io_resolve_handle file BIO_FILE_HANDLE;
  match impl with
  | Some impl => x ← deref_file impl; mret (fl_handle x)
  | None => mret INVALID_HANDLE_VALUE
  end.

(** The operation of [bio_fwrite] and [bio_fread]: the outcome, and whether it was pending.
    The object of the file is used again after the caller slept. *)
Definition file_io (impl : positive) (start : Z → overlapped → st io reply) : st io (reply * bool) :=
  x ← deref_file impl;
  req ← bio_prepare_io_req;
  let ov := mk_overlapped (ov_at (rq_overlapped req)) (Z.land (fl_offset x) 4294967295)
              (Z.land (Z.shiftr (fl_offset x) 32) 4294967295) in
  overlapped_op others kernel (mk_io_req ov (rq_signal req))
    (run_async_and_wait others (start (fl_handle x) ov))
    (x ← deref_file impl; mret (fl_completion_mode x))
    (x ← deref_file impl; win_call (rq_GetOverlappedResult (fl_handle x) ov)).

(** [impl->offset += args.bytes_transferred]. *)
Definition move_offset (impl : positive) (bytes_transferred : Z) : st io unit :=
  x ← deref_file impl;
  store_file impl (set_fl_offset (u64 (fl_offset x + bytes_transferred)) x).

Definition bio_fwrite (file : bio_handle_t) (buf : list Z) (error : error_ptr) : st io (Z * error_ptr) :=
  impl ← io_resolve_handle file BIO_FILE_HANDLE;
  match impl with
  | Some impl =>
      let buf := if zlen buf >? MAXDWORD then take (Z.to_nat MAXDWORD) buf else buf in
      r ← file_io impl (λ handle ov, bio_fs_write_file handle buf ov);
      let '(args, pending) := r in
      if succeeded args then
        _ ← move_offset impl (rp_res args);
        mret (rp_res args, error)
      else mret (0, set_error error (last_error args) here (if pending : bool then 279 else 285))
  | None => mret (0, bio_set_core_error error BIO_ERROR_INVALID_ARGUMENT here 289)
  end.

(** The result comes with the bytes that were written to [buf]. *)
Definition bio_fread (file : bio_handle_t) (size : Z) (error : error_ptr) :
    st io (Z * list Z * error_ptr) :=
  impl ← io_resolve_handle file BIO_FILE_HANDLE;
  match impl with
  | Some impl =>
      let size := if size >? MAXDWORD then MAXDWORD else size in
      r ← file_io impl (λ handle ov, bio_fs_read_file handle size ov);
      let '(args, pending) := r in
      if succeeded args then
        _ ← move_offset impl (rp_res args);
        mret (rp_res args, rp_data args, error)
      else mret (0, rp_data args, set_error error (last_error args) here (if pending : bool then 323 else 329))
  | None => mret (0, [], bio_set_core_error error BIO_ERROR_INVALID_ARGUMENT here 333)
  end.

Definition bio_fseek (file : bio_handle_t) (offset origin : Z) (error : error_ptr) :
    st io (bool * error_ptr) :=
  impl ← io_resolve_handle file BIO_FILE_HANDLE;
  match impl with
  | Some impl =>
      x ← deref_file impl;
      if origin =? SEEK_CUR then
        n ← i64_of (to_i64 (fl_offset x) + offset);
        _ ← store_file impl (set_fl_offset (u64 n) x);
        mret (true, error)
      else if origin =? SEEK_SET then
        _ ← store_file impl (set_fl_offset (u64 offset) x);
        mret (true, error)
      else if origin =? SEEK_END then mret (false, set_error error ERROR_NOT_SUPPORTED here 355)
      else mret (false, bio_set_core_error error BIO_ERROR_INVALID_ARGUMENT here 358)
  | None => mret (false, bio_set_core_error error BIO_ERROR_INVALID_ARGUMENT here 362)
  end.

Definition bio_ftell (file : bio_handle_t) (error : error_ptr) : st io (Z * error_ptr) :=
  impl ← io_resolve_handle file BIO_FILE_HANDLE;
  match impl with
  | Some impl => x ← deref_file impl; mret (to_i64 (fl_offset x), error)
  | None => mret (0, set_error error ERROR_INVALID_HANDLE here 376)
  end.

Definition bio_fflush (file : bio_handle_t) (error : error_ptr) : st io (bool * error_ptr) :=
  impl ← io_resolve_handle file BIO_FILE_HANDLE;
  match impl with
  | Some impl =>
      x ← deref_file impl;
      args_error ← run_async_and_wait others (bio_fs_flush_file (fl_handle x));
      if negb (args_error =? ERROR_SUCCESS) then mret (false, set_error error args_error here 388)
      else mret (true, error)
  | None => mret (false, set_error error ERROR_INVALID_HANDLE here 394)
  end.

Definition bio_fclose (file : bio_handle_t) (error : error_ptr) : st io (bool * error_ptr) :=
  impl ← io_close_handle file BIO_FILE_HANDLE;
  match impl with
  | Some impl =>
      x ← deref_file impl;
      args_error ← run_async_and_wait others (bio_fs_close_file (fl_handle x));
      _ ← free_file impl;
      if negb (args_error =? ERROR_SUCCESS) then mret (false, set_error error args_error here 407)
      else mret (true, error)
  | None => mret (false, set_error error ERROR_INVALID_HANDLE here 413)
  end.

(** A failure sets no error. *)
Definition bio_fstat (file : bio_handle_t) (error : error_ptr) : st io (bool * option Z * error_ptr) :=
  impl ← io_resolve_handle file BIO_FILE_HANDLE;
  match impl with
  | Some impl =>
      x ← deref_file impl;
      r ← run_async_and_wait others (bio_fs_stat_file (fl_handle x));
      let '(args_error, size) := r in
      mret (args_error =? ERROR_SUCCESS, size, error)
  | None => mret (false, None, set_error error ERROR_INVALID_HANDLE here 426)
  end.

(** ** What the operating system does with regular files *)

(** An overlapped operation. *)
Inductive ov_state :=
  | OvPending (req : win_request)
  | OvDone (handle : Z) (r : reply).

(** The contents of the regular file that a handle stands for; the operations. *)
Context (contents : OS → Z → option (list Z)) (ov_of : OS → positive → option ov_state).

Definition ov_offset (ov : overlapped) : Z := Z.lor (Z.shiftl (ov_OffsetHigh ov) 32) (ov_Offset ov).

(** The operations on a file. *)
Definition rw_request (ov : positive) (h : Z) (req : win_request) : Prop :=
  match req with
  | rq_ReadFile h' _ o | rq_WriteFile h' _ o => h' = h ∧ ov_at o = ov
  | _ => False
  end.

(** Those that make sense. *)
Definition rw_valid (l : list Z) (req : win_request) : Prop :=
  match req with
  | rq_ReadFile _ size o => 0 ≤ size ≤ MAXDWORD ∧ 0 ≤ ov_offset o < 2 ^ 63
  | rq_WriteFile _ buf o => zlen l < 2 ^ 63 ∧ zlen buf ≤ MAXDWORD ∧ 0 ≤ ov_offset o < 2 ^ 63
  | _ => True
  end.

(** What comes of them; at the end of a file reading is an error. *)
Definition rw_reply (l : list Z) (req : win_request) (r : reply) (l' : list Z) : Prop :=
  match req with
  | rq_ReadFile _ size o => l' = l ∧ read_reply l size (ov_offset o) r ∧
      (0 < size → zlen l ≤ ov_offset o → rp_res r = - ERROR_HANDLE_EOF ∧ rp_data r = [])
  | rq_WriteFile _ buf o => write_reply l buf (ov_offset o) r l'
  | _ => l' = l
  end.

(** An operation on a file. *)
Definition about (h : Z) (st : ov_state) : Prop :=
  match st with OvPending req => ∃ ov, rw_request ov h req | OvDone h' _ => h' = h end.

(** The documented behaviour of the calls. *)
Record regular_files : Prop := {
  wf_start o ov h req l : rw_request ov h req → rw_valid l req → contents o h = Some l →
    let '(r, o') := kernel req o in
    if rp_res r =? - ERROR_IO_PENDING
    then contents o' h = Some l ∧ ov_of o' ov = Some (OvPending req)
    else ∃ l', contents o' h = Some l' ∧ rw_reply l req r l' ∧ (0 ≤ rp_res r → ov_of o' ov = Some (OvDone h r));
  wf_completion o ov h req l : rw_request ov h req → rw_valid l req → contents o h = Some l →
    ov_of o ov = Some (OvPending req) →
    let o' := (kernel (rq_completion ov) o).2 in
    ∃ r l', ov_of o' ov = Some (OvDone h r) ∧ contents o' h = Some l' ∧ rw_reply l req r l';
  wf_packet o ov h l r : contents o h = Some l → ov_of o ov = Some (OvDone h r) →
    contents (kernel (rq_completion ov) o).2 h = Some l;
  wf_result o ov h l r : contents o h = Some l → ov_of o (ov_at ov) = Some (OvDone h r) →
    let '(r', o') := kernel (rq_GetOverlappedResult h ov) o in r' = r ∧ contents o' h = Some l;
  wf_flush o h l : contents o h = Some l → contents (kernel (rq_FlushFileBuffers h) o).2 h = Some l;
  wf_info o h l : contents o h = Some l →
    let '(r, o') := kernel (rq_GetFileInformationByHandle h) o in
    contents o' h = Some l ∧
    (0 ≤ rp_res r → rp_data r = [Z.shiftr (zlen l) 32; Z.land (zlen l) 4294967295]);
}.

(** The handle [h] is a file with the contents [l] and the offset [pos]. *)
Record file_at (h : bio_handle_t) (p : positive) (fd : Z) (mode : bio_completion_mode_t) (l : list Z) (pos : Z)
    (s : io) : Prop := {
  fa_wf : io_wf s;
  fa_object : object_of s h BIO_FILE_HANDLE = Some p;
  fa_impl : files s !! p = Some (mk_file fd mode pos);
  fa_contents : contents (os s) fd = Some l;
  fa_pos : 0 ≤ pos < 2 ^ 63;
  fa_len : zlen l < 2 ^ 63;
}.

(** ** A file is a list of bytes with a position *)

Definition file_exec (file : bio_handle_t) (op : file_op) (error : error_ptr) : st io file_result :=
  match op with
  | Read size => r ← bio_fread file size error; let '(n, data, error) := r in mret (RRead n data error)
  | Write buf => r ← bio_fwrite file buf error; let '(n, error) := r in mret (RWrite n error)
  | Seek offset origin => r ← bio_fseek file offset origin error; let '(b, error) := r in mret (RBool b error)
  | Tell => r ← bio_ftell file error; let '(n, error) := r in mret (RTell n error)
  | Flush => r ← bio_fflush file error; let '(b, error) := r in mret (RBool b error)
  | Stat => r ← bio_fstat file error; let '(b, size, error) := r in mret (RStat b size error)
  end.

(** An error was reported, where the caller wants to know; [bio_fstat] reports none. *)
Definition failed (op : file_op) (error error' : error_ptr) : Prop :=
  match op with
  | Stat => error' = error
  | _ => (∃ code line, 0 < code ∧ error' = set_error error code here line) ∨
         ∃ line, error' = bio_set_core_error error BIO_ERROR_INVALID_ARGUMENT here line
  end.

(** Reading at the end of the file reports that error. *)
Definition end_reported (l : list Z) (pos : Z) (error : error_ptr) (op : file_op) (r : file_result) : Prop :=
  ∀ size, op = Read size → 0 < size → zlen l ≤ pos →
    ∃ line, r = RRead 0 [] (set_error error ERROR_HANDLE_EOF here line).

Section spec.
Context (Hregular : regular_files) (Hpolite : polite others).
Context (h : bio_handle_t) (p : positive) (fd : Z) (mode : bio_completion_mode_t).
Abbreviation file_at := (file_at h p fd mode).

(** Nobody else uses the file, or operations on it. *)
Context (Hmine : ∀ l pos s, file_at l pos s → file_at l pos (others s) ∧
  ∀ ov st, ov_of (os s) ov = Some st → about fd st → ov_of (os (others s)) ov = Some st).

Lemma win_file_resolve l pos s (Q : option positive → io → Prop) :
  file_at l pos s → Q (Some p) s → wp (io_resolve_handle h BIO_FILE_HANDLE) Q s.
Proof.
  intros Hf HQ. apply io_resolve_spec; [apply Hf| |by rewrite (fa_object _ _ _ _ _ _ _ Hf)].
  apply live_known. rewrite (proj1 (object_of_live _ _ _ _) (fa_object _ _ _ _ _ _ _ Hf)). eauto.
Qed.

Lemma win_file_deref l pos s (Q : bio_file_impl_t → io → Prop) :
  file_at l pos s → Q (mk_file fd mode pos) s → wp (deref_file p) Q s.
Proof. intros Hf HQ. unfold deref_file. wp_step. by eapply wp_need; [apply Hf|]. Qed.

Lemma win_file_store l pos pos' s (Q : unit → io → Prop) :
  file_at l pos s → 0 ≤ pos' < 2 ^ 63 → (∀ s', file_at l pos' s' → Q tt s') →
  wp (store_file p (mk_file fd mode pos')) Q s.
Proof.
  intros Hf Hp HQ. unfold store_file. wp_step. eapply win_file_deref; [done|]. wp_step. apply HQ.
  destruct Hf. split; cbn; [by apply insert_file_wf|done|by rewrite lookup_insert_eq|done..].
Qed.

Lemma file_at_os l l' pos s o :
  file_at l pos s → contents o fd = Some l' → zlen l' < 2 ^ 63 → file_at l' pos (set_os o s).
Proof. intros [] Hc Hl. by split; [apply set_os_wf|..]. Qed.

Lemma file_at_signals l pos s s' : signals_only s s' → file_at l pos s → file_at l pos s'.
Proof.
  intros [] []. split; try done; [|congruence..].
  match goal with H : ∀ h tg, _ → object_of s' h tg = _ |- _ => by rewrite H end.
Qed.

Lemma rw_reply_len l ov h' req r l' :
  zlen l < 2 ^ 63 → rw_request ov h' req → rw_valid l req → rw_reply l req r l' → zlen l' < 2 ^ 63.
Proof.
  intros Hl Hreq Hv. destruct req; try done; cbn; [by intros (-> & _)|]. destruct Hv as (_ & _ & Hoff).
  intros [[_ ->]|(Hres & Hmax & -> & _)]; [done|]. set (data := take _ _).
  destruct (decide (data = [])) as [->|Hne]; [unfold splice; by rewrite decide_True|].
  rewrite zlen_splice by (done || lia). assert (zlen data ≤ rp_res r); [|lia].
  unfold data, zlen in *. rewrite length_take. lia.
Qed.

(** *** The operation of a file *)

(** After the packet of an operation that is done, or under way. *)
Lemma win_packet l pos ov st s :
  file_at l pos s → ov_of (os s) ov = Some st →
  (match st with OvPending req => rw_request ov fd req ∧ rw_valid l req | OvDone h' _ => h' = fd end) →
  ∃ r l', zlen l' < 2 ^ 63 ∧
    file_at l' pos (set_os (kernel (rq_completion ov) (os (others s))).2 (others s)) ∧
    match st with
    | OvPending req => rw_reply l req r l' ∧
        ov_of (kernel (rq_completion ov) (os (others s))).2 ov = Some (OvDone fd r)
    | OvDone _ _ => l' = l
    end.
Proof.
  intros Hf Ho Hst. destruct (Hmine _ _ _ Hf) as [Hf1 Hov].
  assert (Ho1 : ov_of (os (others s)) ov = Some st) by (apply Hov; [done|]; destruct st; naive_solver).
  pose proof (fa_contents _ _ _ _ _ _ _ Hf1) as Hc. destruct st as [req|h' r].
  - destruct Hst as [Hrw Hv]. destruct (wf_completion Hregular _ _ _ _ _ Hrw Hv Hc Ho1) as (r & l' & Hd & Hc' & Hr).
    assert (Hl : zlen l' < 2 ^ 63) by (eapply rw_reply_len; [apply Hf|done..]).
    exists r, l'. split_and!; [done|by eapply file_at_os|done..].
  - subst h'. exists r, l. split_and!; [apply Hf| |done]. eapply file_at_os; [done| |apply Hf].
    by eapply wf_packet.
Qed.

(** An operation that was started: it fails, or it is carried out. *)
Lemma file_io_spec (op : Z → overlapped → win_request) l pos s :
  file_at l pos s →
  (∀ ov, rw_request (ov_at ov) fd (op fd ov) ∧ (ov_offset ov = pos → rw_valid l (op fd ov))) →
  wp (file_io p (λ handle ov, win_call (op handle ov))) (λ res s', ∃ ov l',
    ov_offset ov = pos ∧ rw_reply l (op fd ov) res.1 l' ∧ file_at l' pos s') s.
Proof.
  intros Hf Hop. unfold file_io. wp_step. eapply win_file_deref; [done|]. cbn [fl_offset fl_handle]. wp_step.
  apply win_prepare_spec; [apply Hf|]. intros req s1 Hs1 Hk1 Hreq. rewrite Hreq. cbn [ov_at].
  pose proof (file_at_signals _ _ _ _ Hs1 Hf) as Hf1.
  set (ov := mk_overlapped _ _ _). destruct (Hop ov) as [Hrw Hv].
  assert (Hpos : ov_offset ov = pos).
  { pose proof (fa_pos _ _ _ _ _ _ _ Hf). unfold ov_offset, ov. cbn [ov_OffsetHigh ov_Offset].
    rewrite high_word by lia. apply join_words. lia. }
  specialize (Hv Hpos). unfold overlapped_op, run_async_and_wait. wp_steps.
  destruct (Hmine _ _ _ Hf1) as [Hf2 _]. apply system_call_spec. wp_steps.
  pose proof (wf_start Hregular (os (others s1)) _ _ _ _ Hrw Hv (fa_contents _ _ _ _ _ _ _ Hf2)) as Hst.
  destruct (kernel (op fd ov) (os (others s1))) as [r o1]. cbn [fst snd].
  assert (Hk : ∀ o, io_known (others (set_os o (others s1))) (rq_signal req)).
  { intros o. apply (others_known others Hpolite); [by apply set_os_wf, Hpolite, Hf1|].
    by apply (others_known others Hpolite _ _ (fa_wf _ _ _ _ _ _ _ Hf1)). }
  destruct (Z.eqb_spec (rp_res r) (- ERROR_IO_PENDING)) as [Er|Er].
  - destruct Hst as [Hc Ho]. destruct (pending_reply r Er) as [-> ->].
    assert (Hf3 : file_at l pos (set_os o1 (others s1))) by (eapply file_at_os; [done..|apply Hf]).
    destruct (Hmine _ _ _ Hf3) as [Hf4 Hov4].
    specialize (Hov4 _ _ Ho ltac:(cbn; eauto)).
    wp_step. apply (wait_for_io_spec others kernel Hpolite); [apply Hf4|apply Hk|]. cbn [rq_overlapped ov_at].
    destruct (win_packet _ _ _ _ _ Hf4 Hov4 (conj Hrw Hv)) as (r1 & l1 & Hl1 & Hf5 & Hr1 & Hd).
    intros s6 Hs6. pose proof (file_at_signals _ _ _ _ Hs6 Hf5) as Hf6.
    destruct (Hmine _ _ _ Hf6) as [Hf7 Hov7]. rewrite (so_os _ _ Hs6) in Hov7. specialize (Hov7 _ _ Hd eq_refl).
    wp_step. wp_step. eapply win_file_deref; [done|]. apply system_call_spec. cbn [fl_handle]. wp_steps.
    pose proof (wf_result Hregular _ ov _ _ _ (fa_contents _ _ _ _ _ _ _ Hf7) Hov7) as Hres.
    destruct (kernel (rq_GetOverlappedResult fd ov) (os (others s6))) as [r2 o2]. destruct Hres as [-> Hc2].
    exists ov, l1. split_and!; [done..|]. by eapply file_at_os.
  - destruct Hst as (l1 & Hc & Hr & Ho).
    assert (Hl1 : zlen l1 < 2 ^ 63) by (eapply rw_reply_len; [apply Hf|done..]).
    assert (Hf3 : file_at l1 pos (set_os o1 (others s1))) by by eapply file_at_os.
    destruct (Hmine _ _ _ Hf3) as [Hf4 Hov4].
    destruct (succeeded r) eqn:Hsu.
    2: { destruct (last_error_failed r Hsu) as [-> _]. rewrite (proj2 (Z.eqb_neq _ _)) by lia. wp_steps.
         exists ov, l1. by split_and!. }
    pose proof (proj1 (succeeded_ge r) Hsu) as Hge.
    wp_step. wp_step. eapply win_file_deref; [done|]. wp_steps. cbn [fl_completion_mode].
    specialize (Hov4 _ _ (Ho Hge) eq_refl).
    apply (maybe_wait_spec others kernel Hpolite); [apply Hf4|apply Hk|..].
    + intros s5 Hs5. wp_steps. exists ov, l1. split_and!; [done..|]. by eapply file_at_signals.
    + destruct (win_packet _ _ _ _ _ Hf4 Hov4 eq_refl) as (_ & l' & _ & Hf5 & ->).
      intros s6 Hs6. pose proof (file_at_signals _ _ _ _ Hs6 Hf5) as Hf6. wp_steps.
      exists ov, l1. split_and!; [done..|]. by apply Hmine.
Qed.

Lemma win_move_offset_spec l pos n s (Q : unit → io → Prop) :
  file_at l pos s → 0 ≤ n → pos + n < 2 ^ 63 →
  (∀ s', file_at l (pos + n) s' → Q tt s') → wp (move_offset p n) Q s.
Proof.
  intros Hf Hn Hmax HQ. pose proof (fa_pos _ _ _ _ _ _ _ Hf). unfold move_offset. wp_steps.
  eapply win_file_deref; [done|]. unfold set_fl_offset. cbn [fl_handle fl_completion_mode fl_offset].
  rewrite u64_small by lia. eapply win_file_store; [done|lia|done].
Qed.

(** The result of a function, with the position and the contents after it. *)
Definition stepped l pos error op (r : file_result) s' : Prop :=
  end_reported l pos error op r ∧
  ∃ l' pos', cursor_step (failed op) l pos error op r l' pos' ∧ file_at l' pos' s'.

Lemma failed_with op error r line :
  op ≠ Stat → succeeded r = false → failed op error (set_error error (last_error r) here line).
Proof.
  intros Hop Hr. assert (∃ code ln, 0 < code ∧ set_error error (last_error r) here line = set_error error code here ln).
  { exists (last_error r), line. split; [by apply last_error_failed|done]. }
  destruct op; try done; by left.
Qed.

Lemma clamped (l : list Z) :
  zlen (if zlen l >? MAXDWORD then take (Z.to_nat MAXDWORD) l else l) ≤ MAXDWORD ∧
  ∀ n, n ≤ zlen (if zlen l >? MAXDWORD then take (Z.to_nat MAXDWORD) l else l) →
    n ≤ zlen l ∧
    take (Z.to_nat n) (if zlen l >? MAXDWORD then take (Z.to_nat MAXDWORD) l else l) = take (Z.to_nat n) l.
Proof.
  rewrite Z.gtb_ltb. destruct (Z.ltb_spec MAXDWORD (zlen l)) as [Hlt|Hle]; [|done].
  assert (Hl : zlen (take (Z.to_nat MAXDWORD) l) = MAXDWORD).
  { unfold zlen in *. rewrite length_take. unfold MAXDWORD in *. lia. }
  rewrite Hl. split; [done|]. intros n Hn. split; [lia|]. rewrite take_take. f_equal. lia.
Qed.

Lemma win_fwrite_spec l pos s buf error :
  file_at l pos s → wp (bio_fwrite h buf error) (λ r s', stepped l pos error (Write buf) (RWrite r.1 r.2) s') s.
Proof.
  intros Hf. unfold bio_fwrite. wp_step. eapply win_file_resolve; [done|]. cbn zeta.
  destruct (clamped buf) as [Hmax Htake]. set (buf' := if zlen buf >? MAXDWORD then _ else _) in *.
  assert (Hnil : buf' = [] → buf = []).
  { unfold buf'. destruct (zlen buf >? MAXDWORD) eqn:E; [|done]. intros H. rewrite Z.gtb_ltb, Z.ltb_lt in E.
    apply (f_equal length) in H. rewrite length_take in H. unfold zlen, MAXDWORD in *. cbn in H. lia. }
  wp_step. eapply wp_mono; [apply (file_io_spec (λ handle ov, rq_WriteFile handle buf' ov)); [done|]|].
  { intros ov. split; [done|]. intros <-. split_and!; [apply Hf|done|apply Hf..]. }
  intros [r pending] s1 (ov & l' & Ho & Hr & Hf1). cbn [fst rw_reply] in Hr. rewrite Ho in Hr. cbn beta iota.
  destruct (succeeded r) eqn:Hsu.
  - apply succeeded_ge in Hsu. destruct Hr as [[? _]|(Hn & Hlim & -> & Hend)]; [lia|].
    wp_step. eapply win_move_offset_spec; [done|lia|done|]. intros s2 Hf2. wp_steps. cbn [fst snd].
    destruct (Htake (rp_res r)) as [Hle ->] in Hf2; [lia|]. destruct (Htake (rp_res r)) as [Hle' _]; [lia|].
    split; [by intros ?|]. eexists _, _. split; [|exact Hf2]. constructor; [lia|auto].
  - destruct Hr as [[_ ->]|([? _] & _)]; [|destruct (last_error_failed r Hsu); unfold last_error in *; lia].
    wp_steps. split; [by intros ?|]. exists l, pos. split; [|done]. constructor. by apply failed_with.
Qed.

Lemma win_fread_spec l pos s size error :
  file_at l pos s → 0 ≤ size →
  wp (bio_fread h size error) (λ r s', stepped l pos error (Read size) (RRead r.1.1 r.1.2 r.2) s') s.
Proof.
  intros Hf Hs. unfold bio_fread. wp_step. eapply win_file_resolve; [done|]. cbn zeta.
  set (size' := if size >? MAXDWORD then MAXDWORD else size).
  assert (Hsize : 0 ≤ size' ≤ size ∧ size' ≤ MAXDWORD ∧ (0 < size → 0 < size') ∧ (size' = 0 → size = 0)).
  { unfold size'. rewrite Z.gtb_ltb. unfold MAXDWORD. destruct (Z.ltb_spec 4294967295 size); lia. }
  wp_step. eapply wp_mono; [apply (file_io_spec (λ handle ov, rq_ReadFile handle size' ov)); [done|]|].
  { intros ov. split; [done|]. intros <-. split; [lia|apply Hf]. }
  intros [r pending] s1 (ov & l' & Ho & (-> & Hr & Heof) & Hf1). cbn [fst] in Hr, Heof. rewrite Ho in Hr, Heof.
  cbn beta iota. destruct (succeeded r) eqn:Hsu.
  - apply succeeded_ge in Hsu.
    assert (Hmax : pos + zlen (rp_data r) < 2 ^ 63) by (eapply read_reply_bound; [done|apply Hf..]).
    destruct Hr as [[? _]|(Hres & Hle & Hdata & Hend)]; [lia|]. rewrite Hres in *.
    wp_step. eapply win_move_offset_spec; [done|lia|lia|]. intros s2 Hf2. wp_steps. cbn [fst snd]. split.
    + intros n [= <-] Hn Hlen. destruct Heof as [He _]; [lia|done|]. unfold ERROR_HANDLE_EOF in He. lia.
    + eexists _, _. split; [|exact Hf2]. constructor; [lia|done|]. intros E. destruct (Hend E) as [?|?]; [left|right]; lia.
  - assert (Hd : rp_data r = []).
    { destruct Hr as [[_ ->]|(Hres & _)]; [done|]. pose proof (zlen_nonneg (rp_data r)).
      destruct (last_error_failed r Hsu). unfold last_error in *. lia. }
    rewrite Hd. wp_steps. cbn [fst snd]. split.
    + intros n [= <-] Hn Hlen. destruct Heof as [He _]; [lia|done|]. destruct (last_error_failed r Hsu) as [-> _].
      rewrite He. eauto.
    + exists l, pos. split; [|done]. constructor. by apply failed_with.
Qed.

Lemma to_i64_small n : 0 ≤ n < 2 ^ 63 → to_i64 n = n.
Proof. intros Hn. rewrite <- (u64_small n) at 1 by lia. by apply to_i64_u64. Qed.

Lemma win_fseek_spec l pos s offset origin error :
  file_at l pos s → file_op_ok pos (Seek offset origin) →
  wp (bio_fseek h offset origin error) (λ r s', stepped l pos error (Seek offset origin) (RBool r.1 r.2) s') s.
Proof.
  intros Hf [H1 H2]. pose proof (fa_pos _ _ _ _ _ _ _ Hf) as Hp.
  assert (Hok : ∀ op r l' pos' s', cursor_step (failed op) l pos error op r l' pos' → file_at l' pos' s' →
    (∀ n, op ≠ Read n) → stepped l pos error op r s').
  { intros op r l' pos' s' Hst Hf' Hop. split; [|eauto]. intros n ->. by destruct (Hop n). }
  unfold bio_fseek. wp_step. eapply win_file_resolve; [done|]. wp_step. eapply win_file_deref; [done|].
  unfold set_fl_offset. cbn [fl_offset fl_handle fl_completion_mode].
  destruct (Z.eqb_spec origin SEEK_CUR) as [->|Hcur].
  { rewrite to_i64_small by done. wp_steps. specialize (H2 eq_refl).
    assert (Hr : 0 ≤ pos + offset < 2 ^ 63) by (apply andb_prop in H as [_ ?%Z.leb_le]; lia).
    rewrite u64_small by lia. eapply win_file_store; [done|done|]. intros s1 Hf1. wp_steps.
    eapply Hok; [constructor|done..]. }
  destruct (Z.eqb_spec origin SEEK_SET) as [->|Hset].
  { specialize (H1 eq_refl). rewrite u64_small by lia. wp_step. eapply win_file_store; [done|done|]. intros s1 Hf1. wp_steps.
    eapply Hok; [constructor|done..]. }
  destruct (Z.eqb_spec origin SEEK_END) as [->|Hend]; wp_steps; (eapply Hok; [|done..]); constructor; try done.
  - left. by exists ERROR_NOT_SUPPORTED, 355.
  - right. eauto.
Qed.

Lemma win_fflush_spec l pos s error :
  file_at l pos s → wp (bio_fflush h error) (λ r s', stepped l pos error Flush (RBool r.1 r.2) s') s.
Proof.
  intros Hf. unfold bio_fflush. wp_step. eapply win_file_resolve; [done|]. wp_step. eapply win_file_deref; [done|].
  unfold run_async_and_wait, bio_fs_flush_file. cbn [fl_handle]. wp_steps. destruct (Hmine _ _ _ Hf) as [Hf1 _].
  apply system_call_spec. wp_steps. pose proof (wf_flush Hregular _ _ _ (fa_contents _ _ _ _ _ _ _ Hf1)) as Hc.
  destruct (kernel (rq_FlushFileBuffers fd) (os (others s))) as [r o]. cbn [fst snd] in *.
  assert (Hf2 : file_at l pos (others (set_os o (others s)))) by (apply Hmine; eapply file_at_os; [done..|apply Hf]).
  rewrite last_error_zero. destruct (succeeded r) eqn:Hsu; wp_steps; (split; [by intros ?|]); exists l, pos;
    (split; [|done]); constructor. by apply failed_with.
Qed.

Lemma win_fstat_spec l pos s error :
  file_at l pos s → wp (bio_fstat h error) (λ r s', stepped l pos error Stat (RStat r.1.1 r.1.2 r.2) s') s.
Proof.
  intros Hf. unfold bio_fstat. wp_step. eapply win_file_resolve; [done|]. wp_step. eapply win_file_deref; [done|].
  unfold run_async_and_wait, bio_fs_stat_file. cbn [fl_handle]. wp_steps. destruct (Hmine _ _ _ Hf) as [Hf1 _].
  apply system_call_spec. pose proof (wf_info Hregular _ _ _ (fa_contents _ _ _ _ _ _ _ Hf1)) as Hi.
  destruct (kernel (rq_GetFileInformationByHandle fd) (os (others s))) as [r o]. destruct Hi as [Hc Hd]. cbn [fst snd].
  assert (Hf2 : file_at l pos (others (set_os o (others s)))) by (apply Hmine; eapply file_at_os; [done..|apply Hf]).
  destruct (succeeded r) eqn:Hsu.
  - rewrite (Hd (proj1 (succeeded_ge r) Hsu)). pose proof (zlen_nonneg l). pose proof (fa_len _ _ _ _ _ _ _ Hf).
    cbn [lookup list_lookup]. wp_steps. rewrite join_words_u64, last_error_zero, Hsu by lia.
    split; [by intros ?|]. exists l, pos. split; [constructor|done].
  - wp_steps. rewrite last_error_zero, Hsu. split; [by intros ?|]. exists l, pos. by split; [constructor|].
Qed.

Lemma windows_file_exec l pos s op error :
  file_at l pos s → file_op_ok pos op →
  wp (file_exec h op error) (λ r s', stepped l pos error op r s') s.
Proof.
  intros Hf Hok. destruct op as [size|buf|offset origin| | |]; cbn [file_exec].
  - wp_step. eapply wp_mono; [by apply win_fread_spec|]. intros [[n data] e] s' H. by wp_steps.
  - wp_step. eapply wp_mono; [by apply win_fwrite_spec|]. intros [n e] s' H. by wp_steps.
  - wp_step. eapply wp_mono; [by apply win_fseek_spec|]. intros [b e] s' H. by wp_steps.
  - unfold bio_ftell. wp_steps. eapply win_file_resolve; [done|]. wp_step. eapply win_file_deref; [done|]. wp_steps.
    cbn [fl_offset]. rewrite to_i64_small by apply Hf. split; [by intros ?|]. exists l, pos. split; [constructor|done].
  - wp_step. eapply wp_mono; [by apply win_fflush_spec|]. intros [b e] s' H. by wp_steps.
  - wp_step. eapply wp_mono; [by apply win_fstat_spec|]. intros [[b sz] e] s' H. by wp_steps.
Qed.

(** C28: An open file on Windows is a cursor over a list of bytes as well, whichever of its
    operations finish at once and whether or not the completion port tells about those: a
    file that is used by nobody else. At its end, reading fails with [ERROR_HANDLE_EOF]. *)
Theorem windows_file_refines_cursor l pos s op error :
  file_at l pos s → file_op_ok pos op →
  wp (file_exec h op error) (λ r s', end_reported l pos error op r ∧
    ∃ l' pos', cursor_step (failed op) l pos error op r l' pos' ∧ file_at l' pos' s') s.
Proof. apply windows_file_exec. Qed.
End spec.

(** ** New files *)

(** A file starts at its beginning, also one that is opened for appending. *)
Lemma win_fdopen_spec (fd : Z) s (Q : bio_handle_t → io → Prop) :
  io_wf s →
  (∀ h mode s', io_wf s' → io_evolves s s' → object_of s' h BIO_FILE_HANDLE = Some (io_next s) →
    files s' !! io_next s = Some (mk_file fd mode 0) → Q h s') →
  wp (bio_fdopen fd) Q s.
Proof.
  intros Hwf HQ.
  assert (Hrest : ∀ mode o, wp (impl ← io_malloc;
      _ ← modify (λ s : io, set_files (<[impl := mk_file fd mode 0]> (files s)) s);
      io_make_handle impl BIO_FILE_HANDLE) Q (set_os o s)).
  { intros mode o. unfold io_malloc. wp_steps. cbn [io_next set_os]. set (s1 := set_files _ _).
    assert (Hwf1 : io_wf s1) by by apply insert_file_wf, (malloc_wf (set_os o s)), set_os_wf.
    apply io_make_spec; [done|cbn; rewrite lookup_insert_eq; eauto| |cbn; lia|].
    { intros h Hh. destruct (proj1 (iw_files _ Hwf) _ _ Hh) as (q & [= <-] & _ & Hlt). lia. }
    intros h t Hwf2 Hk Hl He. eapply (HQ h mode); [done|split; [done|cbn; lia]| |by cbn; rewrite lookup_insert_eq].
    apply object_of_live. cbn. by rewrite Hl, lookup_insert_eq. }
  unfold bio_fdopen. wp_step. apply system_call_spec. destruct (succeeded _).
  - do 2 wp_step. apply system_call_spec. wp_step. apply (Hrest _ _).
  - wp_steps. apply (Hrest _ _).
Qed.
End code.
