(* ===== verification/Descriptors.v ===== *)
(** What the functions for sockets do to the descriptors of the program, on every platform. *)
From S2P Require Import Prelude HandleTable Error Net Io.

(** ** Addresses *)

Definition lift_res {S A} (r : res A) : st S A := λ s, match r with Ok a => Ok (a, s) | Err e => Err e end.

Lemma wp_lift_res {S A} (r : res A) a (Q : A → S → Prop) s : r = Ok a → Q a s → wp (lift_res r) Q s.
Proof. by intros ->. Qed.

Lemma compare_any addr any :
  addr_ok addr → addr_ok any → ∃ z, bio_net_address_compare addr any = Ok z ∧ (z = 0 ↔ addr_key addr = addr_key any).
Proof.
  intros Ha Hany. destruct (address_compare_lex addr any Ha Hany) as (z & Hz & Hs).
  exists z. split; [done|]. rewrite <- lex_eq, <- Hs. symmetry. apply Z.compare_eq_iff.
Qed.

(** ** Descriptors *)

(** What a request does to them. *)
Definition fds_after (req : request) (r : reply) (F F' : gset Z) : Prop :=
  match req with
  | req_open _ _ _ | req_socket _ _ _ | req_accept _ =>
      if rp_res r <? 0 then F' = F else rp_res r ∉ F ∧ F' = {[rp_res r]} ∪ F
  | req_close fd => F' = F ∖ {[fd]}
  | _ => F' = F
  end.

Inductive net_op :=
  | Listen (socket_type : bio_socket_type_t) (addr : bio_addr_t) (port : Z)
  | Accept (socket : bio_handle_t)
  | Connect (socket_type : bio_socket_type_t) (addr : bio_addr_t) (port : Z)
  | Close (socket : bio_handle_t).

Section descriptors.
Context {OS File Sock : Type} (sock_fd : Sock → Z).
(** The open descriptors that the caller is responsible for. *)
Context (own : OS → gset Z).
Abbreviation io := (io_ctx OS File Sock).

Definition net_op_ok (s : io) (op : net_op) : Prop :=
  match op with
  | Listen _ addr _ | Connect _ addr _ => addr_ok addr
  | Accept socket | Close socket => io_known s socket
  end.

(** The descriptor of a socket. *)
Definition socket_fd (s : io) (socket : bio_handle_t) : option Z :=
  p ← object_of s socket BIO_SOCKET_HANDLE; sock_fd <$> sockets s !! p.

(** The descriptors that an operation may give up. *)
Definition given_up (s : io) (op : net_op) : gset Z :=
  match op with Close socket => match socket_fd s socket with Some fd => {[fd]} | None => ∅ end | _ => ∅ end.

(** A new socket owns a new descriptor; without one, nothing is left behind. *)
Definition fds_result (F : gset Z) (r : option bio_handle_t) (s' : io) : Prop :=
  match r with
  | Some socket => ∃ fd, fd ∉ F ∧ own (os s') = {[fd]} ∪ F ∧ socket_fd s' socket = Some fd
  | None => own (os s') = F
  end.
End descriptors.

Lemma new_removed (fd : Z) (F : gset Z) : fd ∉ F → ({[fd]} ∪ F) ∖ {[fd]} = F.
Proof. set_solver. Qed.
