(* ===== verification/LinuxNet.v ===== *)
(** Sockets on Linux ([src/linux/net.c], [include/bio/net.h]). *)
From stdpp Require Import strings.
From S2P Require Import Prelude HandleTable Error Net Io Descriptors.

(** ** State *)

(** [bio_socket_impl_t]. *)
Record bio_socket_impl_t := mk_socket { sk_fd : Z }.

(** The constants of the operating system. *)
Definition AF_UNIX : Z := 1.
Definition AF_INET : Z := 2.
Definition AF_INET6 : Z := 10.
Definition SOCK_STREAM : Z := 1.
Definition SOCK_DGRAM : Z := 2.
Definition SOCK_NONBLOCK : Z := 2048.
Definition SOCK_CLOEXEC : Z := 524288.
Definition SHUT_RDWR : Z := 2.
Definition sizeof_sockaddr_in : Z := 16.
Definition sizeof_sockaddr_in6 : Z := 28.
Definition sizeof_sun_path : Z := 108.
Definition offsetof_sun_path : Z := 2.

(** Network byte order, on a machine whose own order is the other one. *)
Definition htons (port : Z) : Z := Z.lor (Z.shiftl (Z.land port 255) 8) (Z.shiftr port 8).

(** [bio_addr_translation_result_t]; the address is always the one in [storage]. *)
Record bio_addr_translation_result_t := mk_translation {
  tr_storage : sockaddr;
  tr_addr_len : Z;
  tr_should_bind : bool;
}.

Section code.
Context {OS File : Type}.
Context (others : io_ctx OS File bio_socket_impl_t → io_ctx OS File bio_socket_impl_t).
Context (kernel : request → OS → reply * OS).
Context (strerror : Z → string).
(** Which requests the ring supports. *)
Context (has_op_bind has_op_listen : bool).
Abbreviation io := (io_ctx OS File bio_socket_impl_t).
Abbreviation here := "src/linux/net.c"%string.
Local Abbreviation set_errno := (bio_set_errno strerror).

(** ** The code *)

Definition sun_path_of (len : Z) (name : list Z) : st io (list Z) :=
  _ ← (if zlen name <? len then fail OutOfBounds else mret tt);
  let path := take (Z.to_nat len) name ++ replicate (Z.to_nat (sizeof_sun_path - len)) 0 in
  c ← need OutOfBounds (zlookup path 0);
  mret (if c =? 64 (* '@' *) then zinsert 0 0 path else path).

(** [None] when the translation fails. *)
Definition bio_translate_address (addr : bio_addr_t) (port : Z) (error : error_ptr) :
    st io (option bio_addr_translation_result_t * error_ptr) :=
  match addr with
  | Ipv4 ipv4 =>
      cmp ← lift_res (bio_net_address_compare addr BIO_ADDR_IPV4_ANY);
      let result :=
        if negb (cmp =? 0) || negb (port =? BIO_PORT_ANY)
        then mk_translation (sockaddr_in AF_INET (htons port) ipv4) sizeof_sockaddr_in true
        else mk_translation (sockaddr_in AF_INET 0 (replicate 4 0)) sizeof_sockaddr_in false in
      mret (Some result, error)
  | Ipv6 ipv6 =>
      cmp ← lift_res (bio_net_address_compare addr BIO_ADDR_IPV6_ANY);
      let result :=
        if negb (cmp =? 0) || negb (port =? BIO_PORT_ANY)
        then mk_translation (sockaddr_in6 AF_INET6 (htons port) ipv6) sizeof_sockaddr_in6 true
        else mk_translation (sockaddr_in6 AF_INET6 0 (replicate 16 0)) sizeof_sockaddr_in6 false in
      mret (Some result, error)
  | Named len name =>
      if len >? 0 then
        if len <? sizeof_sun_path then
          path ← sun_path_of len name;
          mret (Some (mk_translation (sockaddr_un AF_UNIX path) (offsetof_sun_path + len) true), error)
        else mret (None, bio_set_core_error error BIO_ERROR_INVALID_ARGUMENT here 77)
      else
        mret (Some (mk_translation (sockaddr_un AF_UNIX (replicate 108 0)) 0 false), error)
  end.

(** The result is negative for a failure. *)
Definition bio_make_socket (socket_type : bio_socket_type_t) (addr : bio_addr_t) (port : Z)
    (error : error_ptr) : st io (Z * error_ptr) :=
  t ← bio_translate_address addr port error;
  let '(translation_result, error) := t in
  match translation_result with
  | None => mret (-1, error)
  | Some translation_result =>
      let type := match socket_type with BIO_SOCKET_STREAM => SOCK_STREAM | BIO_SOCKET_DATAGRAM => SOCK_DGRAM end in
      r ← perform others kernel (req_socket (sa_family (tr_storage translation_result))
            (Z.lor (Z.lor type SOCK_NONBLOCK) SOCK_CLOEXEC) 0);
      let fd := rp_res r in
      if fd <? 0 then mret (-1, set_errno error (- fd) here 120)
      else if tr_should_bind translation_result then
        let req := req_bind fd (tr_storage translation_result) (tr_addr_len translation_result) in
        if has_op_bind then
          r ← perform others kernel req;
          if rp_res r <? 0 then
            let error := set_errno error (- rp_res r) here 130 in
            _ ← bio_io_close others kernel fd; mret (-1, error)
          else mret (fd, error)
        else
          r ← libc_call kernel req;
          if r.1 <? 0 then
            let error := set_errno error r.2 here 137 in
            _ ← bio_io_close others kernel fd; mret (-1, error)
          else mret (fd, error)
      else mret (fd, error)
  end.

Definition bio_socket_from_fd (fd : Z) : st io bio_handle_t :=
  p ← io_malloc;
  _ ← modify (λ s : io, set_sockets (<[p := mk_socket fd]> (sockets s)) s);
  io_make_handle p BIO_SOCKET_HANDLE.

(** The caller's socket is not set. *)
Definition bio_net_wrap (handle : Z) (addr_type : bio_addr_type_t) : st io bool :=
  _ ← bio_socket_from_fd (to_int handle); mret true.

Definition bio_net_unwrap (socket : bio_handle_t) : st io Z :=
  impl ← io_resolve_handle socket BIO_SOCKET_HANDLE;
  match impl with
  | Some impl => x ← deref_socket impl; mret (u64 (sk_fd x))
  | None => mret (u64 (-1))
  end.

Definition bio_net_listen (socket_type : bio_socket_type_t) (addr : bio_addr_t) (port : Z)
    (error : error_ptr) : st io (option bio_handle_t * error_ptr) :=
  m ← bio_make_socket socket_type addr port error;
  let '(fd, error) := m in
  if fd <? 0 then mret (None, error)
  else
    let backlog := 5 in
    if has_op_listen then
      r ← perform others kernel (req_listen fd backlog);
      if rp_res r <? 0 then
        let error := set_errno error (- rp_res r) here 204 in
        _ ← bio_io_close others kernel fd; mret (None, error)
      else sock ← bio_socket_from_fd fd; mret (Some sock, error)
    else
      r ← libc_call kernel (req_listen fd backlog);
      if r.1 <? 0 then
        let error := set_errno error r.2 here 211 in
        _ ← bio_io_close others kernel fd; mret (None, error)
      else sock ← bio_socket_from_fd fd; mret (Some sock, error).

Definition bio_net_accept (socket : bio_handle_t) (error : error_ptr) :
    st io (option bio_handle_t * error_ptr) :=
  impl ← io_resolve_handle socket BIO_SOCKET_HANDLE;
  match impl with
  | Some impl =>
      x ← deref_socket impl;
      r ← perform others kernel (req_accept (sk_fd x));
      if rp_res r >? 0 then client ← bio_socket_from_fd (rp_res r); mret (Some client, error)
      else mret (None, set_errno error (- rp_res r) here 236)
  | None => mret (None, bio_set_core_error error BIO_ERROR_INVALID_ARGUMENT here 240)
  end.

Definition bio_net_connect (socket_type : bio_socket_type_t) (addr : bio_addr_t) (port : Z)
    (error : error_ptr) : st io (option bio_handle_t * error_ptr) :=
  t ← bio_translate_address addr port error;
  let '(translation_result, error) := t in
  match translation_result with
  | None => mret (None, error)
  | Some translation_result =>
      m ← bio_make_socket socket_type (zero_addr (addr_type addr)) BIO_PORT_ANY error;
      let '(fd, error) := m in
      if fd <? 0 then mret (None, error)
      else
        r ← perform others kernel
              (req_connect fd (tr_storage translation_result) (tr_addr_len translation_result));
        if rp_res r <? 0 then
          let error := set_errno error (- rp_res r) here 268 in
          _ ← bio_io_close others kernel fd; mret (None, error)
        else sock ← bio_socket_from_fd fd; mret (Some sock, error)
  end.

Definition bio_net_close (socket : bio_handle_t) (error : error_ptr) : st io (bool * error_ptr) :=
  impl ← io_close_handle socket BIO_SOCKET_HANDLE;
  match impl with
  | Some impl =>
      x ← deref_socket impl;
      let fd := sk_fd x in
      _ ← free_socket impl;
      r ← perform others kernel (req_shutdown fd SHUT_RDWR);
      if rp_res r <? 0 then
        let error := set_errno error (- rp_res r) here 288 in
        _ ← bio_io_close others kernel fd; mret (false, error)
      else _ ← bio_io_close others kernel fd; mret (true, error)
  | None => mret (false, bio_set_core_error error BIO_ERROR_INVALID_ARGUMENT here 296)
  end.

Definition bio_net_send (socket : bio_handle_t) (buf : list Z) (error : error_ptr) : st io (Z * error_ptr) :=
  impl ← io_resolve_handle socket BIO_SOCKET_HANDLE;
  match impl with
  | Some impl =>
      x ← deref_socket impl;
      r ← perform others kernel (req_send (sk_fd x) buf);
      mret (bio_result_to_size strerror (rp_res r) error here 313)
  | None => mret (0, bio_set_core_error error BIO_ERROR_INVALID_ARGUMENT here 315)
  end.

Definition bio_net_recv (socket : bio_handle_t) (size : Z) (error : error_ptr) :
    st io (Z * list Z * error_ptr) :=
  impl ← io_resolve_handle socket BIO_SOCKET_HANDLE;
  match impl with
  | Some impl =>
      x ← deref_socket impl;
      r ← perform others kernel (req_recv (sk_fd x) size);
      let '(n, error) := bio_result_to_size strerror (rp_res r) error here 332 in
      mret (n, rp_data r, error)
  | None => mret (0, [], bio_set_core_error error BIO_ERROR_INVALID_ARGUMENT here 334)
  end.

(** The helpers of [include/bio/net.h]. *)
Definition bio_net_send_exactly (socket : bio_handle_t) (buf : list Z) (error : error_ptr) :
    st io (Z * error_ptr) :=
  write_all (S (length buf)) (bio_net_send socket) buf 0 error.

Definition bio_net_recv_exactly (socket : bio_handle_t) (size : Z) (error : error_ptr) :
    st io (Z * list Z * error_ptr) :=
  read_all (S (Z.to_nat size)) (bio_net_recv socket) size 0 [] error.

(** ** Addresses *)

(** The name of a socket in the file system, or of an abstract one. *)
Definition path_bytes (len : Z) (name : list Z) : list Z :=
  match take (Z.to_nat len) name with
  | [] => []
  | c :: rest => (if c =? 64 then 0 else c) :: rest
  end.

Lemma translate_spec addr port error s :
  addr_ok addr →
  wp (bio_translate_address addr port error) (λ r s', s' = s ∧
    match addr with
    | Ipv4 ip => ∃ b, r = (Some (mk_translation (sockaddr_in AF_INET (htons port) ip) sizeof_sockaddr_in b), error) ∧
        (b = false ↔ addr = BIO_ADDR_IPV4_ANY ∧ port = BIO_PORT_ANY)
    | Ipv6 ip => ∃ b, r = (Some (mk_translation (sockaddr_in6 AF_INET6 (htons port) ip) sizeof_sockaddr_in6 b), error) ∧
        (b = false ↔ addr = BIO_ADDR_IPV6_ANY ∧ port = BIO_PORT_ANY)
    | Named len name =>
        if len <? sizeof_sun_path then
          ∃ path, length path = 108%nat ∧ path = path_bytes len name ++ replicate (108 - Z.to_nat len) 0 ∧
            r = (Some (mk_translation (sockaddr_un AF_UNIX path)
                  (if len >? 0 then offsetof_sun_path + len else 0) (len >? 0)), error)
        else r = (None, bio_set_core_error error BIO_ERROR_INVALID_ARGUMENT here 77)
    end) s.
Proof.
  intros Ha. destruct addr as [ip|ip|len name]; cbn [bio_translate_address].
  - destruct (compare_any (Ipv4 ip) BIO_ADDR_IPV4_ANY Ha) as (z & Hz & Hzero); [done|].
    wp_step. eapply wp_lift_res; [done|]. wp_steps. split; [done|].
    destruct (Z.eqb_spec z 0) as [E|E], (Z.eqb_spec port BIO_PORT_ANY) as [E'|E']; cbn [negb orb].
    + apply Hzero in E. injection E as ->. rewrite E'. exists false. by split.
    + exists true. split; [done|]. split; [done|by intros [_ ?]].
    + exists true. split; [done|]. split; [done|]. intros [[= ->] _]. by destruct E; apply Hzero.
    + exists true. split; [done|]. split; [done|by intros [_ ?]].
  - destruct (compare_any (Ipv6 ip) BIO_ADDR_IPV6_ANY Ha) as (z & Hz & Hzero); [done|].
    wp_step. eapply wp_lift_res; [done|]. wp_steps. split; [done|].
    destruct (Z.eqb_spec z 0) as [E|E], (Z.eqb_spec port BIO_PORT_ANY) as [E'|E']; cbn [negb orb].
    + apply Hzero in E. injection E as ->. rewrite E'. exists false. by split.
    + exists true. split; [done|]. split; [done|by intros [_ ?]].
    + exists true. split; [done|]. split; [done|]. intros [[= ->] _]. by destruct E; apply Hzero.
    + exists true. split; [done|]. split; [done|by intros [_ ?]].
  - destruct Ha as [Hname Hlen]. unfold sizeof_sun_path, path_bytes.
    destruct (Z.gtb_spec len 0) as [Hpos|Hneg].
    + destruct (Z.ltb_spec len 108) as [Hlt|Hge]; [|wp_steps; by split].
      unfold sun_path_of, sizeof_sun_path. wp_step.
      rewrite (proj2 (Z.ltb_ge _ _)) by (unfold zlen; lia).
      replace (Z.to_nat (108 - len)) with (108 - Z.to_nat len)%nat by lia.
      assert (Hl : length (take (Z.to_nat len) name) = Z.to_nat len) by (rewrite length_take; lia).
      destruct (take (Z.to_nat len) name) as [|c l]; [cbn in Hl; lia|]. wp_steps. split; [done|].
      eexists. split_and!; [|reflexivity|].
      * rewrite length_app, length_replicate. cbn in *. lia.
      * cbn. by destruct (c =? 64).
    + rewrite (proj2 (Z.ltb_lt _ _)) by lia. wp_steps. split; [done|].
      assert (len = 0) as -> by lia. eexists. split_and!; [| |reflexivity]; done.
Qed.

(** ** Descriptors *)

(** The open descriptors that the caller is responsible for. *)
Context (own : OS → gset Z).

(** The documented behaviour of the operating system, while standard input stays open; the
    others leave the descriptors of the caller alone. *)
Record descriptors : Prop := {
  de_kernel req o : fds_after req (kernel req o).1 (own o) (own (kernel req o).2);
  de_accept fd o : rp_res (kernel (req_accept fd) o).1 ≠ 0;
  de_others s : io_wf s → own (os (others s)) = own (os s);
}.

Local Abbreviation socket_fd := (socket_fd sk_fd).
Local Abbreviation given_up := (given_up sk_fd).
Local Abbreviation fds_result := (fds_result sk_fd own).

Definition net_exec (op : net_op) (error : error_ptr) : st io (option bio_handle_t) :=
  match op with
  | Listen t addr port => r ← bio_net_listen t addr port error; mret r.1
  | Accept socket => r ← bio_net_accept socket error; mret r.1
  | Connect t addr port => r ← bio_net_connect t addr port error; mret r.1
  | Close socket => _ ← bio_net_close socket error; mret None
  end.

Section spec.
Context (Hpo : polite others) (Hde : descriptors).

Lemma perform_fds req s (Q : reply → io → Prop) :
  io_wf s →
  (∀ r s', r = (kernel req (os (others s))).1 → io_wf s' → io_evolves s s' →
    fds_after req r (own (os s)) (own (os s')) → Q r s') →
  wp (perform others kernel req) Q s.
Proof.
  intros Hwf HQ. apply perform_spec. cbn zeta.
  assert (Hwf1 : io_wf (others s)) by by apply Hpo.
  assert (Hwf2 : io_wf (set_os (kernel req (os (others s))).2 (others s))) by by apply set_os_wf.
  apply HQ; [done|by apply Hpo| |].
  - etrans; [by apply Hpo|]. exact (po_evolves _ Hpo _ Hwf2).
  - rewrite (de_others Hde _ Hwf2), <- (de_others Hde _ Hwf). apply (de_kernel Hde).
Qed.

Lemma libc_fds req s (Q : Z * Z → io → Prop) :
  io_wf s → (∀ fd, req ≠ req_close fd) →
  (∀ r s', r.1 < 0 ∨ 0 ≤ r.1 → io_wf s' → io_evolves s s' → own (os s') = own (os s) → Q r s') →
  match req with req_bind _ _ _ | req_listen _ _ => True | _ => False end →
  wp (libc_call kernel req) Q s.
Proof.
  intros Hwf _ HQ Hreq. unfold libc_call. wp_step. apply system_call_spec. wp_step. apply HQ; [lia|by apply set_os_wf|done|].
  pose proof (de_kernel Hde req (os s)) as Hk. by destruct req.
Qed.

Lemma io_close_fds fd s (Q : Z → io → Prop) :
  io_wf s →
  (∀ r s', io_wf s' → io_evolves s s' → own (os s') = own (os s) ∖ {[fd]} → Q r s') →
  wp (bio_io_close others kernel fd) Q s.
Proof.
  intros Hwf HQ. unfold bio_io_close. wp_step. apply perform_fds; [done|].
  intros r s' _ Hwf' Hev Hfd. wp_steps. by apply HQ.
Qed.

(** A new socket object. *)
Lemma socket_from_fd_spec fd s (Q : bio_handle_t → io → Prop) :
  io_wf s →
  (∀ h s', io_wf s' → io_evolves s s' → os s' = os s → socket_fd s' h = Some fd → Q h s') →
  wp (bio_socket_from_fd fd) Q s.
Proof.
  intros Hwf HQ. unfold bio_socket_from_fd, io_malloc. wp_steps.
  set (s1 := set_sockets _ _).
  assert (Hwf1 : io_wf s1) by by apply insert_socket_wf, malloc_wf.
  apply io_make_spec; [done|cbn; rewrite lookup_insert_eq; eauto| |cbn; lia|].
  { intros h Hh. destruct (proj1 (iw_sockets _ Hwf) _ _ Hh) as (q & [= <-] & _ & Hlt). lia. }
  intros h t Hwf2 Hk Hl He. apply HQ; [done| |done|].
  - split; [done|]. cbn. lia.
  - unfold socket_fd. rewrite (proj2 (object_of_live _ h BIO_SOCKET_HANDLE (io_next s))).
    + cbn. by rewrite lookup_insert_eq.
    + cbn. rewrite Hl. by rewrite lookup_insert_eq.
Qed.

(** A failed step closes the new descriptor again. *)
Lemma undo_fds {A} fd F s (a : A) (Q : A → io → Prop) :
  io_wf s → fd ∉ F → own (os s) = {[fd]} ∪ F →
  (∀ s', io_wf s' → io_evolves s s' → own (os s') = F → Q a s') →
  wp (_ ← bio_io_close others kernel fd; mret a) Q s.
Proof.
  intros Hwf Hfd HF HQ. wp_step. apply io_close_fds; [done|]. intros r s' Hwf' Hev Hown. wp_step.
  apply HQ; [done..|]. by rewrite Hown, HF, new_removed.
Qed.

Lemma translate_safe addr port error s (Q : option bio_addr_translation_result_t * error_ptr → io → Prop) :
  addr_ok addr → (∀ r, Q r s) → wp (bio_translate_address addr port error) Q s.
Proof. intros Ha HQ. eapply wp_mono; [by apply translate_spec|]. intros r s' [-> _]. apply HQ. Qed.

(** What a function that returns a descriptor guarantees. *)
Definition fd_result (F : gset Z) (s : io) (r : Z * error_ptr) (s' : io) : Prop :=
  io_wf s' ∧ io_evolves s s' ∧
  if r.1 <? 0 then own (os s') = F else r.1 ∉ F ∧ own (os s') = {[r.1]} ∪ F.

Lemma make_socket_fds t addr port error s :
  io_wf s → addr_ok addr →
  wp (bio_make_socket t addr port error) (fd_result (own (os s)) s) s.
Proof.
  intros Hwf Ha. unfold bio_make_socket. wp_step. apply translate_safe; [done|]. intros [[tr|] e].
  2: { wp_steps. by split_and!. }
  wp_step. apply perform_fds; [done|]. intros r s1 _ Hwf1 Hev1 Hfd. cbn in Hfd.
  destruct (Z.ltb_spec (rp_res r) 0) as [Hlt|Hge]; [wp_steps; by split_and!|].
  destruct Hfd as [Hni Hown].
  assert (Hok : ∀ e', fd_result (own (os s)) s (rp_res r, e') s1).
  { intros e'. split_and!; [done..|]. cbn. by rewrite (proj2 (Z.ltb_ge _ _)). }
  destruct (tr_should_bind tr); [|by wp_steps; apply Hok]. destruct has_op_bind; wp_step.
  - apply perform_fds; [done|]. intros r2 s2 _ Hwf2 Hev2 Hfd2. cbn in Hfd2.
    destruct (Z.ltb_spec (rp_res r2) 0) as [Hlt2|Hge2].
    + eapply undo_fds; [done|done|by rewrite Hfd2|]. intros s3 Hwf3 Hev3 Hown3.
      split_and!; [done|by etrans; [|etrans]|done].
    + wp_steps. split_and!; [done|by etrans|]. cbn. rewrite (proj2 (Z.ltb_ge _ _)) by done. by rewrite Hfd2.
  - apply libc_fds; [done|done| |done]. intros r2 s2 _ Hwf2 Hev2 Hfd2.
    destruct (Z.ltb_spec r2.1 0) as [Hlt2|Hge2].
    + eapply undo_fds; [done|done|by rewrite Hfd2|]. intros s3 Hwf3 Hev3 Hown3.
      split_and!; [done|by etrans; [|etrans]|done].
    + wp_steps. split_and!; [done|by etrans|]. cbn. rewrite (proj2 (Z.ltb_ge _ _)) by done. by rewrite Hfd2.
Qed.

(** What a function that returns a socket guarantees. *)
Definition sock_result (F : gset Z) (s : io) (r : option bio_handle_t * error_ptr) (s' : io) : Prop :=
  io_wf s' ∧ io_evolves s s' ∧ fds_result F r.1 s'.

(** The end of a function that has a descriptor: it becomes a socket. *)
Lemma finish_socket fd F e s0 s :
  io_wf s → io_evolves s0 s → fd ∉ F → own (os s) = {[fd]} ∪ F →
  wp (sock ← bio_socket_from_fd fd; mret (Some sock, e)) (sock_result F s0) s.
Proof.
  intros Hwf Hev Hni Hown. wp_step. apply socket_from_fd_spec; [done|].
  intros h s' Hwf' Hev' Hos Hfd. wp_steps. split_and!; [done|by etrans|].
  exists fd. by rewrite Hos.
Qed.

(** Or it is closed. *)
Lemma abandon_socket fd F e s0 s :
  io_wf s → io_evolves s0 s → fd ∉ F → own (os s) = {[fd]} ∪ F →
  wp (_ ← bio_io_close others kernel fd; mret (None, e)) (sock_result F s0) s.
Proof.
  intros Hwf Hev Hni Hown. eapply undo_fds; [done..|]. intros s' Hwf' Hev' Hown'.
  by split_and!; [|etrans|].
Qed.

Lemma listen_fds t addr port error s :
  io_wf s → addr_ok addr →
  wp (bio_net_listen t addr port error) (sock_result (own (os s)) s) s.
Proof.
  intros Hwf Ha. unfold bio_net_listen. wp_step. eapply wp_mono; [by apply make_socket_fds|].
  intros [fd e] s1 (Hwf1 & Hev1 & Hfd). cbn in Hfd.
  destruct (Z.ltb_spec fd 0) as [Hlt|Hge]; [wp_steps; by split_and!|]. destruct Hfd as [Hni Hown].
  destruct has_op_listen; wp_step.
  - apply perform_fds; [done|]. intros r2 s2 _ Hwf2 Hev2 Hfd2. cbn in Hfd2.
    case_match; [apply abandon_socket|apply finish_socket]; try done; by etrans || rewrite Hfd2.
  - apply libc_fds; [done|done| |done]. intros r2 s2 _ Hwf2 Hev2 Hfd2.
    case_match; [apply abandon_socket|apply finish_socket]; try done; by etrans || rewrite Hfd2.
Qed.

Lemma connect_fds t addr port error s :
  io_wf s → addr_ok addr →
  wp (bio_net_connect t addr port error) (sock_result (own (os s)) s) s.
Proof.
  intros Hwf Ha. unfold bio_net_connect. wp_step. apply translate_safe; [done|]. intros [[tr|] e0].
  2: { wp_steps. by split_and!. }
  wp_step. eapply wp_mono; [apply make_socket_fds; [done|by destruct addr]|].
  intros [fd e] s1 (Hwf1 & Hev1 & Hfd). cbn in Hfd.
  destruct (Z.ltb_spec fd 0) as [Hlt|Hge]; [wp_steps; by split_and!|]. destruct Hfd as [Hni Hown].
  wp_step. apply perform_fds; [done|]. intros r2 s2 _ Hwf2 Hev2 Hfd2. cbn in Hfd2.
  case_match; [apply abandon_socket|apply finish_socket]; try done; by etrans || rewrite Hfd2.
Qed.

Lemma accept_fds socket error s :
  io_wf s → io_known s socket →
  wp (bio_net_accept socket error) (sock_result (own (os s)) s) s.
Proof.
  intros Hwf Hk. unfold bio_net_accept. wp_step. apply io_resolve_spec; [done..|].
  destruct (object_of s socket BIO_SOCKET_HANDLE) as [p|] eqn:Ho; [|wp_steps; by split_and!].
  destruct (socket_object _ _ _ Hwf Ho) as [x Hx]. unfold deref_socket. wp_steps.
  apply perform_fds; [done|]. intros r s1 Hr Hwf1 Hev1 Hfd. cbn in Hfd.
  assert (Hne : rp_res r ≠ 0) by (rewrite Hr; apply (de_accept Hde)).
  destruct (Z.gtb_spec (rp_res r) 0) as [Hgt|Hle].
  - rewrite (proj2 (Z.ltb_ge _ _)) in Hfd by lia. destruct Hfd. by apply finish_socket.
  - rewrite (proj2 (Z.ltb_lt _ _)) in Hfd by lia. wp_steps. by split_and!.
Qed.

Lemma close_fds socket error s :
  io_wf s → io_known s socket →
  wp (bio_net_close socket error) (λ _ s', io_wf s' ∧ io_evolves s s' ∧
    own (os s') = own (os s) ∖ given_up s (Close socket)) s.
Proof.
  intros Hwf Hk. unfold bio_net_close. wp_step. apply io_close_spec; [done..| |].
  { intros Hn. wp_steps. split_and!; [done..|]. unfold given_up, socket_fd. rewrite Hn. set_solver. }
  intros p t Ho Hwf1 [x Hx] Hl He Hu. wp_step. unfold deref_socket at 1. wp_step.
  eapply wp_need; [done|]. unfold free_socket, deref_socket. wp_steps.
  unfold given_up, socket_fd. rewrite Ho. cbn. cbn in Hx. rewrite Hx. cbn.
  apply perform_fds; [exact (delete_socket_wf _ _ Hu Hwf1)|]. intros r s1 _ Hwf2 Hev2 Hfd. cbn in Hfd.
  assert (Hev : io_evolves s s1) by (etrans; [|done]; split; [done|cbn; lia]).
  case_match; wp_step; (apply io_close_fds; [done|]); intros r2 s2 Hwf3 Hev3 Hown; wp_steps;
    (split_and!; [done|by etrans|by rewrite Hown, Hfd]).
Qed.

End spec.
(** The translation of an address: its family, the port in network byte order and its
    bytes, and it is bound unless it stands for any address and any port. A name keeps
    its bytes, but for a leading @ that makes it abstract; names that do not fit are
    refused. It stays within the arrays. *)
Theorem translate_address_correct addr port error s :
  addr_ok addr →
  wp (bio_translate_address addr port error) (λ r s', s' = s ∧
    match addr with
    | Ipv4 ip => ∃ b, r = (Some (mk_translation (sockaddr_in AF_INET (htons port) ip) sizeof_sockaddr_in b), error) ∧
        (b = false ↔ addr = BIO_ADDR_IPV4_ANY ∧ port = BIO_PORT_ANY)
    | Ipv6 ip => ∃ b, r = (Some (mk_translation (sockaddr_in6 AF_INET6 (htons port) ip) sizeof_sockaddr_in6 b), error) ∧
        (b = false ↔ addr = BIO_ADDR_IPV6_ANY ∧ port = BIO_PORT_ANY)
    | Named len name =>
        if len <? sizeof_sun_path then
          ∃ path, length path = 108%nat ∧ path = path_bytes len name ++ replicate (108 - Z.to_nat len) 0 ∧
            r = (Some (mk_translation (sockaddr_un AF_UNIX path)
                  (if len >? 0 then offsetof_sun_path + len else 0) (len >? 0)), error)
        else r = (None, bio_set_core_error error BIO_ERROR_INVALID_ARGUMENT here 77)
    end) s.
Proof. apply translate_spec. Qed.
End code.
