(* ===== verification/BsdNet.v ===== *)
(** Sockets on FreeBSD ([src/freebsd/net.c]): a call that would block waits for an event of
    the kqueue and is made again. *)
From stdpp Require Import strings.
From S2P Require Import Prelude HandleTable Error Net Io Descriptors.

(** ** State *)

(** [bio_socket_impl_t]; [read] and [write] are the requests of the coroutines that wait:
    the event that the pointer of the code stands for has the address of its request. *)
Record bio_socket_impl_t := mk_socket {
  sk_fd : Z;
  sk_read : option positive;
  sk_write : option positive;
}.

Definition set_sk_read (r : option positive) (x : bio_socket_impl_t) : bio_socket_impl_t :=
  mk_socket (sk_fd x) r (sk_write x).
Definition set_sk_write (r : option positive) (x : bio_socket_impl_t) : bio_socket_impl_t :=
  mk_socket (sk_fd x) (sk_read x) r.

(** The constants of the operating system. *)
Definition AF_UNIX : Z := 1.
Definition AF_INET : Z := 2.
Definition AF_INET6 : Z := 28.
Definition SOCK_STREAM : Z := 1.
Definition SOCK_DGRAM : Z := 2.
Definition SOCK_CLOEXEC : Z := 268435456.
Definition SOCK_NONBLOCK : Z := 536870912.
Definition sizeof_sockaddr_in : Z := 16.
Definition sizeof_sockaddr_in6 : Z := 28.
Definition sizeof_sun_path : Z := 104.
Definition offsetof_sun_path : Z := 2.
Definition EBUSY : Z := 16.
Definition EWOULDBLOCK : Z := 35.
Definition EINPROGRESS : Z := 36.
Definition ENOTSUP : Z := 45.
Definition EVFILT_READ : Z := -1.
Definition EVFILT_WRITE : Z := -2.
Definition EV_ADD : Z := 1.
Definition EV_ENABLE : Z := 4.
Definition EV_DISPATCH : Z := 128.
Definition EV_ERROR : Z := 16384.

Local Infix "|||" := Z.lor (at level 50, left associativity).

(** Network byte order, on a machine whose own order is the other one. *)
Definition htons (port : Z) : Z := Z.lor (Z.shiftl (Z.land port 255) 8) (Z.shiftr port 8).

(** [bio_addr_translation_result_t]; the address is always the one in [storage]. *)
Record bio_addr_translation_result_t := mk_translation {
  tr_storage : sockaddr;
  tr_addr_len : Z;
  tr_should_bind : bool;
}.

Section code.
Context {OS File : Type}.
Context (others : io_ctx OS File bio_socket_impl_t → io_ctx OS File bio_socket_impl_t).
Context (kernel : request → OS → reply * OS).
Context (strerror : Z → string).
Abbreviation io := (io_ctx OS File bio_socket_impl_t).
Abbreviation here := "src/freebsd/net.c"%string.
Local Abbreviation set_errno := (bio_set_errno strerror).

(** ** Waiting *)

(** [bio_prepare_io_req]: the request is on the stack, which [end_io_req] leaves. *)
Definition bio_prepare_io_req : st io positive :=
  req ← io_malloc;
  _ ← modify (λ s : io, set_io_reqs (<[req := false]> (io_reqs s)) s);
  mret req.

Definition io_req_cancelled (req : positive) : st io bool :=
  s ← get; need Dangling (io_reqs s !! req).

Definition end_io_req (req : positive) : st io unit :=
  modify (λ s : io, set_io_reqs (delete req (io_reqs s)) s).

(** The signal that it raises wakes up the coroutine. *)
Definition bio_cancel_io (req : positive) : st io unit :=
  _ ← io_req_cancelled req;
  modify (λ s : io, set_io_reqs (<[req := true]> (io_reqs s)) s).

(** [bio_wait_for_io], with what the event says then: the error of an [EV_ERROR], or zero.
    An event of a request that was cancelled is not given to the kernel. *)
Definition bio_wait_for_io (req : positive) (event : request) : st io Z :=
  _ ← modify others;
  cancelled ← io_req_cancelled req;
  data ← (if cancelled : bool then mret 0 else r ← system_call kernel event; mret (rp_res r));
  _ ← modify others;
  mret data.

Definition bio_net_wait_for_read (ref : bio_handle_t) (impl : positive) : st io Z :=
  x ← deref_socket impl;
  match sk_read x with
  | None =>
      req ← bio_prepare_io_req;
      _ ← store_socket impl (set_sk_read (Some req) x);
      data ← bio_wait_for_io req (req_kevent (sk_fd x) EVFILT_READ);
      impl ← io_resolve_handle ref BIO_SOCKET_HANDLE;
      _ ← match impl with
          | Some impl => x ← deref_socket impl; store_socket impl (set_sk_read None x)
          | None => mret tt
          end;
      _ ← end_io_req req;
      mret data
  | Some _ => mret EBUSY
  end.

Definition bio_net_wait_for_write (ref : bio_handle_t) (impl : positive) : st io Z :=
  x ← deref_socket impl;
  match sk_write x with
  | None =>
      req ← bio_prepare_io_req;
      _ ← store_socket impl (set_sk_write (Some req) x);
      data ← bio_wait_for_io req (req_kevent (sk_fd x) EVFILT_WRITE);
      impl ← io_resolve_handle ref BIO_SOCKET_HANDLE;
      _ ← match impl with
          | Some impl => x ← deref_socket impl; store_socket impl (set_sk_write None x)
          | None => mret tt
          end;
      _ ← end_io_req req;
      mret data
  | Some _ => mret EBUSY
  end.

(** ** Addresses *)

(** The path, or [None] for the name of an abstract socket. *)
Definition sun_path_of (len : Z) (name : list Z) : st io (option (list Z)) :=
  _ ← (if zlen name <? len then fail OutOfBounds else mret tt);
  let path := take (Z.to_nat len) name ++ replicate (Z.to_nat (sizeof_sun_path - len)) 0 in
  c ← need OutOfBounds (zlookup path 0);
  mret (if c =? 64 (* '@' *) then None else Some path).

(** [None] when the translation fails. *)
Definition bio_translate_address (addr : bio_addr_t) (port : Z) (error : error_ptr) :
    st io (option bio_addr_translation_result_t * error_ptr) :=
  match addr with
  | Ipv4 ipv4 =>
      cmp ← lift_res (bio_net_address_compare addr BIO_ADDR_IPV4_ANY);
      let result :=
        if negb (cmp =? 0) || negb (port =? BIO_PORT_ANY)
        then mk_translation (sockaddr_in AF_INET (htons port) ipv4) sizeof_sockaddr_in true
        else mk_translation (sockaddr_in AF_INET 0 (replicate 4 0)) sizeof_sockaddr_in false in
      mret (Some result, error)
  | Ipv6 ipv6 =>
      cmp ← lift_res (bio_net_address_compare addr BIO_ADDR_IPV6_ANY);
      let result :=
        if negb (cmp =? 0) || negb (port =? BIO_PORT_ANY)
        then mk_translation (sockaddr_in6 AF_INET6 (htons port) ipv6) sizeof_sockaddr_in6 true
        else mk_translation (sockaddr_in6 AF_INET6 0 (replicate 16 0)) sizeof_sockaddr_in6 false in
      mret (Some result, error)
  | Named len name =>
      if len >? 0 then
        if len <? sizeof_sun_path then
          path ← sun_path_of len name;
          match path with
          | None => mret (None, set_errno error ENOTSUP here 76)
          | Some path => mret (Some (mk_translation (sockaddr_un AF_UNIX path) (offsetof_sun_path + len) true), error)
          end
        else mret (None, bio_set_core_error error BIO_ERROR_INVALID_ARGUMENT here 84)
      else
        mret (Some (mk_translation (sockaddr_un AF_UNIX (replicate 104 0)) 0 false), error)
  end.

(** ** Sockets *)

(** [close], with [errno] after it. *)
Definition close_fd (fd errno : Z) : st io Z :=
  r ← libc_call kernel (req_close fd);
  mret (if r.1 <? 0 then r.2 else errno).

(** The result is negative for a failure. *)
Definition bio_make_socket (socket_type : bio_socket_type_t) (addr : bio_addr_t) (port : Z)
    (error : error_ptr) : st io (Z * error_ptr) :=
  t ← bio_translate_address addr port error;
  let '(translation_result, error) := t in
  match translation_result with
  | None => mret (-1, error)
  | Some translation_result =>
      let type := match socket_type with BIO_SOCKET_STREAM => SOCK_STREAM | BIO_SOCKET_DATAGRAM => SOCK_DGRAM end in
      r ← libc_call kernel (req_socket (sa_family (tr_storage translation_result))
            (type ||| SOCK_NONBLOCK ||| SOCK_CLOEXEC) 0);
      let '(fd, errno) := r in
      if fd <? 0 then mret (-1, set_errno error errno here 123)
      else if tr_should_bind translation_result then
        r ← libc_call kernel (req_bind fd (tr_storage translation_result) (tr_addr_len translation_result));
        let '(result, errno) := r in
        if result <? 0 then
          let error := set_errno error errno here 130 in
          _ ← close_fd fd errno; mret (-1, error)
        else mret (fd, error)
      else mret (fd, error)
  end.

Definition bio_socket_from_fd (fd : Z) : st io bio_handle_t :=
  p ← io_malloc;
  _ ← modify (λ s : io, set_sockets (<[p := mk_socket fd None None]> (sockets s)) s);
  io_make_handle p BIO_SOCKET_HANDLE.

(** The caller's socket is not set. *)
Definition bio_net_wrap (handle : Z) (addr_type : bio_addr_type_t) : st io bool :=
  _ ← bio_socket_from_fd (to_int handle); mret true.

Definition bio_net_unwrap (socket : bio_handle_t) : st io Z :=
  impl ← io_resolve_handle socket BIO_SOCKET_HANDLE;
  match impl with
  | Some impl => x ← deref_socket impl; mret (u64 (sk_fd x))
  | None => mret (u64 (-1))
  end.

Definition bio_net_listen (socket_type : bio_socket_type_t) (addr : bio_addr_t) (port : Z)
    (error : error_ptr) : st io (option bio_handle_t * error_ptr) :=
  m ← bio_make_socket socket_type addr port error;
  let '(fd, error) := m in
  if fd <? 0 then mret (None, error)
  else
    let backlog := 5 in
    r ← libc_call kernel (req_listen fd backlog);
    let '(result, errno) := r in
    if result <? 0 then
      let error := set_errno error errno here 249 in
      _ ← close_fd fd errno; mret (None, error)
    else sock ← bio_socket_from_fd fd; mret (Some sock, error).

Definition bio_net_accept (socket : bio_handle_t) (error : error_ptr) :
    st io (option bio_handle_t * error_ptr) :=
  impl ← io_resolve_handle socket BIO_SOCKET_HANDLE;
  match impl with
  | Some impl =>
      x ← deref_socket impl;
      let server_fd := sk_fd x in
      r ← libc_call kernel (req_accept server_fd);
      let '(client_fd, errno) := r in
      if client_fd =? -1 then
        if errno =? EWOULDBLOCK then
          read_wait_result ← bio_net_wait_for_read socket impl;
          if read_wait_result =? 0 then
            r ← libc_call kernel (req_accept server_fd);
            let '(client_fd, errno) := r in
            if client_fd >=? 0 then client ← bio_socket_from_fd client_fd; mret (Some client, error)
            else mret (None, set_errno error errno here 278)
          else mret (None, set_errno error read_wait_result here 282)
        else mret (None, set_errno error errno here 286)
      else client ← bio_socket_from_fd client_fd; mret (Some client, error)
  | None => mret (None, bio_set_core_error error BIO_ERROR_INVALID_ARGUMENT here 294)
  end.

(** The request for the event of [connect] has no place for the event: its flags stay as
    they were. *)
Definition bio_net_connect (socket_type : bio_socket_type_t) (addr : bio_addr_t) (port : Z)
    (error : error_ptr) : st io (option bio_handle_t * error_ptr) :=
  t ← bio_translate_address addr port error;
  let '(translation_result, error) := t in
  match translation_result with
  | None => mret (None, error)
  | Some translation_result =>
      m ← bio_make_socket socket_type (zero_addr (addr_type addr)) BIO_PORT_ANY error;
      let '(fd, error) := m in
      if fd <? 0 then mret (None, error)
      else
        r ← libc_call kernel
              (req_connect fd (tr_storage translation_result) (tr_addr_len translation_result));
        let '(result, errno) := r in
        if negb (result =? 0) then
          if errno =? EINPROGRESS then
            let event_flags := EV_ADD ||| EV_DISPATCH ||| EV_ENABLE in
            req ← bio_prepare_io_req;
            _ ← bio_wait_for_io req (req_kevent fd EVFILT_WRITE);
            _ ← end_io_req req;
            if Z.land event_flags EV_ERROR >? 0 then
              _ ← close_fd fd errno; mret (None, set_errno error 0 here 334)
            else sock ← bio_socket_from_fd fd; mret (Some sock, error)
          else errno ← close_fd fd errno; mret (None, set_errno error errno here 342)
        else sock ← bio_socket_from_fd fd; mret (Some sock, error)
  end.

Definition bio_net_send (socket : bio_handle_t) (buf : list Z) (error : error_ptr) : st io (Z * error_ptr) :=
  impl ← io_resolve_handle socket BIO_SOCKET_HANDLE;
  match impl with
  | Some impl =>
      x ← deref_socket impl;
      let fd := sk_fd x in
      r ← libc_call kernel (req_send fd buf);
      let '(result, errno) := r in
      if result <? 0 then
        if errno =? EWOULDBLOCK then
          write_wait_result ← bio_net_wait_for_write socket impl;
          if write_wait_result =? 0 then
            r ← libc_call kernel (req_send fd buf);
            let '(result, errno) := r in
            if result >=? 0 then mret (result, error)
            else mret (0, set_errno error errno here 371)
          else mret (0, set_errno error write_wait_result here 375)
        else mret (0, set_errno error errno here 379)
      else mret (result, error)
  | None => mret (0, bio_set_core_error error BIO_ERROR_INVALID_ARGUMENT here 386)
  end.

(** The result comes with the bytes that were written to [buf]. *)
Definition bio_net_recv (socket : bio_handle_t) (size : Z) (error : error_ptr) :
    st io (Z * list Z * error_ptr) :=
  impl ← io_resolve_handle socket BIO_SOCKET_HANDLE;
  match impl with
  | Some impl =>
      x ← deref_socket impl;
      let fd := sk_fd x in
      r ← system_call kernel (req_recv fd size);
      if rp_res r <? 0 then
        if - rp_res r =? EWOULDBLOCK then
          read_wait_result ← bio_net_wait_for_read socket impl;
          if read_wait_result =? 0 then
            r ← system_call kernel (req_recv fd size);
            if rp_res r >=? 0 then mret (rp_res r, rp_data r, error)
            else mret (0, rp_data r, set_errno error (- rp_res r) here 411)
          else mret (0, rp_data r, set_errno error read_wait_result here 415)
        else mret (0, rp_data r, set_errno error (- rp_res r) here 419)
      else mret (rp_res r, rp_data r, error)
  | None => mret (0, [], bio_set_core_error error BIO_ERROR_INVALID_ARGUMENT here 426)
  end.

(** The second request that is cancelled is [impl->read->udata] again. *)
Definition bio_net_close (socket : bio_handle_t) (error : error_ptr) : st io (bool * error_ptr) :=
  impl ← io_close_handle socket BIO_SOCKET_HANDLE;
  match impl with
  | Some impl =>
      x ← deref_socket impl;
      _ ← match sk_read x with Some req => bio_cancel_io req | None => mret tt end;
      _ ← match sk_write x with
          | Some _ => req ← need NullDeref (sk_read x); bio_cancel_io req
          | None => mret tt
          end;
      let fd := sk_fd x in
      _ ← free_socket impl;
      r ← libc_call kernel (req_close fd);
      let '(result, errno) := r in
      if result =? 0 then mret (true, error)
      else mret (false, set_errno error errno here 450)
  | None => mret (false, bio_set_core_error error BIO_ERROR_INVALID_ARGUMENT here 454)
  end.

(** ** Descriptors *)

Context (own : OS → gset Z).

(** The documented behaviour of the operating system; the others leave the descriptors of
    the caller alone, and the requests for which it waits. *)
Record descriptors : Prop := {
  de_kernel req o : fds_after req (kernel req o).1 (own o) (own (kernel req o).2);
  de_others s : io_wf s → own (os (others s)) = own (os s);
  de_reqs s req : io_wf s → is_Some (io_reqs s !! req) → is_Some (io_reqs (others s) !! req);
}.

Local Abbreviation socket_fd := (socket_fd sk_fd).
Local Abbreviation given_up := (given_up sk_fd).
Local Abbreviation fds_result := (fds_result sk_fd own).

Definition net_exec (op : net_op) (error : error_ptr) : st io (option bio_handle_t) :=
  match op with
  | Listen t addr port => r ← bio_net_listen t addr port error; mret r.1
  | Accept socket => r ← bio_net_accept socket error; mret r.1
  | Connect t addr port => r ← bio_net_connect t addr port error; mret r.1
  | Close socket => _ ← bio_net_close socket error; mret None
  end.

(** Nobody waits to write to the socket alone, and the requests that wait exist. *)
Definition waits_ok (s : io) (op : net_op) : Prop :=
  match op with
  | Close socket => ∀ p x, object_of s socket BIO_SOCKET_HANDLE = Some p → sockets s !! p = Some x →
      (∀ req, sk_read x = Some req → is_Some (io_reqs s !! req)) ∧ (sk_read x = None → sk_write x = None)
  | _ => True
  end.

Section spec.
Context (Hpo : polite others) (Hde : descriptors).

(** What every step keeps. *)
Definition steady (s s' : io) : Prop := io_wf s' ∧ io_evolves s s'.

Lemma steady_trans s1 s2 s3 : steady s1 s2 → steady s2 s3 → steady s1 s3.
Proof. intros [_ H1] [H2 H3]. split; [done|by etrans]. Qed.

Lemma steady_others s : io_wf s → steady s (others s).
Proof. intros Hwf. split; by apply Hpo. Qed.

Lemma set_reqs_steady s m : io_wf s → steady s (set_io_reqs m s).
Proof. intros []. by split. Qed.

Lemma set_socket_steady s p x : io_wf s → steady s (set_sockets (<[p := x]> (sockets s)) s).
Proof. intros Hwf. split; [by apply insert_socket_wf|done]. Qed.

Lemma bsd_libc_fds req s (Q : Z * Z → io → Prop) :
  io_wf s →
  (∀ r s', -1 ≤ r.1 → steady s s' → io_table s' = io_table s → io_next s' = io_next s → sockets s' = sockets s →
    io_reqs s' = io_reqs s → fds_after req (mk_reply r.1 [] 0) (own (os s)) (own (os s')) → Q r s') →
  wp (libc_call kernel req) Q s.
Proof.
  intros Hwf HQ. unfold libc_call. wp_step. apply system_call_spec. wp_step.
  pose proof (de_kernel Hde req (os s)) as Hk. destruct (kernel req (os s)) as [r o]. cbn [fst snd] in *.
  apply HQ; try done.
  - destruct (Z.ltb_spec (rp_res r) 0); cbn; lia.
  - split; [by apply set_os_wf|done].
  - destruct (Z.ltb_spec (rp_res r) 0) as [H|H]; cbn [fst]; [|by destruct req].
    destruct req; try done; cbn in *; by rewrite (proj2 (Z.ltb_lt _ _)) in Hk.
Qed.

Lemma close_fd_fds fd errno s (Q : Z → io → Prop) :
  io_wf s → (∀ r s', steady s s' → own (os s') = own (os s) ∖ {[fd]} → Q r s') →
  wp (close_fd fd errno) Q s.
Proof.
  intros Hwf HQ. unfold close_fd. wp_step. apply bsd_libc_fds; [done|]. intros r s' _ Hs _ _ _ _ Hfd.
  wp_steps. by apply HQ.
Qed.

(** *** Waiting *)

Lemma prepare_io_req_spec s (Q : positive → io → Prop) :
  io_wf s →
  (∀ req s', steady s s' → own (os s') = own (os s) → sockets s' = sockets s → is_Some (io_reqs s' !! req) → Q req s') →
  wp bio_prepare_io_req Q s.
Proof.
  intros Hwf HQ. unfold bio_prepare_io_req, io_malloc. wp_steps. apply HQ; try done.
  - destruct (set_reqs_steady (set_io_next (Pos.succ (io_next s)) s) (<[io_next s := false]> (io_reqs s)))
      as [H1 _]; [by apply malloc_wf|]. split; [exact H1|]. split; [done|cbn; lia].
  - cbn. rewrite lookup_insert_eq. eauto.
Qed.

Lemma bsd_wait_for_io_fds req fd filter s (Q : Z → io → Prop) :
  io_wf s → is_Some (io_reqs s !! req) →
  (∀ data s', steady s s' → own (os s') = own (os s) → Q data s') →
  wp (bio_wait_for_io req (req_kevent fd filter)) Q s.
Proof.
  intros Hwf Hreq HQ. pose proof (steady_others _ Hwf) as Hs1. apply (de_reqs Hde) in Hreq as [c Hc]; [|done].
  unfold bio_wait_for_io, io_req_cancelled. wp_steps.
  assert (Hlast : ∀ data s2, steady s s2 → own (os s2) = own (os s) →
    wp (_ ← modify others; mret data) Q s2).
  { intros data s2 Hs2 Ho. wp_steps. apply HQ.
    - eapply steady_trans; [done|]. apply steady_others, Hs2.
    - rewrite (de_others Hde); [done|apply Hs2]. }
  assert (Ho1 : own (os (others s)) = own (os s)) by by apply (de_others Hde).
  destruct c; [wp_step; by apply Hlast|]. wp_step. apply system_call_spec. wp_step. apply Hlast.
  - eapply steady_trans; [done|]. split; [apply set_os_wf, Hs1|done].
  - pose proof (de_kernel Hde (req_kevent fd filter) (os (others s))) as Hk. cbn in Hk |- *. congruence.
Qed.

Lemma deref_socket_spec p x (s : io) (Q : bio_socket_impl_t → io → Prop) :
  sockets s !! p = Some x → Q x s → wp (deref_socket p) Q s.
Proof. intros Hx HQ. unfold deref_socket. by wp_steps. Qed.

Lemma store_socket_spec p y (s : io) (Q : unit → io → Prop) :
  is_Some (sockets s !! p) → Q tt (set_sockets (<[p := y]> (sockets s)) s) → wp (store_socket p y) Q s.
Proof. intros [x Hx] HQ. unfold store_socket. wp_step. eapply deref_socket_spec; [done|]. by wp_step. Qed.

(** The socket is resolved again, and the request is over. *)
Lemma wait_end_fds ref clear req (data : Z) s (Q : Z → io → Prop) :
  io_wf s → io_known s ref →
  (∀ s', steady s s' → own (os s') = own (os s) → Q data s') →
  wp (impl ← io_resolve_handle ref BIO_SOCKET_HANDLE;
      _ ← match impl with
          | Some impl => x ← deref_socket impl; store_socket impl (clear x)
          | None => mret tt
          end;
      _ ← end_io_req req; mret data) Q s.
Proof.
  intros Hwf Hk HQ. wp_step. apply io_resolve_spec; [done..|]. wp_step.
  destruct (object_of s ref BIO_SOCKET_HANDLE) as [p|] eqn:Ho.
  - destruct (socket_object _ _ _ Hwf Ho) as [x Hx]. wp_step. eapply deref_socket_spec; [done|].
    apply store_socket_spec; [eauto|]. unfold end_io_req. wp_steps. apply HQ; [|done].
    pose proof (set_socket_steady s p (clear x) Hwf) as Hs. eapply steady_trans; [exact Hs|]. apply set_reqs_steady, Hs.
  - unfold end_io_req. wp_steps. apply HQ; [|done]. by apply set_reqs_steady.
Qed.

Lemma io_known_steady s s' h : steady s s' → io_known s h → io_known s' h.
Proof. intros [_ [H _]] Hk. by apply H. Qed.

(** What comes before. *)
Lemma wait_begin_fds ref set clear impl fd filter s (Q : Z → io → Prop) :
  io_wf s → io_known s ref → is_Some (sockets s !! impl) →
  (∀ data s', steady s s' → own (os s') = own (os s) → Q data s') →
  wp (req ← bio_prepare_io_req;
      _ ← store_socket impl (set req);
      data ← bio_wait_for_io req (req_kevent fd filter);
      impl ← io_resolve_handle ref BIO_SOCKET_HANDLE;
      _ ← match impl with
          | Some impl => x ← deref_socket impl; store_socket impl (clear x)
          | None => mret tt
          end;
      _ ← end_io_req req; mret data) Q s.
Proof.
  intros Hwf Hk Himpl HQ. wp_step. apply prepare_io_req_spec; [done|]. intros req s1 Hs1 Ho1 Hsk1 Hreq1. wp_step.
  apply store_socket_spec; [by rewrite Hsk1|].
  set (s2 := set_sockets _ s1). assert (Hs2 : steady s s2) by (eapply steady_trans; [done|apply set_socket_steady, Hs1]).
  wp_step. apply bsd_wait_for_io_fds; [apply Hs2|done|]. intros data s3 Hs3 Ho3.
  assert (Hs03 : steady s s3) by by eapply steady_trans.
  apply wait_end_fds; [apply Hs3|by eapply io_known_steady|]. intros s4 Hs4 Ho4. apply HQ; [by eapply steady_trans|].
  change (own (os s2)) with (own (os s1)) in Ho3. congruence.
Qed.

Lemma bsd_wait_for_read_fds ref impl s (Q : Z → io → Prop) :
  io_wf s → io_known s ref → is_Some (sockets s !! impl) →
  (∀ data s', steady s s' → own (os s') = own (os s) → Q data s') →
  wp (bio_net_wait_for_read ref impl) Q s.
Proof.
  intros Hwf Hk Himpl HQ. pose proof Himpl as [x Hx]. unfold bio_net_wait_for_read. wp_step.
  eapply deref_socket_spec; [done|]. destruct (sk_read x); [wp_steps; by apply HQ|]. by apply (wait_begin_fds ref).
Qed.

Lemma bsd_wait_for_write_fds ref impl s (Q : Z → io → Prop) :
  io_wf s → io_known s ref → is_Some (sockets s !! impl) →
  (∀ data s', steady s s' → own (os s') = own (os s) → Q data s') →
  wp (bio_net_wait_for_write ref impl) Q s.
Proof.
  intros Hwf Hk Himpl HQ. pose proof Himpl as [x Hx]. unfold bio_net_wait_for_write. wp_step.
  eapply deref_socket_spec; [done|]. destruct (sk_write x); [wp_steps; by apply HQ|]. by apply (wait_begin_fds ref).
Qed.

(** *** Functions that make descriptors *)

Lemma bsd_socket_from_fd_spec fd s (Q : bio_handle_t → io → Prop) :
  io_wf s → (∀ h s', steady s s' → os s' = os s → socket_fd s' h = Some fd → Q h s') →
  wp (bio_socket_from_fd fd) Q s.
Proof.
  intros Hwf HQ. unfold bio_socket_from_fd, io_malloc. wp_steps. set (s1 := set_sockets _ _).
  assert (Hwf1 : io_wf s1) by by apply insert_socket_wf, malloc_wf.
  apply io_make_spec; [done|cbn; rewrite lookup_insert_eq; eauto| |cbn; lia|].
  { intros h Hh. destruct (proj1 (iw_sockets _ Hwf) _ _ Hh) as (q & [= <-] & _ & Hlt). lia. }
  intros h t Hwf2 Hk Hl He. apply HQ; [|done|].
  - split; [done|]. split; [done|]. cbn. lia.
  - unfold Descriptors.socket_fd. rewrite (proj2 (object_of_live _ h BIO_SOCKET_HANDLE (io_next s))).
    + cbn. by rewrite lookup_insert_eq.
    + cbn. rewrite Hl. by rewrite lookup_insert_eq.
Qed.

(** A function that returns a socket, or none. *)
Definition makes_socket (F : gset Z) (s : io) (r : option bio_handle_t * error_ptr) (s' : io) : Prop :=
  steady s s' ∧ fds_result F r.1 s'.

(** Or a descriptor: it is negative for a failure. *)
Definition makes_fd (F : gset Z) (s : io) (r : Z * error_ptr) (s' : io) : Prop :=
  steady s s' ∧ if r.1 <? 0 then own (os s') = F else r.1 ∉ F ∧ own (os s') = {[r.1]} ∪ F.

(** The ends of such functions: the descriptor becomes a socket, or is closed. *)
Lemma bsd_finish_socket fd F e s0 s :
  steady s0 s → fd ∉ F → own (os s) = {[fd]} ∪ F →
  wp (sock ← bio_socket_from_fd fd; mret (Some sock, e)) (makes_socket F s0) s.
Proof.
  intros Hs Hni Hown. wp_step. apply bsd_socket_from_fd_spec; [apply Hs|]. intros h s' Hs' Hos Hfd.
  wp_steps. split; [by eapply steady_trans|]. exists fd. by rewrite Hos.
Qed.

Lemma bsd_abandon_socket {A} (a : Z → A) fd errno F s0 s (Q : A → io → Prop) :
  steady s0 s → fd ∉ F → own (os s) = {[fd]} ∪ F →
  (∀ n s', steady s0 s' → own (os s') = F → Q (a n) s') →
  wp (n ← close_fd fd errno; mret (a n)) Q s.
Proof.
  intros Hs Hni Hown HQ. wp_step. apply close_fd_fds; [apply Hs|]. intros n s' Hs' Ho. wp_steps.
  apply HQ; [by eapply steady_trans|]. by rewrite Ho, Hown, new_removed.
Qed.

Lemma bsd_translate_safe addr port error s (Q : option bio_addr_translation_result_t * error_ptr → io → Prop) :
  addr_ok addr → (∀ r, Q r s) → wp (bio_translate_address addr port error) Q s.
Proof.
  intros Ha HQ. destruct addr as [ip|ip|len name]; cbn [bio_translate_address].
  - destruct (compare_any (Ipv4 ip) BIO_ADDR_IPV4_ANY Ha) as (z & Hz & _); [done|].
    wp_step. eapply wp_lift_res; [done|]. wp_steps. apply HQ.
  - destruct (compare_any (Ipv6 ip) BIO_ADDR_IPV6_ANY Ha) as (z & Hz & _); [done|].
    wp_step. eapply wp_lift_res; [done|]. wp_steps. apply HQ.
  - destruct Ha as [Hname Hlen]. destruct (Z.gtb_spec len 0) as [Hpos|Hneg]; [|wp_steps; apply HQ].
    destruct (len <? sizeof_sun_path); [|wp_steps; apply HQ].
    unfold sun_path_of. wp_step. wp_step. rewrite (proj2 (Z.ltb_ge _ _)) by (unfold zlen; lia). wp_step. wp_step.
    assert (Hl : length (take (Z.to_nat len) name) = Z.to_nat len) by (rewrite length_take; lia).
    destruct (take (Z.to_nat len) name) as [|c l]; [cbn in Hl; lia|]. wp_steps.
    destruct (c =? 64); wp_steps; apply HQ.
Qed.

Lemma bsd_make_socket_fds t addr port error s :
  io_wf s → addr_ok addr →
  wp (bio_make_socket t addr port error) (makes_fd (own (os s)) s) s.
Proof.
  intros Hwf Ha. unfold bio_make_socket. wp_step. apply bsd_translate_safe; [done|]. intros [[tr|] e]; [|by wp_steps].
  wp_step. apply bsd_libc_fds; [done|]. intros [fd errno] s1 _ Hs1 _ _ _ _ Hfd. cbn in Hfd.
  destruct (Z.ltb_spec fd 0) as [Hlt|Hge]; [by wp_steps|]. destruct Hfd as [Hni Hown].
  assert (Hok : ∀ e' s2, steady s s2 → own (os s2) = own (os s1) → wp (mret (fd, e')) (makes_fd (own (os s)) s) s2).
  { intros e' s2 Hs2 Ho. wp_steps. split; [done|]. cbn. rewrite (proj2 (Z.ltb_ge _ _)) by done. by rewrite Ho. }
  destruct (tr_should_bind tr); [|by apply Hok]. wp_step. apply bsd_libc_fds; [apply Hs1|].
  intros [r errno2] s2 _ Hs2 _ _ _ _ Hfd2. cbn in Hfd2. assert (Hs02 : steady s s2) by by eapply steady_trans.
  destruct (r <? 0); [|by apply Hok].
  eapply (bsd_abandon_socket (λ _, (-1, _))); [done|done|by rewrite Hfd2|]. intros _ s3 Hs3 Ho3. by split.
Qed.

Lemma bsd_listen_fds t addr port error s :
  io_wf s → addr_ok addr → wp (bio_net_listen t addr port error) (makes_socket (own (os s)) s) s.
Proof.
  intros Hwf Ha. unfold bio_net_listen. wp_step. eapply wp_mono; [by apply bsd_make_socket_fds|].
  intros [fd e] s1 (Hs1 & Hfd). cbn in Hfd. destruct (fd <? 0); [by wp_steps|]. destruct Hfd as [Hni Hown].
  wp_step. apply bsd_libc_fds; [apply Hs1|]. intros [r errno] s2 _ Hs2 _ _ _ _ Hfd2. cbn in Hfd2.
  assert (Hs02 : steady s s2) by by eapply steady_trans. destruct (r <? 0).
  - eapply (bsd_abandon_socket (λ _, (None, _))); [done|done|by rewrite Hfd2|]. intros _ s3 Hs3 Ho3. by split.
  - apply bsd_finish_socket; [done|done|by rewrite Hfd2].
Qed.

Lemma bsd_connect_fds t addr port error s :
  io_wf s → addr_ok addr → wp (bio_net_connect t addr port error) (makes_socket (own (os s)) s) s.
Proof.
  intros Hwf Ha. unfold bio_net_connect. wp_step. apply bsd_translate_safe; [done|]. intros [[tr|] e0]; [|by wp_steps].
  wp_step. eapply wp_mono; [apply bsd_make_socket_fds; [done|by destruct addr]|].
  intros [fd e] s1 (Hs1 & Hfd). cbn in Hfd. destruct (fd <? 0); [by wp_steps|]. destruct Hfd as [Hni Hown].
  wp_step. apply bsd_libc_fds; [apply Hs1|]. intros [r errno] s2 _ Hs2 _ _ _ _ Hfd2. cbn in Hfd2.
  assert (Hs02 : steady s s2) by by eapply steady_trans. rewrite <- Hfd2 in Hown.
  destruct (negb (r =? 0)); [|by apply bsd_finish_socket]. destruct (errno =? EINPROGRESS).
  - wp_step. apply prepare_io_req_spec; [apply Hs2|]. intros req s3 Hs3 Ho3 _ Hreq. wp_step.
    apply bsd_wait_for_io_fds; [apply Hs3|done|]. intros _ s4 Hs4 Ho4. unfold end_io_req. wp_step. wp_step.
    replace (Z.land (EV_ADD ||| EV_DISPATCH ||| EV_ENABLE) EV_ERROR >? 0) with false by reflexivity.
    apply bsd_finish_socket; [|done|cbn; congruence].
    do 2 (eapply steady_trans; [done|]). eapply steady_trans; [done|]. apply set_reqs_steady, Hs4.
  - eapply (bsd_abandon_socket (λ n, (None, set_errno e n here 342))); [done..|]. intros n s3 Hs3 Ho3. by split.
Qed.

Lemma bsd_accept_fds socket error s :
  io_wf s → io_known s socket → wp (bio_net_accept socket error) (makes_socket (own (os s)) s) s.
Proof.
  intros Hwf Hk. unfold bio_net_accept. wp_step. apply io_resolve_spec; [done..|].
  destruct (object_of s socket BIO_SOCKET_HANDLE) as [p|] eqn:Ho; [|by wp_steps].
  destruct (socket_object _ _ _ Hwf Ho) as [x Hx]. wp_step. eapply deref_socket_spec; [done|].
  wp_step. apply bsd_libc_fds; [done|]. intros [fd errno] s1 Hfd1 Hs1 Ht1 _ Hsk1 _ Hfd. cbn in Hfd, Hfd1.
  destruct (Z.eqb_spec fd (-1)) as [->|Hne].
  2: { rewrite (proj2 (Z.ltb_ge _ _)) in Hfd by lia. destruct Hfd. by apply bsd_finish_socket. }
  cbn in Hfd. destruct (errno =? EWOULDBLOCK); [|by wp_steps]. wp_step.
  apply bsd_wait_for_read_fds; [apply Hs1|by eapply io_known_steady|rewrite Hsk1; eauto|].
  intros data s2 Hs2 Ho2. assert (Hs02 : steady s s2) by by eapply steady_trans.
  assert (Hown : own (os s2) = own (os s)) by congruence.
  destruct (data =? 0); [|by wp_steps]. wp_step. apply bsd_libc_fds; [apply Hs2|].
  intros [fd errno2] s3 Hfd3 Hs3 _ _ _ _ Hfd'. cbn in Hfd', Hfd3. rewrite Hown in Hfd'.
  assert (Hs03 : steady s s3) by by eapply steady_trans.
  destruct (Z.geb_spec fd 0) as [Hge|Hlt].
  - rewrite (proj2 (Z.ltb_ge _ _)) in Hfd' by done. destruct Hfd'. by apply bsd_finish_socket.
  - rewrite (proj2 (Z.ltb_lt _ _)) in Hfd' by done. by wp_steps.
Qed.

Lemma bsd_close_fds socket error s :
  io_wf s → io_known s socket → waits_ok s (Close socket) →
  wp (bio_net_close socket error) (λ _ s', steady s s' ∧ own (os s') = own (os s) ∖ given_up s (Close socket)) s.
Proof.
  intros Hwf Hk Hw. unfold bio_net_close. wp_step. apply io_close_spec; [done..| |].
  { intros Hn. wp_steps. split; [done|]. unfold Descriptors.given_up, Descriptors.socket_fd. rewrite Hn. set_solver. }
  intros p t Ho Hwf1 [x Hx] Hl He Hu. destruct (Hw p x Ho Hx) as [Hread Hwrite].
  wp_step. eapply deref_socket_spec; [done|].
  unfold Descriptors.given_up, Descriptors.socket_fd. rewrite Ho. cbn. rewrite Hx. cbn.
  assert (Hcancel : ∀ req (s1 : io) (Q : unit → io → Prop), is_Some (io_reqs s1 !! req) →
    Q tt (set_io_reqs (<[req := true]> (io_reqs s1)) s1) → wp (bio_cancel_io req) Q s1).
  { intros req s1 Q [c Hc] HQ. unfold bio_cancel_io, io_req_cancelled. by wp_steps. }
  assert (Hend : ∀ m, wp (_ ← free_socket p; r ← libc_call kernel (req_close (sk_fd x));
      (let '(result, errno) := r in
       if result =? 0 then mret (true, error) else mret (false, set_errno error errno here 450)))
    (λ _ s', steady s s' ∧ own (os s') = own (os s) ∖ {[sk_fd x]}) (set_io_reqs m (set_io_table t s))).
  { intros m. unfold free_socket, deref_socket. wp_steps. apply bsd_libc_fds.
    - apply delete_socket_wf; [exact Hu|]. by apply set_reqs_steady.
    - intros [r errno] s2 _ [Hwf2 Hev2] _ _ _ _ Hfd. cbn in Hfd. 
      assert (Hs : steady s s2) by (split; [done|]; etrans; [|done]; split; [done|cbn; lia]).
      case_match; by wp_steps. }
  destruct (sk_read x) as [req|] eqn:Er.
  - wp_step. apply Hcancel; [by apply Hread|]. wp_step. destruct (sk_write x) as [req'|].
    + wp_step. wp_step. apply Hcancel; [|apply Hend]. cbn. rewrite lookup_insert_eq. eauto.
    + wp_step. apply Hend.
  - rewrite (Hwrite eq_refl). do 4 wp_step. apply (Hend (io_reqs s)).
Qed.

End spec.
End code.
