(* ===== verification/WinSock.v ===== *)
(** Sockets of Winsock ([src/windows/net/ws.c]), with the objects of sockets ([net.h]). *)
From stdpp Require Import strings.
From S2P Require Import Prelude HandleTable Error Net Io Windows.

(** ** State *)

(** [bio_net_ws_listen_data_t] without the extension function, which is the one that
    [rq_AcceptEx] stands for. *)
Record bio_net_ws_listen_data_t := mk_ws_listen_data { wl_family : Z; wl_sock_type : Z }.

(** [bio_net_ws_socket_t]; the data that [listen_data] points to belong to the socket. *)
Record bio_net_ws_socket_t := mk_ws_socket {
  ws_handle : Z;
  ws_completion_mode : bio_completion_mode_t;
  ws_listen_data : option bio_net_ws_listen_data_t;
}.

(** [bio_net_pipe_listen_data_t]. *)
Record bio_net_pipe_listen_data_t := mk_pipe_listen_data { pl_sock_type : Z; pl_name : list Z }.

(** [bio_net_pipe_socket_t]; an acceptor is on the stack of a coroutine: its address and its
    handle; whether it was cancelled is in [io_reqs]. *)
Record bio_net_pipe_socket_t := mk_pipe_socket {
  pp_handle : Z;
  pp_completion_mode : bio_completion_mode_t;
  pp_listen_data : option bio_net_pipe_listen_data_t;
  pp_acceptors : list (positive * Z);
}.

(** [bio_socket_impl_t]: its type and that member of the union. *)
Inductive bio_socket_impl_t :=
  | BIO_SOCKET_WS (ws : bio_net_ws_socket_t)
  | BIO_SOCKET_PIPE (pipe : bio_net_pipe_socket_t).

(** The handle of a socket. *)
Definition sk_handle (x : bio_socket_impl_t) : Z :=
  match x with BIO_SOCKET_WS ws => ws_handle ws | BIO_SOCKET_PIPE pipe => pp_handle pipe end.

(** [bio_addr_translation_result_t]; a [sockaddr_named_pipe] has a family and a name as well. *)
Record bio_addr_translation_result_t := mk_translation {
  tr_storage : sockaddr;
  tr_addr_len : Z;
  tr_should_bind : bool;
}.

(** The constants of the API. *)
Definition AF_UNIX : Z := 1.
Definition AF_INET : Z := 2.
Definition AF_INET6 : Z := 23.
Definition SOCK_STREAM : Z := 1.
Definition SOCK_DGRAM : Z := 2.
Definition SD_BOTH : Z := 2.
Definition WSA_FLAG_OVERLAPPED : Z := 1.
Definition XP1_IFS_HANDLES : Z := 131072.
Definition sizeof_sockaddr_in : Z := 16.
Definition sizeof_sockaddr_in6 : Z := 28.
Definition sizeof_sockaddr_storage : Z := 128.

Definition set_ws_mode (m : bio_completion_mode_t) (x : bio_net_ws_socket_t) : bio_net_ws_socket_t :=
  mk_ws_socket (ws_handle x) m (ws_listen_data x).
Definition set_ws_listen_data (d : option bio_net_ws_listen_data_t) (x : bio_net_ws_socket_t) : bio_net_ws_socket_t :=
  mk_ws_socket (ws_handle x) (ws_completion_mode x) d.

Section code.
Context {OS File : Type}.
Context (others : io_ctx OS File bio_socket_impl_t → io_ctx OS File bio_socket_impl_t).
Context (kernel : win_request → OS → reply * OS).
Context (strerror : Z → string).
Abbreviation io := (io_ctx OS File bio_socket_impl_t).
Abbreviation here := "src/windows/net/ws.c"%string.
Local Abbreviation set_error := (bio_set_error strerror).
Local Abbreviation win_call := (system_call kernel).

(** [bio_set_last_wsa_error]. *)
Definition bio_set_last_wsa_error (r : reply) (error : error_ptr) (line : Z) : error_ptr :=
  set_error error (last_error r) here line.

(** ** Completion *)

Definition bio_net_ws_completion_mode (socket : Z) : st io bio_completion_mode_t :=
  r ← win_call (rq_getsockopt_protocol_info socket);
  mret (if succeeded r then
          if Z.land (rp_res r) XP1_IFS_HANDLES >? 0 then BIO_COMPLETION_MODE_SKIP_ON_SUCCESS
          else BIO_COMPLETION_MODE_ALWAYS
        else BIO_COMPLETION_MODE_UNKNOWN).

Definition bio_net_ws_init_completion_mode (socket : Z) : st io bio_completion_mode_t :=
  completion_mode ← bio_net_ws_completion_mode socket;
  if decide (completion_mode = BIO_COMPLETION_MODE_SKIP_ON_SUCCESS) then
    r ← win_call (rq_SetFileCompletionNotificationModes socket FILE_SKIP_COMPLETION_PORT_ON_SUCCESS);
    mret (if succeeded r then BIO_COMPLETION_MODE_SKIP_ON_SUCCESS else BIO_COMPLETION_MODE_ALWAYS)
  else mret BIO_COMPLETION_MODE_ALWAYS.

(** [r]: the reply of the call that the caller has just made. *)
Definition bio_net_maybe_wait_for_io (socket : Z) (completion_mode : bio_completion_mode_t)
    (req : bio_io_req_t) (error : error_ptr) (r : reply) : st io (bool * error_ptr) :=
  if negb (succeeded r) then
    if negb (last_error r =? ERROR_IO_PENDING) then mret (false, bio_set_last_wsa_error r error 42)
    else
      _ ← bio_wait_for_io others kernel req;
      r ← win_call (rq_WSAGetOverlappedResult socket (rq_overlapped req));
      if negb (succeeded r) then mret (false, bio_set_last_wsa_error r error 48)
      else mret (true, error)
  else
    _ ← bio_maybe_wait_after_success others kernel req completion_mode;
    mret (true, error).

(** The socket that a pointer to [impl->ws] stands for. *)
Definition deref_ws (socket : positive) : st io bio_net_ws_socket_t :=
  x ← deref_socket socket;
  match x with BIO_SOCKET_WS ws => mret ws | BIO_SOCKET_PIPE _ => fail Uninit end.
Definition store_ws (socket : positive) (ws : bio_net_ws_socket_t) : st io unit :=
  store_socket socket (BIO_SOCKET_WS ws).

(** The type of a socket for the system. *)
Definition ws_type (socket_type : bio_socket_type_t) : Z :=
  match socket_type with BIO_SOCKET_STREAM => SOCK_STREAM | BIO_SOCKET_DATAGRAM => SOCK_DGRAM end.

(** [INETADDR_SETANY]. *)
Definition any_addr (family : Z) : sockaddr :=
  if family =? AF_INET6 then sockaddr_in6 family 0 (replicate 16 0) else sockaddr_in family 0 (replicate 4 0).

(** [goto end] in the functions that open a socket: it is closed. *)
Definition abandon (handle : Z) (error : error_ptr) : st io (option bio_net_ws_socket_t * error_ptr) :=
  _ ← win_call (rq_closesocket handle);
  mret (None, error).

(** ** The code *)

Definition bio_net_ws_listen (socket_type : bio_socket_type_t) (addr : bio_addr_translation_result_t)
    (error : error_ptr) : st io (option bio_net_ws_socket_t * error_ptr) :=
  r ← win_call (rq_WSASocket (sa_family (tr_storage addr)) (ws_type socket_type) WSA_FLAG_OVERLAPPED);
  if negb (succeeded r) then mret (None, bio_set_last_wsa_error r error 81)
  else
    let handle := rp_res r in
    r ← win_call (rq_bind handle (tr_storage addr) (tr_addr_len addr));
    if negb (succeeded r) then abandon handle (bio_set_last_wsa_error r error 88)
    else
      r ← win_call (rq_listen handle 5);
      if negb (succeeded r) then abandon handle (bio_set_last_wsa_error r error 93)
      else
        r ← win_call (rq_CreateIoCompletionPort handle);
        if negb (succeeded r) then abandon handle (set_error error (last_error r) here 98)
        else mret (Some (mk_ws_socket handle BIO_COMPLETION_MODE_UNKNOWN None), error).

(** The completion mode is found out when it is first needed. *)
Definition ensure_completion_mode (socket : positive) : st io unit :=
  ws ← deref_ws socket;
  if decide (ws_completion_mode ws = BIO_COMPLETION_MODE_UNKNOWN) then
    m ← bio_net_ws_init_completion_mode (ws_handle ws);
    store_ws socket (set_ws_mode m ws)
  else mret tt.

(** The data for accepting, on the first call; whether it succeeded. *)
Definition ensure_listen_data (socket : positive) (error : error_ptr) : st io (bool * error_ptr) :=
  ws ← deref_ws socket;
  match ws_listen_data ws with
  | Some _ => mret (true, error)
  | None =>
      req ← bio_prepare_io_req;
      r ← win_call (rq_WSAIoctl (ws_handle ws) WSAID_ACCEPTEX (rq_overlapped req));
      w ← bio_net_maybe_wait_for_io (ws_handle ws) (ws_completion_mode ws) req error r;
      let '(ok, error) := w in
      if negb ok then mret (false, error)
      else
        ws ← deref_ws socket;
        r ← win_call (rq_getsockname (ws_handle ws));
        if negb (succeeded r) then mret (false, bio_set_last_wsa_error r error 150)
        else
          let family := rp_res r in
          r ← win_call (rq_getsockopt_type (ws_handle ws));
          if negb (succeeded r) then mret (false, bio_set_last_wsa_error r error 160)
          else
            _ ← store_ws socket (set_ws_listen_data (Some (mk_ws_listen_data family (rp_res r))) ws);
            mret (true, error)
  end.

Definition bio_net_ws_accept (socket : positive) (error : error_ptr) :
    st io (option bio_net_ws_socket_t * error_ptr) :=
  _ ← ensure_completion_mode socket;
  l ← ensure_listen_data socket error;
  let '(ok, error) := l in
  if negb ok then mret (None, error)
  else
    ws ← deref_ws socket;
    listen_data ← need NullDeref (ws_listen_data ws);
    r ← win_call (rq_WSASocket (wl_family listen_data) (wl_sock_type listen_data) WSA_FLAG_OVERLAPPED);
    if negb (succeeded r) then mret (None, bio_set_last_wsa_error r error 177)
    else
      let client_socket := rp_res r in
      req ← bio_prepare_io_req;
      r ← win_call (rq_AcceptEx (ws_handle ws) client_socket (rq_overlapped req));
      w ← bio_net_maybe_wait_for_io (ws_handle ws) (ws_completion_mode ws) req error r;
      let '(ok, error) := w in
      if negb ok then abandon client_socket error
      else
        ws ← deref_ws socket;
        r ← win_call (rq_setsockopt_accept_context client_socket (ws_handle ws));
        if negb (succeeded r) then abandon client_socket (bio_set_last_wsa_error r error 205)
        else
          r ← win_call (rq_CreateIoCompletionPort client_socket);
          if negb (succeeded r) then abandon client_socket (set_error error (last_error r) here 210)
          else mret (Some (mk_ws_socket client_socket BIO_COMPLETION_MODE_UNKNOWN None), error).

Definition bio_net_ws_connect (socket_type : bio_socket_type_t) (addr : bio_addr_translation_result_t)
    (error : error_ptr) : st io (option bio_net_ws_socket_t * error_ptr) :=
  let family := sa_family (tr_storage addr) in
  r ← win_call (rq_WSASocket family (ws_type socket_type) WSA_FLAG_OVERLAPPED);
  if negb (succeeded r) then mret (None, bio_set_last_wsa_error r error 247)
  else
    let handle := rp_res r in
    r ← win_call (rq_bind handle (any_addr family) sizeof_sockaddr_storage);
    if negb (succeeded r) then abandon handle (bio_set_last_wsa_error r error 258)
    else
      completion_mode ← bio_net_ws_init_completion_mode handle;
      r ← win_call (rq_CreateIoCompletionPort handle);
      if negb (succeeded r) then abandon handle (set_error error (last_error r) here 265)
      else
        req ← bio_prepare_io_req;
        r ← win_call (rq_WSAIoctl handle WSAID_CONNECTEX (rq_overlapped req));
        w ← bio_net_maybe_wait_for_io handle completion_mode req error r;
        let '(ok, error) := w in
        if negb ok then abandon handle error
        else
          req ← bio_prepare_io_req;
          r ← win_call (rq_ConnectEx handle (tr_storage addr) (tr_addr_len addr) (rq_overlapped req));
          w ← bio_net_maybe_wait_for_io handle completion_mode req error r;
          let '(ok, error) := w in
          if negb ok then abandon handle error
          else mret (Some (mk_ws_socket handle completion_mode None), error).

(** The data of the listening socket are freed with it. *)
Definition bio_net_ws_close (socket : positive) (error : error_ptr) : st io (bool * error_ptr) :=
  ws ← deref_ws socket;
  let handle := ws_handle ws in
  _ ← win_call (rq_CancelIo handle);
  _ ← win_call (rq_shutdown handle SD_BOTH);
  r ← win_call (rq_closesocket handle);
  if succeeded r then mret (true, error)
  else mret (false, bio_set_last_wsa_error r error 326).

Definition bio_net_ws_send (socket : positive) (buf : list Z) (error : error_ptr) : st io (Z * error_ptr) :=
  _ ← ensure_completion_mode socket;
  ws ← deref_ws socket;
  req ← bio_prepare_io_req;
  let buf := if zlen buf >? MAXDWORD then take (Z.to_nat MAXDWORD) buf else buf in
  o ← overlapped_op others kernel req (win_call (rq_WSASend (ws_handle ws) buf (rq_overlapped req)))
        (mret (ws_completion_mode ws))
        (ws ← deref_ws socket; win_call (rq_WSAGetOverlappedResult (ws_handle ws) (rq_overlapped req)));
  let '(r, pending) := o in
  if succeeded r then mret (rp_res r, error)
  else mret (0, bio_set_last_wsa_error r error (if pending : bool then 369 else 357)).

(** The result comes with the bytes that were written to [buf]. *)
Definition bio_net_ws_recv (socket : positive) (size : Z) (error : error_ptr) : st io (Z * list Z * error_ptr) :=
  _ ← ensure_completion_mode socket;
  ws ← deref_ws socket;
  req ← bio_prepare_io_req;
  let size := if size >? MAXDWORD then MAXDWORD else size in
  o ← overlapped_op others kernel req (win_call (rq_WSARecv (ws_handle ws) size (rq_overlapped req)))
        (mret (ws_completion_mode ws))
        (ws ← deref_ws socket; win_call (rq_WSAGetOverlappedResult (ws_handle ws) (rq_overlapped req)));
  let '(r, pending) := o in
  if succeeded r then mret (rp_res r, rp_data r, error)
  else mret (0, rp_data r, bio_set_last_wsa_error r error (if pending : bool then 419 else 407)).
End code.
