(* ===== verification/WinPipe.v ===== *)
(** Sockets that are named pipes ([src/windows/net/pipe.c]): whoever accepts a connection takes
    the pipe, and the socket that listens gets a new instance of it. *)
From stdpp Require Import strings.
From S2P Require Import Prelude HandleTable Error Net Io Windows WinSock.

(** The constants of the API. *)
Definition GENERIC_READ : Z := 2147483648.
Definition GENERIC_WRITE : Z := 1073741824.
Definition OPEN_EXISTING : Z := 3.
Definition FILE_FLAG_OVERLAPPED : Z := 1073741824.
Definition FILE_FLAG_FIRST_PIPE_INSTANCE : Z := 524288.
Definition PIPE_ACCESS_DUPLEX : Z := 3.
Definition PIPE_TYPE_BYTE : Z := 0.
Definition PIPE_TYPE_MESSAGE : Z := 4.
Definition PIPE_READMODE_BYTE : Z := 0.
Definition PIPE_READMODE_MESSAGE : Z := 2.
Definition PIPE_WAIT : Z := 0.
Definition PIPE_REJECT_REMOTE_CLIENTS : Z := 8.
Definition ERROR_PIPE_CONNECTED : Z := 535.
Definition ERROR_CANCELLED : Z := 1223.

Local Infix "|||" := Z.lor (at level 50, left associativity).

(** [BIO_NET_PIPE_NAME_PREFIX], without the final backslash, and the sizes of arrays. *)
Definition BIO_NET_PIPE_NAME_PREFIX : list Z := [92; 92; 46; 92; 112; 105; 112; 101].
Definition sizeof_listen_data_name : Z := 257.

(** The value of an enumerator. *)
Definition socket_type_value (t : bio_socket_type_t) : Z :=
  match t with BIO_SOCKET_STREAM => 0 | BIO_SOCKET_DATAGRAM => 1 end.

(** The name of an address: the array of a [sockaddr_named_pipe]. *)
Definition pipe_name (addr : sockaddr) : list Z :=
  match addr with sockaddr_un _ name => name | _ => [] end.

Definition set_pp_mode (m : bio_completion_mode_t) (x : bio_net_pipe_socket_t) : bio_net_pipe_socket_t :=
  mk_pipe_socket (pp_handle x) m (pp_listen_data x) (pp_acceptors x).
Definition set_pp_acceptors (l : list (positive * Z)) (x : bio_net_pipe_socket_t) : bio_net_pipe_socket_t :=
  mk_pipe_socket (pp_handle x) (pp_completion_mode x) (pp_listen_data x) l.

Section code.
Context {OS File : Type}.
Context (others : io_ctx OS File bio_socket_impl_t → io_ctx OS File bio_socket_impl_t).
Context (kernel : win_request → OS → reply * OS).
Context (strerror : Z → string).
Abbreviation io := (io_ctx OS File bio_socket_impl_t).
Abbreviation here := "src/windows/net/pipe.c"%string.
Local Abbreviation set_error := (bio_set_error strerror).
Local Abbreviation win_call := (system_call kernel).

(** [bio_set_last_error]. *)
Definition bio_set_last_error (r : reply) (error : error_ptr) (line : Z) : error_ptr :=
  set_error error (last_error r) here line.

Definition bio_net_pipe_create (name : list Z) (sock_type extra_open_flags : Z) : st io reply :=
  win_call (rq_CreateNamedPipeA name
    (PIPE_ACCESS_DUPLEX ||| FILE_FLAG_OVERLAPPED ||| extra_open_flags)
    ((if sock_type =? SOCK_STREAM then PIPE_TYPE_BYTE else PIPE_TYPE_MESSAGE)
     ||| (if sock_type =? SOCK_STREAM then PIPE_READMODE_BYTE else PIPE_READMODE_MESSAGE)
     ||| PIPE_WAIT ||| PIPE_REJECT_REMOTE_CLIENTS)).

Definition bio_net_pipe_init_completion_mode (socket : Z) : st io bio_completion_mode_t :=
  r ← win_call (rq_SetFileCompletionNotificationModes socket FILE_SKIP_COMPLETION_PORT_ON_SUCCESS);
  mret (if succeeded r then BIO_COMPLETION_MODE_SKIP_ON_SUCCESS else BIO_COMPLETION_MODE_ALWAYS).

(** The socket that a pointer to [impl->pipe] stands for. *)
Definition deref_pipe (socket : positive) : st io bio_net_pipe_socket_t :=
  x ← deref_socket socket;
  match x with BIO_SOCKET_PIPE pipe => mret pipe | BIO_SOCKET_WS _ => fail Uninit end.
Definition store_pipe (socket : positive) (pipe : bio_net_pipe_socket_t) : st io unit :=
  store_socket socket (BIO_SOCKET_PIPE pipe).

(** The type of the socket is passed on as it is: [BIO_SOCKET_DATAGRAM] has the value of
    [SOCK_STREAM]. *)
Definition bio_net_pipe_listen (socket_type : bio_socket_type_t) (addr : bio_addr_translation_result_t)
    (error : error_ptr) : st io (option bio_net_pipe_socket_t * error_ptr) :=
  r ← bio_net_pipe_create (pipe_name (tr_storage addr)) (socket_type_value socket_type) FILE_FLAG_FIRST_PIPE_INSTANCE;
  if negb (succeeded r) then mret (None, bio_set_last_error r error 41)
  else mret (Some (mk_pipe_socket (rp_res r) BIO_COMPLETION_MODE_UNKNOWN None []), error).

(** The name of the pipe, with the prefix, and its type, on the first call; whether it
    succeeded. The name is stored up to [num_chars], the rest of the array is not set. *)
Definition ensure_listen_data (socket : positive) (error : error_ptr) : st io (bool * error_ptr) :=
  pipe ← deref_pipe socket;
  match pp_listen_data pipe with
  | Some _ => mret (true, error)
  | None =>
      let name_prefix_len := zlen BIO_NET_PIPE_NAME_PREFIX in
      r ← win_call (rq_GetFileNameInfo (pp_handle pipe));
      if negb (succeeded r) then mret (false, bio_set_last_error r error 69)
      else
        r ← win_call (rq_WideCharToMultiByte (rp_data r) (sizeof_listen_data_name - name_prefix_len));
        let num_chars := if succeeded r then rp_res r else 0 in
        if num_chars =? 0 then mret (false, bio_set_last_error r error 80)
        else if num_chars >=? sizeof_listen_data_name then
          mret (false, set_error error ERROR_NOT_SUPPORTED here 83)
        else
          _ ← (if name_prefix_len + num_chars <? sizeof_listen_data_name then mret tt else fail OutOfBounds);
          let name := BIO_NET_PIPE_NAME_PREFIX ++ rp_data r ++ [0] in
          r ← win_call (rq_GetNamedPipeInfo (pp_handle pipe));
          if negb (succeeded r) then mret (false, bio_set_last_error r error 90)
          else
            let sock_type := if Z.land (rp_res r) PIPE_TYPE_MESSAGE >? 0 then SOCK_DGRAM else SOCK_STREAM in
            _ ← store_pipe socket (mk_pipe_socket (pp_handle pipe) (pp_completion_mode pipe)
                  (Some (mk_pipe_listen_data sock_type name)) []);
            mret (true, error)
  end.

(** The acceptor on the stack, which [end_acceptor] leaves. *)
Definition new_acceptor : st io positive :=
  acceptor ← io_malloc;
  _ ← modify (λ s : io, set_io_reqs (<[acceptor := false]> (Io.io_reqs s)) s);
  mret acceptor.
Definition acceptor_cancelled (acceptor : positive) : st io bool :=
  s ← get; need Dangling (Io.io_reqs s !! acceptor).
Definition end_acceptor (acceptor : positive) : st io unit :=
  modify (λ s : io, set_io_reqs (delete acceptor (Io.io_reqs s)) s).

(** [BIO_LIST_REMOVE]: an acceptor that was cancelled is in no list any more. *)
Definition remove_acceptor (socket acceptor : positive) : st io unit :=
  cancelled ← acceptor_cancelled acceptor;
  if cancelled : bool then mret tt
  else
    pipe ← deref_pipe socket;
    store_pipe socket (set_pp_acceptors (filter (λ a, a.1 ≠ acceptor) (pp_acceptors pipe)) pipe).

(** The end of [bio_net_pipe_accept]. *)
Definition finish_accept (acceptor : positive) (client_sock : Z) (completion_mode : bio_completion_mode_t)
    (success : bool) (error : error_ptr) : st io (option bio_net_pipe_socket_t * error_ptr) :=
  cancelled ← acceptor_cancelled acceptor;
  _ ← end_acceptor acceptor;
  if success then mret (Some (mk_pipe_socket client_sock completion_mode None []), error)
  else
    _ ← (if negb cancelled then r ← win_call (rq_CloseHandle client_sock); mret tt else mret tt);
    mret (None, error).

(** The connection of a client: the error, or success. *)
Definition connect_named_pipe (client_sock : Z) (completion_mode : bio_completion_mode_t) (error : error_ptr) :
    st io (bool * error_ptr) :=
  req ← bio_prepare_io_req;
  r ← win_call (rq_ConnectNamedPipe client_sock (rq_overlapped req));
  if negb (succeeded r) then
    r ← (if last_error r =? ERROR_IO_PENDING then
           _ ← bio_wait_for_io others kernel req;
           win_call (rq_GetOverlappedResult client_sock (rq_overlapped req))
         else mret r);
    let error_code := last_error r in
    if negb (error_code =? ERROR_PIPE_CONNECTED) && negb (error_code =? ERROR_SUCCESS)
    then mret (false, bio_set_last_error r error 142)
    else mret (true, error)
  else
    _ ← bio_maybe_wait_after_success others kernel req completion_mode;
    mret (true, error).

Definition bio_net_pipe_accept (socket : positive) (error : error_ptr) :
    st io (option bio_net_pipe_socket_t * error_ptr) :=
  l ← ensure_listen_data socket error;
  let '(ok, error) := l in
  if negb ok then mret (None, error)
  else
    pipe ← deref_pipe socket;
    listen_data ← need NullDeref (pp_listen_data pipe);
    r ← bio_net_pipe_create (pl_name listen_data) (pl_sock_type listen_data) 0;
    if negb (succeeded r) then mret (None, bio_set_last_error r error 106)
    else
      let client_sock := pp_handle pipe in
      _ ← store_pipe socket (mk_pipe_socket (rp_res r) BIO_COMPLETION_MODE_UNKNOWN (pp_listen_data pipe)
            (pp_acceptors pipe));
      completion_mode ←
        (if decide (pp_completion_mode pipe = BIO_COMPLETION_MODE_UNKNOWN)
         then bio_net_pipe_init_completion_mode client_sock else mret (pp_completion_mode pipe));
      acceptor ← new_acceptor;
      r ← win_call (rq_CreateIoCompletionPort client_sock);
      if negb (succeeded r) then
        finish_accept acceptor client_sock completion_mode false (bio_set_last_error r error 123)
      else
        pipe ← deref_pipe socket;
        _ ← store_pipe socket (set_pp_acceptors (pp_acceptors pipe ++ [(acceptor, client_sock)]) pipe);
        c ← connect_named_pipe client_sock completion_mode error;
        let '(connected, error) := c in
        if negb connected then finish_accept acceptor client_sock completion_mode false error
        else
          _ ← remove_acceptor socket acceptor;
          cancelled ← acceptor_cancelled acceptor;
          if negb (bio_has_error error) && cancelled then
            finish_accept acceptor client_sock completion_mode false (set_error error ERROR_CANCELLED here 150)
          else finish_accept acceptor client_sock completion_mode true error.

Definition bio_net_pipe_connect (socket_type : bio_socket_type_t) (addr : bio_addr_translation_result_t)
    (error : error_ptr) : st io (option bio_net_pipe_socket_t * error_ptr) :=
  r ← win_call (rq_CreateFile (pipe_name (tr_storage addr)) (GENERIC_READ ||| GENERIC_WRITE) OPEN_EXISTING
        FILE_FLAG_OVERLAPPED);
  if negb (succeeded r) then mret (None, bio_set_last_error r error 187)
  else
    let handle := rp_res r in
    let mode := (if socket_type_value socket_type =? SOCK_DGRAM then PIPE_READMODE_MESSAGE else PIPE_READMODE_BYTE)
                  ||| PIPE_WAIT in
    r ← win_call (rq_SetNamedPipeHandleState handle mode);
    if negb (succeeded r) then
      let error := bio_set_last_error r error 194 in
      _ ← win_call (rq_CloseHandle handle); mret (None, error)
    else
      r ← win_call (rq_CreateIoCompletionPort handle);
      if negb (succeeded r) then
        let error := bio_set_last_error r error 199 in
        _ ← win_call (rq_CloseHandle handle); mret (None, error)
      else mret (Some (mk_pipe_socket handle BIO_COMPLETION_MODE_UNKNOWN None []), error).

(** The loop over the acceptors. *)
Fixpoint cancel_acceptors (acceptors : list (positive * Z)) : st io unit :=
  match acceptors with
  | [] => mret tt
  | (acceptor, handle) :: acceptors =>
      _ ← acceptor_cancelled acceptor;
      _ ← modify (λ s : io, set_io_reqs (<[acceptor := true]> (Io.io_reqs s)) s);
      _ ← win_call (rq_CancelIo handle);
      _ ← win_call (rq_DisconnectNamedPipe handle);
      _ ← win_call (rq_CloseHandle handle);
      cancel_acceptors acceptors
  end.

Definition bio_net_pipe_close (socket : positive) (error : error_ptr) : st io (bool * error_ptr) :=
  pipe ← deref_pipe socket;
  _ ← cancel_acceptors (pp_acceptors pipe);
  _ ← win_call (rq_CancelIo (pp_handle pipe));
  _ ← win_call (rq_DisconnectNamedPipe (pp_handle pipe));
  r ← win_call (rq_CloseHandle (pp_handle pipe));
  if succeeded r then mret (true, error)
  else mret (false, bio_set_last_error r error 233).

(** [socket->completion_mode], which is found out when it is first needed. *)
Definition ensure_pipe_completion_mode (socket : positive) : st io unit :=
  pipe ← deref_pipe socket;
  if decide (pp_completion_mode pipe = BIO_COMPLETION_MODE_UNKNOWN) then
    m ← bio_net_pipe_init_completion_mode (pp_handle pipe);
    store_pipe socket (set_pp_mode m pipe)
  else mret tt.

Definition bio_net_pipe_send (socket : positive) (buf : list Z) (error : error_ptr) : st io (Z * error_ptr) :=
  _ ← ensure_pipe_completion_mode socket;
  pipe ← deref_pipe socket;
  let buf := if zlen buf >? MAXDWORD then take (Z.to_nat MAXDWORD) buf else buf in
  req ← bio_prepare_io_req;
  o ← overlapped_op others kernel req (win_call (rq_WriteFile (pp_handle pipe) buf (rq_overlapped req)))
        (mret (pp_completion_mode pipe))
        (pipe ← deref_pipe socket; win_call (rq_GetOverlappedResult (pp_handle pipe) (rq_overlapped req)));
  let '(r, pending) := o in
  if succeeded r then mret (rp_res r, error)
  else mret (0, bio_set_last_error r error (if pending : bool then 264 else 259)).

(** The result comes with the bytes that were written to [buf]. *)
Definition bio_net_pipe_recv (socket : positive) (size : Z) (error : error_ptr) : st io (Z * list Z * error_ptr) :=
  _ ← ensure_pipe_completion_mode socket;
  pipe ← deref_pipe socket;
  let size := if size >? MAXDWORD then MAXDWORD else size in
  req ← bio_prepare_io_req;
  o ← overlapped_op others kernel req (win_call (rq_ReadFile (pp_handle pipe) size (rq_overlapped req)))
        (mret (pp_completion_mode pipe))
        (pipe ← deref_pipe socket; win_call (rq_GetOverlappedResult (pp_handle pipe) (rq_overlapped req)));
  let '(r, pending) := o in
  if succeeded r then mret (rp_res r, rp_data r, error)
  else mret (0, rp_data r, bio_set_last_error r error (if pending : bool then 300 else 295)).
End code.
