(* ===== verification/WinNet.v ===== *)
(** Sockets on Windows ([src/windows/net.c]): addresses are translated for Winsock or to the
    names of pipes, and the functions choose between the two. *)
From stdpp Require Import strings.
From S2P Require Import Prelude HandleTable Error Net Io Descriptors Windows WinSock WinPipe.

(** [BIO_PIPE_PREFIX], and the sizes of arrays. *)
Definition BIO_PIPE_PREFIX : list Z := [92; 92; 46; 92; 112; 105; 112; 101; 92].
Definition sizeof_pipe_prefix : Z := 10.
Definition sizeof_pipe_name : Z := 257.

(** Network byte order, on a machine whose own order is the other one. *)
Definition htons (port : Z) : Z := Z.lor (Z.shiftl (Z.land port 255) 8) (Z.shiftr port 8).

Section code.
Context {OS File : Type}.
Context (others : io_ctx OS File bio_socket_impl_t → io_ctx OS File bio_socket_impl_t).
Context (kernel : win_request → OS → reply * OS).
Context (strerror : Z → string).
Abbreviation io := (io_ctx OS File bio_socket_impl_t).
Abbreviation here := "src/windows/net.c"%string.
Local Abbreviation set_error := (bio_set_error strerror).
Local Abbreviation win_call := (system_call kernel).

(** ** Addresses *)

(** The name of the pipe, zero-terminated in its array, and the length before the end. *)
Definition pipe_name_of (len : Z) (name : list Z) : st io (list Z * Z) :=
  _ ← (if zlen name <? len then fail OutOfBounds else mret tt);
  c ← need OutOfBounds (zlookup name 0);
  let chars := drop (if (c =? 64 (* '@' *)) || (c =? 0) then 1 else 0) (take (Z.to_nat len) name) in
  let path := BIO_PIPE_PREFIX ++ ((λ ch, if ch =? 47 (* '/' *) then 92 else ch) <$> chars) in
  mret (path ++ replicate (Z.to_nat (sizeof_pipe_name - zlen path)) 0, zlen path).

(** [None] when the translation fails. *)
Definition bio_translate_address (addr : bio_addr_t) (port : Z) (error : error_ptr) :
    st io (option bio_addr_translation_result_t * error_ptr) :=
  match addr with
  | Ipv4 ipv4 =>
      cmp ← lift_res (bio_net_address_compare addr BIO_ADDR_IPV4_ANY);
      let result :=
        if negb (cmp =? 0) || negb (port =? BIO_PORT_ANY)
        then mk_translation (sockaddr_in AF_INET (htons port) ipv4) sizeof_sockaddr_in true
        else mk_translation (sockaddr_in AF_INET 0 (replicate 4 0)) sizeof_sockaddr_in false in
      mret (Some result, error)
  | Ipv6 ipv6 =>
      cmp ← lift_res (bio_net_address_compare addr BIO_ADDR_IPV6_ANY);
      let result :=
        if negb (cmp =? 0) || negb (port =? BIO_PORT_ANY)
        then mk_translation (sockaddr_in6 AF_INET6 (htons port) ipv6) sizeof_sockaddr_in6 true
        else mk_translation (sockaddr_in6 AF_INET6 0 (replicate 16 0)) sizeof_sockaddr_in6 false in
      mret (Some result, error)
  | Named len name =>
      if len >? 0 then
        if len + sizeof_pipe_prefix <=? sizeof_pipe_name then
          p ← pipe_name_of len name;
          mret (Some (mk_translation (sockaddr_un AF_UNIX p.1) p.2 true), error)
        else mret (None, bio_set_core_error error BIO_ERROR_INVALID_ARGUMENT here 70)
      else
        mret (Some (mk_translation (sockaddr_un AF_UNIX (replicate 257 0)) 0 false), error)
  end.

(** ** Sockets *)

Definition bio_net_init : st io unit := mret tt.
Definition bio_net_cleanup : st io unit := mret tt.

Definition bio_net_make_socket (proto : bio_socket_impl_t) : st io bio_handle_t :=
  instance ← io_malloc;
  _ ← modify (λ s : io, set_sockets (<[instance := proto]> (sockets s)) s);
  io_make_handle instance BIO_SOCKET_HANDLE.

(** [None]: it returns false. *)
Definition bio_net_wrap (handle : Z) (addr_type : bio_addr_type_t) (error : error_ptr) :
    st io (option bio_handle_t * error_ptr) :=
  r ← win_call (rq_CreateIoCompletionPort handle);
  if negb (succeeded r) then mret (None, set_error error (last_error r) here 110)
  else
    let proto :=
      if decide (addr_type = BIO_ADDR_NAMED)
      then BIO_SOCKET_PIPE (mk_pipe_socket handle BIO_COMPLETION_MODE_UNKNOWN None [])
      else BIO_SOCKET_WS (mk_ws_socket handle BIO_COMPLETION_MODE_UNKNOWN None) in
    sock ← bio_net_make_socket proto;
    mret (Some sock, error).

Definition bio_net_unwrap (socket : bio_handle_t) : st io Z :=
  impl ← io_resolve_handle socket BIO_SOCKET_HANDLE;
  match impl with
  | Some impl => x ← deref_socket impl; mret (sk_handle x)
  | None => mret INVALID_HANDLE_VALUE
  end.

(** A socket for what the functions below have made, if they have. *)
Definition socket_of {X} (make : X → bio_socket_impl_t) (r : option X * error_ptr) :
    st io (option bio_handle_t * error_ptr) :=
  match r with
  | (Some proto, error) => sock ← bio_net_make_socket (make proto); mret (Some sock, error)
  | (None, error) => mret (None, error)
  end.

Definition bio_net_listen (socket_type : bio_socket_type_t) (addr : bio_addr_t) (port : Z)
    (error : error_ptr) : st io (option bio_handle_t * error_ptr) :=
  t ← bio_translate_address addr port error;
  let '(translation_result, error) := t in
  match translation_result with
  | None => mret (None, error)
  | Some translation_result =>
      if sa_family (tr_storage translation_result) =? AF_UNIX then
        proto ← bio_net_pipe_listen kernel strerror socket_type translation_result error;
        socket_of BIO_SOCKET_PIPE proto
      else
        proto ← bio_net_ws_listen kernel strerror socket_type translation_result error;
        socket_of BIO_SOCKET_WS proto
  end.

Definition bio_net_accept (socket : bio_handle_t) (error : error_ptr) :
    st io (option bio_handle_t * error_ptr) :=
  impl ← io_resolve_handle socket BIO_SOCKET_HANDLE;
  match impl with
  | Some impl =>
      x ← deref_socket impl;
      match x with
      | BIO_SOCKET_WS _ =>
          proto ← bio_net_ws_accept others kernel strerror impl error;
          socket_of BIO_SOCKET_WS proto
      | BIO_SOCKET_PIPE _ =>
          proto ← bio_net_pipe_accept others kernel strerror impl error;
          socket_of BIO_SOCKET_PIPE proto
      end
  | None => mret (None, set_error error ERROR_INVALID_HANDLE here 203)
  end.

Definition bio_net_connect (socket_type : bio_socket_type_t) (addr : bio_addr_t) (port : Z)
    (error : error_ptr) : st io (option bio_handle_t * error_ptr) :=
  t ← bio_translate_address addr port error;
  let '(translation_result, error) := t in
  match translation_result with
  | None => mret (None, error)
  | Some translation_result =>
      if sa_family (tr_storage translation_result) =? AF_UNIX then
        proto ← bio_net_pipe_connect kernel strerror socket_type translation_result error;
        socket_of BIO_SOCKET_PIPE proto
      else
        proto ← bio_net_ws_connect others kernel strerror socket_type translation_result error;
        socket_of BIO_SOCKET_WS proto
  end.

(** What the function for the kind of socket returns is not used. *)
Definition bio_net_close (socket : bio_handle_t) (error : error_ptr) : st io (bool * error_ptr) :=
  impl ← io_close_handle socket BIO_SOCKET_HANDLE;
  match impl with
  | Some impl =>
      x ← deref_socket impl;
      r ← match x with
          | BIO_SOCKET_WS _ => bio_net_ws_close kernel strerror impl error
          | BIO_SOCKET_PIPE _ => bio_net_pipe_close kernel strerror impl error
          end;
      let '(success, error) := r in
      _ ← free_socket impl;
      mret (true, error)
  | None => mret (false, set_error error ERROR_INVALID_HANDLE here 251)
  end.

Definition bio_net_send (socket : bio_handle_t) (buf : list Z) (error : error_ptr) : st io (Z * error_ptr) :=
  impl ← io_resolve_handle socket BIO_SOCKET_HANDLE;
  match impl with
  | Some impl =>
      x ← deref_socket impl;
      match x with
      | BIO_SOCKET_WS _ => bio_net_ws_send others kernel strerror impl buf error
      | BIO_SOCKET_PIPE _ => bio_net_pipe_send others kernel strerror impl buf error
      end
  | None => mret (0, set_error error ERROR_INVALID_HANDLE here 273)
  end.

Definition bio_net_recv (socket : bio_handle_t) (size : Z) (error : error_ptr) :
    st io (Z * list Z * error_ptr) :=
  impl ← io_resolve_handle socket BIO_SOCKET_HANDLE;
  match impl with
  | Some impl =>
      x ← deref_socket impl;
      match x with
      | BIO_SOCKET_WS _ => bio_net_ws_recv others kernel strerror impl size error
      | BIO_SOCKET_PIPE _ => bio_net_pipe_recv others kernel strerror impl size error
      end
  | None => mret (0, [], set_error error ERROR_INVALID_HANDLE here 295)
  end.
End code.
