(* ===== verification/WinHandles.v ===== *)
(** The handles that the socket functions on Windows own ([WinSock.v], [WinPipe.v],
    [WinNet.v]): they are neither lost nor used up. *)
From stdpp Require Import strings.
From S2P Require Import Prelude HandleTable Error Net Io Descriptors Windows WinSock WinPipe WinNet.

(** What a call does to the open handles. *)
Definition handles_after (req : win_request) (r : reply) (F F' : gset Z) : Prop :=
  match req with
  | rq_CreateFileA _ _ _ _ _ | rq_WSASocket _ _ _ | rq_CreateNamedPipeA _ _ _ | rq_CreateFile _ _ _ _ =>
      if succeeded r then rp_res r ∉ F ∧ F' = {[rp_res r]} ∪ F else F' = F
  | rq_CloseHandle h | rq_closesocket h => F' = F ∖ {[h]}
  | _ => F' = F
  end.

Definition opens (req : win_request) : bool :=
  match req with
  | rq_CreateFileA _ _ _ _ _ | rq_WSASocket _ _ _ | rq_CreateNamedPipeA _ _ _ | rq_CreateFile _ _ _ _ => true
  | _ => false
  end.

Definition quiet (req : win_request) : bool :=
  match req with rq_CloseHandle _ | rq_closesocket _ => false | _ => negb (opens req) end.

Section handles.
Context {OS File : Type}.
Context (others : io_ctx OS File bio_socket_impl_t → io_ctx OS File bio_socket_impl_t).
Context (kernel : win_request → OS → reply * OS).
Context (strerror : Z → string).
Abbreviation io := (io_ctx OS File bio_socket_impl_t).
Local Abbreviation win_call := (system_call kernel).

(** The open handles that the caller is responsible for. *)
Context (own : OS → gset Z).

(** Whether a socket is one of Winsock. *)
Definition sk_ws (x : bio_socket_impl_t) : bool := match x with BIO_SOCKET_WS _ => true | BIO_SOCKET_PIPE _ => false end.

(** The socket at an address: its kind and handle. *)
Definition socket_at (s : io) (p : positive) (ws : bool) (h : Z) : Prop :=
  ∃ x, sockets s !! p = Some x ∧ sk_ws x = ws ∧ sk_handle x = h.

(** The documented behaviour of the system. The others leave the handles of the caller alone,
    and the acceptors that wait; they do not close the socket at [p], on which the caller
    accepts, nor accept on it. *)
Record handles (p : positive) : Prop := {
  hd_kernel req o : handles_after req (kernel req o).1 (own o) (own (kernel req o).2);
  hd_others s : io_wf s → own (os (others s)) = own (os s);
  hd_reqs s a : io_wf s → Io.io_reqs s !! a = Some false → Io.io_reqs (others s) !! a = Some false;
  hd_socket s ws h : io_wf s → socket_at s p ws h → socket_at (others s) p ws h;
  (* the name of a pipe is shorter than the array for it *)
  hd_name wide size o : 0 < size → rp_res (kernel (rq_WideCharToMultiByte wide size) o).1 < size;
}.

(** ** Operations *)

Definition net_exec (op : net_op) (error : error_ptr) : st io (option bio_handle_t) :=
  match op with
  | Listen t addr port => r ← bio_net_listen kernel strerror t addr port error; mret r.1
  | Accept socket => r ← bio_net_accept others kernel strerror socket error; mret r.1
  | Connect t addr port => r ← bio_net_connect others kernel strerror t addr port error; mret r.1
  | Close socket => _ ← bio_net_close kernel strerror socket error; mret None
  end.

Definition acceptors_of (x : bio_socket_impl_t) : list (positive * Z) :=
  match x with BIO_SOCKET_WS _ => [] | BIO_SOCKET_PIPE pipe => pp_acceptors pipe end.

(** The acceptors of a socket that is closed are still there. *)
Definition acceptors_ok (s : io) (op : net_op) : Prop :=
  match op with
  | Close socket => ∀ p x, object_of s socket BIO_SOCKET_HANDLE = Some p → sockets s !! p = Some x →
      ∀ a, a ∈ acceptors_of x → is_Some (Io.io_reqs s !! a.1)
  | _ => True
  end.

(** The socket on which an operation accepts. *)
Definition accepts_at (s : io) (op : net_op) (p : positive) : Prop :=
  match op with Accept socket => ∀ q, object_of s socket BIO_SOCKET_HANDLE = Some q → q = p | _ => True end.

(** With the operations that move bytes. *)
Inductive win_op :=
  | NetOp (op : net_op)
  | Send (socket : bio_handle_t) (buf : list Z)
  | Recv (socket : bio_handle_t) (size : Z).

Definition win_exec (op : win_op) (error : error_ptr) : st io (option bio_handle_t) :=
  match op with
  | NetOp op => net_exec op error
  | Send socket buf => _ ← bio_net_send others kernel strerror socket buf error; mret None
  | Recv socket size => _ ← bio_net_recv others kernel strerror socket size error; mret None
  end.

(** The handles are known and the addresses are proper; the socket of an operation that may
    wait is the one at [p]. *)
Definition win_op_ok (s : io) (op : win_op) (p : positive) : Prop :=
  match op with
  | NetOp op => net_op_ok s op ∧ accepts_at s op p ∧ acceptors_ok s op
  | Send socket _ | Recv socket _ => io_known s socket ∧ accepts_at s (Accept socket) p
  end.

(** The handles that an operation gives up: closing a pipe also closes those on which somebody
    waits for a client. *)
Definition given_up (s : io) (op : net_op) : gset Z :=
  match op with
  | Close socket =>
      match p ← object_of s socket BIO_SOCKET_HANDLE; sockets s !! p with
      | Some x => {[sk_handle x]} ∪ list_to_set (snd <$> acceptors_of x)
      | None => ∅
      end
  | _ => ∅
  end.

Local Abbreviation socket_fd := (socket_fd sk_handle).

(** What has become of the handles: a new socket owns a new handle, and without one none is
    left behind; a pipe that accepts is owned by the new socket or closed, and the
    socket that listens owns a new one. *)
Inductive handles_result (s : io) (op : net_op) (F : gset Z) : option bio_handle_t → io → Prop :=
  | hr_new socket h s' :
      h ∉ F → own (os s') = {[h]} ∪ F → socket_fd s' socket = Some h → handles_result s op F (Some socket) s'
  | hr_none s' : own (os s') = F → handles_result s op F None s'
  | hr_taken listener p socket old h s' :
      op = Accept listener → object_of s listener BIO_SOCKET_HANDLE = Some p → socket_at s p false old →
      h ∉ F → own (os s') = {[h]} ∪ F → socket_at s' p false h → socket_fd s' socket = Some old →
      handles_result s op F (Some socket) s'
  | hr_replaced listener p old h s' :
      op = Accept listener → object_of s listener BIO_SOCKET_HANDLE = Some p → socket_at s p false old →
      h ∉ F → own (os s') = ({[h]} ∪ F) ∖ {[old]} → socket_at s' p false h →
      handles_result s op F None s'.

Section spec.
Context (p : positive) (Hpolite : polite others) (Hh : handles p).

(** What the steps keep: the invariant; the handles [F]; the kind and the handle of the socket
    [t] at [p], and that the acceptor [a] is not cancelled, if there are such. *)
Record kept (t : option (bool * Z)) (a : option positive) (F : gset Z) (s0 s : io) : Prop := {
  kp_wf : io_wf s;
  kp_evolves : io_evolves s0 s;
  kp_own : own (os s) = F;
  kp_socket ws h : t = Some (ws, h) → socket_at s p ws h;
  kp_acceptor i : a = Some i → Io.io_reqs s !! i = Some false;
}.

Lemma kept_others t a F s0 s : kept t a F s0 s → kept t a F s0 (others s).
Proof.
  intros []. split.
  - by apply Hpolite.
  - etrans; [done|]. by apply Hpolite.
  - by rewrite (hd_others p Hh).
  - intros ws h ->. apply (hd_socket p Hh); auto.
  - intros i ->. apply (hd_reqs p Hh); auto.
Qed.

Lemma kept_signals t a F s0 s s' : signals_only s s' → kept t a F s0 s → kept t a F s0 s'.
Proof.
  intros H K. split.
  - apply H.
  - etrans; [apply K|apply H].
  - rewrite (so_os _ _ H). apply K.
  - intros ws h Ht. unfold socket_at. rewrite (so_sockets _ _ H). by apply (kp_socket _ _ _ _ _ K).
  - intros i Ha. rewrite (so_reqs _ _ H). by apply (kp_acceptor _ _ _ _ _ K).
Qed.

Lemma kept_os t a F F' s0 s o : kept t a F s0 s → own o = F' → kept t a F' s0 (set_os o s).
Proof. intros [] Ho. by split; [apply set_os_wf|..]. Qed.

Lemma quiet_call_reply req t a F s0 s (Q : reply → io → Prop) :
  quiet req = true → kept t a F s0 s →
  (∀ o, kept t a F s0 (set_os o s) → Q (kernel req (os s)).1 (set_os o s)) → wp (win_call req) Q s.
Proof.
  intros Hq Hk HQ. apply system_call_spec. apply HQ. eapply kept_os; [done|].
  pose proof (hd_kernel p Hh req (os s)) as H. rewrite (kp_own _ _ _ _ _ Hk) in H. by destruct req.
Qed.

Lemma quiet_call req t a F s0 s (Q : reply → io → Prop) :
  quiet req = true → kept t a F s0 s →
  (∀ r o, kept t a F s0 (set_os o s) → Q r (set_os o s)) → wp (win_call req) Q s.
Proof. intros Hq Hk HQ. eapply quiet_call_reply; [done..|]. auto. Qed.

Lemma open_call req t a F s0 s (Q : reply → io → Prop) :
  opens req = true → kept t a F s0 s →
  (∀ r o, (if succeeded r then rp_res r ∉ F ∧ kept t a ({[rp_res r]} ∪ F) s0 (set_os o s) else kept t a F s0 (set_os o s)) →
    Q r (set_os o s)) →
  wp (win_call req) Q s.
Proof.
  intros Hq Hk HQ. apply system_call_spec. apply HQ.
  pose proof (hd_kernel p Hh req (os s)) as H. rewrite (kp_own _ _ _ _ _ Hk) in H.
  destruct req; try done; cbn in H; (destruct (succeeded _);
    [destruct H; split; [done|by eapply kept_os]|by eapply kept_os]).
Qed.

Lemma close_call req h t a F s0 s (Q : reply → io → Prop) :
  req = rq_CloseHandle h ∨ req = rq_closesocket h → kept t a F s0 s →
  (∀ r o, kept t a (F ∖ {[h]}) s0 (set_os o s) → Q r (set_os o s)) → wp (win_call req) Q s.
Proof.
  intros Hq Hk HQ. apply system_call_spec. apply HQ. eapply kept_os; [done|].
  pose proof (hd_kernel p Hh req (os s)) as H. rewrite (kp_own _ _ _ _ _ Hk) in H. by destruct Hq as [-> | ->].
Qed.

Lemma prepare_kept t a F s0 s (Q : bio_io_req_t → io → Prop) :
  kept t a F s0 s →
  (∀ req s', kept t a F s0 s' → io_known s' (rq_signal req) → sockets s' = sockets s → Q req s') →
  wp bio_prepare_io_req Q s.
Proof.
  intros Hk HQ. apply win_prepare_spec; [apply Hk|]. intros req s' Hs' Hreq _.
  apply HQ; [by eapply kept_signals|done|apply Hs'].
Qed.

Lemma wait_kept req t a F s0 s (Q : unit → io → Prop) :
  kept t a F s0 s → io_known s (rq_signal req) → (∀ s', kept t a F s0 s' → Q tt s') →
  wp (bio_wait_for_io others kernel req) Q s.
Proof.
  intros Hk Hreq HQ. apply wait_for_io_spec; [done|apply Hk|done|]. intros s' Hs'. apply HQ, kept_others.
  eapply kept_signals; [done|]. apply kept_others in Hk. eapply kept_os; [done|].
  pose proof (hd_kernel p Hh (rq_completion (ov_at (rq_overlapped req))) (os (others s))) as H. cbn in H.
  rewrite H. apply Hk.
Qed.

Lemma maybe_wait_kept req m t a F s0 s (Q : unit → io → Prop) :
  kept t a F s0 s → io_known s (rq_signal req) → (∀ s', kept t a F s0 s' → Q tt s') →
  wp (bio_maybe_wait_after_success others kernel req m) Q s.
Proof.
  intros Hk Hreq HQ. unfold bio_maybe_wait_after_success. case_decide.
  - apply win_raise_spec; [apply Hk|done|]. intros s' Hs'. apply HQ. by eapply kept_signals.
  - by eapply wait_kept.
Qed.

(** ** Winsock *)

Lemma maybe_wait_for_io_kept h m req error r t a F s0 s (Q : bool * error_ptr → io → Prop) :
  kept t a F s0 s → io_known s (rq_signal req) → (∀ x s', kept t a F s0 s' → Q x s') →
  wp (bio_net_maybe_wait_for_io others kernel strerror h m req error r) Q s.
Proof.
  intros Hk Hreq HQ. unfold bio_net_maybe_wait_for_io. destruct (succeeded r); cbn [negb].
  { wp_step. eapply maybe_wait_kept; [done..|]. intros s1 Hk1. wp_steps. by apply HQ. }
  destruct (last_error r =? ERROR_IO_PENDING); cbn [negb]; [|wp_steps; by apply HQ].
  wp_step. eapply wait_kept; [done..|]. intros s1 Hk1. wp_step. eapply quiet_call; [done..|].
  intros r2 o Hk2. destruct (succeeded r2); wp_steps; by apply HQ.
Qed.

Lemma init_completion_mode_kept h t a F s0 s (Q : bio_completion_mode_t → io → Prop) :
  kept t a F s0 s → (∀ m o, kept t a F s0 (set_os o s) → Q m (set_os o s)) →
  wp (bio_net_ws_init_completion_mode kernel h) Q s.
Proof.
  intros Hk HQ. unfold bio_net_ws_init_completion_mode, bio_net_ws_completion_mode. wp_step. wp_step.
  eapply quiet_call; [done..|]. intros r o Hk1. wp_step. case_decide; wp_steps; [|by apply HQ].
  eapply quiet_call; [done..|]. intros r2 o2 Hk2. wp_steps. by apply (HQ _ o2).
Qed.

(** The end of a function that has opened a handle. *)
Lemma abandon_kept h error t a F s0 s (Q : option bio_net_ws_socket_t * error_ptr → io → Prop) :
  h ∉ F → kept t a ({[h]} ∪ F) s0 s → (∀ s', kept t a F s0 s' → Q (None, error) s') →
  wp (abandon kernel h error) Q s.
Proof.
  intros Hh' Hk HQ. unfold abandon. wp_step. eapply (close_call _ h); [by right|done|]. intros r o Hk1.
  rewrite new_removed in Hk1 by done. wp_steps. by apply HQ.
Qed.

(** What a function that opens a handle gives back. *)
Definition opened {X} (handle : X → Z) t F s0 (r : option X * error_ptr) (s : io) : Prop :=
  match r.1 with
  | Some x => handle x ∉ F ∧ kept t None ({[handle x]} ∪ F) s0 s
  | None => kept t None F s0 s
  end.

Lemma ws_listen_opened t addr error F s0 s :
  kept None None F s0 s →
  wp (bio_net_ws_listen kernel strerror t addr error) (opened ws_handle None F s0) s.
Proof.
  intros Hk. unfold bio_net_ws_listen. wp_step. eapply open_call; [done..|]. intros r o Hr.
  destruct (succeeded r); cbn [negb]; [|by wp_steps]. destruct Hr as [Hni Hk1]. set (h := rp_res r) in *.
  assert (Hab : ∀ e s', kept None None ({[h]} ∪ F) s0 s' → wp (abandon kernel h e) (opened ws_handle None F s0) s').
  { intros e s' Hs'. eapply abandon_kept; [done..|]. by intros. }
  do 3 (wp_step; eapply quiet_call; [done..|]; intros ? ? ?; case_match; [by apply Hab|]). wp_steps. by split.
Qed.

Lemma ws_connect_opened t addr error F s0 s :
  kept None None F s0 s →
  wp (bio_net_ws_connect others kernel strerror t addr error) (opened ws_handle None F s0) s.
Proof.
  intros Hk. unfold bio_net_ws_connect. wp_step. eapply open_call; [done..|]. intros r o Hr.
  destruct (succeeded r); cbn [negb]; [|by wp_steps]. destruct Hr as [Hni Hk1]. set (h := rp_res r) in *.
  assert (Hab : ∀ e s', kept None None ({[h]} ∪ F) s0 s' → wp (abandon kernel h e) (opened ws_handle None F s0) s').
  { intros e s' Hs'. eapply abandon_kept; [done..|]. by intros. }
  wp_step. eapply quiet_call; [done..|]. intros r1 o1 Hk2. case_match; [by apply Hab|].
  wp_step. eapply init_completion_mode_kept; [done|]. intros m o2 Hk3.
  wp_step. eapply quiet_call; [done..|]. intros r2 o3 Hk4. case_match; [by apply Hab|].
  assert (Hwait : ∀ op e s' (k : error_ptr → st io (option bio_net_ws_socket_t * error_ptr)),
    (∀ ov, quiet (op ov) = true) → kept None None ({[h]} ∪ F) s0 s' →
    (∀ e s'', kept None None ({[h]} ∪ F) s0 s'' → wp (k e) (opened ws_handle None F s0) s'') →
    wp (req ← bio_prepare_io_req; r ← win_call (op (rq_overlapped req));
        w ← bio_net_maybe_wait_for_io others kernel strerror h m req e r;
        let '(ok, error) := w in if negb ok then abandon kernel h error else k error)
      (opened ws_handle None F s0) s').
  { intros op e s' k Hop Hs' Hrest. wp_step. eapply prepare_kept; [done|]. intros req s1 Hs1 Hreq _.
    wp_step. eapply quiet_call; [by apply Hop|done|]. intros r3 o4 Hs2. wp_step.
    eapply maybe_wait_for_io_kept; [done..|]. intros [ok e'] s3 Hs3. destruct ok; cbn; auto. }
  apply (Hwait (λ ov, rq_WSAIoctl h WSAID_CONNECTEX ov)); [done..|]. intros e s1 Hs1.
  apply (Hwait (λ ov, rq_ConnectEx h (tr_storage addr) (tr_addr_len addr) ov)); [done..|]. intros e' s2 Hs2.
  wp_steps. by split.
Qed.

(** *** Accepting *)

Lemma deref_kept ws h a F s0 s (Q : bio_socket_impl_t → io → Prop) :
  kept (Some (ws, h)) a F s0 s →
  (∀ x, sockets s !! p = Some x → sk_ws x = ws → sk_handle x = h → Q x s) → wp (deref_socket p) Q s.
Proof.
  intros Hk HQ. destruct (kp_socket _ _ _ _ _ Hk ws h eq_refl) as (x & Hx & Hws & Hhd).
  unfold deref_socket. wp_step. wp_step. eapply wp_need; [done|]. by apply HQ.
Qed.

Lemma store_kept x ws h a F s0 s (Q : unit → io → Prop) :
  kept (Some (ws, h)) a F s0 s →
  (∀ s', kept (Some (sk_ws x, sk_handle x)) a F s0 s' → sockets s' !! p = Some x → Io.io_reqs s' = Io.io_reqs s → Q tt s') →
  wp (store_socket p x) Q s.
Proof.
  intros Hk HQ. unfold store_socket. wp_step. eapply deref_kept; [done|]. intros y _ _ _. wp_step.
  apply HQ; [|by cbn; rewrite lookup_insert_eq|done]. destruct Hk. split; try done; [by apply insert_socket_wf|].
  intros ws' h' [= <- <-]. exists x. split_and!; [by cbn; rewrite lookup_insert_eq|done..].
Qed.

Lemma deref_ws_kept h a F s0 s (Q : bio_net_ws_socket_t → io → Prop) :
  kept (Some (true, h)) a F s0 s →
  (∀ w, sockets s !! p = Some (BIO_SOCKET_WS w) → ws_handle w = h → Q w s) → wp (deref_ws p) Q s.
Proof.
  intros Hk HQ. unfold deref_ws. wp_step. eapply deref_kept; [done|]. intros [w|w] Hx Hws Hhd; [|done].
  wp_steps. by apply HQ.
Qed.

Lemma ensure_completion_mode_kept h F s0 s (Q : unit → io → Prop) :
  kept (Some (true, h)) None F s0 s → (∀ s', kept (Some (true, h)) None F s0 s' → Q tt s') →
  wp (ensure_completion_mode kernel p) Q s.
Proof.
  intros Hk HQ. unfold ensure_completion_mode. wp_step. eapply deref_ws_kept; [done|]. intros w _ Hw.
  case_decide; [|wp_steps; by apply HQ]. wp_step. eapply init_completion_mode_kept; [done|]. intros m o Hk1.
  eapply store_kept; [done|]. intros s2 Hk2 _ _. apply HQ. cbn in Hk2. by rewrite Hw in Hk2.
Qed.

Lemma ensure_listen_data_kept h error F s0 s (Q : bool * error_ptr → io → Prop) :
  kept (Some (true, h)) None F s0 s →
  (∀ r s', kept (Some (true, h)) None F s0 s' →
    (r.1 = true → ∃ w d, sockets s' !! p = Some (BIO_SOCKET_WS w) ∧ ws_listen_data w = Some d) → Q r s') →
  wp (WinSock.ensure_listen_data others kernel strerror p error) Q s.
Proof.
  intros Hk HQ. unfold WinSock.ensure_listen_data. wp_step. eapply deref_ws_kept; [done|]. intros w Hx Hw.
  destruct (ws_listen_data w) as [d|] eqn:Hd; [wp_steps; apply HQ; eauto|].
  wp_step. eapply prepare_kept; [done|]. intros req s1 Hk1 Hreq _. wp_step.
  eapply quiet_call; [done..|]. intros r1 o1 Hk2. wp_step. eapply maybe_wait_for_io_kept; [done..|].
  intros [ok e] s2 Hk3. destruct ok; cbn [negb]; [|wp_steps; by apply HQ].
  wp_step. eapply deref_ws_kept; [done|]. intros w2 _ Hw2. wp_step.
  eapply quiet_call; [done..|]. intros r2 o2 Hk4. destruct (succeeded r2); cbn [negb]; [|wp_steps; by apply HQ].
  wp_step. eapply quiet_call; [done..|]. intros r3 o3 Hk5. destruct (succeeded r3); cbn [negb]; [|wp_steps; by apply HQ].
  wp_step. eapply store_kept; [done|]. intros s6 Hk6 Hx6 _. wp_steps. cbn in Hk6. rewrite Hw2 in Hk6.
  apply HQ; [done|]. intros _. eexists _, _. by split.
Qed.

Lemma ws_accept_opened h error F s0 s :
  kept (Some (true, h)) None F s0 s →
  wp (bio_net_ws_accept others kernel strerror p error) (opened ws_handle (Some (true, h)) F s0) s.
Proof.
  intros Hk. unfold bio_net_ws_accept. wp_step. eapply ensure_completion_mode_kept; [done|]. intros s1 Hk1.
  wp_step. eapply ensure_listen_data_kept; [done|]. intros [ok e] s2 Hk2 Hd.
  destruct ok; cbn [negb]; [|by wp_steps]. destruct (Hd eq_refl) as (w & d & Hx & Hwd).
  wp_step. eapply deref_ws_kept; [done|]. intros w' Hx' Hw'. rewrite Hx in Hx'. injection Hx' as <-.
  rewrite Hwd. wp_step. wp_step. wp_step. eapply open_call; [done..|]. intros r o Hr.
  destruct (succeeded r); cbn [negb]; [|by wp_steps]. destruct Hr as [Hni Hk3]. set (c := rp_res r) in *.
  assert (Hab : ∀ e s', kept (Some (true, h)) None ({[c]} ∪ F) s0 s' →
    wp (abandon kernel c e) (opened ws_handle (Some (true, h)) F s0) s').
  { intros e' s' Hs'. eapply abandon_kept; [done..|]. by intros. }
  wp_step. eapply prepare_kept; [done|]. intros req s4 Hk4 Hreq _. wp_step.
  eapply quiet_call; [done..|]. intros r5 o5 Hk5. wp_step. eapply maybe_wait_for_io_kept; [done..|].
  intros [ok' e'] s6 Hk6. destruct ok'; cbn [negb]; [|by apply Hab].
  wp_step. eapply deref_ws_kept; [done|]. intros w2 _ _.
  do 2 (wp_step; eapply quiet_call; [done..|]; intros ? ? ?; case_match; [by apply Hab|]). wp_steps. by split.
Qed.

(** ** Pipes *)

Lemma pipe_listen_opened t addr error F s0 s :
  kept None None F s0 s →
  wp (bio_net_pipe_listen kernel strerror t addr error) (opened pp_handle None F s0) s.
Proof.
  intros Hk. unfold bio_net_pipe_listen, bio_net_pipe_create. wp_step. eapply open_call; [done..|]. intros r o Hr.
  destruct (succeeded r); cbn [negb]; wp_steps; done.
Qed.

Lemma pipe_connect_opened t addr error F s0 s :
  kept None None F s0 s →
  wp (bio_net_pipe_connect kernel strerror t addr error) (opened pp_handle None F s0) s.
Proof.
  intros Hk. unfold bio_net_pipe_connect. wp_step. eapply open_call; [done..|]. intros r o Hr.
  destruct (succeeded r); cbn [negb]; [|by wp_steps]. destruct Hr as [Hni Hk1]. set (h := rp_res r) in *.
  assert (Hab : ∀ (e : error_ptr) s', kept None None ({[h]} ∪ F) s0 s' →
    wp (_ ← win_call (rq_CloseHandle h); mret (None, e)) (opened pp_handle None F s0) s').
  { intros e s' Hs'. wp_step. eapply (close_call _ h); [by left|done|]. intros r' o' Hk'.
    rewrite new_removed in Hk' by done. by wp_steps. }
  do 2 (wp_step; eapply quiet_call; [done..|]; intros ? ? ?; case_match; [by apply Hab|]). wp_steps. by split.
Qed.

Lemma deref_pipe_kept h a F s0 s (Q : bio_net_pipe_socket_t → io → Prop) :
  kept (Some (false, h)) a F s0 s →
  (∀ w, sockets s !! p = Some (BIO_SOCKET_PIPE w) → pp_handle w = h → Q w s) → wp (deref_pipe p) Q s.
Proof.
  intros Hk HQ. unfold deref_pipe. wp_step. eapply deref_kept; [done|]. intros [w|w] Hx Hws Hhd; [done|].
  wp_steps. by apply HQ.
Qed.

Lemma pipe_listen_data_kept h error F s0 s (Q : bool * error_ptr → io → Prop) :
  kept (Some (false, h)) None F s0 s →
  (∀ r s', kept (Some (false, h)) None F s0 s' →
    (r.1 = true → ∃ w d, sockets s' !! p = Some (BIO_SOCKET_PIPE w) ∧ pp_listen_data w = Some d) → Q r s') →
  wp (ensure_listen_data kernel strerror p error) Q s.
Proof.
  intros Hk HQ. unfold ensure_listen_data. wp_step. eapply deref_pipe_kept; [done|]. intros w Hx Hw.
  destruct (pp_listen_data w) as [d|] eqn:Hd; [wp_steps; apply HQ; eauto|].
  wp_step. eapply quiet_call; [done..|]. intros r1 o1 Hk1. destruct (succeeded r1); cbn [negb]; [|wp_steps; by apply HQ].
  wp_step. set (size := sizeof_listen_data_name - zlen BIO_NET_PIPE_NAME_PREFIX).
  pose proof (hd_name p Hh (rp_data r1) size (os (set_os o1 s)) eq_refl) as Hsize.
  eapply quiet_call_reply; [done..|]. intros o2 Hk2. set (r2 := (kernel _ _).1) in *. cbv zeta. set (n := if succeeded r2 then rp_res r2 else 0).
  assert (Hn : n < size) by (unfold n; destruct (succeeded r2); [done|reflexivity]).
  destruct (n =? 0); [wp_steps; by apply HQ|]. destruct (n >=? sizeof_listen_data_name); [wp_steps; by apply HQ|].
  rewrite (proj2 (Z.ltb_lt _ _)) by (unfold size in Hn; lia). wp_step. wp_step. wp_step.
  eapply quiet_call; [done..|]. intros r3 o3 Hk3. destruct (succeeded r3); cbn [negb]; [|wp_steps; by apply HQ].
  wp_step. eapply store_kept; [done|]. intros s4 Hk4 Hx4 _. wp_steps. cbn in Hk4. rewrite Hw in Hk4.
  apply HQ; [done|]. intros _. eexists _, _. by split.
Qed.

Lemma new_acceptor_kept t F s0 s (Q : positive → io → Prop) :
  kept t None F s0 s → (∀ a s', kept t (Some a) F s0 s' → Q a s') → wp new_acceptor Q s.
Proof.
  intros Hk HQ. unfold new_acceptor, io_malloc. wp_steps. apply HQ. destruct Hk. split; try done.
  - cbn. pose proof (malloc_wf s kp_wf0) as []. by split.
  - etrans; [done|]. split; [done|]. cbn. lia.
  - intros i [= <-]. cbn. by rewrite lookup_insert_eq.
Qed.

Lemma acceptor_kept t a F s0 s (Q : bool → io → Prop) :
  kept t (Some a) F s0 s → Q false s → wp (acceptor_cancelled a) Q s.
Proof.
  intros Hk HQ. unfold acceptor_cancelled. wp_steps. eapply wp_need; [by apply (kp_acceptor _ _ _ _ _ Hk)|done].
Qed.

Lemma end_acceptor_kept t a F s0 s (Q : unit → io → Prop) :
  kept t (Some a) F s0 s → (∀ s', kept t None F s0 s' → Q tt s') → wp (end_acceptor a) Q s.
Proof.
  intros Hk HQ. unfold end_acceptor. wp_step. apply HQ. destruct Hk as [[] ? ? ? ?]. split; [by split|done..].
Qed.

(** What accepting on a pipe gives back: the pipe, which was the one of the socket. *)
Definition pipe_accepted old F s0 (r : option bio_net_pipe_socket_t * error_ptr) (s : io) : Prop :=
  match r.1 with
  | Some x => pp_handle x = old ∧ ∃ h, h ∉ F ∧ kept (Some (false, h)) None ({[h]} ∪ F) s0 s
  | None => kept (Some (false, old)) None F s0 s ∨
      ∃ h, h ∉ F ∧ kept (Some (false, h)) None (({[h]} ∪ F) ∖ {[old]}) s0 s
  end.

Lemma finish_accept_kept a old m success error h F s0 s :
  h ∉ F → kept (Some (false, h)) (Some a) ({[h]} ∪ F) s0 s →
  wp (finish_accept kernel a old m success error) (pipe_accepted old F s0) s.
Proof.
  intros Hni Hk. unfold finish_accept. wp_step. eapply acceptor_kept; [done|].
  wp_step. eapply end_acceptor_kept; [done|]. intros s1 Hk1. destruct success.
  - wp_steps. split; [done|]. eauto.
  - cbn [negb]. wp_step. wp_step. eapply (close_call _ old); [by left|done|]. intros r o Hk2. wp_steps.
    right. eauto.
Qed.

Lemma connect_named_pipe_kept old m error t a F s0 s (Q : bool * error_ptr → io → Prop) :
  kept t a F s0 s → (∀ r s', kept t a F s0 s' → Q r s') →
  wp (connect_named_pipe others kernel strerror old m error) Q s.
Proof.
  intros Hk HQ. unfold connect_named_pipe. wp_step. eapply prepare_kept; [done|]. intros req s1 Hk1 Hreq _.
  wp_step. eapply quiet_call; [done..|]. intros r o Hk2. destruct (succeeded r); cbn [negb].
  { wp_step. eapply maybe_wait_kept; [done..|]. intros s2 Hk3. wp_steps. by apply HQ. }
  assert (Hend : ∀ r' s', kept t a F s0 s' →
    wp (if negb (last_error r' =? ERROR_PIPE_CONNECTED) && negb (last_error r' =? ERROR_SUCCESS)
        then mret (false, bio_set_last_error strerror r' error 142) else mret (true, error)) Q s').
  { intros r' s' Hs'. case_match; wp_steps; by apply HQ. }
  wp_step. destruct (last_error r =? ERROR_IO_PENDING); [|wp_steps; by apply Hend].
  wp_step. eapply wait_kept; [done..|]. intros s3 Hk3. eapply quiet_call; [done..|]. intros r' o' Hk4. by apply Hend.
Qed.

Lemma pipe_accept_accepted old error F s0 s :
  kept (Some (false, old)) None F s0 s →
  wp (bio_net_pipe_accept others kernel strerror p error) (pipe_accepted old F s0) s.
Proof.
  intros Hk. unfold bio_net_pipe_accept, bio_net_pipe_create. wp_step. eapply pipe_listen_data_kept; [done|].
  intros [ok e] s1 Hk1 Hd. destruct ok; cbn [negb]; [|wp_steps; by left]. destruct (Hd eq_refl) as (w & d & Hx & Hwd).
  wp_step. eapply deref_pipe_kept; [done|]. intros w' Hx' Hw'. rewrite Hx in Hx'. injection Hx' as <-.
  rewrite Hwd. wp_step. wp_step. wp_step. eapply open_call; [done..|]. intros r o Hr.
  destruct (succeeded r); cbn [negb]; [|wp_steps; by left]. destruct Hr as [Hni Hk2]. set (h := rp_res r) in *.
  rewrite Hw'. wp_step. eapply store_kept; [done|]. intros s3 Hk3 _ _. cbn in Hk3. wp_step.
  assert (Hmode : ∀ Q, (∀ m s', kept (Some (false, h)) None ({[h]} ∪ F) s0 s' → Q m s') →
    wp (if decide (pp_completion_mode w = BIO_COMPLETION_MODE_UNKNOWN)
        then bio_net_pipe_init_completion_mode kernel old else mret (pp_completion_mode w)) Q s3).
  { intros Q HQ. case_decide; [|wp_steps; by apply HQ]. unfold bio_net_pipe_init_completion_mode. wp_step.
    eapply quiet_call; [done..|]. intros r' o' Hk'. wp_steps. by apply HQ. }
  apply Hmode. intros m s4 Hk4. wp_step. eapply new_acceptor_kept; [done|]. intros a s5 Hk5. wp_step.
  eapply quiet_call; [done..|]. intros r6 o6 Hk6. destruct (succeeded r6); cbn [negb]; [|by eapply finish_accept_kept].
  wp_step. eapply deref_pipe_kept; [done|]. intros w7 _ Hw7. wp_step. eapply store_kept; [done|]. intros s8 Hk8 _ _.
  cbn in Hk8. rewrite Hw7 in Hk8. wp_step. eapply connect_named_pipe_kept; [done|]. intros [connected e'] s9 Hk9.
  destruct connected; cbn [negb]; [|by eapply finish_accept_kept].
  wp_step. unfold remove_acceptor. wp_step. eapply acceptor_kept; [done|]. wp_step.
  eapply deref_pipe_kept; [done|]. intros w10 _ Hw10. eapply store_kept; [done|]. intros s11 Hk11 _ _.
  cbn in Hk11. rewrite Hw10 in Hk11. wp_step. eapply acceptor_kept; [done|]. rewrite andb_false_r.
  by eapply finish_accept_kept.
Qed.

(** ** Sending and receiving *)

Lemma overlapped_op_kept req start m result t a F s0 s (Q : reply * bool → io → Prop) :
  kept t a F s0 s → io_known s (rq_signal req) → quiet start = true →
  (∀ s' Q', kept t a F s0 s' → (∀ r s'', kept t a F s0 s'' → Q' r s'') → wp result Q' s') →
  (∀ r s', kept t a F s0 s' → Q r s') →
  wp (overlapped_op others kernel req (win_call start) (mret m) result) Q s.
Proof.
  intros Hk Hreq Hq Hres HQ. unfold overlapped_op. wp_step. eapply quiet_call; [done..|]. intros r o Hk1.
  destruct (succeeded r).
  { wp_steps. eapply maybe_wait_kept; [done..|]. intros s2 Hk2. wp_steps. by apply HQ. }
  destruct (last_error r =? ERROR_IO_PENDING); [|wp_steps; by apply HQ].
  wp_step. eapply wait_kept; [done..|]. intros s2 Hk2. wp_step. apply Hres; [done|]. intros r2 s3 Hk3. wp_steps. by apply HQ.
Qed.

Lemma ws_send_kept h buf error F s0 s :
  kept (Some (true, h)) None F s0 s →
  wp (bio_net_ws_send others kernel strerror p buf error) (λ _ s', kept (Some (true, h)) None F s0 s') s.
Proof.
  intros Hk. unfold bio_net_ws_send. wp_step. eapply ensure_completion_mode_kept; [done|]. intros s1 Hk1.
  wp_step. eapply deref_ws_kept; [done|]. intros w _ _. wp_step. eapply prepare_kept; [done|]. intros req s2 Hk2 Hreq _.
  wp_step. eapply overlapped_op_kept; [done..| |].
  - intros s' Q' Hk' HQ'. wp_step. eapply deref_ws_kept; [done|]. intros w' _ _. eapply quiet_call; [done..|]. eauto.
  - intros [r pending] s3 Hk3. case_match; by wp_steps.
Qed.

Lemma ws_recv_kept h size error F s0 s :
  kept (Some (true, h)) None F s0 s →
  wp (bio_net_ws_recv others kernel strerror p size error) (λ _ s', kept (Some (true, h)) None F s0 s') s.
Proof.
  intros Hk. unfold bio_net_ws_recv. wp_step. eapply ensure_completion_mode_kept; [done|]. intros s1 Hk1.
  wp_step. eapply deref_ws_kept; [done|]. intros w _ _. wp_step. eapply prepare_kept; [done|]. intros req s2 Hk2 Hreq _.
  wp_step. eapply overlapped_op_kept; [done..| |].
  - intros s' Q' Hk' HQ'. wp_step. eapply deref_ws_kept; [done|]. intros w' _ _. eapply quiet_call; [done..|]. eauto.
  - intros [r pending] s3 Hk3. case_match; by wp_steps.
Qed.

Lemma ensure_pipe_mode_kept h F s0 s (Q : unit → io → Prop) :
  kept (Some (false, h)) None F s0 s → (∀ s', kept (Some (false, h)) None F s0 s' → Q tt s') →
  wp (ensure_pipe_completion_mode kernel p) Q s.
Proof.
  intros Hk HQ. unfold ensure_pipe_completion_mode, bio_net_pipe_init_completion_mode. wp_step.
  eapply deref_pipe_kept; [done|]. intros w _ Hw. case_decide; [|wp_steps; by apply HQ]. wp_step. wp_step.
  eapply quiet_call; [done..|]. intros r o Hk1. wp_step. eapply store_kept; [done|]. intros s2 Hk2 _ _.
  apply HQ. cbn in Hk2. by rewrite Hw in Hk2.
Qed.

Lemma pipe_send_kept h buf error F s0 s :
  kept (Some (false, h)) None F s0 s →
  wp (bio_net_pipe_send others kernel strerror p buf error) (λ _ s', kept (Some (false, h)) None F s0 s') s.
Proof.
  intros Hk. unfold bio_net_pipe_send. wp_step. eapply ensure_pipe_mode_kept; [done|]. intros s1 Hk1.
  wp_step. eapply deref_pipe_kept; [done|]. intros w _ _. wp_step. eapply prepare_kept; [done|]. intros req s2 Hk2 Hreq _.
  wp_step. eapply overlapped_op_kept; [done..| |].
  - intros s' Q' Hk' HQ'. wp_step. eapply deref_pipe_kept; [done|]. intros w' _ _. eapply quiet_call; [done..|]. eauto.
  - intros [r pending] s3 Hk3. case_match; by wp_steps.
Qed.

Lemma pipe_recv_kept h size error F s0 s :
  kept (Some (false, h)) None F s0 s →
  wp (bio_net_pipe_recv others kernel strerror p size error) (λ _ s', kept (Some (false, h)) None F s0 s') s.
Proof.
  intros Hk. unfold bio_net_pipe_recv. wp_step. eapply ensure_pipe_mode_kept; [done|]. intros s1 Hk1.
  wp_step. eapply deref_pipe_kept; [done|]. intros w _ _. wp_step. eapply prepare_kept; [done|]. intros req s2 Hk2 Hreq _.
  wp_step. eapply overlapped_op_kept; [done..| |].
  - intros s' Q' Hk' HQ'. wp_step. eapply deref_pipe_kept; [done|]. intros w' _ _. eapply quiet_call; [done..|]. eauto.
  - intros [r pending] s3 Hk3. case_match; by wp_steps.
Qed.

(** ** The functions of [net.c] *)

Lemma make_socket_kept proto t F s0 s (Q : bio_handle_t → io → Prop) :
  kept t None F s0 s → (t ≠ None → (p < io_next s0)%positive) →
  (∀ h s', kept t None F s0 s' → socket_fd s' h = Some (sk_handle proto) → Q h s') →
  wp (bio_net_make_socket proto) Q s.
Proof.
  intros Hk Hp HQ. unfold bio_net_make_socket, io_malloc. wp_steps. set (s1 := set_sockets _ _).
  assert (Hwf1 : io_wf s1) by by apply insert_socket_wf, malloc_wf, Hk.
  apply io_make_spec; [done|cbn; rewrite lookup_insert_eq; eauto| |cbn; lia|].
  { intros h Hh'. destruct (proj1 (iw_sockets _ (kp_wf _ _ _ _ _ Hk)) _ _ Hh') as (q & [= <-] & _ & Hlt). lia. }
  intros h tb Hwf2 Hkn Hl He. apply HQ.
  - destruct (kp_evolves _ _ _ _ _ Hk) as [He0 Hn0]. split; [done| |apply Hk| |done].
    + split; [|cbn; lia]. etrans; [exact He0|exact He].
    + intros ws h' Ht. destruct (kp_socket _ _ _ _ _ Hk ws h' Ht) as (x & Hx & Hr). exists x. split; [|done].
      cbn. rewrite lookup_insert_ne; [done|]. assert (p < io_next s0)%positive by (apply Hp; congruence). lia.
  - unfold Descriptors.socket_fd, object_of. cbn. rewrite Hl, lookup_insert_eq, decide_True by done. cbn.
    by rewrite lookup_insert_eq.
Qed.

(** A socket for a new handle. *)
Lemma socket_of_result {X} (make : X → bio_socket_impl_t) handle op t s0 r s :
  (∀ x, sk_handle (make x) = handle x) → (t ≠ None → (p < io_next s0)%positive) →
  opened handle t (own (os s0)) s0 r s →
  wp (socket_of make r) (λ r s', io_wf s' ∧ io_evolves s0 s' ∧ handles_result s0 op (own (os s0)) r.1 s') s.
Proof.
  intros Hmk Hp Hr. unfold socket_of. destruct r as [[x|] e]; cbn in Hr.
  - destruct Hr as [Hni Hk]. wp_step. eapply make_socket_kept; [done..|]. intros h s' Hk' Hfd. wp_steps.
    split_and!; [apply Hk'..|]. rewrite Hmk in Hfd. by eapply hr_new; [|apply Hk'|].
  - wp_steps. split_and!; [apply Hr..|]. apply hr_none, Hr.
Qed.

Lemma win_translate_safe addr port error s (Q : option bio_addr_translation_result_t * error_ptr → io → Prop) :
  addr_ok addr → (∀ r, Q r s) → wp (bio_translate_address addr port error) Q s.
Proof.
  intros Ha HQ. unfold bio_translate_address. destruct addr as [l|l|len name].
  - destruct (compare_any (Ipv4 l) BIO_ADDR_IPV4_ANY Ha eq_refl) as (z & Hz & _).
    wp_step. eapply wp_lift_res; [exact Hz|]. wp_steps. apply HQ.
  - destruct (compare_any (Ipv6 l) BIO_ADDR_IPV6_ANY Ha eq_refl) as (z & Hz & _).
    wp_step. eapply wp_lift_res; [exact Hz|]. wp_steps. apply HQ.
  - destruct Ha as [Hname Hlen]. destruct (Z.gtb_spec len 0); [|wp_steps; apply HQ].
    destruct (_ <=? _); [|wp_steps; apply HQ]. unfold pipe_name_of. wp_step. wp_step.
    rewrite (proj2 (Z.ltb_ge _ _)) by (unfold zlen; lia). wp_step. wp_step.
    destruct name as [|c l]; [cbn in Hname; lia|]. wp_steps. apply HQ.
Qed.

Lemma kept_start s : io_wf s → kept None None (own (os s)) s s.
Proof. intros Hwf. by split. Qed.

Lemma win_listen_result t addr port error s :
  io_wf s → addr_ok addr →
  wp (bio_net_listen kernel strerror t addr port error)
    (λ r s', io_wf s' ∧ io_evolves s s' ∧ handles_result s (Listen t addr port) (own (os s)) r.1 s') s.
Proof.
  intros Hwf Ha. unfold bio_net_listen. wp_step. apply win_translate_safe; [done|]. intros [[tr|] e].
  2: { wp_steps. split_and!; [done..|]. by apply hr_none. }
  case_match; wp_step; (eapply wp_mono; [(apply pipe_listen_opened || apply ws_listen_opened); by apply kept_start|]);
    intros r s' Hr; by eapply socket_of_result.
Qed.

Lemma win_connect_result t addr port error s :
  io_wf s → addr_ok addr →
  wp (bio_net_connect others kernel strerror t addr port error)
    (λ r s', io_wf s' ∧ io_evolves s s' ∧ handles_result s (Connect t addr port) (own (os s)) r.1 s') s.
Proof.
  intros Hwf Ha. unfold bio_net_connect. wp_step. apply win_translate_safe; [done|]. intros [[tr|] e].
  2: { wp_steps. split_and!; [done..|]. by apply hr_none. }
  case_match; wp_step; (eapply wp_mono; [(apply pipe_connect_opened || apply ws_connect_opened); by apply kept_start|]);
    intros r s' Hr; by eapply socket_of_result.
Qed.

Lemma win_accept_result socket error s :
  io_wf s → io_known s socket → accepts_at s (Accept socket) p →
  wp (bio_net_accept others kernel strerror socket error)
    (λ r s', io_wf s' ∧ io_evolves s s' ∧ handles_result s (Accept socket) (own (os s)) r.1 s') s.
Proof.
  intros Hwf Hkn Hat. unfold bio_net_accept. wp_step. apply io_resolve_spec; [done..|].
  destruct (object_of s socket BIO_SOCKET_HANDLE) as [q|] eqn:Ho.
  2: { wp_steps. split_and!; [done..|]. by apply hr_none. }
  assert (q = p) as -> by by apply Hat. destruct (socket_object _ _ _ Hwf Ho) as [x Hx].
  assert (Hp : (p < io_next s)%positive).
  { pose proof (proj1 (object_of_live _ _ _ _) Ho) as Hl.
    by destruct (proj1 (iw_sockets _ Hwf) _ _ Hl) as (? & [= <-] & _ & ?). }
  assert (Hk : kept (Some (sk_ws x, sk_handle x)) None (own (os s)) s s).
  { split; try done. intros ws h [= <- <-]. by exists x. }
  wp_step. eapply deref_kept; [done|]. intros y Hy _ _. rewrite Hx in Hy. injection Hy as <-. destruct x as [w|w]; cbn in Hk.
  - wp_step. eapply wp_mono; [by apply ws_accept_opened|]. intros r s' Hr. by eapply socket_of_result.
  - wp_step. eapply wp_mono; [by apply pipe_accept_accepted|]. intros [[c|] e] s' Hr; cbn in Hr; unfold socket_of.
    + destruct Hr as (Hc & h & Hni & Hk'). wp_step. eapply make_socket_kept; [done..|]. intros sk s2 Hk2 Hfd. wp_steps.
      split_and!; [apply Hk2..|]. cbn in Hfd. rewrite Hc in Hfd.
      eapply hr_taken with (old := pp_handle w); [done|done|by exists (BIO_SOCKET_PIPE w)|done|apply Hk2|by apply (kp_socket _ _ _ _ _ Hk2)|exact Hfd].
    + wp_steps. destruct Hr as [Hk'|(h & Hni & Hk')]; (split_and!; [apply Hk'..|]); [apply hr_none, Hk'|].
      eapply hr_replaced with (old := pp_handle w); [done|done|by exists (BIO_SOCKET_PIPE w)|done|apply Hk'|by apply (kp_socket _ _ _ _ _ Hk')].
Qed.

Lemma cancel_acceptors_kept l F s0 s (Q : unit → io → Prop) :
  kept None None F s0 s → (∀ a, a ∈ l → is_Some (Io.io_reqs s !! a.1)) →
  (∀ s', kept None None (F ∖ list_to_set (snd <$> l)) s0 s' → io_table s' = io_table s → sockets s' = sockets s → Q tt s') →
  wp (cancel_acceptors kernel l) Q s.
Proof.
  revert F s. induction l as [|[a h] l IH]; intros F s Hk Hl HQ; cbn [cancel_acceptors].
  { wp_steps. apply HQ; [|done..]. by replace (F ∖ list_to_set (snd <$> [])) with F by set_solver. }
  destruct (Hl (a, h)) as [b Hb]; [by left|]. cbn in Hb. unfold acceptor_cancelled. wp_steps.
  set (s1 := set_io_reqs _ s). assert (Hk1 : kept None None F s0 s1).
  { destruct Hk as [[] ? ? ? ?]. split; [by split|done..]. }
  eapply quiet_call; [done..|]. intros _ o1 Hk2. wp_step. eapply quiet_call; [done..|]. intros _ o2 Hk3.
  wp_step. eapply (close_call _ h); [by left|done|]. intros _ o3 Hk4. eapply IH; [done|..].
  - intros a' Ha'. cbn. apply lookup_insert_is_Some'. right. apply Hl. by right.
  - intros s' Hk' Ht Hs. apply HQ; [|by rewrite Ht|by rewrite Hs]. cbn.
    by replace (F ∖ ({[h]} ∪ list_to_set (snd <$> l))) with (F ∖ {[h]} ∖ list_to_set (snd <$> l)) by set_solver.
Qed.

(** The object of a socket that is closed, and its handles. *)
Lemma kind_close_kept q x error F s0 s (Q : bool * error_ptr → io → Prop) :
  kept None None F s0 s → sockets s !! q = Some x → (∀ a, a ∈ acceptors_of x → is_Some (Io.io_reqs s !! a.1)) →
  (∀ r s', kept None None (F ∖ ({[sk_handle x]} ∪ list_to_set (snd <$> acceptors_of x))) s0 s' →
    io_table s' = io_table s → sockets s' = sockets s → Q r s') →
  wp (match x with
      | BIO_SOCKET_WS _ => bio_net_ws_close kernel strerror q error
      | BIO_SOCKET_PIPE _ => bio_net_pipe_close kernel strerror q error
      end) Q s.
Proof.
  intros Hk Hx Ha HQ. destruct x as [w|w]; cbn [sk_handle acceptors_of] in *.
  - unfold bio_net_ws_close, deref_ws, deref_socket. wp_steps. cbn beta iota. wp_steps. eapply quiet_call; [done..|]. intros _ o1 Hk1.
    wp_step. eapply quiet_call; [done..|]. intros _ o2 Hk2. wp_step.
    eapply (close_call _ (ws_handle w)); [by right|done|]. intros r o3 Hk3.
    cbn [fmap list_fmap list_to_set] in HQ. rewrite (union_empty_r_L {[ws_handle w]}) in HQ.
    case_match; wp_steps; by apply HQ.
  - unfold bio_net_pipe_close, deref_pipe, deref_socket. wp_steps. cbn beta iota. wp_steps.
    apply (cancel_acceptors_kept _ F s0); [done..|]. intros s1 Hk1 Ht Hs. wp_step.
    eapply quiet_call; [done..|]. intros _ o2 Hk2. wp_step. eapply quiet_call; [done..|]. intros _ o3 Hk3. wp_step.
    eapply (close_call _ (pp_handle w)); [by left|done|]. intros r o4 Hk4.
    replace (F ∖ list_to_set (snd <$> pp_acceptors w) ∖ {[pp_handle w]})
      with (F ∖ ({[pp_handle w]} ∪ list_to_set (snd <$> pp_acceptors w))) in Hk4 by set_solver.
    case_match; wp_steps; by apply HQ.
Qed.

Lemma win_close_result socket error s :
  io_wf s → io_known s socket → acceptors_ok s (Close socket) →
  wp (bio_net_close kernel strerror socket error) (λ _ s', io_wf s' ∧ io_evolves s s' ∧
    own (os s') = own (os s) ∖ given_up s (Close socket)) s.
Proof.
  intros Hwf Hk Ha. unfold bio_net_close. wp_step. apply io_close_spec; [done..| |].
  { intros Hn. wp_steps. split_and!; [done..|]. unfold given_up. rewrite Hn. set_solver. }
  intros q tb Ho Hwf1 [x Hx] Hl He Hu. unfold given_up. rewrite Ho. cbn [mbind option_bind]. rewrite Hx.
  wp_step. unfold deref_socket at 1. do 2 wp_step. eapply wp_need; [exact Hx|]. wp_step.
  assert (Hk1 : kept None None (own (os s)) s (set_io_table tb s)).
  { by split. }
  eapply kind_close_kept; [exact Hk1|exact Hx|exact (Ha q x Ho Hx)|]. intros [ok e] s2 Hk2 Ht Hs.
  unfold free_socket, deref_socket. wp_steps. cbn in Hs. rewrite Hs. eapply wp_need; [exact Hx|]. wp_steps.
  destruct Hk2. split_and!; [|done|done]. apply delete_socket_wf; [|done]. unfold unreferenced in *. by rewrite Ht.
Qed.

Lemma win_net_result s op error :
  io_wf s → net_op_ok s op → accepts_at s op p → acceptors_ok s op →
  wp (net_exec op error) (λ r s', io_wf s' ∧ io_evolves s s' ∧
    handles_result s op (own (os s) ∖ given_up s op) r s') s.
Proof.
  intros Hwf Hok Hat Ha.
  assert (HE : own (os s) ∖ ∅ = own (os s)) by set_solver.
  destruct op; cbn [net_exec net_op_ok given_up] in *; rewrite ?HE; wp_step.
  - eapply wp_mono; [by apply win_listen_result|]. intros [r e] s' H. by wp_steps.
  - eapply wp_mono; [by apply win_accept_result|]. intros [r e] s' H. by wp_steps.
  - eapply wp_mono; [by apply win_connect_result|]. intros [r e] s' H. by wp_steps.
  - eapply wp_mono; [by apply win_close_result|]. intros _ s' (H1 & H2 & H3). wp_steps.
    split_and!; [done..|]. by apply hr_none.
Qed.

(** A function that works with the socket at [p]. *)
Lemma with_socket {A} socket s (ws pipe : positive → st io A) (d : A) :
  io_wf s → io_known s socket → accepts_at s (Accept socket) p →
  (∀ h, kept (Some (true, h)) None (own (os s)) s s →
    wp (ws p) (λ _ s', kept (Some (true, h)) None (own (os s)) s s') s) →
  (∀ h, kept (Some (false, h)) None (own (os s)) s s →
    wp (pipe p) (λ _ s', kept (Some (false, h)) None (own (os s)) s s') s) →
  wp (impl ← io_resolve_handle socket BIO_SOCKET_HANDLE;
      match impl with
      | Some impl =>
          x ← deref_socket impl;
          match x with BIO_SOCKET_WS _ => ws impl | BIO_SOCKET_PIPE _ => pipe impl end
      | None => mret d
      end) (λ _ s', io_wf s' ∧ io_evolves s s' ∧ own (os s') = own (os s)) s.
Proof.
  intros Hwf Hkn Hat Hws Hpipe. wp_step. apply io_resolve_spec; [done..|].
  destruct (object_of s socket BIO_SOCKET_HANDLE) as [q|] eqn:Ho; [|by wp_steps].
  assert (q = p) as -> by by apply Hat. destruct (socket_object _ _ _ Hwf Ho) as [x Hx].
  assert (Hk : kept (Some (sk_ws x, sk_handle x)) None (own (os s)) s s).
  { split; try done. intros ws' h [= <- <-]. by exists x. }
  wp_step. eapply deref_kept; [done|]. intros y Hy _ _. rewrite Hx in Hy. injection Hy as <-.
  destruct x; (eapply wp_mono; [(by apply Hws) || (by apply Hpipe)|]); intros r s' Hk'; split_and!; apply Hk'.
Qed.

End spec.
End handles.
