(* ===== verification/Iocp.v ===== *)
(** The platform layer on Windows ([src/windows/platform.c]): the packets of the completion
    port are dispatched, once in each round of the event loop; the clock; the texts of errors.

    What the kernel returns is an argument; the signals that are raised and the exit
    handlers that are called go to a history: [Signal.v] and [Exit.v] have them. *)
From S2P Require Import Prelude HandleTable.

(** ** State *)

(** The key of a packet: the addresses of the two constants, or 0 for an operation. *)
Inductive completion_key := BIO_WINDOWS_NOTIFY_KEY | BIO_WINDOWS_EXIT_SIGNAL_KEY | OperationKey.

#[export] Instance completion_key_eq_dec : EqDecision completion_key.
Proof. solve_decision. Defined.

(** [OVERLAPPED_ENTRY]: the overlapped structure is the one of a request. *)
Record overlapped_entry := mk_entry { lpCompletionKey : completion_key; lpOverlapped : positive }.

(** What the dispatching calls. *)
Inductive iocp_call :=
  | CallExit                           (* bio_handle_exit_signal *)
  | CallRaise (signal : bio_handle_t). (* bio_raise_signal *)

(** What is asked of the console: to call a handler, or [NULL]. *)
Inductive console_call := SetConsoleCtrlHandler (on_exit_signal add : bool).

(** [bio_platform_t], the options of the completion port, the signals of the requests, which
    are on the stacks of coroutines; the history: the waits for packets with their number and
    timeout, the packets that came, those that were posted, what was called. *)
Record bio_platform_t := mk_platform_t {
  perf_counter_freq : Z;
  start_time : Z;
  iocp_open : bool;
  overlapped_entries : option Z;
  error_msg_buf : option (list Z);
  error_msg_buf_size : Z;
  signal_blocked : bool;
  option_batch_size : Z;
  io_reqs : gmap positive bio_handle_t;
  iocp_waits : list (Z * Z);
  iocp_received : list overlapped_entry;
  iocp_posted : list completion_key;
  iocp_calls : list iocp_call;
  console_calls : list console_call;
}.

Definition set_times (freq start : Z) (s : bio_platform_t) : bio_platform_t :=
  mk_platform_t freq start (iocp_open s) (overlapped_entries s) (error_msg_buf s)
    (error_msg_buf_size s) (signal_blocked s) (option_batch_size s) (io_reqs s) (iocp_waits s)
    (iocp_received s) (iocp_posted s) (iocp_calls s) (console_calls s).
Definition set_iocp (b : bool) (entries : option Z) (s : bio_platform_t) : bio_platform_t :=
  mk_platform_t (perf_counter_freq s) (start_time s) b entries (error_msg_buf s)
    (error_msg_buf_size s) (signal_blocked s) (option_batch_size s) (io_reqs s) (iocp_waits s)
    (iocp_received s) (iocp_posted s) (iocp_calls s) (console_calls s).
Definition set_error_msg (buf : option (list Z)) (size : Z) (s : bio_platform_t) : bio_platform_t :=
  mk_platform_t (perf_counter_freq s) (start_time s) (iocp_open s) (overlapped_entries s) buf
    size (signal_blocked s) (option_batch_size s) (io_reqs s) (iocp_waits s)
    (iocp_received s) (iocp_posted s) (iocp_calls s) (console_calls s).
Definition set_signal_blocked (b : bool) (c : console_call) (s : bio_platform_t) : bio_platform_t :=
  mk_platform_t (perf_counter_freq s) (start_time s) (iocp_open s) (overlapped_entries s) (error_msg_buf s)
    (error_msg_buf_size s) b (option_batch_size s) (io_reqs s) (iocp_waits s)
    (iocp_received s) (iocp_posted s) (iocp_calls s) (console_calls s ++ [c]).
Definition waited (wait : Z * Z) (entries : list overlapped_entry) (s : bio_platform_t) : bio_platform_t :=
  mk_platform_t (perf_counter_freq s) (start_time s) (iocp_open s) (overlapped_entries s) (error_msg_buf s)
    (error_msg_buf_size s) (signal_blocked s) (option_batch_size s) (io_reqs s) (iocp_waits s ++ [wait])
    (iocp_received s ++ entries) (iocp_posted s) (iocp_calls s) (console_calls s).
Definition posted (k : completion_key) (s : bio_platform_t) : bio_platform_t :=
  mk_platform_t (perf_counter_freq s) (start_time s) (iocp_open s) (overlapped_entries s) (error_msg_buf s)
    (error_msg_buf_size s) (signal_blocked s) (option_batch_size s) (io_reqs s) (iocp_waits s)
    (iocp_received s) (iocp_posted s ++ [k]) (iocp_calls s) (console_calls s).
Definition called (c : list iocp_call) (s : bio_platform_t) : bio_platform_t :=
  mk_platform_t (perf_counter_freq s) (start_time s) (iocp_open s) (overlapped_entries s) (error_msg_buf s)
    (error_msg_buf_size s) (signal_blocked s) (option_batch_size s) (io_reqs s) (iocp_waits s)
    (iocp_received s) (iocp_posted s) (iocp_calls s ++ c) (console_calls s).

Definition BIO_WINDOWS_DEFAULT_BATCH_SIZE : Z := 4.
Definition INFINITE : Z := 4294967295.

Section code.
Abbreviation win := (st bio_platform_t).
(** What [GetQueuedCompletionStatusEx] returns when it is called for the [n]-th time, with the
    number of packets that there is room for, and a timeout: none for an error or when the
    timeout is over. The text that the system has for an error. *)
Context (kernel : nat → Z → Z → list overlapped_entry).
Context (message : Z → option (list Z)).

(** ** The code *)

Definition deref_req (req : positive) : win bio_handle_t := s ← get; need Dangling (io_reqs s !! req).

Definition dispatch_entry (entry : overlapped_entry) : win unit :=
  if decide (lpCompletionKey entry = BIO_WINDOWS_EXIT_SIGNAL_KEY) then modify (called [CallExit])
  else if negb (bool_decide (lpCompletionKey entry = BIO_WINDOWS_NOTIFY_KEY)) then
    signal ← deref_req (lpOverlapped entry);
    modify (called [CallRaise signal])
  else mret tt.

Fixpoint dispatch_entries (entries : list overlapped_entry) : win unit :=
  match entries with
  | [] => mret tt
  | entry :: entries => _ ← dispatch_entry entry; dispatch_entries entries
  end.

(** The number of packets. They are stored in the array of the platform. *)
Definition bio_platform_process_events (timeout_ms batch_size : Z) : win Z :=
  s ← get;
  let entries := kernel (length (iocp_waits s)) batch_size timeout_ms in
  room ← need NullDeref (overlapped_entries s);
  _ ← (if zlen entries >? room then fail OutOfBounds else mret tt);
  _ ← modify (waited (batch_size, timeout_ms) entries);
  _ ← dispatch_entries entries;
  mret (zlen entries).

(** [PostQueuedCompletionStatus]. *)
Definition bio_on_exit_signal : win bool :=
  _ ← modify (posted BIO_WINDOWS_EXIT_SIGNAL_KEY); mret true.

Definition bio_platform_notify : win unit := modify (posted BIO_WINDOWS_NOTIFY_KEY).

(** [batch_size] after its default. *)
Definition effective_batch_size : win Z :=
  s ← get;
  mret (if option_batch_size s =? 0 then BIO_WINDOWS_DEFAULT_BATCH_SIZE else option_batch_size s).

(** The frequency of the counter and its value come from the system. *)
Definition bio_platform_init (freq now : Z) : win unit :=
  _ ← modify (set_times freq now);
  batch_size ← effective_batch_size;
  modify (set_iocp true (Some batch_size)).

Definition bio_platform_cleanup : win unit :=
  _ ← modify (set_error_msg None 0);
  modify (set_iocp false None).

Definition bio_platform_current_time_ms (now : Z) : win Z :=
  s ← get;
  diff ← i64_of (now - start_time s);
  let denom := perf_counter_freq s in
  let numer := 1000 in
  _ ← (if denom =? 0 then fail Overflow else mret tt);
  let q := Z.quot diff denom in
  let r := Z.rem diff denom in
  a ← i64_of (q * numer);
  b ← i64_of (r * numer);
  i64_of (a + Z.quot b denom).

(** The loop while the batches are full. *)
Fixpoint drain_events (fuel : nat) (num_entries batch_size : Z) : win unit :=
  if num_entries =? batch_size then
    match fuel with
    | O => fail OutOfFuel
    | S fuel =>
        num_entries ← bio_platform_process_events 0 batch_size;
        drain_events fuel num_entries batch_size
    end
  else mret tt.

Definition bio_platform_update (fuel : nat) (wait_timeout_ms : Z) (notifiable : bool) : win unit :=
  batch_size ← effective_batch_size;
  let wait_timeout_ms := if wait_timeout_ms >=? INFINITE then INFINITE - 1 else wait_timeout_ms in
  let wait_timeout_ms := if wait_timeout_ms <? 0 then INFINITE else wait_timeout_ms in
  num_entries ← bio_platform_process_events (u32 wait_timeout_ms) batch_size;
  drain_events fuel num_entries batch_size.

Definition bio_platform_begin_create_thread_pool : win unit := mret tt.
Definition bio_platform_end_create_thread_pool : win unit := mret tt.

(** [FormatMessageA] into a buffer: the length of the text, or 0 when it does not fit. *)
Definition FormatMessage (code : Z) (buf : option (list Z)) (size : Z) : Z * option (list Z) :=
  match message code, buf with
  | Some msg, Some b =>
      if zlen msg <? size then (zlen msg, Some (msg ++ [0] ++ drop (length msg + 1) b)) else (0, buf)
  | _, _ => (0, buf)
  end.

(** The text that the caller gets is the one in the buffer. The second [FormatMessageA] allocates; if
    it fails too, [msg] was never set. *)
Definition bio_format_error (code : Z) : win (list Z) :=
  s ← get;
  let '(msg_len, buf) := FormatMessage (u32 code) (error_msg_buf s) (error_msg_buf_size s) in
  _ ← modify (set_error_msg buf (error_msg_buf_size s));
  msg_len ←
    (if msg_len =? 0 then
       msg ← need Uninit (message (u32 code));
       _ ← modify (set_error_msg (Some (msg ++ [0])) (zlen msg + 1));
       mret (zlen msg)
     else mret msg_len);
  s ← get;
  buf ← need NullDeref (error_msg_buf s);
  _ ← (if msg_len >? 0 then
         c ← need OutOfBounds (zlookup buf (msg_len - 1));
         if c =? 10 (* '\n' *) then
           _ ← need OutOfBounds (zlookup buf (msg_len - 2));
           modify (set_error_msg (Some (zinsert (msg_len - 2) 0 buf)) (error_msg_buf_size s))
         else mret tt
       else mret tt);
  s ← get;
  need NullDeref (error_msg_buf s).

Definition bio_platform_block_exit_signal : win unit :=
  s ← get;
  if negb (signal_blocked s) then modify (set_signal_blocked true (SetConsoleCtrlHandler true true))
  else mret tt.

(** It does not remove the handler that the other function added. *)
Definition bio_platform_unblock_exit_signal : win unit :=
  s ← get;
  if signal_blocked s then modify (set_signal_blocked false (SetConsoleCtrlHandler false false))
  else mret tt.

(** ** What an update does *)

(** Packets of operations belong to a request that waits. *)
Definition deliverable (s : bio_platform_t) (entry : overlapped_entry) : Prop :=
  lpCompletionKey entry = OperationKey → is_Some (io_reqs s !! lpOverlapped entry).

(** What is called for a packet. *)
Definition call_of (reqs : gmap positive bio_handle_t) (entry : overlapped_entry) : option iocp_call :=
  match lpCompletionKey entry with
  | BIO_WINDOWS_EXIT_SIGNAL_KEY => Some CallExit
  | BIO_WINDOWS_NOTIFY_KEY => None
  | OperationKey => CallRaise <$> reqs !! lpOverlapped entry
  end.

Lemma called_nil s : called [] s = s.
Proof. destruct s. unfold called. cbn. by rewrite app_nil_r. Qed.

Lemma called_app c c' s : called c' (called c s) = called (c ++ c') s.
Proof. unfold called. cbn. by rewrite app_assoc. Qed.

Lemma dispatch_entries_spec s entries (Q : unit → bio_platform_t → Prop) :
  (∀ e, e ∈ entries → deliverable s e) → Q tt (called (omap (call_of (io_reqs s)) entries) s) →
  wp (dispatch_entries entries) Q s.
Proof.
  revert s Q. induction entries as [|e l IH]; intros s Q He HQ; cbn [dispatch_entries].
  { wp_steps. by rewrite called_nil in HQ. }
  assert (Hrest : ∀ c, call_of (io_reqs s) e = c →
    wp (dispatch_entries l) Q (called (match c with Some c => [c] | None => [] end) s)).
  { intros c Hc. apply IH; [intros e' He'; apply (He e'); by right|]. rewrite called_app. cbn in HQ |- *.
    rewrite Hc in HQ. by destruct c. }
  assert (Hd : deliverable s e) by (apply He; by left).
  unfold dispatch_entry, deref_req. unfold call_of in Hrest. unfold deliverable in Hd.
  destruct (lpCompletionKey e); cbn.
  - wp_steps. specialize (Hrest _ eq_refl). by rewrite called_nil in Hrest.
  - wp_steps. by apply (Hrest _ eq_refl).
  - destruct (Hd eq_refl) as [x Hx]. rewrite Hx in Hrest.
    rewrite decide_False, bool_decide_false by done. cbn. wp_steps. by apply (Hrest _ eq_refl).
Qed.

(** What the kernel promises: no more packets than there is room for, of requests that wait. *)
Record kernel_ok (s : bio_platform_t) : Prop := {
  ko_room n size t : 0 ≤ size → zlen (kernel n size t) ≤ size;
  ko_known n size t e : e ∈ kernel n size t → deliverable s e;
}.

(** The kernel runs out of packets before it was asked [fuel] times more. *)
Definition runs_out (fuel n : nat) (size : Z) : Prop :=
  ∃ d, (d < fuel)%nat ∧ zlen (kernel (n + d) size 0) ≠ size.

(** [s'] is [s] after these waits, and what they returned was dispatched. *)
Record iocp_served (waits : list (Z * Z)) (s s' : bio_platform_t) : Prop := {
  is_waits : iocp_waits s' = iocp_waits s ++ waits;
  is_packets : ∃ entries, iocp_received s' = iocp_received s ++ entries ∧
    iocp_calls s' = iocp_calls s ++ omap (call_of (io_reqs s)) entries;
  is_reqs : io_reqs s' = io_reqs s;
  is_entries : overlapped_entries s' = overlapped_entries s;
}.

Lemma iocp_served_trans w1 w2 s1 s2 s3 :
  iocp_served w1 s1 s2 → iocp_served w2 s2 s3 → iocp_served (w1 ++ w2) s1 s3.
Proof.
  intros [A1 (l1 & A2 & A3) A5 A6] [B1 (l2 & B2 & B3) B5 B6]. split; try congruence.
  - by rewrite B1, A1, app_assoc.
  - exists (l1 ++ l2). rewrite B2, B3, A5, A2, A3, omap_app. by rewrite !app_assoc.
Qed.

Lemma iocp_ok_served w s s' : iocp_served w s s' → kernel_ok s → kernel_ok s'.
Proof. intros H [H1 H2]. split; [done|]. unfold deliverable in *. rewrite (is_reqs _ _ _ H). eauto. Qed.

Lemma process_events_spec t size s (Q : Z → bio_platform_t → Prop) :
  kernel_ok s → (∃ room, overlapped_entries s = Some room ∧ 0 ≤ size ≤ room) →
  (∀ s', iocp_served [(size, t)] s s' → Q (zlen (kernel (length (iocp_waits s)) size t)) s') →
  wp (bio_platform_process_events t size) Q s.
Proof.
  intros [Hroom Hknown] (room & Hr & Hpos & Hle) HQ. unfold bio_platform_process_events. wp_steps.
  set (entries := kernel _ _ _). specialize (Hroom (length (iocp_waits s)) size t). fold entries in Hroom. specialize (Hroom Hpos).
  rewrite Z.gtb_ltb, (proj2 (Z.ltb_ge _ _)) by lia. wp_steps.
  apply dispatch_entries_spec; [intros e He; by eapply Hknown|]. wp_steps. apply HQ. split; try done. by exists entries.
Qed.

Lemma drain_packets_spec fuel n size s :
  kernel_ok s → (∃ room, overlapped_entries s = Some room ∧ 0 ≤ size ≤ room) →
  runs_out fuel (length (iocp_waits s)) size ∨ n ≠ size →
  wp (drain_events fuel n size) (λ _ s', ∃ k, iocp_served (replicate k (size, 0)) s s' ∧
    match k with O => n ≠ size | S k => zlen (kernel (length (iocp_waits s) + k) size 0) ≠ size end) s.
Proof.
  revert n s. induction fuel as [|fuel IH]; intros n s Hk Hr Hf; cbn [drain_events];
    destruct (Z.eqb_spec n size) as [->|Hne].
  2, 4: wp_steps; exists 0%nat; split; [|done]; split; try done; [by rewrite app_nil_r|exists []; by rewrite !app_nil_r].
  - destruct Hf as [(d & Hd & _)|]; [lia|done].
  - destruct Hf as [(d & Hd & Hq)|]; [|done]. wp_step. apply process_events_spec; [done..|]. intros s1 Hs1.
    eapply wp_mono.
    + apply IH; [by eapply iocp_ok_served|by rewrite (is_entries _ _ _ Hs1)|].
      rewrite (is_waits _ _ _ Hs1), length_app. cbn.
      destruct d as [|d]; [right; by rewrite Nat.add_0_r in Hq|left]. exists d. split; [lia|].
      by replace (length (iocp_waits s) + 1 + d)%nat with (length (iocp_waits s) + S d)%nat by lia.
    + intros [] s2 (k & Hs2 & Hlast). exists (S k). split; [exact (iocp_served_trans [_] _ _ _ _ Hs1 Hs2)|].
      rewrite (is_waits _ _ _ Hs1), length_app in Hlast. cbn in Hlast. destruct k as [|k]; [by rewrite Nat.add_0_r|].
      by replace (length (iocp_waits s) + S k)%nat with (length (iocp_waits s) + 1 + k)%nat by lia.
Qed.

(** The timeout that the kernel is given; a negative one stands for none. *)
Definition kernel_timeout (wait_timeout_ms : Z) : Z :=
  if wait_timeout_ms <? 0 then INFINITE else Z.min wait_timeout_ms (INFINITE - 1).

(** The state after the initialization. *)
Definition batch_size_of (s : bio_platform_t) : Z :=
  if option_batch_size s =? 0 then BIO_WINDOWS_DEFAULT_BATCH_SIZE else option_batch_size s.

(** C36: An update of the platform on Windows waits for packets, no longer than it was asked to,
    and dispatches every packet that comes once, in order: the signal of its request is
    raised, or the exit handlers are called, or nothing for a notification. It goes on
    without waiting until a batch is not full, never gets more packets than it has room for,
    and comes to an end when the kernel runs out of packets. *)
Theorem iocp_update_correct fuel wait_timeout_ms notifiable s :
  kernel_ok s → overlapped_entries s = Some (batch_size_of s) → 0 ≤ option_batch_size s →
  (∀ n, runs_out fuel n (batch_size_of s)) →
  wp (bio_platform_update fuel wait_timeout_ms notifiable) (λ _ s', ∃ k, iocp_served
    ((batch_size_of s, kernel_timeout wait_timeout_ms) :: replicate k (batch_size_of s, 0)) s s' ∧
    zlen (kernel (length (iocp_waits s) + k) (batch_size_of s)
      (if decide (k = 0%nat) then kernel_timeout wait_timeout_ms else 0)) ≠ batch_size_of s) s.
Proof.
  intros Hk Hr Hpos Hf.
  assert (Hb : 0 ≤ batch_size_of s).
  { unfold batch_size_of, BIO_WINDOWS_DEFAULT_BATCH_SIZE. by case_match. }
  unfold bio_platform_update, effective_batch_size. wp_steps.
  change (if option_batch_size s =? 0 then _ else _) with (batch_size_of s).
  set (t := u32 _). assert (Ht : t = kernel_timeout wait_timeout_ms).
  { unfold t, kernel_timeout, u32, INFINITE. rewrite Z.geb_leb.
    destruct (Z.leb_spec 4294967295 wait_timeout_ms).
    - rewrite (proj2 (Z.ltb_ge (4294967295 - 1) 0)), (proj2 (Z.ltb_ge wait_timeout_ms 0)), Z.min_r by lia. done.
    - destruct (Z.ltb_spec wait_timeout_ms 0); [done|]. rewrite Z.min_l, Z.mod_small by lia. done. }
  rewrite Ht. apply process_events_spec; [done|by exists (batch_size_of s)|]. intros s1 Hs1.
  eapply wp_mono; [apply drain_packets_spec|].
  - by eapply iocp_ok_served.
  - rewrite (is_entries _ _ _ Hs1). by exists (batch_size_of s).
  - left. apply Hf.
  - intros [] s2 (k & Hs2 & Hlast). exists k. split; [exact (iocp_served_trans [_] _ _ _ _ Hs1 Hs2)|].
    rewrite (is_waits _ _ _ Hs1), length_app in Hlast. cbn in Hlast. destruct k as [|k]; [by rewrite Nat.add_0_r|].
    rewrite decide_False by done. by replace (length (iocp_waits s) + S k)%nat with (length (iocp_waits s) + 1 + k)%nat by lia.
Qed.

(** ** The clock *)

(** C37: The clock on Windows counts the milliseconds since the initialization, rounded down:
    splitting the division keeps the numbers in range, so that there is no overflow as long
    as the time itself is in range and the counter has less than 2^53 ticks in a second. *)
Theorem clock_counts_milliseconds now s :
  let diff := now - start_time s in
  let freq := perf_counter_freq s in
  0 < freq < 2 ^ 53 → 0 ≤ diff < 2 ^ 63 → diff * 1000 / freq < 2 ^ 63 →
  bio_platform_current_time_ms now s = Ok (diff * 1000 / freq, s).
Proof.
  intros diff freq Hf Hd Hres.
  assert (Hin : ∀ z, 0 ≤ z < 2 ^ 63 → in_i64 z = true).
  { intros z Hz. unfold in_i64. apply andb_true_intro. split; apply Z.leb_le; lia. }
  assert (Hdm : diff = freq * (diff / freq) + diff `mod` freq) by (apply Z.div_mod; lia).
  pose proof (Z.mod_pos_bound diff freq). pose proof (Z.div_pos diff freq).
  assert (Hsum : diff * 1000 / freq = diff / freq * 1000 + diff `mod` freq * 1000 / freq).
  { rewrite Hdm at 1. replace ((freq * (diff / freq) + diff `mod` freq) * 1000)
      with (diff / freq * 1000 * freq + diff `mod` freq * 1000) by lia. apply Z.div_add_l. lia. }
  pose proof (Z.div_pos (diff `mod` freq * 1000) freq).
  unfold bio_platform_current_time_ms, mbind, st_bind, get, i64_of, mret, st_ret. fold diff freq.
  rewrite Hin by lia. rewrite (proj2 (Z.eqb_neq _ _)) by lia.
  rewrite Z.quot_div_nonneg, Z.rem_mod_nonneg by lia. rewrite (Hin (diff / freq * 1000)) by lia.
  rewrite Hin by lia. rewrite Z.quot_div_nonneg by lia. rewrite <- Hsum. by rewrite Hin by lia.
Qed.

(** ** The texts of errors *)

(** A text without the end of its line. *)
Definition chomp (msg : list Z) : list Z :=
  if decide (last msg = Some 10) then take (length msg - 2) msg else msg.

(** The buffer has its size, and is zero-terminated memory that the next text may overwrite. *)
Definition error_buf_ok (s : bio_platform_t) : Prop :=
  match error_msg_buf s with Some b => zlen b = error_msg_buf_size s | None => True end.

Lemma format_message_spec code buf size msg :
  message code = Some msg → (match buf with Some b => zlen b = size | None => True end) →
  let '(n, buf') := FormatMessage code buf size in
  (n = 0 ∧ buf' = buf ∨ n = zlen msg ∧ ∃ rest, buf' = Some (msg ++ 0 :: rest) ∧ zlen (msg ++ 0 :: rest) = size).
Proof.
  intros Hm Hb. unfold FormatMessage. rewrite Hm. destruct buf as [b|]; [|by left].
  destruct (Z.ltb_spec (zlen msg) size) as [Hlt|]; [|by left]. right. split; [done|].
  exists (drop (length msg + 1) b). split; [done|]. subst size. unfold zlen in *.
  rewrite length_app. cbn. rewrite length_drop. lia.
Qed.

Lemma zlookup_last {A} (l k : list A) : l ≠ [] → zlookup (l ++ k) (zlen l - 1) = last l.
Proof.
  intros Hl. destruct l as [|x l _] using rev_ind; [done|]. rewrite last_snoc, <- app_assoc, zlookup_app, zlen_app.
  change (zlen [x]) with 1. rewrite decide_False by lia. by replace (zlen l + 1 - 1 - zlen l) with 0 by lia.
Qed.

Lemma zinsert_text (msg rest : list Z) : (2 ≤ length msg)%nat →
  is_Some (zlookup (msg ++ 0 :: rest) (zlen msg - 2)) ∧
  zinsert (zlen msg - 2) 0 (msg ++ 0 :: rest) = take (length msg - 2) msg ++ 0 :: drop (length msg - 1) msg ++ 0 :: rest.
Proof.
  intros Hl. unfold zlookup, zinsert, zlen. rewrite !decide_True by lia.
  replace (Z.to_nat (Z.of_nat (length msg) - 2)) with (length msg - 2)%nat by lia. split.
  - apply lookup_lt_is_Some_2. rewrite length_app. lia.
  - rewrite insert_app_l by lia. rewrite insert_take_drop by lia. rewrite <- app_assoc. cbn.
    by replace (S (length msg - 2)) with (length msg - 1)%nat by lia.
Qed.

(** The text of an error on Windows is the text that the system has for it, without the end
    of the line, whether or not it fits into the buffer that was used before; the buffer stays
    within its size. It has to be known to the system, and not consist of one line feed only. *)
Theorem error_text_correct code msg s :
  message (u32 code) = Some msg → msg ≠ [10] → error_buf_ok s →
  wp (bio_format_error code) (λ text s', error_buf_ok s' ∧ error_msg_buf s' = Some text ∧
    ∃ rest, text = chomp msg ++ 0 :: rest) s.
Proof.
  intros Hm Hne Hok. unfold bio_format_error. wp_step. wp_step.
  pose proof (format_message_spec (u32 code) _ (error_msg_buf_size s) msg Hm Hok) as Hfm.
  destruct (FormatMessage _ _ _) as [n buf] eqn:E. wp_steps.
  set (s1 := set_error_msg buf _ s).
  assert (Hrest : ∀ s2 rest, error_msg_buf s2 = Some (msg ++ 0 :: rest) →
    zlen (msg ++ 0 :: rest) = error_msg_buf_size s2 →
    wp (s3 ← get; buf ← need NullDeref (error_msg_buf s3);
        _ ← (if zlen msg >? 0 then
               c ← need OutOfBounds (zlookup buf (zlen msg - 1));
               if c =? 10 then
                 _ ← need OutOfBounds (zlookup buf (zlen msg - 2));
                 modify (set_error_msg (Some (zinsert (zlen msg - 2) 0 buf)) (error_msg_buf_size s3))
               else mret tt
             else mret tt);
        s4 ← get; need NullDeref (error_msg_buf s4))
      (λ text s', error_buf_ok s' ∧ error_msg_buf s' = Some text ∧ ∃ rest, text = chomp msg ++ 0 :: rest) s2).
  { intros s2 rest Hb Hz. wp_steps.
    assert (Hdone : msg = chomp msg → error_buf_ok s2 ∧ error_msg_buf s2 = Some (msg ++ 0 :: rest) ∧
      ∃ rest', msg ++ 0 :: rest = chomp msg ++ 0 :: rest').
    { intros <-. unfold error_buf_ok. rewrite Hb. eauto. }
    destruct (Z.gtb_spec (zlen msg) 0) as [Hpos|Hneg].
    2: { wp_steps. apply Hdone. destruct msg; [done|]. unfold zlen in Hneg. cbn in Hneg. lia. }
    assert (Hnil : msg ≠ []) by (intros ->; done). wp_step.
    destruct (last msg) as [c|] eqn:Hlast; [|by apply last_None in Hlast].
    eapply wp_need; [by rewrite zlookup_last, Hlast|]. destruct (Z.eqb_spec c 10) as [->|Hc].
    - assert (Hlen : (2 ≤ length msg)%nat).
      { destruct msg as [|x [|y l]]; [done| |cbn; lia]. by injection Hlast as ->. }
      pose proof (zinsert_text msg rest Hlen) as [(x & Hx) Hins]. wp_step. eapply wp_need; [exact Hx|]. wp_steps.
      rewrite Hins. split; [|split; [done|]].
      + unfold error_buf_ok. cbn. rewrite <- Hins, zlen_zinsert. done.
      + unfold chomp. rewrite decide_True by done. eauto.
    - wp_steps. apply Hdone. unfold chomp. rewrite decide_False by congruence. done. }
  destruct (Z.eqb_spec n 0) as [->|Hn].
  - do 5 wp_step. apply (Hrest _ []); [done|].
    cbn. rewrite zlen_app. done.
  - destruct Hfm as [[? _]|(-> & rest & -> & Hz)]; [done|]. wp_step. by apply (Hrest _ rest).
Qed.
End code.
