(* ===== verification/Kqueue.v ===== *)
(** The platform layer on FreeBSD ([src/freebsd/platform.c]): events are given to the kqueue
    and what it returns is dispatched, once in each round of the event loop.

    What the kernel returns is an argument; the signals that are raised and the exit
    handlers that are called go to a history: [Signal.v] and [Exit.v] have them. *)
From S2P Require Import Prelude HandleTable.

(** ** State *)

(** The user data of an event: the address of [BIO_SIGNAL_POLL_DATA], or of a request. *)
Inductive udata_t := NoData | SignalPoll | Request (req : positive).

#[export] Instance udata_eq_dec : EqDecision udata_t.
Proof. solve_decision. Defined.

(** [struct kevent]. *)
Record kevent := mk_kevent {
  ev_ident : Z;
  ev_filter : Z;
  ev_flags : Z;
  ev_fflags : Z;
  ev_udata : udata_t;
}.

(** [bio_io_req_t]. *)
Record bio_io_req_t := mk_io_req {
  rq_signal : bio_handle_t;
  rq_result : option positive;
  rq_cancelled : bool;
}.

(** What the dispatching calls. *)
Inductive kq_call :=
  | CallExit                           (* bio_handle_exit_signal *)
  | CallRaise (signal : bio_handle_t). (* bio_raise_signal *)

(** [bio_platform_t], the options of the kqueue, the requests and the places for their
    events, both on the stacks of coroutines; the history: the changes that were given to
    the kernel, the events that came from it, what was called. *)
Record bio_platform_t := mk_platform_t {
  in_events : list kevent;
  batch_size : Z;
  signal_monitored : bool;
  io_reqs : gmap positive bio_io_req_t;
  results : gmap positive kevent;
  kq_changes : list (list kevent);
  kq_received : list kevent;
  kq_calls : list kq_call;
}.

Definition set_in_events (f : list kevent → list kevent) (s : bio_platform_t) : bio_platform_t :=
  mk_platform_t (f (in_events s)) (batch_size s) (signal_monitored s) (io_reqs s) (results s)
    (kq_changes s) (kq_received s) (kq_calls s).
Definition set_batch_size (f : Z → Z) (s : bio_platform_t) : bio_platform_t :=
  mk_platform_t (in_events s) (f (batch_size s)) (signal_monitored s) (io_reqs s) (results s)
    (kq_changes s) (kq_received s) (kq_calls s).
Definition set_signal_monitored (f : bool → bool) (s : bio_platform_t) : bio_platform_t :=
  mk_platform_t (in_events s) (batch_size s) (f (signal_monitored s)) (io_reqs s) (results s)
    (kq_changes s) (kq_received s) (kq_calls s).
Definition set_results (f : gmap positive kevent → gmap positive kevent) (s : bio_platform_t) : bio_platform_t :=
  mk_platform_t (in_events s) (batch_size s) (signal_monitored s) (io_reqs s) (f (results s))
    (kq_changes s) (kq_received s) (kq_calls s).
Definition entered (changes events : list kevent) (s : bio_platform_t) : bio_platform_t :=
  mk_platform_t (in_events s) (batch_size s) (signal_monitored s) (io_reqs s) (results s)
    (kq_changes s ++ [changes]) (kq_received s ++ events) (kq_calls s).
Definition called (c : kq_call) (s : bio_platform_t) : bio_platform_t :=
  mk_platform_t (in_events s) (batch_size s) (signal_monitored s) (io_reqs s) (results s)
    (kq_changes s) (kq_received s) (kq_calls s ++ [c]).

(** The constants of the operating system. *)
Definition EVFILT_SIGNAL : Z := -6.
Definition EVFILT_USER : Z := -11.
Definition EV_ADD : Z := 1.
Definition EV_CLEAR : Z := 32.
Definition NOTE_FFNOP : Z := 0.
Definition NOTE_TRIGGER : Z := 16777216.
Definition SIGINT : Z := 2.
Definition SIGTERM : Z := 15.
Definition BIO_FREEBSD_DEFAULT_BATCH_SIZE : Z := 4.

Section code.
Abbreviation kq := (st bio_platform_t).
(** What the kernel returns when it is entered for the [n]-th time, with changes, the
    number of events that there is room for, and a timeout: a time in seconds and
    nanoseconds, or none. [None] for an error. *)
Context (kernel : nat → list kevent → Z → option (Z * Z) → option (list kevent)).

(** ** The code *)

(** [kevent]. *)
Definition call_kevent (changes : list kevent) (nevents : Z) (timeout : option (Z * Z)) :
    kq (option (list kevent)) :=
  s ← get;
  let r := kernel (length (kq_changes s)) changes nevents timeout in
  _ ← modify (entered changes (default [] r));
  mret r.

Definition bio_platform_init : kq unit :=
  _ ← call_kevent [mk_kevent 0 EVFILT_USER (Z.lor EV_ADD EV_CLEAR) NOTE_FFNOP NoData] 0 None;
  modify (set_batch_size (λ n, if n =? 0 then BIO_FREEBSD_DEFAULT_BATCH_SIZE else n)).

Definition bio_platform_cleanup : kq unit := modify (set_in_events (λ _, [])).

Definition deref_req (req : positive) : kq bio_io_req_t := s ← get; need Dangling (io_reqs s !! req).

(** [*(req->result) = *event]. *)
Definition store_result (result : positive) (event : kevent) : kq unit :=
  s ← get;
  _ ← need Dangling (results s !! result);
  modify (set_results <[result := event]>).

Definition dispatch_event (event : kevent) : kq unit :=
  match ev_udata event with
  | SignalPoll => modify (called CallExit)
  | Request p =>
      req ← deref_req p;
      _ ← match rq_result req with Some result => store_result result event | None => mret tt end;
      modify (called (CallRaise (rq_signal req)))
  | NoData => mret tt
  end.

Fixpoint bio_platform_dispatch_events (events : list kevent) : kq unit :=
  match events with
  | [] => mret tt
  | event :: events => _ ← dispatch_event event; bio_platform_dispatch_events events
  end.

(** Whether an event is still wanted. *)
Definition wanted (event : kevent) : kq bool :=
  match ev_udata event with
  | SignalPoll => mret true
  | Request p => req ← deref_req p; mret (negb (rq_cancelled req))
  | NoData => fail NullDeref
  end.

(** The loop that moves the events that are wanted to the front of the array; [n] is the
    number of events that are left. *)
Fixpoint filter_cancelled (n : nat) (event_index out_index : Z) : kq Z :=
  match n with
  | O => mret out_index
  | S n =>
      s ← get;
      event ← need OutOfBounds (zlookup (in_events s) event_index);
      keep ← wanted event;
      if keep : bool then
        _ ← modify (set_in_events (zinsert out_index event));
        filter_cancelled n (event_index + 1) (out_index + 1)
      else filter_cancelled n (event_index + 1) out_index
  end.

(** The number of events that [kevent] returned. *)
Definition num_events (r : option (list kevent)) : Z :=
  match r with Some events => zlen events | None => -1 end.

(** The loop while the batches are full. *)
Fixpoint drain_events (fuel : nat) (r : option (list kevent)) : kq unit :=
  s ← get;
  if num_events r =? to_int (batch_size s) then
    match fuel with
    | O => fail OutOfFuel
    | S fuel =>
        r ← call_kevent [] (batch_size s) (Some (0, 0));
        _ ← bio_platform_dispatch_events (default [] r);
        drain_events fuel r
    end
  else mret tt.

Definition bio_platform_update (fuel : nat) (wait_timeout_ms : Z) (notifiable : bool) : kq unit :=
  let timespec := (Z.quot wait_timeout_ms 1000, Z.rem wait_timeout_ms 1000 * 1000000) in
  s ← get;
  out_index ← filter_cancelled (length (in_events s)) 0 0;
  s ← get;
  r ← call_kevent (take (Z.to_nat out_index) (in_events s)) (batch_size s)
        (if wait_timeout_ms >=? 0 then Some timespec else None);
  _ ← modify (set_in_events (λ _, []));
  _ ← bio_platform_dispatch_events (default [] r);
  drain_events fuel r.

Definition bio_platform_notify : kq unit :=
  _ ← call_kevent [mk_kevent 0 EVFILT_USER 0 (Z.lor NOTE_FFNOP NOTE_TRIGGER) NoData] 0 None; mret tt.

(** The dispositions of the signals are the business of the operating system. *)
Definition bio_platform_block_exit_signal : kq unit :=
  s ← get;
  if signal_monitored s then mret tt
  else
    _ ← modify (set_in_events (λ l, l ++ [mk_kevent SIGTERM EVFILT_SIGNAL EV_ADD 0 SignalPoll]));
    _ ← modify (set_in_events (λ l, l ++ [mk_kevent SIGINT EVFILT_SIGNAL EV_ADD 0 SignalPoll]));
    modify (set_signal_monitored (λ _, true)).

Definition bio_platform_unblock_exit_signal : kq unit := mret tt.

(** ** What an update does *)

(** Events that are given to the kernel have a request, that was not cancelled, or ask for
    exit signals. *)
Definition event_ok (s : bio_platform_t) (event : kevent) : Prop :=
  match ev_udata event with
  | SignalPoll => True
  | Request p => is_Some (io_reqs s !! p)
  | NoData => False
  end.

Definition is_wanted (s : bio_platform_t) (event : kevent) : bool :=
  match ev_udata event with
  | SignalPoll => true
  | Request p => match io_reqs s !! p with Some req => negb (rq_cancelled req) | None => false end
  | NoData => false
  end.

(** Events that come from the kernel belong to a request that waits, if to any. *)
Definition deliverable (s : bio_platform_t) (event : kevent) : Prop :=
  ∀ p, ev_udata event = Request p → ∃ req, io_reqs s !! p = Some req ∧
    ∀ result, rq_result req = Some result → is_Some (results s !! result).

(** What is called for an event, and where it is stored. *)
Definition call_of (reqs : gmap positive bio_io_req_t) (event : kevent) : option kq_call :=
  match ev_udata event with
  | SignalPoll => Some CallExit
  | Request p => req ← reqs !! p; Some (CallRaise (rq_signal req))
  | NoData => None
  end.

Definition place_of (reqs : gmap positive bio_io_req_t) (event : kevent) : option positive :=
  match ev_udata event with Request p => req ← reqs !! p; rq_result req | _ => None end.

Definition deliver (reqs : gmap positive bio_io_req_t) (m : gmap positive kevent) (event : kevent) :
    gmap positive kevent :=
  match place_of reqs event with Some p => <[p := event]> m | None => m end.

Definition dispatched (events : list kevent) (s : bio_platform_t) : bio_platform_t :=
  mk_platform_t (in_events s) (batch_size s) (signal_monitored s) (io_reqs s)
    (foldl (deliver (io_reqs s)) (results s) events)
    (kq_changes s) (kq_received s) (kq_calls s ++ omap (call_of (io_reqs s)) events).

Lemma deliverable_dispatched s events e : deliverable s e → deliverable (dispatched events s) e.
Proof.
  intros H p Hp. destruct (H p Hp) as (req & Hr & Hres). exists req. split; [done|]. intros q Hq.
  apply Hres in Hq. cbn. clear -Hq. revert Hq. generalize (results s).
  induction events as [|e' l IH]; intros m Hm; [done|]. cbn. apply IH. unfold deliver.
  destruct (place_of _ e'); [|done]. apply lookup_insert_is_Some'. by right.
Qed.

Lemma dispatched_cons e events s : dispatched events (dispatched [e] s) = dispatched (e :: events) s.
Proof. unfold dispatched. cbn. destruct (call_of (io_reqs s) e); by rewrite <- app_assoc. Qed.

Lemma dispatch_event_spec s e (Q : unit → bio_platform_t → Prop) :
  deliverable s e → Q tt (dispatched [e] s) → wp (dispatch_event e) Q s.
Proof.
  intros He HQ. unfold dispatch_event, dispatched, deliver, call_of, place_of, deliverable in *. cbn in HQ.
  destruct (ev_udata e) as [| |p]; [wp_steps|wp_steps|].
  - destruct s; cbn in *. by rewrite app_nil_r in HQ.
  - exact HQ.
  - destruct (He p eq_refl) as (req & Hr & Hres). rewrite Hr in HQ. unfold deref_req. wp_steps. cbn in HQ.
    destruct (rq_result req) as [q|]; [|by wp_steps]. destruct (Hres q eq_refl) as [x Hx].
    unfold store_result. by wp_steps.
Qed.

Lemma dispatch_events_spec s events (Q : unit → bio_platform_t → Prop) :
  (∀ e, e ∈ events → deliverable s e) → Q tt (dispatched events s) → wp (bio_platform_dispatch_events events) Q s.
Proof.
  revert s. induction events as [|e events IH]; intros s He HQ; cbn [bio_platform_dispatch_events].
  - wp_steps. unfold dispatched in HQ. destruct s; cbn in *. by rewrite app_nil_r in HQ.
  - wp_step. apply dispatch_event_spec; [apply He; by left|]. apply IH; [|by rewrite dispatched_cons].
    intros e' He'. apply deliverable_dispatched, He. by right.
Qed.

(** *** Cancelled events *)

Lemma wanted_spec s e (Q : bool → bio_platform_t → Prop) :
  event_ok s e → Q (is_wanted s e) s → wp (wanted e) Q s.
Proof.
  unfold event_ok, is_wanted, wanted. destruct (ev_udata e) as [| |p]; [done|intros _ HQ; by wp_steps|].
  intros [req Hr] HQ. rewrite Hr in HQ. unfold deref_req. by wp_steps.
Qed.

Abbreviation kept s l := (filter (λ e, is_wanted s e = true) l).

Lemma filter_cancelled_spec s0 E n i j l :
  (∀ e, e ∈ E → event_ok s0 e) → length l = length E → (i + n)%nat = length E → (j ≤ i)%nat →
  take j l = kept s0 (take i E) → drop i l = drop i E →
  wp (filter_cancelled n (Z.of_nat i) (Z.of_nat j)) (λ out s', ∃ l', s' = set_in_events (λ _, l') s0 ∧
    0 ≤ out ∧ take (Z.to_nat out) l' = kept s0 E) (set_in_events (λ _, l) s0).
Proof.
  intros HE. revert i j l. induction n as [|n IH]; intros i j l Hl Hi Hj Ht Hd; cbn [filter_cancelled].
  { wp_steps. exists l. split_and!; [done|lia|]. rewrite Nat2Z.id, Ht. f_equal. apply take_ge. lia. }
  destruct (lookup_lt_is_Some_2 E i) as [e He]; [lia|].
  assert (Hli : l !! i = Some e).
  { rewrite <- (Nat.add_0_r i), <- lookup_drop, Hd, lookup_drop. by rewrite Nat.add_0_r. }
  assert (Hdrop : drop (S i) l = drop (S i) E).
  { rewrite (drop_S l e i), (drop_S E e i) in Hd by done. by injection Hd. }
  wp_steps. cbn [in_events set_in_events]. eapply wp_need; [unfold zlookup; rewrite decide_True, Nat2Z.id by lia; done|].
  wp_step. apply wanted_spec; [apply HE; by eapply list_elem_of_lookup_2|].
  change (is_wanted (set_in_events (λ _, l) s0) e) with (is_wanted s0 e).
  assert (Hnext : kept s0 (take (S i) E) = kept s0 (take i E) ++ (if is_wanted s0 e then [e] else [])).
  { rewrite (take_S_r E i e), filter_app by done. f_equal. cbn. by destruct (is_wanted s0 e). }
  replace (Z.of_nat i + 1) with (Z.of_nat (S i)) by lia.
  destruct (is_wanted s0 e); cbn [negb].
  - wp_steps. replace (Z.of_nat j + 1) with (Z.of_nat (S j)) by lia.
    change (set_in_events (zinsert (Z.of_nat j) e) (set_in_events (λ _, l) s0)) with
      (set_in_events (λ _, zinsert (Z.of_nat j) e l) s0).
    unfold zinsert. rewrite decide_True, Nat2Z.id by lia. apply IH; [by rewrite length_insert|lia|lia| |].
    + rewrite (take_S_r _ _ e) by (apply list_lookup_insert_eq; lia). by rewrite take_insert_ge, Ht, Hnext.
    + by rewrite drop_insert_lt by lia.
  - apply IH; [done|lia|lia| |done]. rewrite Hnext, app_nil_r. exact Ht.
Qed.

(** *** The whole update *)

(** Requests of events that the kernel has are there. *)
Definition kernel_ok (s : bio_platform_t) : Prop :=
  ∀ n changes nevents timeout events, kernel n changes nevents timeout = Some events →
    ∀ e, e ∈ events → deliverable s e.

(** The kernel runs out of events before it was entered [fuel] times more. *)
Definition runs_out (fuel n : nat) (size : Z) : Prop :=
  ∃ d, (d < fuel)%nat ∧ num_events (kernel (n + d) [] size (Some (0, 0))) ≠ to_int size.

(** [s'] is [s] after the kernel was entered with [changes], and what it returned was
    dispatched. *)
Record kq_served (changes : list (list kevent)) (s s' : bio_platform_t) : Prop := {
  ks_changes : kq_changes s' = kq_changes s ++ changes;
  ks_events : ∃ events, kq_received s' = kq_received s ++ events ∧
    kq_calls s' = kq_calls s ++ omap (call_of (io_reqs s)) events ∧
    results s' = foldl (deliver (io_reqs s)) (results s) events;
  ks_reqs : io_reqs s' = io_reqs s;
  ks_in : in_events s' = in_events s;
  ks_size : batch_size s' = batch_size s;
}.

Lemma kq_served_trans c1 c2 s1 s2 s3 : kq_served c1 s1 s2 → kq_served c2 s2 s3 → kq_served (c1 ++ c2) s1 s3.
Proof.
  intros [A1 (l1 & A2 & A3 & A4) A5 A6 A7] [B1 (l2 & B2 & B3 & B4) B5 B6 B7]. split; try congruence.
  - by rewrite B1, A1, app_assoc.
  - exists (l1 ++ l2). rewrite B2, B3, B4, A5, A2, A3, A4, omap_app, foldl_app. by rewrite !app_assoc.
Qed.

Lemma kernel_ok_served c s s' : kq_served c s s' → kernel_ok s → kernel_ok s'.
Proof.
  intros [_ (l & _ & _ & Hr) Hq _ _] Hk n ch k t events E e He. specialize (Hk n ch k t events E e He).
  apply (deliverable_dispatched s l) in Hk. intros p Hp. destruct (Hk p Hp) as (req & H1 & H2). exists req. cbn in *.
  rewrite Hq, Hr. by split.
Qed.

Lemma enter_and_dispatch {A} changes n t s (k : option (list kevent) → kq A) (Q : A → bio_platform_t → Prop) :
  kernel_ok s →
  (∀ s', kq_served [changes] s s' → wp (k (kernel (length (kq_changes s)) changes n t)) Q s') →
  wp (r ← call_kevent changes n t; _ ← bio_platform_dispatch_events (default [] r); k r) Q s.
Proof.
  intros Hk HQ. unfold call_kevent. wp_steps. set (r := kernel _ _ _ _) in *. set (events := default [] r).
  apply dispatch_events_spec.
  - intros e He. destruct r as [l|] eqn:E; [|by apply not_elem_of_nil in He]. exact (Hk _ _ _ _ _ E e He).
  - apply HQ. split; try done. by exists events.
Qed.

Lemma drain_events_spec fuel r s :
  kernel_ok s → runs_out fuel (length (kq_changes s)) (batch_size s) ∨ num_events r ≠ to_int (batch_size s) →
  wp (drain_events fuel r) (λ _ s', ∃ n, kq_served (replicate n []) s s' ∧
    num_events match n with O => r | S n => kernel (length (kq_changes s) + n) [] (batch_size s) (Some (0, 0)) end
      ≠ to_int (batch_size s)) s.
Proof.
  revert r s. induction fuel as [|fuel IH]; intros r s Hk Hf; cbn [drain_events]; wp_steps.
  all: destruct (Z.eqb_spec (num_events r) (to_int (batch_size s))) as [E|E];
    [|wp_steps; exists 0%nat; split; [|done]; split; try done; [by rewrite app_nil_r|exists []; by rewrite !app_nil_r]].
  - destruct Hf as [(d & Hd & _)|]; [lia|done].
  - destruct Hf as [(d & Hd & Hq)|]; [|done]. apply enter_and_dispatch; [done|]. intros s1 Hs1.
    eapply wp_mono.
    { apply IH; [by eapply kernel_ok_served|]. rewrite (ks_changes _ _ _ Hs1), (ks_size _ _ _ Hs1), length_app. cbn.
      destruct d as [|d]; [right; by rewrite Nat.add_0_r in Hq|left]. exists d. split; [lia|].
      by replace (length (kq_changes s) + 1 + d)%nat with (length (kq_changes s) + S d)%nat by lia. }
    intros [] s2 (n & Hs2 & Hlast). exists (S n). split; [exact (kq_served_trans [[]] _ _ _ _ Hs1 Hs2)|].
    rewrite (ks_changes _ _ _ Hs1), (ks_size _ _ _ Hs1), length_app in Hlast. cbn in Hlast.
    destruct n as [|n]; [by rewrite Nat.add_0_r|].
    by replace (length (kq_changes s) + S n)%nat with (length (kq_changes s) + 1 + n)%nat by lia.
Qed.

(** The timeout that the kernel is given. *)
Definition kernel_timeout (wait_timeout_ms : Z) : option (Z * Z) :=
  if wait_timeout_ms >=? 0 then Some (Z.quot wait_timeout_ms 1000, Z.rem wait_timeout_ms 1000 * 1000000) else None.

(** C35: An update of the platform on FreeBSD gives the kernel the events that are not cancelled,
    in order, and forgets them all; every event that comes back is dispatched once, in
    order: its request gets it and the signal of the request is raised, or the exit
    handlers are called. It goes on until a batch is not full, and comes to an end when
    the kernel runs out of events. *)
Theorem kqueue_update_correct fuel wait_timeout_ms notifiable s :
  (∀ e, e ∈ in_events s → event_ok s e) → kernel_ok s →
  (∀ n, runs_out fuel n (batch_size s)) →
  wp (bio_platform_update fuel wait_timeout_ms notifiable) (λ _ s', in_events s' = [] ∧
    ∃ n, kq_served (kept s (in_events s) :: replicate n []) (set_in_events (λ _, []) s) s' ∧
      num_events (if decide (n = 0%nat)
        then kernel (length (kq_changes s)) (kept s (in_events s)) (batch_size s) (kernel_timeout wait_timeout_ms)
        else kernel (length (kq_changes s) + n) [] (batch_size s) (Some (0, 0))) ≠ to_int (batch_size s)) s.
Proof.
  intros HE Hk Hf. unfold bio_platform_update. wp_step. wp_step. wp_step.
  assert (H0 : wp (filter_cancelled (length (in_events s)) 0 0) (λ out s', ∃ l', s' = set_in_events (λ _, l') s ∧
    0 ≤ out ∧ take (Z.to_nat out) l' = kept s (in_events s)) s).
  { pose proof (filter_cancelled_spec s (in_events s) (length (in_events s)) 0 0 (in_events s) HE) as H.
    replace (set_in_events (λ _, in_events s) s) with s in H by by destruct s. by apply H. }
  eapply wp_mono; [exact H0|].
  intros out s1 (l & -> & Hout & Ht). wp_steps. cbn [in_events set_in_events]. rewrite Ht.
  unfold call_kevent. wp_steps. cbn [kq_changes batch_size set_in_events].
  set (t := if wait_timeout_ms >=? 0 then _ else None). set (r := kernel _ _ _ _).
  set (s0 := set_in_events (λ _, []) s). set (s2 := set_in_events (λ _, []) (entered _ _ _)).
  apply dispatch_events_spec.
  { intros e He. destruct r as [events|] eqn:E; [|by apply not_elem_of_nil in He]. exact (Hk _ _ _ _ _ E e He). }
  assert (Hs3 : kq_served [kept s (in_events s)] s0 (dispatched (default [] r) s2)).
  { split; try done. by exists (default [] r). }
  eapply wp_mono; [apply drain_events_spec; [|left; apply Hf]|].
  - eapply kernel_ok_served; [exact Hs3|exact Hk].
  - intros [] s4 (n & Hs4 & Hlast). split; [by rewrite (ks_in _ _ _ Hs4)|]. exists n.
    split; [exact (kq_served_trans [_] _ _ _ _ Hs3 Hs4)|]. cbn in Hlast. rewrite length_app in Hlast. cbn in Hlast.
    destruct n as [|n]; [exact Hlast|]. rewrite decide_False by done.
    by replace (length (kq_changes s) + S n)%nat with (length (kq_changes s) + 1 + n)%nat by lia.
Qed.
End code.
