(* ===== verification/Platforms.v ===== *)
(** The platforms do the same: the functions of [src/linux], of [src/freebsd] and of
    [src/windows] behave alike. *)
From stdpp Require Import strings.
From S2P Require Import Prelude HandleTable Error Io Cursor Windows LinuxFile BsdFile WinFile.

Section files.
Context {OS OS' OS'' Sock Sock' Sock'' : Type}.

(** The same file on Linux, on FreeBSD and on Windows; nobody else uses it. *)
Context (others : io_ctx OS LinuxFile.bio_file_impl_t Sock → io_ctx OS LinuxFile.bio_file_impl_t Sock).
Context (kernel : request → OS → reply * OS) (strerror : Z → string) (contents : OS → Z → option (list Z)).
Context (others' : io_ctx OS' BsdFile.bio_file_impl_t Sock' → io_ctx OS' BsdFile.bio_file_impl_t Sock').
Context (kernel' : request → OS' → reply * OS') (strerror' : Z → string) (contents' : OS' → Z → option (list Z)).
Context (aio_of : OS' → positive → option aio_state).
Context (others'' : io_ctx OS'' WinFile.bio_file_impl_t Sock'' → io_ctx OS'' WinFile.bio_file_impl_t Sock'').
Context (kernel'' : win_request → OS'' → reply * OS'') (strerror'' : Z → string).
Context (contents'' : OS'' → Z → option (list Z)) (ov_of : OS'' → positive → option ov_state).
Context (h h' h'' : bio_handle_t) (p p' p'' : positive) (fd fd' fd'' : Z) (mode : bio_completion_mode_t).

Abbreviation linux_file := (LinuxFile.file_at contents h p fd).
Abbreviation bsd_file := (BsdFile.file_at contents' h' p' fd').
Abbreviation windows_file := (WinFile.file_at contents'' h'' p'' fd'' mode).

Abbreviation linux_exec := (LinuxFile.file_exec others kernel strerror h).
Abbreviation bsd_exec := (BsdFile.file_exec others' kernel' strerror' h').
Abbreviation windows_exec := (WinFile.file_exec others'' kernel'' strerror'' h'').

(** What is assumed of the operating systems and of the other coroutines. *)
Class LinuxOk : Prop := {
  linux_regular : LinuxFile.regular_files kernel contents;
  linux_mine l pos s : linux_file l pos s → linux_file l pos (others s);
}.

Class BsdOk : Prop := {
  bsd_regular : BsdFile.regular_files kernel' contents' aio_of;
  bsd_mine l pos b a s : file_in contents' h' p' fd' l pos b a s →
    file_in contents' h' p' fd' l pos b a (others' s) ∧
    ∀ aio, a = Some aio → aio_of (os (others' s)) aio = aio_of (os s) aio;
}.

Class WindowsOk : Prop := {
  windows_regular : WinFile.regular_files kernel'' contents'' ov_of;
  windows_polite : polite others'';
  windows_mine l pos s : windows_file l pos s → windows_file l pos (others'' s) ∧
    ∀ ov st, ov_of (os s) ov = Some st → about fd'' st → ov_of (os (others'' s)) ov = Some st;
}.

(** Each platform implements the interface. *)
#[export] Instance linux_cursor `{!LinuxOk} :
  Cursor (λ _, LinuxFile.failed strerror) linux_exec linux_file.
Proof. intros l pos s op error. apply linux_file_exec; [apply linux_regular|apply linux_mine]. Qed.

#[export] Instance bsd_cursor `{!BsdOk} : Cursor (λ _, BsdFile.failed strerror') bsd_exec bsd_file.
Proof. intros l pos s op error. eapply freebsd_file_exec; [apply bsd_regular|apply bsd_mine]. Qed.

#[export] Instance windows_cursor `{!WindowsOk} : Cursor (WinFile.failed strerror'') windows_exec windows_file.
Proof.
  intros l pos s op error Hf Hok. eapply wp_mono.
  - eapply windows_file_exec; [apply windows_regular|apply windows_polite|apply windows_mine|done..].
  - by intros r s' [_ Hr].
Qed.

End files.
