(* ===== verification/Buffering.v ===== *)
(** Buffered input and output ([src/buffering.c], [include/bio/buffering.h]), over the
    files and sockets of any platform. *)
From stdpp Require Import strings.
From S2P Require Import Prelude HandleTable Error Io.

(** ** Memory of a buffer *)

(** [memcpy] from and to the memory of a buffer. *)
Definition load {S} (data : list (option Z)) (off n : Z) : st S (list Z) :=
  if (0 <=? off) && (0 <=? n) && (off + n <=? zlen data)
  then need Uninit (mapM id (take (Z.to_nat n) (drop (Z.to_nat off) data)))
  else fail OutOfBounds.

Definition overwrite {S} (data : list (option Z)) (off : Z) (bytes : list Z) : st S (list (option Z)) :=
  if (0 <=? off) && (off + zlen bytes <=? zlen data)
  then mret (take (Z.to_nat off) data ++ (Some <$> bytes) ++ drop (Z.to_nat off + length bytes) data)
  else fail OutOfBounds.

Section code.
Context {OS File Sock : Type}.
Abbreviation io := (io_ctx OS File Sock).
Abbreviation here := "src/buffering.c"%string.
(** The platform. *)
Context (bio_fread bio_net_recv : bio_handle_t → Z → error_ptr → st io (Z * list Z * error_ptr)).
Context (bio_fwrite bio_net_send : bio_handle_t → list Z → error_ptr → st io (Z * error_ptr)).
Context (bio_fflush : bio_handle_t → error_ptr → st io (bool * error_ptr)).
(** The callbacks of programs. *)
Context (user_read : positive → bio_handle_t → Z → error_ptr → st io (Z * list Z * error_ptr)).
Context (user_write : positive → bio_handle_t → list Z → error_ptr → st io (Z * error_ptr)).
Context (user_flush : positive → bio_handle_t → error_ptr → st io (bool * error_ptr)).

(** ** The code *)

Definition bio_read_file_buffered (ctx : bio_handle_t) (size : Z) (error : error_ptr) :=
  bio_fread ctx size error.
Definition bio_write_file_buffered (ctx : bio_handle_t) (buf : list Z) (error : error_ptr) :=
  bio_fwrite ctx buf error.
Definition bio_flush_file_buffered (ctx : bio_handle_t) (error : error_ptr) :=
  bio_fflush ctx error.
Definition bio_read_socket_buffered (ctx : bio_handle_t) (size : Z) (error : error_ptr) :=
  bio_net_recv ctx size error.
Definition bio_write_socket_buffered (ctx : bio_handle_t) (buf : list Z) (error : error_ptr) :=
  bio_net_send ctx buf error.

(** Calls through the function pointers. *)
Definition read_fn (f : option bio_read_fn_t) : bio_handle_t → Z → error_ptr → st io (Z * list Z * error_ptr) :=
  match f with
  | Some ReadFile => bio_read_file_buffered
  | Some ReadSocket => bio_read_socket_buffered
  | Some (ReadUser n) => user_read n
  | None => λ _ _ _, fail NullDeref
  end.

Definition write_fn (f : option bio_write_fn_t) : bio_handle_t → list Z → error_ptr → st io (Z * error_ptr) :=
  match f with
  | Some WriteFile => bio_write_file_buffered
  | Some WriteSocket => bio_write_socket_buffered
  | Some (WriteUser n) => user_write n
  | None => λ _ _ _, fail NullDeref
  end.

Definition flush_fn (f : option bio_flush_fn_t) : bio_handle_t → error_ptr → st io (bool * error_ptr) :=
  match f with
  | Some FlushFile => bio_flush_file_buffered
  | Some (FlushUser n) => user_flush n
  | None => λ _ _, fail NullDeref
  end.

Definition bio_make_buffer (options : bio_buffer_options_t) : st io bio_handle_t :=
  impl ← io_malloc;
  _ ← modify (λ s : io, set_buffers
        (<[impl := mk_buffer options 0 0 (replicate (Z.to_nat (bo_size options)) None)]> (buffers s)) s);
  io_make_handle impl BIO_BUFFER_HANDLE.

Definition bio_destroy_buffer (buffer : bio_handle_t) : st io unit :=
  impl ← io_close_handle buffer BIO_BUFFER_HANDLE;
  match impl with
  | Some impl =>
      x ← deref_buffer impl;
      _ ← (if bf_offset x >? 0 then
             _ ← (if decide (bo_write_fn (bf_options x) ≠ None) then
                    bytes ← load (bf_data x) 0 (bf_offset x);
                    _ ← write_fn (bo_write_fn (bf_options x)) (bo_ctx (bf_options x)) bytes None; mret tt
                  else mret tt);
             x ← deref_buffer impl;
             if decide (bo_flush_fn (bf_options x) ≠ None) then
               _ ← flush_fn (bo_flush_fn (bf_options x)) (bo_ctx (bf_options x)) None; mret tt
             else mret tt
           else mret tt);
      free_buffer impl
  | None => mret tt
  end.

Definition bio_make_file_read_buffer (file : bio_handle_t) (size : Z) : st io bio_handle_t :=
  bio_make_buffer (mk_buffer_options file (Some ReadFile) None None size).

Definition bio_make_file_write_buffer (file : bio_handle_t) (size : Z) (fflush : bool) : st io bio_handle_t :=
  bio_make_buffer (mk_buffer_options file None (Some WriteFile) (if fflush then Some FlushFile else None) size).

Definition bio_make_socket_read_buffer (socket : bio_handle_t) (size : Z) : st io bio_handle_t :=
  bio_make_buffer (mk_buffer_options socket (Some ReadSocket) None None size).

Definition bio_make_socket_write_buffer (socket : bio_handle_t) (size : Z) : st io bio_handle_t :=
  bio_make_buffer (mk_buffer_options socket None (Some WriteSocket) None size).

Definition set_offset (n : Z) (x : bio_io_buffer_impl_t) : bio_io_buffer_impl_t :=
  mk_buffer (bf_options x) n (bf_data_size x) (bf_data x).

(** The loop of [bio_flush_internal_buffer]. *)
Fixpoint flush_loop (fuel : nat) (impl : positive) (bytes_to_write total_bytes_written : Z)
    (error : error_ptr) : st io (bool * error_ptr) :=
  match fuel with
  | O => fail OutOfFuel
  | S fuel =>
      if bytes_to_write >? 0 then
        x ← deref_buffer impl;
        bytes ← load (bf_data x) total_bytes_written bytes_to_write;
        r ← write_fn (bo_write_fn (bf_options x)) (bo_ctx (bf_options x)) bytes error;
        let '(bytes_written, error) := r in
        if bytes_written =? 0 then mret (false, error)
        else flush_loop fuel impl (u64 (bytes_to_write - bytes_written))
               (u64 (total_bytes_written + bytes_written)) error
      else mret (true, error)
  end.

Definition bio_flush_internal_buffer (impl : positive) (error : error_ptr) : st io (bool * error_ptr) :=
  x ← deref_buffer impl;
  r ← flush_loop (S (Z.to_nat (bf_offset x))) impl (bf_offset x) 0 error;
  let '(ok, error) := r in
  if ok : bool then
    x ← deref_buffer impl;
    _ ← store_buffer impl (set_offset 0 x);
    mret (true, error)
  else mret (false, error).

(** The end of [bio_buffered_read]: copy what is in the buffer. *)
Definition take_buffered (impl : positive) (size : Z) (error : error_ptr) : st io (Z * list Z * error_ptr) :=
  x ← deref_buffer impl;
  let data_available := u64 (bf_data_size x - bf_offset x) in
  let num_bytes_to_read := if size <? data_available then size else data_available in
  bytes ← load (bf_data x) (bf_offset x) num_bytes_to_read;
  _ ← store_buffer impl (set_offset (u64 (bf_offset x + num_bytes_to_read)) x);
  mret (num_bytes_to_read, bytes, error).

Definition bio_buffered_read (buffer : bio_handle_t) (size : Z) (error : error_ptr) :
    st io (Z * list Z * error_ptr) :=
  impl ← io_resolve_handle buffer BIO_BUFFER_HANDLE;
  match impl with
  | Some impl =>
      x ← deref_buffer impl;
      if decide (bo_read_fn (bf_options x) ≠ None) then
        if negb (bf_offset x <? bf_data_size x) then
          r ← read_fn (bo_read_fn (bf_options x)) (bo_ctx (bf_options x)) (bo_size (bf_options x)) error;
          let '(bytes_read, bytes, error) := r in
          x ← deref_buffer impl;
          data ← overwrite (bf_data x) 0 bytes;
          if bytes_read =? 0 then
            _ ← store_buffer impl (mk_buffer (bf_options x) (bf_offset x) (bf_data_size x) data);
            mret (0, [], error)
          else
            _ ← store_buffer impl (mk_buffer (bf_options x) 0 bytes_read data);
            take_buffered impl size error
        else take_buffered impl size error
      else mret (0, [], bio_set_core_error error BIO_ERROR_NOT_SUPPORTED here 168)
  | None => mret (0, [], bio_set_core_error error BIO_ERROR_INVALID_ARGUMENT here 172)
  end.

(** The end of [bio_buffered_write]: the bytes go to the buffer if they fit, or are
    written directly. *)
Definition put_buffered (impl : positive) (out : list Z) (error : error_ptr) : st io (Z * error_ptr) :=
  x ← deref_buffer impl;
  let size := zlen out in
  if u64 (bf_offset x + size) <=? bo_size (bf_options x) then
    data ← overwrite (bf_data x) (bf_offset x) out;
    _ ← store_buffer impl (mk_buffer (bf_options x) (u64 (bf_offset x + size)) (bf_data_size x) data);
    mret (size, error)
  else write_fn (bo_write_fn (bf_options x)) (bo_ctx (bf_options x)) out error.

Definition bio_buffered_write (buffer : bio_handle_t) (out : list Z) (error : error_ptr) : st io (Z * error_ptr) :=
  impl ← io_resolve_handle buffer BIO_BUFFER_HANDLE;
  match impl with
  | Some impl =>
      x ← deref_buffer impl;
      let size := zlen out in
      if decide (bo_write_fn (bf_options x) ≠ None) then
        f ← (if u64 (bf_offset x + size) >? bo_size (bf_options x)
             then bio_flush_internal_buffer impl error else mret (true, error));
        let '(ok, error) := f in
        if negb ok then mret (0, error) else put_buffered impl out error
      else mret (0, bio_set_core_error error BIO_ERROR_NOT_SUPPORTED here 204)
  | None => mret (0, bio_set_core_error error BIO_ERROR_INVALID_ARGUMENT here 208)
  end.

Definition bio_flush_buffer (buffer : bio_handle_t) (error : error_ptr) : st io (bool * error_ptr) :=
  impl ← io_resolve_handle buffer BIO_BUFFER_HANDLE;
  match impl with
  | Some impl =>
      x ← deref_buffer impl;
      if decide (bo_write_fn (bf_options x) ≠ None) then
        f ← (if bf_offset x >? 0 then bio_flush_internal_buffer impl error else mret (true, error));
        let '(ok, error) := f in
        if negb ok then mret (false, error)
        else
          x ← deref_buffer impl;
          if decide (bo_flush_fn (bf_options x) ≠ None)
          then flush_fn (bo_flush_fn (bf_options x)) (bo_ctx (bf_options x)) error
          else mret (true, error)
      else mret (false, bio_set_core_error error BIO_ERROR_NOT_SUPPORTED here 228)
  | None => mret (false, bio_set_core_error error BIO_ERROR_INVALID_ARGUMENT here 232)
  end.

(** The helpers of [include/bio/buffering.h]. *)
Definition bio_buffered_read_exactly (buffer : bio_handle_t) (size : Z) (error : error_ptr) :
    st io (Z * list Z * error_ptr) :=
  read_all (S (Z.to_nat size)) (bio_buffered_read buffer) size 0 [] error.

Definition bio_buffered_write_exactly (buffer : bio_handle_t) (out : list Z) (error : error_ptr) :
    st io (Z * error_ptr) :=
  write_all (S (length out)) (bio_buffered_write buffer) out 0 error.

(** ** Memory *)

Lemma mapM_Some (l : list Z) : mapM id (Some <$> l) = Some l.
Proof. induction l as [|x l IH]; [done|]. cbn. by rewrite IH. Qed.

(** The bytes [l] are in the memory at [off]. *)
Definition holds (data : list (option Z)) (off : Z) (l : list Z) : Prop :=
  0 ≤ off ∧ take (length l) (drop (Z.to_nat off) data) = Some <$> l.

Lemma holds_length data off l : holds data off l → zlen l = 0 ∨ off + zlen l ≤ zlen data.
Proof.
  intros [Ho H]. apply (f_equal length) in H. rewrite length_take, length_drop, length_fmap in H.
  unfold zlen. lia.
Qed.

Lemma load_spec {S} data off n l (s : S) (Q : list Z → S → Prop) :
  holds data off l → off + n ≤ zlen data → n = zlen l → Q l s → wp (load data off n) Q s.
Proof.
  intros [Ho H] Hn -> HQ. unfold load. pose proof (zlen_nonneg l).
  rewrite !(proj2 (Z.leb_le _ _)) by lia. cbn [andb]. unfold zlen. rewrite Nat2Z.id, H, mapM_Some. done.
Qed.

Lemma overwrite_spec {S} data off bytes (s : S) (Q : list (option Z) → S → Prop) :
  0 ≤ off → off + zlen bytes ≤ zlen data →
  (∀ data', zlen data' = zlen data → holds data' off bytes →
    (∀ l, holds data 0 l → zlen l = off → holds data' 0 (l ++ bytes)) → Q data' s) →
  wp (overwrite data off bytes) Q s.
Proof.
  intros Ho Hb HQ. unfold overwrite. rewrite !(proj2 (Z.leb_le _ _)) by lia. cbn [andb]. wp_step. apply HQ.
  - unfold zlen in *. rewrite !length_app, length_take, length_fmap, length_drop. lia.
  - split; [done|]. rewrite drop_app_length' by (unfold zlen in *; rewrite length_take; lia).
    by rewrite take_app_length' by (by rewrite length_fmap).
  - intros l [_ Hl] Hlen. split; [done|]. cbn in Hl |- *. rewrite app_assoc, fmap_app.
    replace (Z.to_nat off) with (length l) by (unfold zlen in Hlen; lia). rewrite drop_0 in Hl |- *. rewrite Hl.
    rewrite take_app_length'; [done|]. by rewrite !length_app, !length_fmap.
Qed.

Lemma holds_split data off l k : holds data off (l ++ k) → holds data (off + zlen l) k.
Proof.
  intros [Ho H]. split; [pose proof (zlen_nonneg l); lia|].
  rewrite length_app, fmap_app, <- take_take_drop, drop_drop in H.
  apply app_inj_1 in H as [_ H].
  - rewrite <- H. f_equal. f_equal. unfold zlen. lia.
  - rewrite length_take, length_drop, length_fmap.
    apply (f_equal length) in H. rewrite !length_app, !length_take, !length_drop, !length_fmap in H. lia.
Qed.

Lemma holds_prefix data off l k : holds data off (l ++ k) → holds data off l.
Proof.
  intros [Ho H]. split; [done|]. apply (f_equal (take (length l))) in H.
  rewrite take_take, length_app, fmap_app, take_app_length' in H by (by rewrite length_fmap).
  rewrite <- H. f_equal. lia.
Qed.

(** ** Objects *)

(** The handle [h] stands for the buffer [x]. *)
Definition buffer_at (h : bio_handle_t) (p : positive) (x : bio_io_buffer_impl_t) (s : io) : Prop :=
  io_wf s ∧ object_of s h BIO_BUFFER_HANDLE = Some p ∧ buffers s !! p = Some x.

Lemma buffer_at_resolve h p x s (Q : option positive → io → Prop) :
  buffer_at h p x s → Q (Some p) s → wp (io_resolve_handle h BIO_BUFFER_HANDLE) Q s.
Proof.
  intros (Hwf & Ho & _) HQ. apply io_resolve_spec; [done| |by rewrite Ho].
  apply live_known. rewrite (proj1 (object_of_live _ _ _ _) Ho). eauto.
Qed.

Lemma buffer_at_deref h p x s (Q : bio_io_buffer_impl_t → io → Prop) :
  buffer_at h p x s → Q x s → wp (deref_buffer p) Q s.
Proof. intros (_ & _ & Hx) HQ. unfold deref_buffer. wp_step. by eapply wp_need. Qed.

Lemma buffer_at_store h p x y s (Q : unit → io → Prop) :
  buffer_at h p x s →
  (∀ s', buffer_at h p y s' → os s' = os s → io_table s' = io_table s → files s' = files s →
    sockets s' = sockets s → Q tt s') →
  wp (store_buffer p y) Q s.
Proof.
  intros Hx HQ. unfold store_buffer. wp_step. eapply buffer_at_deref; [done|]. wp_step. apply HQ; try done.
  destruct Hx as (Hwf & Ho & Hx). split_and!; [by apply insert_buffer_wf|done|]. cbn. by rewrite lookup_insert_eq.
Qed.

(** A new buffer is empty. *)
Lemma make_buffer_spec options s (Q : bio_handle_t → io → Prop) :
  io_wf s →
  (∀ h s', io_evolves s s' → os s' = os s → files s' = files s → sockets s' = sockets s →
    buffer_at h (io_next s) (mk_buffer options 0 0 (replicate (Z.to_nat (bo_size options)) None)) s' → Q h s') →
  wp (bio_make_buffer options) Q s.
Proof.
  intros Hwf HQ. unfold bio_make_buffer, io_malloc. wp_steps.
  set (s1 := set_buffers _ _).
  assert (Hwf1 : io_wf s1) by by apply insert_buffer_wf, malloc_wf.
  apply io_make_spec; [done|cbn; rewrite lookup_insert_eq; eauto| |cbn; lia|].
  { intros h Hh. destruct (proj1 (iw_buffers _ Hwf) _ _ Hh) as (q & [= <-] & _ & Hlt). lia. }
  intros h t Hwf2 Hk Hl He. apply HQ; try done.
  - split; [done|]. cbn. lia.
  - split_and!; [done| |by cbn; rewrite lookup_insert_eq].
    apply object_of_live. cbn. by rewrite Hl, lookup_insert_eq.
Qed.

(** ** Writing through a buffer *)

Section writing.
(** A buffer, and what its callback delivers to. *)
Context (h : bio_handle_t) (p : positive) (options : bio_buffer_options_t) (w : bio_write_fn_t).
Context (sunk : io → list Z).
Context (Hw : bo_write_fn options = Some w) (Hsize : 0 ≤ bo_size options < 2 ^ 63).

(** The callback delivers a part of what it is given, and leaves the buffer alone. *)
Context (Hwrite : ∀ x s buf error, buffer_at h p x s → bf_options x = options → buf ≠ [] →
  wp (write_fn (Some w) (bo_ctx options) buf error) (λ r s',
    0 ≤ r.1 ≤ zlen buf ∧ buffer_at h p x s' ∧ sunk s' = sunk s ++ take (Z.to_nat r.1) buf) s).
(** What is delivered does not depend on the memory of the buffer. *)
Context (Hsunk : ∀ s s', os s' = os s → io_table s' = io_table s → files s' = files s →
  sockets s' = sockets s → sunk s' = sunk s).

(** The buffer holds the bytes [l], which are not delivered yet. *)
Definition pending (l : list Z) (x : bio_io_buffer_impl_t) : Prop :=
  bf_options x = options ∧ zlen (bf_data x) = bo_size options ∧ bf_offset x = zlen l ∧
  zlen l ≤ bo_size options ∧ holds (bf_data x) 0 l.

Definition write_buffer (l : list Z) (s : io) : Prop := ∃ x, buffer_at h p x s ∧ pending l x.

(** Some of the bytes were delivered; more than nothing, or all of them, if that worked. *)
Definition delivered (l : list Z) (s s' : io) : Prop := ∃ k, sunk s' = sunk s ++ take k l.

Lemma flush_loop_spec x l k : pending (l ++ k) x →
  ∀ fuel s error, (length k < fuel)%nat → buffer_at h p x s →
  wp (flush_loop fuel p (zlen k) (zlen l) error) (λ r s', buffer_at h p x s' ∧
    if r.1 then sunk s' = sunk s ++ k else delivered k s s') s.
Proof.
  intros Hp fuel. revert l k Hp. induction fuel as [|fuel IH]; intros l k Hp s error Hf Hx; [lia|].
  cbn [flush_loop]. pose proof Hp as (Ho & Hlen & _ & Hle & Hh).
  destruct (Z.gtb_spec (zlen k) 0) as [Hpos|Hneg].
  - wp_step. eapply buffer_at_deref; [done|]. wp_step. rewrite zlen_app in Hle.
    eapply load_spec; [apply (holds_split _ _ _ _ Hh)|lia|done|]. wp_step.
    assert (Hk : k ≠ []) by (intros ->; unfold zlen in Hpos; cbn in Hpos; lia).
    rewrite Ho, Hw. eapply wp_mono; [by eapply Hwrite|]. intros [n e] s1 (Hn & Hx1 & Hs1). cbn in Hn, Hs1 |- *.
    destruct (Z.eqb_spec n 0) as [->|Hne].
    { wp_steps. split; [done|]. by exists 0%nat. }
    assert (Hk' : k = take (Z.to_nat n) k ++ drop (Z.to_nat n) k) by (by rewrite take_drop).
    assert (Htake : zlen (take (Z.to_nat n) k) = n) by (unfold zlen in *; rewrite length_take; lia).
    assert (Hdrop : zlen (drop (Z.to_nat n) k) = zlen k - n) by (unfold zlen in *; rewrite length_drop; lia).
    pose proof (zlen_nonneg l).
    rewrite !u64_small by lia. rewrite <- Hdrop.
    replace (zlen l + n) with (zlen (l ++ take (Z.to_nat n) k)) by (rewrite zlen_app; lia).
    eapply wp_mono; [apply IH; [by rewrite <- app_assoc, take_drop| |done]|].
    + rewrite length_drop. unfold zlen in *. lia.
    + intros [ok e'] s2 [Hx2 Hs2]. split; [done|]. cbn in Hs2 |- *. destruct ok.
      * by rewrite Hs2, Hs1, <- app_assoc, take_drop.
      * destruct Hs2 as [m Hm]. exists (Z.to_nat n + m)%nat. rewrite Hm, Hs1, <- app_assoc. f_equal.
        apply take_take_drop.
  - assert (k = []) as ->. { destruct k; [done|]. unfold zlen in Hneg. cbn in Hneg. lia. }
    wp_steps. split; [done|]. by rewrite app_nil_r.
Qed.

(** Emptying the buffer: everything is delivered, or it failed. Then the buffer still holds
    all its bytes, although a part may have been delivered. *)
Lemma flush_internal_spec l s error :
  write_buffer l s →
  wp (bio_flush_internal_buffer p error) (λ r s',
    if r.1 then write_buffer [] s' ∧ sunk s' = sunk s ++ l
    else write_buffer l s' ∧ delivered l s s') s.
Proof.
  intros (x & Hx & Hp). unfold bio_flush_internal_buffer. wp_step. eapply buffer_at_deref; [done|]. wp_step.
  pose proof Hp as (Ho & Hlen & Hoff & Hle & Hh). rewrite Hoff.
  eapply wp_mono; [apply (flush_loop_spec x [] l Hp); [unfold zlen; lia|done]|].
  intros [ok e] s1 [Hx1 Hs1]. cbn in Hs1 |- *. destruct ok.
  - wp_step. eapply buffer_at_deref; [done|]. wp_step. eapply buffer_at_store; [done|].
    intros s2 Hx2 H1 H2 H3 H4. wp_steps. split; [|by rewrite (Hsunk _ _ H1 H2 H3 H4)].
    eexists. split; [done|]. split_and!; cbn; [done|done|done|unfold zlen; cbn; lia|by split].
  - wp_steps. split; [|done]. by exists x.
Qed.

Lemma put_buffered_spec l s out error :
  write_buffer l s → zlen out < 2 ^ 63 → l = [] ∨ zlen l + zlen out ≤ bo_size options →
  wp (put_buffered p out error) (λ r s', 0 ≤ r.1 ≤ zlen out ∧
    ∃ l', write_buffer l' s' ∧ sunk s' ++ l' = sunk s ++ l ++ take (Z.to_nat r.1) out) s.
Proof.
  intros (x & Hx & Ho & Hlen & Hoff & Hle & Hh) Hout Hroom.
  pose proof (zlen_nonneg l). pose proof (zlen_nonneg out). unfold put_buffered. wp_step.
  eapply buffer_at_deref; [done|]. rewrite Ho, Hoff, u64_small by lia. case_match eqn:E.
  - apply Z.leb_le in E. wp_step. apply overwrite_spec; [lia|lia|]. intros data Hd _ Hput. wp_step.
    eapply buffer_at_store; [done|]. intros s2 Hx2 H1 H2 H3 H4. wp_steps. cbn. split; [lia|].
    exists (l ++ out). split.
    + eexists. split; [done|]. split_and!; cbn; rewrite ?zlen_app; try (done || lia). by apply Hput.
    + rewrite (Hsunk _ _ H1 H2 H3 H4). do 2 f_equal. symmetry. apply take_ge. unfold zlen. lia.
  - apply Z.leb_gt in E. destruct Hroom as [->|]; [|lia]. rewrite Hw.
    assert (Hne : out ≠ []) by (intros ->; unfold zlen in E; cbn in E; lia).
    eapply wp_mono; [by eapply Hwrite|]. intros [n e'] s2 (Hn & Hx2 & Hs2). cbn in Hn, Hs2 |- *.
    split; [done|]. exists []. split; [by exists x|]. by rewrite Hs2, app_nil_r.
Qed.

(** Writing: the bytes that are accepted follow those before, or emptying the buffer
    failed. *)
Lemma buffered_write_spec l s out error :
  write_buffer l s → zlen out < 2 ^ 63 →
  wp (bio_buffered_write h out error) (λ r s', 0 ≤ r.1 ≤ zlen out ∧
    ((∃ l', write_buffer l' s' ∧ sunk s' ++ l' = sunk s ++ l ++ take (Z.to_nat r.1) out) ∨
     (r.1 = 0 ∧ write_buffer l s' ∧ delivered l s s'))) s.
Proof.
  intros Hb Hout. pose proof Hb as (x & Hx & Hp). pose proof Hp as (Ho & Hlen & Hoff & Hle & Hh).
  pose proof (zlen_nonneg out). pose proof (zlen_nonneg l).
  unfold bio_buffered_write. wp_step. eapply buffer_at_resolve; [done|]. wp_step.
  eapply buffer_at_deref; [done|]. rewrite Ho, Hw, decide_True by done. wp_step.
  rewrite u64_small by lia. rewrite Hoff.
  destruct (Z.gtb_spec (zlen l + zlen out) (bo_size options)) as [Hgt|Hfit].
  - eapply wp_mono; [by apply flush_internal_spec|]. intros [ok e] s1 H1. cbn in H1 |- *.
    destruct ok; cbn [negb]; destruct H1 as [Hb1 Hs1].
    + eapply wp_mono; [apply put_buffered_spec; [done..|by left]|].
      intros r s2 (Hn & l' & Hb2 & Hs2). split; [done|]. left. exists l'.
      by rewrite Hs2, Hs1, <- app_assoc.
    + wp_steps. split; [cbn; lia|]. by right.
  - wp_step. cbn [negb]. eapply wp_mono; [apply put_buffered_spec; [done..|by right]|].
    intros r s2 (Hn & l' & Hb2 & Hs2). split; [done|]. left. by exists l'.
Qed.

(** The callback for flushing changes nothing. *)
Context (Hflush : ∀ f x s error, buffer_at h p x s → bf_options x = options → bo_flush_fn options = Some f →
  wp (flush_fn (Some f) (bo_ctx options) error) (λ _ s', buffer_at h p x s' ∧ sunk s' = sunk s) s).

Lemma flush_buffer_spec l s error :
  write_buffer l s →
  wp (bio_flush_buffer h error) (λ r s',
    (write_buffer [] s' ∧ sunk s' = sunk s ++ l) ∨ (r.1 = false ∧ write_buffer l s' ∧ delivered l s s')) s.
Proof.
  intros Hb. pose proof Hb as (x & Hx & Hp). pose proof Hp as (Ho & Hlen & Hoff & Hle & Hh).
  unfold bio_flush_buffer. wp_step. eapply buffer_at_resolve; [done|]. wp_step.
  eapply buffer_at_deref; [done|]. rewrite Ho, Hw, decide_True by done. wp_step. rewrite Hoff.
  assert (Hend : ∀ s1 e, write_buffer [] s1 → sunk s1 = sunk s ++ l →
    wp (x ← deref_buffer p;
        if decide (bo_flush_fn (bf_options x) ≠ None)
        then flush_fn (bo_flush_fn (bf_options x)) (bo_ctx (bf_options x)) e else mret (true, e))
      (λ r s', write_buffer [] s' ∧ sunk s' = sunk s ++ l) s1).
  { intros s1 e (x1 & Hx1 & Ho1 & Hp1) Hs1. wp_step. eapply buffer_at_deref; [done|]. rewrite Ho1.
    destruct (bo_flush_fn options) as [f|] eqn:Hf; cbn [decide].
    - rewrite decide_True by done. eapply wp_mono; [by eapply Hflush|].
      intros r s2 [Hx2 Hs2]. rewrite Hs2. split; [by exists x1|done].
    - rewrite decide_False by (by intros []). wp_steps. split; [by exists x1|done]. }
  destruct (Z.gtb_spec (zlen l) 0) as [Hpos|Hneg].
  - eapply wp_mono; [by apply flush_internal_spec|]. intros [ok e] s1 H1. cbn in H1 |- *.
    destruct ok; cbn [negb]; destruct H1 as [Hb1 Hs1].
    + eapply wp_mono; [by apply Hend|]. intros r s2 H2. by left.
    + wp_steps. by right.
  - assert (l = []) as ->. { destruct l; [done|]. unfold zlen in Hneg. cbn in Hneg. lia. }
    wp_step. cbn [negb]. eapply wp_mono; [apply Hend; [done|by rewrite app_nil_r]|]. intros r s2 H2. by left.
Qed.

(** A program that writes some data, and then flushes, until something fails. *)
Fixpoint write_list (outs : list (list Z)) (error : error_ptr) : st io bool :=
  match outs with
  | [] => r ← bio_flush_buffer h error; mret r.1
  | out :: outs =>
      r ← bio_buffered_write_exactly h out error;
      if r.1 =? zlen out then write_list outs r.2 else mret false
  end.

(** What was delivered is a beginning of [l]. *)
Definition prefix_delivered (l : list Z) (s : io) : Prop := ∃ k, sunk s = take k l.

Lemma prefix_of_eq l k s : sunk s ++ k = l → prefix_delivered l s.
Proof. intros <-. exists (length (sunk s)). by rewrite take_app_length. Qed.

Lemma prefix_of_delivered l k s s' : sunk s ++ k = l → delivered k s s' → prefix_delivered l s'.
Proof.
  intros <- [m Hm]. exists (length (sunk s) + m)%nat. rewrite Hm, take_app_add. done.
Qed.

Lemma prefix_delivered_app l k s : prefix_delivered l s → prefix_delivered (l ++ k) s.
Proof.
  intros [m Hm]. exists (Nat.min m (length l)). rewrite Hm, take_app_le by lia.
  rewrite <- take_take. by rewrite (take_ge l (length l)) by lia.
Qed.

(** The bytes [l] were written: they are delivered or in the buffer. *)
Definition accepted (l : list Z) (s : io) : Prop := ∃ k, write_buffer k s ∧ sunk s ++ k = l.

Lemma buffered_write_exactly_spec F s out error :
  accepted F s → zlen out < 2 ^ 63 →
  wp (bio_buffered_write_exactly h out error) (λ r s', ∃ done rest, out = done ++ rest ∧ r.1 = zlen done ∧
    if decide (rest = []) then accepted (F ++ done) s' else prefix_delivered (F ++ done) s') s.
Proof.
  intros Hacc Hout. unfold bio_buffered_write_exactly.
  apply (write_all_spec (λ done _ s, accepted (F ++ done) s) (λ done _ s, prefix_delivered (F ++ done) s)
    _ out ltac:(lia)) with (l := []) (k := out); [|done|lia|by rewrite app_nil_r].
  intros d k e s1 -> Hk (l & Hl & Hs1). rewrite zlen_app in Hout. pose proof (zlen_nonneg d).
  eapply wp_mono; [apply buffered_write_spec; [done|lia]|].
  intros [n e'] s2 (Hn & Hor). cbn in Hn, Hor |- *. split; [done|].
  destruct Hor as [(l' & Hl' & Hs2)|(-> & _ & Hs2)].
  - rewrite app_assoc, Hs1, <- app_assoc in Hs2. destruct (Z.eqb_spec n 0) as [->|Hne]; [|by exists l'].
    cbn in Hs2. rewrite app_nil_r in Hs2. by eapply prefix_of_eq.
  - cbn. by eapply prefix_of_delivered.
Qed.

Lemma write_list_spec outs : ∀ F s error,
  accepted F s → Forall (λ out, zlen out < 2 ^ 63) outs →
  wp (write_list outs error) (λ ok s',
    if ok : bool then write_buffer [] s' ∧ sunk s' = F ++ concat outs
    else prefix_delivered (F ++ concat outs) s') s.
Proof.
  induction outs as [|out outs IH]; intros F s error Hacc Hlen; cbn [write_list concat].
  - destruct Hacc as (l & Hl & <-). wp_step. eapply wp_mono; [by apply flush_buffer_spec|].
    intros [ok e] s' Hor. wp_steps. rewrite app_nil_r. cbn in *. destruct ok.
    + destruct Hor as [?|(? & _)]; done.
    + destruct Hor as [[_ Hs]|(_ & _ & Hs)]; [|by eapply prefix_of_delivered].
      eapply prefix_of_eq. by rewrite Hs, app_nil_r.
  - apply Forall_cons in Hlen as [Hout Hlen]. wp_step.
    eapply wp_mono; [by apply buffered_write_exactly_spec|].
    intros [n e] s1 (d & rest & -> & Hn & Hs1). cbn in Hn |- *. rewrite zlen_app. subst n.
    pose proof (zlen_nonneg rest). rewrite <- app_assoc, app_assoc.
    destruct (Z.eqb_spec (zlen d) (zlen d + zlen rest)) as [E|E]; case_decide as Hr; subst.
    + cbn [app]. by apply IH.
    + destruct rest; [done|]. unfold zlen in E. cbn in E. lia.
    + unfold zlen in E. cbn in E. lia.
    + wp_steps. by apply prefix_delivered_app.
Qed.

(** C30: What is written through a buffer arrives complete and in order, once it is flushed,
    although the callback may take any part of what it is given; and if something fails
    then what has arrived is a beginning of what was written. *)
Theorem buffered_writes_in_order outs s error :
  write_buffer [] s → Forall (λ out, zlen out < 2 ^ 63) outs →
  wp (write_list outs error) (λ ok s',
    if ok : bool then write_buffer [] s' ∧ sunk s' = sunk s ++ concat outs
    else ∃ k, sunk s' = take k (sunk s ++ concat outs)) s.
Proof.
  intros Hb Hlen. apply write_list_spec; [|done]. exists []. by rewrite app_nil_r.
Qed.
End writing.

(** ** Reading through a buffer *)

Section reading.
(** A buffer, and the bytes that its callback has not given yet. *)
Context (h : bio_handle_t) (p : positive) (options : bio_buffer_options_t) (f : bio_read_fn_t).
Context (source : io → list Z) (ended : error_ptr → Prop).
Context (Hf : bo_read_fn options = Some f) (Hsize : 0 ≤ bo_size options < 2 ^ 63).

(** The callback gives the next bytes, none only at the end or when it fails, and leaves
    the buffer alone. *)
Context (Hread : ∀ x s error, buffer_at h p x s → bf_options x = options →
  wp (read_fn (Some f) (bo_ctx options) (bo_size options) error) (λ r s',
    r.1.1 = zlen r.1.2 ∧ zlen r.1.2 ≤ bo_size options ∧ buffer_at h p x s' ∧
    source s = r.1.2 ++ source s' ∧ (r.1.1 = 0 → ended r.2)) s).
Context (Hsource : ∀ s s', os s' = os s → io_table s' = io_table s → files s' = files s →
  sockets s' = sockets s → source s' = source s).

(** The buffer holds the bytes [l], which were not read yet. *)
Definition unread (l : list Z) (x : bio_io_buffer_impl_t) : Prop :=
  bf_options x = options ∧ zlen (bf_data x) = bo_size options ∧ 0 ≤ bf_offset x ∧
  bf_data_size x = bf_offset x + zlen l ∧ bf_data_size x ≤ bo_size options ∧ holds (bf_data x) (bf_offset x) l.

Definition read_buffer (l : list Z) (s : io) : Prop := ∃ x, buffer_at h p x s ∧ unread l x.

(** The bytes that are still to come. *)
Definition upcoming (l : list Z) (s : io) : Prop := ∃ k, read_buffer k s ∧ l = k ++ source s.

Lemma take_buffered_spec l s size error :
  read_buffer l s → 0 ≤ size →
  wp (take_buffered p size error) (λ r s', r.1.1 = zlen r.1.2 ∧ r.1.2 = take (Z.to_nat size) l ∧
    upcoming (drop (Z.to_nat size) l ++ source s) s') s.
Proof.
  intros (x & Hx & Ho & Hlen & Hoff & Hds & Hle & Hh) Hs. pose proof (zlen_nonneg l).
  unfold take_buffered. wp_step. eapply buffer_at_deref; [done|]. rewrite Hds.
  replace (bf_offset x + zlen l - bf_offset x) with (zlen l) by lia. rewrite u64_small by lia.
  set (n := if size <? zlen l then size else zlen l).
  assert (Hn : n = zlen (take (Z.to_nat size) l)).
  { unfold n, zlen in *. rewrite length_take. destruct (Z.ltb_spec size (Z.of_nat (length l))); lia. }
  assert (Hnl : n ≤ zlen l) by (unfold n; destruct (Z.ltb_spec size (zlen l)); lia).
  rewrite <- (take_drop (Z.to_nat size) l) in Hh. wp_step.
  eapply load_spec; [by eapply holds_prefix|lia|done|]. wp_step.
  eapply buffer_at_store; [done|]. intros s1 Hx1 H1 H2 H3 H4. wp_steps. cbn. split_and!; [done..|].
  exists (drop (Z.to_nat size) l). split; [|by rewrite (Hsource _ _ H1 H2 H3 H4)].
  assert (Hdrop : zlen (drop (Z.to_nat size) l) = zlen l - n).
  { rewrite Hn. unfold zlen in *. rewrite length_take, length_drop. lia. }
  pose proof (zlen_nonneg (take (Z.to_nat size) l)).
  eexists. split; [done|]. unfold set_offset. rewrite u64_small by lia.
  split_and!; cbn; [done|done|lia|lia|lia|]. rewrite Hn. by eapply holds_split.
Qed.

Lemma buffered_read_spec l s size error :
  upcoming l s → 0 ≤ size →
  wp (bio_buffered_read h size error) (λ r s', r.1.1 = zlen r.1.2 ∧ zlen r.1.2 ≤ size ∧
    ∃ l', l = r.1.2 ++ l' ∧ upcoming l' s' ∧ (r.1.1 = 0 → size = 0 ∨ ended r.2)) s.
Proof.
  intros (k & (x & Hx & Hu) & ->) Hs. pose proof Hu as (Ho & Hlen & Hoff & Hds & Hle & Hh).
  pose proof (zlen_nonneg k).
  assert (Hend : ∀ l1 s1 e, read_buffer l1 s1 → k ++ source s = l1 ++ source s1 → l1 ≠ [] →
    wp (take_buffered p size e) (λ r s', r.1.1 = zlen r.1.2 ∧ zlen r.1.2 ≤ size ∧
      ∃ l', k ++ source s = r.1.2 ++ l' ∧ upcoming l' s' ∧ (r.1.1 = 0 → size = 0 ∨ ended r.2)) s1).
  { intros l1 s1 e Hb E Hne. eapply wp_mono; [by apply take_buffered_spec|].
    intros [[n data] e'] s2 (Hn & Hd & Hup). cbn in *. subst data.
    split_and!; [done|unfold zlen; rewrite length_take; lia|]. eexists. split_and!; [|done|].
    - by rewrite E, app_assoc, take_drop.
    - intros Hz. left. destruct l1 as [|y l1]; [done|]. rewrite Hn in Hz.
      unfold zlen in Hz. rewrite length_take in Hz. cbn in Hz. lia. }
  unfold bio_buffered_read. wp_step. eapply buffer_at_resolve; [done|]. wp_step.
  eapply buffer_at_deref; [done|]. rewrite Ho, Hf, decide_True by done.
  destruct (Z.ltb_spec (bf_offset x) (bf_data_size x)) as [Hlt|Hge]; cbn [negb].
  { apply (Hend k); [by exists x|done|]. intros ->. unfold zlen in Hds. cbn in Hds. lia. }
  assert (k = []) as ->. { destruct k; [done|]. unfold zlen in Hds. cbn in Hds. lia. }
  wp_step. eapply wp_mono; [by eapply Hread|]. intros [[n data] e] s1 (Hn & Hnle & Hx1 & Hs1 & Hz).
  cbn in Hn, Hnle, Hs1, Hz |- *. wp_step. eapply buffer_at_deref; [done|]. wp_step.
  apply overwrite_spec; [lia|lia|]. intros mem Hmem Hput _.
  destruct (Z.eqb_spec n 0) as [En|En]; wp_step; (eapply buffer_at_store; [done|]);
    intros s2 Hx2 H1 H2 H3 H4.
  - wp_steps. cbn. split_and!; [done|done|]. eexists. split_and!; [done| |by auto].
    assert (data = []) as ->. { destruct data; [done|]. rewrite En in Hn. unfold zlen in Hn. cbn in Hn. lia. }
    exists []. split; [|cbn; by rewrite (Hsource _ _ H1 H2 H3 H4)]. eexists. split; [done|].
    split_and!; cbn; try done. by rewrite Hmem.
  - apply (Hend data).
    + eexists. split; [done|]. split_and!; cbn; try done; [by rewrite Hmem|lia].
    + by rewrite (Hsource _ _ H1 H2 H3 H4).
    + intros ->. by rewrite Hn in En.
Qed.

(** C31: Reading through a buffer gives the bytes of the stream in order, each of them once,
    however they come from the callback in pieces, and as many as the caller asks for
    unless the callback has no more. *)
Theorem buffered_reads_in_order l s size error :
  upcoming l s → 0 ≤ size < 2 ^ 64 →
  wp (bio_buffered_read_exactly h size error) (λ r s',
    r.1.1 = zlen r.1.2 ∧ zlen r.1.2 ≤ size ∧
    ∃ l', l = r.1.2 ++ l' ∧ upcoming l' s' ∧ (zlen r.1.2 = size ∨ ended r.2)) s.
Proof.
  intros Hup Hs. unfold bio_buffered_read_exactly.
  eapply wp_mono.
  - apply (read_all_spec (λ d _ s, ∃ l', l = d ++ l' ∧ upcoming l' s)
      (λ d e s, (∃ l', l = d ++ l' ∧ upcoming l' s) ∧ ended e) _ size ltac:(lia)) with (l := []);
      [|unfold zlen; cbn; lia..|by exists l].
    intros d e s1 Hd (l1 & -> & Hup1). eapply wp_mono; [apply buffered_read_spec; [done|lia]|].
    intros [[n data] e'] s2 (Hn & Hle & l2 & -> & Hup2 & Hz). cbn in *. split_and!; [done|done|].
    destruct (Z.eqb_spec n 0) as [En|En].
    + assert (data = []) as ->. { destruct data; [done|]. rewrite En in Hn. unfold zlen in Hn. cbn in Hn. lia. }
      split; [by exists l2|]. destruct (Hz En); [lia|done].
    + exists l2. by rewrite app_assoc.
  - intros [[n data] e] s' (Hn & Hle & H). cbn in *. split_and!; [done|done|].
    destruct (Z.ltb_spec (zlen data) size).
    + destruct H as [(l' & -> & Hl') He]. exists l'. by auto.
    + destruct H as (l' & -> & Hl'). exists l'. split_and!; [done|done|left; lia].
Qed.
End reading.
End code.
