(* ===== verification/Format.v ===== *)
(** Text ([bio_vfmt] in [src/internal.h]): C strings as lists of their bytes, and buffers
    that grow to hold a formatted text. *)
From Stdlib Require Import Ascii.
From stdpp Require Import strings pretty.
From S2P Require Import Prelude.

(** ** Text *)

(** A C string without the null byte at its end. *)
Abbreviation cstring := (list Z).

Definition text (s : string) : cstring :=
  (λ c, Z.of_nat (Ascii.nat_of_ascii c)) <$> String.list_ascii_of_string s.

(** What [%d] prints. *)
Definition decimal (z : Z) : cstring := text (pretty z).

(** ** The code *)

(** [bio_fmt_buf_t]: memory that was not written is [None]. *)
Record bio_fmt_buf_t := mk_fmt_buf {
  ptr : option (list (option Z));
  len : Z;
}.

(** [vsnprintf] of the C library, for arguments that make the text [out], if they fit the
    format: what fits into the buffer is written, the length of the whole is returned. It is
    negative for an error, or if [int] does not have it. *)
Definition vsnprintf (out : option cstring) : st bio_fmt_buf_t Z :=
  match out with
  | Some out =>
      if zlen out <=? INT_MAX then
        b ← get;
        _ ← (if 0 <? len b then
               cells ← need NullDeref (ptr b);
               let bytes := take (Z.to_nat (len b - 1)) out ++ [0] in
               if zlen bytes <=? zlen cells then
                 modify (λ _, mk_fmt_buf (Some ((Some <$> bytes) ++ drop (length bytes) cells)) (len b))
               else fail OutOfBounds
             else mret tt);
        mret (zlen out)
      else mret (-1)
  | None => mret (-1)
  end.

(** [buf->ptr[i] = ch]. *)
Definition store_char (i ch : Z) : st bio_fmt_buf_t unit :=
  b ← get;
  cells ← need NullDeref (ptr b);
  _ ← need OutOfBounds (zlookup cells i);
  modify (λ b, mk_fmt_buf (Some (zinsert i (Some ch) cells)) (len b)).

(** [bio_vfmt], and [bio_fmt]. *)
Definition bio_vfmt (out : option cstring) : st bio_fmt_buf_t Z :=
  num_chars ← vsnprintf out;
  if num_chars <? 0 then mret num_chars
  else
    b ← get;
    _ ← (if num_chars >=? len b then
           n ← int_of (num_chars + 1);
           _ ← modify (λ _, mk_fmt_buf (Some (replicate (Z.to_nat n) None)) n);
           _ ← vsnprintf out;
           mret tt
         else mret tt);
    _ ← store_char num_chars 0;
    mret num_chars.

(** ** Behaviour *)

(** The length is that of the memory. *)
Definition buf_ok (b : bio_fmt_buf_t) : Prop :=
  match ptr b with Some cells => len b = zlen cells | None => len b = 0 end.

(** The buffer holds the text. *)
Definition holds (b : bio_fmt_buf_t) (out : cstring) : Prop :=
  ∃ cells rest, ptr b = Some cells ∧ cells = (Some <$> out ++ [0]) ++ rest.

(** The text of arguments that can be formatted. *)
Definition fits (out : option cstring) : option cstring :=
  match out with Some out => if zlen out <=? INT_MAX then Some out else None | None => None end.

Lemma fits_Some o out : fits o = Some out → o = Some out ∧ zlen out ≤ INT_MAX.
Proof. destruct o as [t|]; [|done]. cbn. destruct (Z.leb_spec (zlen t) INT_MAX); [|done]. by intros [= ->]. Qed.

Lemma vsnprintf_error o b (Q : Z → bio_fmt_buf_t → Prop) :
  fits o = None → Q (-1) b → wp (vsnprintf o) Q b.
Proof. intros Ho HQ. unfold vsnprintf. destruct o as [out|]; [|by wp_steps]. cbn in Ho. destruct (_ <=? _); [done|by wp_steps]. Qed.

Lemma vsnprintf_fits out cells n (Q : Z → bio_fmt_buf_t → Prop) :
  zlen out ≤ INT_MAX → zlen out < n → n = zlen cells →
  Q (zlen out) (mk_fmt_buf (Some ((Some <$> out ++ [0]) ++ drop (S (length out)) cells)) n) →
  wp (vsnprintf (Some out)) Q (mk_fmt_buf (Some cells) n).
Proof.
  intros Hmax Hn Hlen HQ. pose proof (zlen_nonneg out). unfold vsnprintf. rewrite (proj2 (Z.leb_le _ _) Hmax).
  do 2 wp_step. cbn [len ptr].
  rewrite (proj2 (Z.ltb_lt 0 n)) by lia. do 3 wp_step. cbv zeta. rewrite take_ge by (unfold zlen in *; lia).
  rewrite (proj2 (Z.leb_le _ _)); [|rewrite zlen_app; unfold zlen in *; cbn; lia].
  wp_steps. rewrite length_app, Nat.add_1_r. exact HQ.
Qed.

Lemma vsnprintf_safe out b (Q : Z → bio_fmt_buf_t → Prop) :
  zlen out ≤ INT_MAX → buf_ok b → (∀ b', buf_ok b' → len b' = len b → (zlen out < len b → holds b' out) → Q (zlen out) b') →
  wp (vsnprintf (Some out)) Q b.
Proof.
  intros Hmax Hb HQ. unfold vsnprintf. rewrite (proj2 (Z.leb_le _ _) Hmax). do 2 wp_step. destruct b as [p n]. unfold buf_ok in Hb. cbn [len ptr] in *.
  pose proof (zlen_nonneg out).
  destruct (Z.ltb_spec 0 n) as [Hn|Hn]; [|wp_steps; apply HQ; [done|done|cbn; lia]].
  destruct p as [cells|]; [|lia]. do 3 wp_step. cbv zeta.
  set (bytes := take (Z.to_nat (n - 1)) out ++ [0]).
  assert (Hbytes : zlen bytes ≤ zlen cells).
  { unfold bytes. rewrite zlen_app. unfold zlen in *. rewrite length_take. cbn. lia. }
  rewrite (proj2 (Z.leb_le _ _) Hbytes). wp_steps. apply HQ; [|done|].
  - unfold buf_ok. cbn. rewrite zlen_app. unfold zlen in *. rewrite length_fmap, length_drop. lia.
  - intros Hfit. cbn in Hfit. exists ((Some <$> bytes) ++ drop (length bytes) cells). eexists. split; [done|].
    f_equal. unfold bytes. rewrite take_ge; [done|]. unfold zlen in *. lia.
Qed.

(** The text ends with its null byte as it is. *)
Lemma store_terminator b out (Q : unit → bio_fmt_buf_t → Prop) :
  buf_ok b → holds b out → Q tt b → wp (store_char (zlen out) 0) Q b.
Proof.
  intros Hb (cells & rest & Hp & ->) HQ. unfold store_char. do 2 wp_step. rewrite Hp. do 2 wp_step.
  assert (Hl : zlookup ((Some <$> out ++ [0]) ++ rest) (zlen out) = Some (Some 0)).
  { pose proof (zlen_nonneg out). rewrite zlookup_app, decide_True, zlookup_fmap, zlookup_snoc_eq by
      (done || (unfold zlen; rewrite length_fmap, length_app; cbn; lia)). done. }
  wp_step. eapply wp_need; [exact Hl|]. wp_steps. destruct b as [p n]. cbn in *. subst p.
  by rewrite zinsert_id.
Qed.

Lemma vfmt_spec o b :
  buf_ok b →
  wp (bio_vfmt o) (λ n b', buf_ok b' ∧
    match fits o with Some out => n = zlen out ∧ holds b' out | None => n = -1 ∧ b' = b end) b.
Proof.
  intros Hb. unfold bio_vfmt. destruct (fits o) as [out|] eqn:Eo; wp_step; [|by apply vsnprintf_error; [|wp_steps]].
  apply fits_Some in Eo as [-> Hmax]. pose proof (zlen_nonneg out).
  apply vsnprintf_safe; [done..|]. intros b1 Hb1 Hlen Hh. rewrite (proj2 (Z.ltb_ge _ _)) by done.
  do 3 wp_step. rewrite Hlen.
  destruct (Z.geb_spec (zlen out) (len b)) as [Hge|Hlt].
  - do 5 wp_step. apply vsnprintf_fits; [done|lia|unfold zlen; rewrite length_replicate; lia|].
    do 2 wp_step. set (b2 := mk_fmt_buf _ _).
    assert (Hh2 : holds b2 out) by (eexists _, _; split; reflexivity).
    assert (Hb2 : buf_ok b2).
    { unfold buf_ok, b2. cbn. unfold zlen. rewrite length_app, length_fmap, length_app, length_drop, length_replicate.
      cbn. unfold zlen in *. lia. }
    apply store_terminator; [done..|]. by wp_steps.
  - wp_steps. apply store_terminator; [done|by apply Hh|]. wp_steps. split; [done|]. split; [done|by apply Hh].
Qed.
