(* ===== verification/Logging.v ===== *)
(** Logging ([src/logging.c]): loggers, each with a service that calls its function for
    every message.

    The services are bounded queues with a coroutine here, as [Mailbox.v] and [Service.v]
    prove of them; the calls of the function of a logger go to a history. While a coroutine
    yields, the services and the other coroutines may do anything that [others] stands for. *)
From stdpp Require Import strings.
From S2P Require Import Prelude HandleTable Format.

(** ** State *)

(** Tags of handles. *)
Inductive log_tag :=
  | BIO_LOGGER_HANDLE
  | OTHER_HANDLE (n : positive).

#[export] Instance log_tag_eq_dec : EqDecision log_tag.
Proof. solve_decision. Defined.

(** [bio_log_ctx_t]; [coro] is a handle. *)
Record bio_log_ctx_t := mk_log_ctx {
  lc_coro : bio_handle_t;
  lc_level : Z;
  lc_line : Z;
  lc_file : cstring;
}.

(** [bio_log_service_msg_t]; [None] is [NULL]. *)
Record bio_log_service_msg_t := mk_log_msg {
  lm_ctx : bio_log_ctx_t;
  lm_msg : option cstring;
}.

(** The message [{ 0 }], which tells a logger to end. *)
Definition end_msg : bio_log_service_msg_t := mk_log_msg (mk_log_ctx BIO_INVALID_HANDLE 0 0 []) None.

(** [bio_log_service_args_t]: addresses of a function and its argument. *)
Record bio_log_service_args_t := mk_log_args { log_fn : positive; userdata : positive }.

(** The coroutine of a service: not started; waiting for a message; in the function of the
    logger; ended. *)
Inductive service_state :=
  | Starting
  | Receiving
  | Calling (msg : bio_log_service_msg_t)
  | Dead.

(** A service of [bio_log_service_entry]. The data that it starts with is on the stack of
    the coroutine that waits for it; without a coroutine, nothing waits and the data is
    gone: [None]. *)
Record log_service := mk_log_service {
  ls_args : option bio_log_service_args_t;
  ls_state : service_state;
  ls_open : bool;
  ls_queue : list bio_log_service_msg_t;
  ls_calls : list bio_log_service_msg_t;
}.

(** [bio_logger_impl_t]; the service is a name here. *)
Record bio_logger_impl_t := mk_logger {
  li_handle : bio_handle_t;
  li_min_level : Z;
  li_service : positive;
}.

Section logging.
(** The rest of the program. *)
Context {World : Type}.

(** What logging uses of [bio_ctx], the loggers in the order of their list, their objects
    and services, and the buffers of the coroutines ([bio_logging_cls_t]). *)
Record log_state := mk_log_state {
  lg_table : table log_tag positive;
  lg_next : positive;
  loggers : list positive;
  impls : gmap positive bio_logger_impl_t;
  services : gmap positive log_service;
  log_msg_bufs : gmap bio_handle_t bio_fmt_buf_t;
  current_filename : option cstring;
  current_depth_in_project : Z;
  log_prefix_len : Z;
  world : World;
}.

Definition set_lg_table (t : table log_tag positive) (s : log_state) : log_state :=
  mk_log_state t (lg_next s) (loggers s) (impls s) (services s) (log_msg_bufs s)
    (current_filename s) (current_depth_in_project s) (log_prefix_len s) (world s).
Definition set_lg_next (n : positive) (s : log_state) : log_state :=
  mk_log_state (lg_table s) n (loggers s) (impls s) (services s) (log_msg_bufs s)
    (current_filename s) (current_depth_in_project s) (log_prefix_len s) (world s).
Definition set_loggers (l : list positive) (s : log_state) : log_state :=
  mk_log_state (lg_table s) (lg_next s) l (impls s) (services s) (log_msg_bufs s)
    (current_filename s) (current_depth_in_project s) (log_prefix_len s) (world s).
Definition set_impls (m : gmap positive bio_logger_impl_t) (s : log_state) : log_state :=
  mk_log_state (lg_table s) (lg_next s) (loggers s) m (services s) (log_msg_bufs s)
    (current_filename s) (current_depth_in_project s) (log_prefix_len s) (world s).
Definition set_services (m : gmap positive log_service) (s : log_state) : log_state :=
  mk_log_state (lg_table s) (lg_next s) (loggers s) (impls s) m (log_msg_bufs s)
    (current_filename s) (current_depth_in_project s) (log_prefix_len s) (world s).
Definition set_log_msg_bufs (m : gmap bio_handle_t bio_fmt_buf_t) (s : log_state) : log_state :=
  mk_log_state (lg_table s) (lg_next s) (loggers s) (impls s) (services s) m
    (current_filename s) (current_depth_in_project s) (log_prefix_len s) (world s).
Definition set_log_prefix_len (n : Z) (s : log_state) : log_state :=
  mk_log_state (lg_table s) (lg_next s) (loggers s) (impls s) (services s) (log_msg_bufs s)
    (current_filename s) (current_depth_in_project s) n (world s).

(** The arguments of a call that are to be formatted, and the text that they make, if they
    fit the format. *)
Context {Args : Type} (vformat : cstring → Args → option cstring).
Context (others : log_state → log_state).

(** *** Memory *)

Definition log_malloc : st log_state positive :=
  s ← get; _ ← modify (set_lg_next (Pos.succ (lg_next s))); mret (lg_next s).

Definition deref_logger (p : positive) : st log_state bio_logger_impl_t :=
  s ← get; need Dangling (impls s !! p).
Definition store_logger (p : positive) (x : bio_logger_impl_t) : st log_state unit :=
  modify (λ s, set_impls (<[p := x]> (impls s)) s).
Definition free_logger (p : positive) : st log_state unit :=
  _ ← deref_logger p; modify (λ s, set_impls (delete p (impls s)) s).

Definition deref_service (i : positive) : st log_state log_service :=
  s ← get; need Dangling (services s !! i).
Definition store_service (i : positive) (v : log_service) : st log_state unit :=
  modify (λ s, set_services (<[i := v]> (services s)) s).

(** *** Services *)

(** The capacity of their mailboxes. *)
Definition LOG_CAPACITY : Z := 16.

(** [bio_yield]: does nothing outside a coroutine, where [mco_yield] has none to suspend. *)
Definition bio_yield (caller : option bio_handle_t) : st log_state unit :=
  match caller with Some _ => modify others | None => mret tt end.

(** [bio_log_service_entry] within [bio_service_wrapper], from one suspension to the next
    or to a call of the function of the logger, which may suspend. *)
Definition log_service_step (v : log_service) : option log_service :=
  match ls_state v with
  | Starting =>
      match ls_args v with
      | Some args => Some (mk_log_service (Some args) Receiving (ls_open v) (ls_queue v) (ls_calls v))
      | None => None
      end
  | Receiving =>
      if ls_open v then
        match ls_queue v with
        | msg :: queue => Some (mk_log_service (ls_args v) (Calling msg) true queue (ls_calls v ++ [msg]))
        | [] => Some v
        end
      else Some (mk_log_service (ls_args v) Dead false [] (ls_calls v))
  | Calling msg =>
      match lm_msg msg with
      | None => Some (mk_log_service (ls_args v) Dead false [] (ls_calls v))
      | Some _ => Some (mk_log_service (ls_args v) Receiving (ls_open v) (ls_queue v) (ls_calls v))
      end
  | Dead => Some v
  end.

Definition bio_log_service_entry (i : positive) : st log_state unit :=
  v ← deref_service i;
  v ← need Dangling (log_service_step v);
  store_service i v.

(** [bio_start_service_ex] waits for the first step of the service, in a coroutine. *)
Definition bio_start_log_service (caller : option bio_handle_t) (args : bio_log_service_args_t) :
    st log_state positive :=
  i ← log_malloc;
  match caller with
  | Some _ =>
      _ ← store_service i (mk_log_service (Some args) Starting true [] []);
      _ ← bio_yield caller;
      v ← deref_service i;
      _ ← (match ls_state v with Starting => bio_log_service_entry i | _ => mret tt end);
      _ ← bio_yield caller;
      mret i
  | None =>
      _ ← store_service i (mk_log_service None Starting true [] []);
      mret i
  end.

(** [bio_service_state(service) != BIO_CORO_DEAD]. *)
Definition service_alive (i : positive) : st log_state bool :=
  v ← deref_service i; mret (match ls_state v with Dead => false | _ => true end).

(** [bio_send_message] to the mailbox of a service. *)
Definition bio_send_message (i : positive) (msg : bio_log_service_msg_t) : st log_state bool :=
  v ← deref_service i;
  if ls_open v && (zlen (ls_queue v) <? LOG_CAPACITY) then
    _ ← store_service i (mk_log_service (ls_args v) (ls_state v) true (ls_queue v ++ [msg]) (ls_calls v));
    mret true
  else mret false.

(** [bio_notify_service(logger->service, message, true)]: the macro reads the logger again
    every time around the loop. *)
Fixpoint bio_notify_service (fuel : nat) (caller : option bio_handle_t) (p : positive)
    (msg : bio_log_service_msg_t) : st log_state unit :=
  match fuel with
  | O => fail OutOfFuel
  | S fuel =>
      x ← deref_logger p;
      v ← deref_service (li_service x);
      if ls_open v then
        alive ← service_alive (li_service x);
        if alive : bool then
          sent ← bio_send_message (li_service x) msg;
          if sent : bool then mret tt
          else _ ← bio_yield caller; bio_notify_service fuel caller p msg
        else mret tt
      else mret tt
  end.

(** ** Prefixes of file names *)

Definition is_separator (ch : Z) : bool := (ch =? 47) || (ch =? 92).

(** The loop of [bio_logging_init], from the byte before the [n]-th; [-1] if it ends. *)
Fixpoint scan_prefix (name : cstring) (n : nat) (depth : Z) : st log_state (Z * Z) :=
  match n with
  | O => mret (-1, depth)
  | S i =>
      ch ← need OutOfBounds (zlookup name (Z.of_nat i));
      depth ← (if is_separator ch then int_of (depth - 1) else mret depth);
      if depth =? 0 then mret (Z.of_nat i, depth) else scan_prefix name i depth
  end.

(** [bio_logging_init]. *)
Definition bio_logging_init : st log_state unit :=
  _ ← modify (set_loggers []);
  s ← get;
  depth ← int_of (current_depth_in_project s + 1);
  match current_filename s with
  | Some name =>
      r ← scan_prefix name (length name) depth;
      let '(i, depth) := r in
      ch ← need OutOfBounds (zlookup name i);
      let i := if is_separator ch then i + 1 else i in
      if (depth =? 0) && (i >=? 0) then modify (set_log_prefix_len i) else mret tt
  | None => mret tt
  end.

(** The part of [bio_vlog] that shortens the name of a file. *)
Definition shorten (filename : cstring) : st log_state cstring :=
  s ← get;
  if (log_prefix_len s >? 0) && (zlen filename >=? log_prefix_len s) then
    name ← need NullDeref (current_filename s);
    if decide (take (Z.to_nat (log_prefix_len s)) filename = take (Z.to_nat (log_prefix_len s)) name)
    then mret (drop (Z.to_nat (log_prefix_len s)) filename) else mret filename
  else mret filename.

(** ** Loggers *)

Definition log_make_handle (p : positive) : st log_state bio_handle_t :=
  zoom lg_table set_lg_table (bio_make_handle (Some p) BIO_LOGGER_HANDLE).
Definition log_resolve_handle (h : bio_handle_t) : st log_state (option positive) :=
  zoom lg_table set_lg_table (bio_resolve_handle h BIO_LOGGER_HANDLE).
Definition log_close_handle (h : bio_handle_t) : st log_state (option positive) :=
  zoom lg_table set_lg_table (bio_close_handle h BIO_LOGGER_HANDLE).

(** [bio_add_logger]. *)
Definition bio_add_logger (caller : option bio_handle_t) (min_level : Z) (args : bio_log_service_args_t) :
    st log_state bio_handle_t :=
  impl ← log_malloc;
  service ← bio_start_log_service caller args;
  _ ← store_logger impl (mk_logger BIO_INVALID_HANDLE min_level service);
  handle ← log_make_handle impl;
  x ← deref_logger impl;
  _ ← store_logger impl (mk_logger handle (li_min_level x) (li_service x));
  _ ← modify (λ s, set_loggers (loggers s ++ [impl]) s);
  mret handle.

(** [bio_remove_logger]. *)
Definition bio_remove_logger (fuel : nat) (caller : option bio_handle_t) (logger : bio_handle_t) :
    st log_state unit :=
  impl ← log_close_handle logger;
  match impl with
  | Some impl =>
      _ ← bio_notify_service fuel caller impl end_msg;
      _ ← modify (λ s, set_loggers (filter (.≠ impl) (loggers s)) s);
      free_logger impl
  | None => mret tt
  end.

(** [bio_set_min_log_level]. *)
Definition bio_set_min_log_level (logger : bio_handle_t) (level : Z) : st log_state unit :=
  impl ← log_resolve_handle logger;
  match impl with
  | Some impl =>
      x ← deref_logger impl;
      store_logger impl (mk_logger (li_handle x) level (li_service x))
  | None => mret tt
  end.

(** [bio_logging_cleanup], outside the coroutines. *)
Fixpoint bio_logging_cleanup (fuel : nat) : st log_state unit :=
  match fuel with
  | O => fail OutOfFuel
  | S fuel =>
      s ← get;
      match loggers s with
      | [] => mret tt
      | p :: _ =>
          x ← deref_logger p;
          _ ← bio_remove_logger (S fuel) None (li_handle x);
          bio_logging_cleanup fuel
      end
  end.

(** *** Messages *)

(** [bio_get_cls(&bio_logging_cls)]: a null pointer outside the coroutines. *)
Definition get_log_msg_buf (caller : option bio_handle_t) : st log_state (bio_handle_t * bio_fmt_buf_t) :=
  coro ← need NullDeref caller;
  s ← get;
  let buf := default (mk_fmt_buf None 0) (log_msg_bufs s !! coro) in
  _ ← modify (λ s, set_log_msg_bufs (<[coro := buf]> (log_msg_bufs s)) s);
  mret (coro, buf).

(** The delayed formatting: the buffer of the coroutine is filled; its length comes back. *)
Definition format_msg (caller : option bio_handle_t) (fmt : cstring) (args : Args) : st log_state Z :=
  r ← get_log_msg_buf caller;
  let '(coro, buf) := r in
  match bio_vfmt (vformat fmt args) buf with
  | Ok (msg_len, buf) => _ ← modify (λ s, set_log_msg_bufs (<[coro := buf]> (log_msg_bufs s)) s); mret msg_len
  | Err e => fail e
  end.

(** [memcpy(msg_copy, msg, msg_len + 1)]; the copy is read up to its null byte. *)
Definition copy_msg (caller : option bio_handle_t) (msg_len : Z) : st log_state cstring :=
  coro ← need NullDeref caller;
  s ← get;
  buf ← need Dangling (log_msg_bufs s !! coro);
  cells ← need NullDeref (ptr buf);
  bytes ← need Uninit (mapM id (take (Z.to_nat (msg_len + 1)) cells));
  if zlen bytes =? msg_len + 1 then mret (take (Z.to_nat msg_len) bytes) else fail OutOfBounds.

(** [itr->next], for the links of the list; [None] is its head. *)
Fixpoint next_in (l : list positive) (p : positive) : option positive :=
  match l with
  | [] => None
  | q :: l => if decide (q = p) then head l else next_in l p
  end.

(** The loop of [bio_vlog]; [msg_len] is set once the message was formatted. *)
Fixpoint log_loop (fuel : nat) (caller : option bio_handle_t) (ctx : bio_log_ctx_t) (fmt : cstring)
    (args : Args) (msg_len : option Z) (itr : option positive) : st log_state unit :=
  match fuel, itr with
  | _, None => mret tt
  | O, Some _ => fail OutOfFuel
  | S fuel, Some p =>
      x ← deref_logger p;
      s ← get;
      let next := next_in (loggers s) p in
      if lc_level ctx >=? li_min_level x then
        msg_len ← (match msg_len with Some n => mret n | None => format_msg caller fmt args end);
        if msg_len <? 0 then mret tt
        else
          alive ← service_alive (li_service x);
          _ ← (if alive : bool then
                 msg_copy ← copy_msg caller msg_len;
                 bio_notify_service fuel caller p (mk_log_msg ctx (Some msg_copy))
               else mret tt);
          log_loop fuel caller ctx fmt args (Some msg_len) next
      else log_loop fuel caller ctx fmt args msg_len next
  end.

(** [bio_vlog], and [bio_log]. *)
Definition bio_vlog (fuel : nat) (caller : option bio_handle_t) (level : Z) (filename : option cstring)
    (line : Z) (fmt : cstring) (args : Args) : st log_state unit :=
  filename ← shorten (default (text "<unknown>") filename);
  s ← get;
  log_loop fuel caller (mk_log_ctx (default BIO_INVALID_HANDLE caller) level line filename) fmt args None
    (head (loggers s)).

(** ** Invariant *)

Definition is_end (m : bio_log_service_msg_t) : Prop := lm_msg m = None.

(** What a logger has accepted, in order. *)
Definition trace (v : log_service) : list bio_log_service_msg_t := ls_calls v ++ ls_queue v.

Definition service_ok (v : log_service) : Prop :=
  zlen (ls_queue v) ≤ LOG_CAPACITY ∧
  match ls_state v with
  | Starting | Receiving => ls_open v = true ∧ Forall (λ m, ¬ is_end m) (ls_calls v)
  | Calling m => ls_open v = true ∧ ∃ cs, ls_calls v = cs ++ [m] ∧ Forall (λ m, ¬ is_end m) cs
  | Dead => ls_open v = false ∧ ls_queue v = []
  end.

(** A service that was started by a coroutine and not told to end. *)
Definition running (v : log_service) : Prop :=
  ls_state v ≠ Dead ∧ Forall (λ m, ¬ is_end m) (trace v) ∧ ls_args v ≠ None.

Record log_wf (s : log_state) : Prop := {
  lw_table : wf (lg_table s);
  lw_handles : ∀ h o, live (lg_table s) !! h = Some (BIO_LOGGER_HANDLE, o) →
    ∃ p x, o = Some p ∧ p ∈ loggers s ∧ impls s !! p = Some x ∧ li_handle x = h;
  lw_nodup : NoDup (loggers s);
  lw_loggers : ∀ p, p ∈ loggers s → ∃ x v, impls s !! p = Some x ∧
    services s !! li_service x = Some v ∧ running v;
  lw_distinct : ∀ p q x y, impls s !! p = Some x → impls s !! q = Some y →
    li_service x = li_service y → p = q;
  lw_next : (∀ p, is_Some (impls s !! p) → (p < lg_next s)%positive) ∧
    (∀ i, is_Some (services s !! i) → (i < lg_next s)%positive) ∧
    (∀ p x, impls s !! p = Some x → (li_service x < lg_next s)%positive);
  lw_services : ∀ i v, services s !! i = Some v → service_ok v;
  lw_bufs : ∀ h b, log_msg_bufs s !! h = Some b → buf_ok b;
  lw_prefix : 0 < log_prefix_len s → is_Some (current_filename s);
}.

(** ** What the others do *)

Section interference.
(** The coroutine that runs. *)
Context (me : bio_handle_t).

Definition foreign (l : list bio_log_service_msg_t) : Prop :=
  Forall (λ m, ¬ is_end m ∧ lc_coro (lm_ctx m) ≠ me) l.

(** The messages [l] were accepted, and maybe some from the others. *)
Definition gains (v v' : log_service) (l : list bio_log_service_msg_t) : Prop :=
  ls_args v' = ls_args v ∧ ls_calls v `prefix_of` ls_calls v' ∧
  ∃ e1 e2, trace v' = trace v ++ e1 ++ l ++ e2 ∧ foreign e1 ∧ foreign e2.

Lemma gains_refl v : gains v v [].
Proof. split; [done|]. split; [done|]. exists [], []. rewrite !app_nil_r. by split_and!; [|constructor..]. Qed.

Lemma gains_after v v1 v2 l : gains v v1 [] → gains v1 v2 l → gains v v2 l.
Proof.
  intros (E1 & P1 & e1 & e2 & T1 & F1 & F2) (E2 & P2 & e3 & e4 & T2 & F3 & F4).
  split; [congruence|]. split; [by etrans|]. exists (e1 ++ e2 ++ e3), e4.
  rewrite T2, T1. rewrite <- !app_assoc. split; [done|]. split; [|done].
  by repeat apply Forall_app_2.
Qed.

Lemma gains_before v v1 v2 l : gains v v1 l → gains v1 v2 [] → gains v v2 l.
Proof.
  intros (E1 & P1 & e1 & e2 & T1 & F1 & F2) (E2 & P2 & e3 & e4 & T2 & F3 & F4).
  split; [congruence|]. split; [by etrans|]. exists e1, (e2 ++ e3 ++ e4).
  rewrite T2, T1. rewrite <- !app_assoc. split; [done|]. split; [done|].
  by repeat apply Forall_app_2.
Qed.

(** The others may log, and the services run; loggers are neither added nor removed. *)
Record calm (s s' : log_state) : Prop := {
  cm_wf : log_wf s';
  cm_loggers : loggers s' = loggers s;
  cm_impls : impls s' = impls s;
  cm_next : (lg_next s ≤ lg_next s')%positive;
  cm_names : current_filename s' = current_filename s ∧ log_prefix_len s' = log_prefix_len s;
  cm_buf : log_msg_bufs s' !! me = log_msg_bufs s !! me;
  cm_services : ∀ i v, services s !! i = Some v →
    ∃ v', services s' !! i = Some v' ∧ gains v v' [] ∧ (running v → running v');
}.

Lemma calm_refl s : log_wf s → calm s s.
Proof. intros Hwf. split; try done. intros i v Hv. exists v. auto using gains_refl. Qed.

Lemma calm_trans s1 s2 s3 : calm s1 s2 → calm s2 s3 → calm s1 s3.
Proof.
  intros [H1 H2 H3 Hn [H4 H4'] H5 H6] [K1 K2 K3 Kn [K4 K4'] K5 K6].
  split; try congruence; [lia|split; congruence|].
  intros i v Hv. destruct (H6 i v Hv) as (v1 & Hv1 & Hg1 & Hr1). destruct (K6 i v1 Hv1) as (v2 & Hv2 & Hg2 & Hr2).
  exists v2. split; [done|]. split; [by eapply gains_after|auto].
Qed.

(** A message is put into the queue of a service. *)
Definition push (m : bio_log_service_msg_t) (v : log_service) : log_service :=
  mk_log_service (ls_args v) (ls_state v) true (ls_queue v ++ [m]) (ls_calls v).
Definition sent (i : positive) (m : bio_log_service_msg_t) (s : log_state) : log_state :=
  set_services (alter (push m) i (services s)) s.

Lemma trace_push m v : trace (push m v) = trace v ++ [m].
Proof. unfold trace, push. cbn. by rewrite app_assoc. Qed.

Lemma push_gains m v : gains v (push m v) [m].
Proof.
  split; [done|]. split; [done|]. exists [], []. rewrite trace_push. by split_and!; [|constructor..].
Qed.

Lemma push_ok m v : service_ok v → ls_state v ≠ Dead → zlen (ls_queue v) < LOG_CAPACITY → service_ok (push m v).
Proof.
  intros [Hlen Hst] Hd Hroom. split; [unfold push; cbn; rewrite zlen_app; unfold zlen at 2; cbn; lia|].
  cbn. destruct (ls_state v); naive_solver.
Qed.

Lemma push_running m v : ¬ is_end m → running v → running (push m v).
Proof. intros Hm (Hd & Ht & Ha). split_and!; [done| |done]. rewrite trace_push. apply Forall_app_2; [done|]. by constructor. Qed.

Lemma sent_lookup i m s v : services s !! i = Some v → services (sent i m s) !! i = Some (push m v).
Proof. intros Hv. cbn. by rewrite lookup_alter_eq, Hv. Qed.

Lemma sent_lookup_ne i j m s : i ≠ j → services (sent i m s) !! j = services s !! j.
Proof. intros Hne. cbn. by rewrite lookup_alter_ne. Qed.

Lemma sent_wf i m s v :
  log_wf s → services s !! i = Some v → ls_state v ≠ Dead → zlen (ls_queue v) < LOG_CAPACITY →
  ¬ is_end m → log_wf (sent i m s).
Proof.
  intros Hwf Hv Hd Hroom Hm. destruct Hwf as [Htab Hhan Hnodup Hlog Hdist Hnext Hserv Hbufs Hpre]. split; cbn; try done.
  - intros p Hp. destruct (Hlog p Hp) as (x & w & Hx & Hw & Hr). exists x.
    destruct (decide (i = li_service x)) as [->|Hne].
    + exists (push m w). rewrite lookup_alter_eq, Hw. split_and!; [done..|by apply push_running].
    + exists w. by rewrite lookup_alter_ne.
  - destruct Hnext as (H1 & H2 & H3). split_and!; [done| |done]. intros j [w Hw]. apply H2.
    destruct (decide (i = j)) as [<-|Hne]; [by eexists|]. rewrite lookup_alter_ne in Hw by done. by eexists.
  - intros j w. destruct (decide (i = j)) as [<-|Hne].
    + rewrite lookup_alter_eq, Hv. intros [= <-]. apply push_ok; [by eapply Hserv|done..].
    + rewrite lookup_alter_ne by done. apply Hserv.
Qed.

(** ** Sending to a logger *)

Lemma running_open v : service_ok v → ls_state v ≠ Dead → ls_open v = true.
Proof. intros [_ Hst] Hd. destruct (ls_state v); naive_solver. Qed.

Lemma bind_run {A B} (m : st log_state A) (k : A → st log_state B) a s s' :
  m s = Ok (a, s') → (m ≫= k) s = k a s'.
Proof. intros E. unfold mbind, st_bind. by rewrite E. Qed.

Lemma deref_logger_run p x s : impls s !! p = Some x → deref_logger p s = Ok (x, s).
Proof. intros Hx. unfold deref_logger, mbind, st_bind, get, need. by rewrite Hx. Qed.

Lemma deref_service_run i v s : services s !! i = Some v → deref_service i s = Ok (v, s).
Proof. intros Hv. unfold deref_service, mbind, st_bind, get, need. by rewrite Hv. Qed.

Lemma service_alive_run i v s :
  services s !! i = Some v → ls_state v ≠ Dead → service_alive i s = Ok (true, s).
Proof.
  intros Hv Hd. unfold service_alive. rewrite (bind_run _ _ v s s) by by apply deref_service_run.
  by destruct (ls_state v).
Qed.

Lemma send_run i m v s :
  services s !! i = Some v → ls_open v = true →
  bio_send_message i m s =
    if zlen (ls_queue v) <? LOG_CAPACITY then Ok (true, sent i m s) else Ok (false, s).
Proof.
  intros Hv Ho. unfold bio_send_message. rewrite (bind_run _ _ v s s) by by apply deref_service_run.
  rewrite Ho. cbn [andb]. destruct (_ <? _); [|done]. unfold store_service, sent, push.
  unfold mbind, st_bind, modify, mret, st_ret. do 3 f_equal. apply map_eq. intros j.
  destruct (decide (i = j)) as [<-|Hne]; [by rewrite lookup_insert_eq, lookup_alter_eq, Hv|].
  by rewrite lookup_insert_ne, lookup_alter_ne.
Qed.

Lemma notify_step n caller p m s x v :
  impls s !! p = Some x → services s !! li_service x = Some v → service_ok v → ls_state v ≠ Dead →
  bio_notify_service (S n) caller p m s =
    if zlen (ls_queue v) <? LOG_CAPACITY then Ok (tt, sent (li_service x) m s)
    else (_ ← bio_yield caller; bio_notify_service n caller p m) s.
Proof.
  intros Hx Hv Hok Hd. pose proof (running_open v Hok Hd) as Ho. cbn [bio_notify_service].
  rewrite (bind_run _ _ x s s), (bind_run _ _ v s s), Ho, (bind_run _ _ true s s) by
    (by apply deref_logger_run || by apply deref_service_run || by eapply service_alive_run).
  unfold mbind at 1, st_bind at 1. rewrite (send_run _ _ v) by done. by destruct (_ <? _).
Qed.

(** The others respect logging; the services get on. *)
Context (Hcalm : ∀ s, log_wf s → calm s (others s)).

Definition has_room (i : positive) (s : log_state) : Prop :=
  ∃ v, services s !! i = Some v ∧ zlen (ls_queue v) < LOG_CAPACITY.

Context (Hdrain : ∀ s p x, log_wf s → p ∈ loggers s → impls s !! p = Some x →
  ∃ k, has_room (li_service x) (Nat.iter k others s)).

Lemma iter_calm k s : log_wf s → calm s (Nat.iter k others s).
Proof.
  intros Hwf. induction k as [|k IH]; cbn; [by apply calm_refl|].
  eapply calm_trans; [exact IH|]. apply Hcalm, IH.
Qed.

(** A message for a logger is sent when there is room for it. *)
Lemma notify_sends p m s x :
  log_wf s → p ∈ loggers s → impls s !! p = Some x →
  ∃ k, has_room (li_service x) (Nat.iter k others s) ∧ ∀ fuel, (k < fuel)%nat →
    bio_notify_service fuel (Some me) p m s = Ok (tt, sent (li_service x) m (Nat.iter k others s)).
Proof.
  intros Hwf Hp Hx. destruct (Hdrain s p x Hwf Hp Hx) as [k Hk].
  revert s Hwf Hp Hx Hk. induction k as [|k IH]; intros s Hwf Hp Hx Hk;
    destruct (lw_loggers s Hwf p Hp) as (x' & v & Hx' & Hv & Hr & _); simplify_eq;
    pose proof (lw_services s Hwf _ _ Hv) as Hok; pose proof (λ n, notify_step n (Some me) p m s x v Hx Hv Hok Hr) as Hstep;
    (destruct (Z.ltb_spec (zlen (ls_queue v)) LOG_CAPACITY) as [Hroom|Hfull];
      [exists 0%nat; split; [by exists v|]; intros [|fuel] Hf; [lia|apply Hstep]|]).
  - destruct Hk as (w & Hw & Hroom). cbn in Hw. simplify_eq. lia.
  - rewrite Nat.iter_succ_r in Hk. pose proof (Hcalm s Hwf) as [Hwf' Hl' Hi' _ _ _ _].
    destruct (IH (others s)) as (j & Hj & Hrun); [done|by rewrite Hl'|by rewrite Hi'|done|].
    exists (S j). rewrite Nat.iter_succ_r. split; [done|]. intros [|fuel] Hf; [lia|].
    rewrite Hstep. unfold mbind, st_bind, bio_yield, modify. apply Hrun. lia.
Qed.
(** ** The text of a message *)

Section message.
Context (ctx : bio_log_ctx_t) (fmt : cstring) (args : Args).

(** The buffer of the coroutine has the text, once it was formatted. *)
Definition formatted (s : log_state) (msg_len : option Z) : Prop :=
  match msg_len with
  | Some n => ∃ out b, fits (vformat fmt args) = Some out ∧ n = zlen out ∧
      log_msg_bufs s !! me = Some b ∧ holds b out
  | None => True
  end.

Lemma set_bufs_wf s b :
  log_wf s → buf_ok b → log_wf (set_log_msg_bufs (<[me := b]> (log_msg_bufs s)) s).
Proof.
  intros [] Hb. split; try done. cbn. intros h b' [[<- <-]|[_ H]]%lookup_insert_Some; [done|eauto].
Qed.

(** Only the buffer changes. *)
Definition same_but_buf (s s' : log_state) : Prop :=
  ∃ b, buf_ok b ∧ s' = set_log_msg_bufs (<[me := b]> (log_msg_bufs s)) s.

Lemma format_spec s :
  log_wf s → wp (format_msg (Some me) fmt args) (λ n s', same_but_buf s s' ∧
    match fits (vformat fmt args) with Some _ => 0 ≤ n ∧ formatted s' (Some n) | None => n = -1 end) s.
Proof.
  intros Hwf. unfold format_msg, get_log_msg_buf. wp_steps. cbn beta iota.
  set (buf := default _ _).
  assert (Hb : buf_ok buf).
  { unfold buf. destruct (_ !! me) as [b|] eqn:E; [by eapply lw_bufs|done]. }
  pose proof (vfmt_spec (vformat fmt args) buf Hb) as Hv. unfold wp in Hv.
  destruct (bio_vfmt _ buf) as [[n b']|e] eqn:E; [|by destruct e]. destruct Hv as [Hb' Hv].
  wp_steps. split.
  - exists b'. split; [done|]. cbn. unfold set_log_msg_bufs. cbn. by rewrite insert_insert_eq.
  - destruct (fits (vformat fmt args)) as [out|] eqn:Ef; [|by destruct Hv].
    destruct Hv as [-> Hh]. split; [apply zlen_nonneg|]. exists out, b'. cbn. by rewrite lookup_insert_eq.
Qed.

Lemma mapM_some (l : list Z) : mapM id (Some <$> l) = Some l.
Proof. induction l as [|x l IH]; [done|]. cbn. by rewrite IH. Qed.

Lemma copy_run s out b :
  log_msg_bufs s !! me = Some b → holds b out → copy_msg (Some me) (zlen out) s = Ok (out, s).
Proof.
  intros Hb (cells & rest & Hp & Hc). unfold copy_msg, need, mbind, st_bind, get, mret, st_ret.
  cbn beta iota. rewrite Hb. cbn beta iota. rewrite Hp. cbn beta iota.
  replace (Z.to_nat (zlen out + 1)) with (length (Some <$> out ++ [0]))
    by (rewrite length_fmap, length_app; unfold zlen; cbn; lia).
  rewrite Hc, take_app_length, mapM_some. cbn beta iota.
  rewrite zlen_app, Z.eqb_refl. unfold zlen. rewrite Nat2Z.id. by rewrite take_app_length.
Qed.

(** ** The loop over the loggers *)

Lemma next_in_app p done todo :
  NoDup (done ++ p :: todo) → next_in (done ++ p :: todo) p = head todo.
Proof.
  induction done as [|q done IH]; cbn; intros Hnd.
  - by rewrite decide_True.
  - apply NoDup_cons in Hnd as [Hq Hnd]. rewrite decide_False; [by apply IH|].
    intros ->. apply Hq, elem_of_app. right. by left.
Qed.

(** What a logger gets of the message. *)
Definition due (x : bio_logger_impl_t) (out : cstring) : list bio_log_service_msg_t :=
  if li_min_level x <=? lc_level ctx then [mk_log_msg ctx (Some out)] else [].

(** The services of the loggers [todo] got the message. *)
Definition delivered (todo : list positive) (s s' : log_state) : Prop :=
  ∀ p x v, p ∈ loggers s → impls s !! p = Some x → services s !! li_service x = Some v →
    ∃ v', services s' !! li_service x = Some v' ∧
      match fits (vformat fmt args) with
      | Some out => gains v v' (if decide (p ∈ todo) then due x out else [])
      | None => v' = v
      end.

Definition log_post (todo : list positive) (s s' : log_state) : Prop :=
  log_wf s' ∧ loggers s' = loggers s ∧ impls s' = impls s ∧ delivered todo s s'.

Lemma log_post_skip p x todo s s' :
  impls s !! p = Some x →
  p ∉ todo → lc_level ctx < li_min_level x →
  log_post todo s s' → log_post (p :: todo) s s'.
Proof.
  intros Hx Hp Hlt (Hwf & Hl & Hi & Hd). split_and!; [done|congruence..|].
  intros q y v Hq Hy Hv. destruct (Hd q y v) as (v' & Hv' & Hg); [done..|].
  exists v'. split; [done|]. destruct (fits (vformat fmt args)) as [out|]; [|done].
  destruct (decide (q = p)) as [->|Hne].
  - simplify_eq. rewrite decide_False in Hg by done. rewrite decide_True by by left.
    unfold due. rewrite (proj2 (Z.leb_gt _ _)) by lia. done.
  - destruct (decide (q ∈ todo)) as [Hin|Hin]; [rewrite decide_True by by right|rewrite decide_False by
      by rewrite not_elem_of_cons]; done.
Qed.

(** A logger gets the message; the others may do something before. *)
Lemma log_send s p x out :
  log_wf s → p ∈ loggers s → impls s !! p = Some x → fits (vformat fmt args) = Some out →
  formatted s (Some (zlen out)) →
  ∃ s', log_wf s' ∧ loggers s' = loggers s ∧ impls s' = impls s ∧ formatted s' (Some (zlen out)) ∧
    (∀ q y v, impls s !! q = Some y → services s !! li_service y = Some v →
      ∃ v', services s' !! li_service y = Some v' ∧
        gains v v' (if decide (q = p) then [mk_log_msg ctx (Some out)] else [])) ∧
    ∃ k, ∀ fuel, (k < fuel)%nat →
      (alive ← service_alive (li_service x);
       if alive : bool then
         msg_copy ← copy_msg (Some me) (zlen out);
         bio_notify_service fuel (Some me) p (mk_log_msg ctx (Some msg_copy))
       else mret tt) s = Ok (tt, s').
Proof.
  intros Hwf Hp Hx Ho (out' & b & E & _ & Hb & Hh). assert (out' = out) as -> by congruence.
  set (m := mk_log_msg ctx (Some out)).
  destruct (notify_sends p m s x Hwf Hp Hx) as (k & (w & Hw & Hroom) & Hrun).
  pose proof (iter_calm k s Hwf) as [Hwf1 Hl1 Hi1 _ _ Hb1 Hs1].
  set (s1 := Nat.iter k others s) in *.
  destruct (lw_loggers s1 Hwf1 p) as (x' & w' & Hx' & Hw' & Hr & _); [by rewrite Hl1|].
  rewrite Hi1 in Hx'. simplify_eq.
  exists (sent (li_service x) m s1). split_and!; [by eapply sent_wf|done..| | |].
  - exists out, b. split_and!; [done..| |done]. cbn. by rewrite Hb1.
  - intros q y v Hy Hv. destruct (Hs1 _ _ Hv) as (v1 & Hv1 & Hg & _).
    case_decide as Hq.
    + subst q. assert (y = x) as -> by congruence. exists (push m v1). rewrite (sent_lookup _ _ _ v1) by done.
      split; [done|]. eapply gains_after; [done|apply push_gains].
    + exists v1. rewrite sent_lookup_ne; [done|]. intros Heq. by eapply Hq, eq_sym, (lw_distinct s Hwf).
  - exists k. intros fuel Hf. destruct (lw_loggers s Hwf p Hp) as (x' & v & Hx' & Hv & Hr' & _). simplify_eq.
    rewrite (bind_run _ _ true s s) by by eapply service_alive_run.
    rewrite (bind_run _ _ out s s) by by eapply copy_run. by apply Hrun.
Qed.

Lemma log_post_send p x todo out s s1 s' :
  impls s !! p = Some x → fits (vformat fmt args) = Some out → p ∉ todo → li_min_level x ≤ lc_level ctx →
  loggers s1 = loggers s → impls s1 = impls s →
  (∀ q y v, impls s !! q = Some y → services s !! li_service y = Some v →
    ∃ v', services s1 !! li_service y = Some v' ∧
      gains v v' (if decide (q = p) then [mk_log_msg ctx (Some out)] else [])) →
  log_post todo s1 s' → log_post (p :: todo) s s'.
Proof.
  intros Hx Ho Hp Hle El Ei Hs (Hwf & Hl & Hi & Hd). split_and!; [done|congruence..|].
  intros q y v Hq Hy Hv. destruct (Hs q y v Hy Hv) as (v1 & Hv1 & Hg1).
  destruct (Hd q y v1) as (v' & Hv' & Hg); [by rewrite ?El, ?Ei..|].
  exists v'. split; [done|]. rewrite Ho in Hg |- *.
  destruct (decide (q = p)) as [->|Hne].
  - simplify_eq. rewrite decide_False in Hg by done. rewrite decide_True by by left.
    unfold due. rewrite (proj2 (Z.leb_le _ _)) by lia. by eapply gains_before.
  - destruct (decide (q ∈ todo)) as [Hin|Hin]; [rewrite decide_True by by right|rewrite decide_False by
      by rewrite not_elem_of_cons]; by eapply gains_after.
Qed.

Lemma log_post_buf todo s s1 s' : same_but_buf s s1 → log_post todo s1 s' → log_post todo s s'.
Proof. by intros (b & _ & ->). Qed.

(** The rest of an iteration, once the message was formatted. *)
Lemma log_rest todo done p x out s :
  (∀ done s msg_len, log_wf s → loggers s = done ++ todo → formatted s msg_len →
    ∃ fuel0, ∀ fuel, (fuel0 ≤ fuel)%nat →
      wp (log_loop fuel (Some me) ctx fmt args msg_len (head todo)) (λ _ s', log_post todo s s') s) →
  log_wf s → loggers s = done ++ p :: todo → impls s !! p = Some x → li_min_level x ≤ lc_level ctx →
  fits (vformat fmt args) = Some out → formatted s (Some (zlen out)) →
  ∃ fuel0, ∀ fuel, (fuel0 ≤ fuel)%nat →
    wp (alive ← service_alive (li_service x);
        _ ← (if alive : bool then
               msg_copy ← copy_msg (Some me) (zlen out);
               bio_notify_service fuel (Some me) p (mk_log_msg ctx (Some msg_copy))
             else mret tt);
        log_loop fuel (Some me) ctx fmt args (Some (zlen out)) (head todo))
      (λ _ s', log_post (p :: todo) s s') s.
Proof.
  intros IH Hwf Hl Hx Hle Ho Hf.
  assert (Hp : p ∈ loggers s) by (rewrite Hl, elem_of_app; right; by left).
  destruct (log_send s p x out) as (s1 & Hwf1 & Hl1 & Hi1 & Hf1 & Hs1 & k & Hrun); [done..|].
  destruct (IH (done ++ [p]) s1 (Some (zlen out))) as (fuel1 & H1); [done|by rewrite Hl1, Hl, <- app_assoc|done|].
  assert (Hnd : p ∉ todo).
  { pose proof (lw_nodup s Hwf) as Hnd. rewrite Hl in Hnd. by apply NoDup_app in Hnd as (_ & _ & [? _]%NoDup_cons). }
  exists (S k `max` fuel1)%nat. intros fuel Hfuel. specialize (Hrun fuel ltac:(lia)).
  specialize (H1 fuel ltac:(lia)).
  assert (Halive : service_alive (li_service x) s = Ok (true, s)).
  { destruct (lw_loggers s Hwf p Hp) as (x' & v & Hx' & Hv & Hr' & _). simplify_eq. by eapply service_alive_run. }
  rewrite (bind_run _ _ true s s) in Hrun by done. unfold wp.
  rewrite (bind_run _ _ true s s) by done. rewrite (bind_run _ _ tt s s1) by done.
  apply (wp_mono _ _ _ _ H1). intros _ s' Hpost. by eapply log_post_send.
Qed.

Lemma log_loop_spec todo : ∀ done s msg_len,
  log_wf s → loggers s = done ++ todo → formatted s msg_len →
  ∃ fuel0, ∀ fuel, (fuel0 ≤ fuel)%nat →
    wp (log_loop fuel (Some me) ctx fmt args msg_len (head todo)) (λ _ s', log_post todo s s') s.
Proof.
  induction todo as [|p todo IH]; intros done s msg_len Hwf Hl Hf.
  { exists 0%nat. intros [|fuel] _; apply wp_ret; (split_and!; [done..|]); intros q y v _ _ Hv; exists v;
      (split; [done|]); destruct (fits (vformat fmt args)); auto using gains_refl. }
  assert (Hp : p ∈ loggers s) by (rewrite Hl, elem_of_app; right; by left).
  pose proof (lw_nodup s Hwf) as Hnd. rewrite Hl in Hnd.
  assert (Hnp : p ∉ todo) by by apply NoDup_app in Hnd as (_ & _ & [? _]%NoDup_cons).
  destruct (lw_loggers s Hwf p Hp) as (x & _ & Hx & _).
  assert (Hstart : ∀ fuel Q, wp (
      if lc_level ctx >=? li_min_level x then
        msg_len ← (match msg_len with Some n => mret n | None => format_msg (Some me) fmt args end);
        if msg_len <? 0 then mret tt
        else
          alive ← service_alive (li_service x);
          _ ← (if alive : bool then
                 msg_copy ← copy_msg (Some me) msg_len;
                 bio_notify_service fuel (Some me) p (mk_log_msg ctx (Some msg_copy))
               else mret tt);
          log_loop fuel (Some me) ctx fmt args (Some msg_len) (head todo)
      else log_loop fuel (Some me) ctx fmt args msg_len (head todo)) Q s →
    wp (log_loop (S fuel) (Some me) ctx fmt args msg_len (head (p :: todo))) Q s).
  { intros fuel Q H. cbn [log_loop head]. unfold wp. rewrite (bind_run _ _ x s s) by by apply deref_logger_run.
    rewrite (bind_run get _ s s s) by done. rewrite Hl, next_in_app by done. exact H. }
  destruct (Z.geb_spec (lc_level ctx) (li_min_level x)) as [Hge|Hlt].
  2: { destruct (IH (done ++ [p]) s msg_len) as (fuel1 & H1); [done|by rewrite Hl, <- app_assoc|done|].
       exists (S fuel1). intros [|fuel] Hfuel; [lia|]. apply Hstart.
       eapply wp_mono; [apply H1; lia|]. intros ? s' Hpost. by eapply log_post_skip. }
  destruct msg_len as [n|].
  - pose proof Hf as (out & b & Ho & -> & _).
    destruct (log_rest todo done p x out s) as (fuel1 & H1); [done|done|done|done|lia|done|done|].
    exists (S fuel1). intros [|fuel] Hfuel; [lia|]. apply Hstart. wp_step. wp_step.
    pose proof (zlen_nonneg out). rewrite (proj2 (Z.ltb_ge _ _)) by lia. apply H1. lia.
  - pose proof (format_spec s Hwf) as Hfmt. unfold wp in Hfmt.
    destruct (format_msg (Some me) fmt args s) as [[n s1]|e] eqn:E.
    2: { exists 1%nat. intros [|fuel] Hfuel; [lia|]. apply Hstart. unfold wp, mbind, st_bind. by rewrite E. }
    destruct Hfmt as [Hsame Hn]. pose proof Hsame as (b & Hb & ->).
    assert (Hwf1 := set_bufs_wf s b Hwf Hb). set (s1 := set_log_msg_bufs _ s) in *.
    destruct (fits (vformat fmt args)) as [out|] eqn:Ho.
    + destruct Hn as [Hn Hf1]. pose proof Hf1 as (out' & b' & Ho' & -> & _). assert (out' = out) as -> by congruence.
      destruct (log_rest todo done p x out s1) as (fuel1 & H1); [done|done|done|done|lia|done|done|].
      exists (S fuel1). intros [|fuel] Hfuel; [lia|]. apply Hstart. unfold wp. rewrite (bind_run _ _ _ _ _ E).
      rewrite (proj2 (Z.ltb_ge _ _)) by lia. eapply wp_mono; [apply H1; lia|].
      intros ? s'. by apply log_post_buf.
    + subst n. exists 1%nat. intros [|fuel] Hfuel; [lia|]. apply Hstart. unfold wp. rewrite (bind_run _ _ _ _ _ E).
      cbn. eapply log_post_buf; [done|]. split_and!; [done..|]. intros q y v _ _ Hv. exists v.
      by rewrite Ho.
Qed.

End message.

(** ** A call of the logging functions *)

(** The name of a file in the messages. *)
Definition short_name (s : log_state) (filename : cstring) : cstring :=
  let n := Z.to_nat (log_prefix_len s) in
  if decide (0 < log_prefix_len s ≤ zlen filename ∧ take n filename = take n (default [] (current_filename s)))
  then drop n filename else filename.

Lemma shorten_run s filename : log_wf s → shorten filename s = Ok (short_name s filename, s).
Proof.
  intros Hwf. unfold shorten, short_name. rewrite (bind_run get _ s s s) by done.
  rewrite Z.gtb_ltb, Z.geb_leb.
  destruct (Z.ltb_spec 0 (log_prefix_len s)) as [H0|H0]; cbn [andb]; [|rewrite decide_False by lia; done].
  destruct (Z.leb_spec (log_prefix_len s) (zlen filename)) as [H1|H1]; [|rewrite decide_False by lia; done].
  destruct (lw_prefix s Hwf H0) as [name Hn]. rewrite Hn. cbn. unfold mbind, st_bind, mret, st_ret.
  repeat case_decide; tauto || done.
Qed.

End interference.

(** ** The prefix of file names *)

(** How many separators there are. *)
Definition separators (name : cstring) : Z := zlen (filter (λ ch, is_separator ch = true) name).

Lemma separators_snoc name ch : separators (name ++ [ch]) = separators name + (if is_separator ch then 1 else 0).
Proof.
  unfold separators. rewrite filter_app, zlen_app, filter_cons.
  destruct (is_separator ch); [rewrite decide_True by done|rewrite decide_False by done]; done.
Qed.

Lemma separators_nonneg name : 0 ≤ separators name.
Proof. apply zlen_nonneg. Qed.

(** The scan skips what has fewer separators than it looks for. *)
Lemma scan_skip root rel tail depth (s : log_state) :
  separators rel < depth ≤ INT_MAX → zlen rel ≤ INT_MAX →
  scan_prefix (root ++ rel ++ tail) (length (root ++ rel)) depth s =
    scan_prefix (root ++ rel ++ tail) (length root) (depth - separators rel) s.
Proof.
  revert depth tail. induction rel as [|ch rel IH] using rev_ind; intros depth tail Hd Hl.
  { rewrite app_nil_r. change (separators []) with 0. by rewrite Z.sub_0_r. }
  rewrite separators_snoc in Hd |- *. pose proof (separators_nonneg rel). rewrite zlen_app in Hl.
  unfold zlen at 2 in Hl. cbn [length] in Hl.
  rewrite (app_assoc root rel [ch]), (length_app _ [ch]), Nat.add_1_r. cbn [scan_prefix].
  assert (Hch : zlookup (root ++ (rel ++ [ch]) ++ tail) (Z.of_nat (length (root ++ rel))) = Some ch).
  { rewrite <- !app_assoc, app_assoc, zlookup_app, decide_False by (unfold zlen; lia).
    unfold zlen. by rewrite Z.sub_diag. }
  unfold mbind at 1, st_bind at 1. rewrite Hch. cbn [need]. unfold mret, st_ret.
  rewrite <- (app_assoc rel).
  destruct (is_separator ch).
  - unfold mbind, st_bind, int_of. assert (in_int (depth - 1) = true) as ->
      by (unfold in_int, INT_MIN, INT_MAX in *; lia).
    unfold mret, st_ret. rewrite (proj2 (Z.eqb_neq _ _)) by lia. rewrite IH by lia. f_equal. lia.
  - unfold mbind, st_bind, mret, st_ret. rewrite (proj2 (Z.eqb_neq _ _)) by lia. rewrite IH by lia. f_equal. lia.
Qed.

(** C38: File names lose the prefix of the project, and no other: initialized with the name of a
    file at a depth in the project, as [bio.h] says, the names of the files in the
    project become relative to it and all others stay what they are. If the name has too
    few separators for its depth, the byte before the name is read. *)
Theorem file_names_shortened (s : log_state) name root ch rel :
  current_filename s = Some name → log_prefix_len s = 0 → zlen name < INT_MAX →
  0 ≤ current_depth_in_project s < INT_MAX → is_separator ch = true →
  (separators name ≤ current_depth_in_project s → bio_logging_init s = Err OutOfBounds) ∧
  (name = root ++ ch :: rel → separators rel = current_depth_in_project s →
    ∃ s', bio_logging_init s = Ok (tt, s') ∧
      (∀ path, short_name s' (root ++ ch :: path) = path) ∧
      (∀ file, ¬ (root ++ [ch]) `prefix_of` file → short_name s' file = file)).
Proof.
  intros Hname Hp Hlen Hdepth Hch.
  assert (Hinit : bio_logging_init s = (r ← scan_prefix name (length name) (current_depth_in_project s + 1);
    let '(i, depth) := r in
    ch ← need OutOfBounds (zlookup name i);
    let i := if is_separator ch then i + 1 else i in
    if (depth =? 0) && (i >=? 0) then modify (set_log_prefix_len i) else mret tt) (set_loggers [] s)).
  { unfold bio_logging_init. rewrite (bind_run _ _ tt s (set_loggers [] s)) by done.
    rewrite (bind_run get _ _ _ _ eq_refl).
    rewrite (bind_run _ _ (current_depth_in_project s + 1) _ (set_loggers [] s)).
    - cbn [current_filename set_loggers]. by rewrite Hname.
    - unfold int_of. cbn. replace (in_int _) with true by (unfold in_int, INT_MIN, INT_MAX in *; lia). done. }
  rewrite Hinit. split.
  - intros Hs. pose proof (scan_skip [] name [] (current_depth_in_project s + 1) (set_loggers [] s)) as Hscan.
    rewrite app_nil_r in Hscan. cbn [app] in Hscan. unfold mbind, st_bind. rewrite Hscan by lia. done.
  - intros -> Hs. rewrite (app_assoc root [ch] rel : root ++ ch :: rel = _).
    pose proof (scan_skip (root ++ [ch]) rel [] (current_depth_in_project s + 1) (set_loggers [] s)) as Hscan.
    rewrite app_nil_r, Hs, Z.add_simpl_l in Hscan. rewrite zlen_app in Hlen. pose proof (zlen_nonneg root).
    assert (zlen rel < INT_MAX) by (unfold zlen in *; cbn [length] in Hlen; lia).
    rewrite (bind_run _ _ (zlen root, 0) _ (set_loggers [] s)).
    2: { rewrite Hscan by lia. rewrite length_app, Nat.add_1_r. cbn [scan_prefix].
         unfold mbind, st_bind. rewrite <- app_assoc, zlookup_app, decide_False by (unfold zlen; lia).
         unfold zlen. rewrite Z.sub_diag. change (zlookup ([ch] ++ rel) 0) with (Some ch). cbn [need]. unfold mret, st_ret. cbn beta iota.

by rewrite Hch. }
    rewrite <- app_assoc, zlookup_app, decide_False by lia. rewrite Z.sub_diag.
    rewrite (bind_run _ _ ch _ (set_loggers [] s)) by done. rewrite Hch.
    cbv zeta. rewrite (proj2 (Z.geb_le _ _)) by lia. cbn [Z.eqb andb].
    eexists. split; [reflexivity|].
    assert (Hn : Z.to_nat (zlen root + 1) = length (root ++ [ch])) by (rewrite length_app; unfold zlen; cbn; lia).
    assert (Ht : ∀ tail, take (length (root ++ [ch])) (root ++ ch :: tail) = root ++ [ch]).
    { intros tail. by rewrite (app_assoc root [ch] tail : root ++ ch :: tail = _), take_app_length. }
    unfold short_name. cbn [log_prefix_len current_filename set_log_prefix_len set_loggers].
    rewrite Hname, Hn. unfold default, from_option, id. split.
    + intros path. rewrite !Ht, decide_True.
      * by rewrite (app_assoc root [ch] path : root ++ ch :: path = _), drop_app_length.
      * split; [|done]. rewrite zlen_app. unfold zlen. cbn. lia.
    + intros file Hno. rewrite decide_False; [done|]. rewrite Ht. intros [_ E]. apply Hno. rewrite <- E.
      exists (drop (length (root ++ [ch])) file). by rewrite take_drop.
Qed.
End logging.
