(* ===== verification/Loggers.v ===== *)
(** The life of loggers ([src/logging.c]): the steps of their services, adding and removing
    them, and the cleanup. *)
From S2P Require Import Prelude HandleTable Format Logging.

Section loggers.
Context {World : Type}.
Local Abbreviation log_state := (@log_state World).
Implicit Types (s : log_state).
Context (others : log_state → log_state).
Local Abbreviation bio_yield := (bio_yield others).
Local Abbreviation bio_notify_service := (bio_notify_service others).
Local Abbreviation bio_start_log_service := (bio_start_log_service others).
Local Abbreviation bio_add_logger := (bio_add_logger others).
Local Abbreviation bio_remove_logger := (bio_remove_logger others).
Local Abbreviation bio_logging_cleanup := (bio_logging_cleanup others).
Local Abbreviation notify_step := (notify_step others).

(** ** The services *)

Lemma service_step_ok v v' : service_ok v → log_service_step v = Some v' → service_ok v'.
Proof.
  intros [Hlen Hst] E. unfold log_service_step in E. pose proof (zlen_nonneg (ls_queue v)).
  destruct (ls_state v) as [| |m|] eqn:Es; [| | |simplify_eq; split; by rewrite ?Es].
  - destruct (ls_args v); [|done]. simplify_eq. by split.
  - destruct Hst as [Ho Hc]. rewrite Ho in E. destruct (ls_queue v) as [|m q] eqn:Eq; simplify_eq.
    + split; [by rewrite Eq|]. by rewrite Es.
    + split; cbn; [unfold zlen in *; cbn in *; lia|]. split; [done|]. by exists (ls_calls v).
  - destruct Hst as (Ho & cs & Hc & Hcs), (lm_msg m) eqn:Em; simplify_eq; [|split; [cbn; unfold zlen; cbn; lia|done]].
    split; [done|]. cbn. split; [done|]. rewrite Hc. apply Forall_app_2; [done|].
    constructor; [|constructor]. unfold is_end. by rewrite Em.
Qed.

(** A service that was not told to end accepts nothing by itself, and forgets nothing. *)
Lemma step_running v v' :
  service_ok v → running v → log_service_step v = Some v' →
  running v' ∧ trace v' = trace v ∧ ls_calls v `prefix_of` ls_calls v' ∧ ls_args v' = ls_args v.
Proof.
  intros [_ Hst] (Hd & Ht & Ha) E. unfold log_service_step in E. unfold running, trace in *.
  destruct (ls_state v) as [| |m|] eqn:Es; [| | |done].
  - destruct (ls_args v); [|done]. by simplify_eq.
  - destruct Hst as [Ho _]. rewrite Ho in E. destruct (ls_queue v) as [|m q] eqn:Eq; simplify_eq; cbn; [by rewrite Eq, Es|].
    rewrite <- app_assoc. split_and!; [done..| |done]. by exists [m].
  - destruct Hst as (_ & cs & Hc & _). destruct (lm_msg m) eqn:Em; simplify_eq; cbn; [split_and!; done|].
    rewrite Hc, !Forall_app in Ht. destruct Ht as [[_ [Hm _]%Forall_cons] _]. exfalso. exact (Hm Em).
Qed.

Lemma entry_run i v v' s :
  services s !! i = Some v → log_service_step v = Some v' →
  bio_log_service_entry i s = Ok (tt, set_services (<[i := v']> (services s)) s).
Proof.
  intros Hv E. unfold bio_log_service_entry. rewrite (bind_run _ _ v s s) by by apply deref_service_run.
  unfold mbind, st_bind. by rewrite E.
Qed.

(** A new service state that is as good as the old one. *)
Lemma set_service_wf i v v' s :
  log_wf s → services s !! i = Some v → service_ok v' → (running v → running v') →
  log_wf (set_services (<[i := v']> (services s)) s).
Proof.
  intros Hwf Hv Hok Hr. destruct Hwf as [Htab Hhan Hnodup Hlog Hdist Hnext Hserv Hbufs Hpre]. split; cbn; try done.
  - intros p Hp. destruct (Hlog p Hp) as (x & w & Hx & Hw & Hrw). exists x.
    destruct (decide (i = li_service x)) as [->|Hne].
    + exists v'. rewrite lookup_insert_eq. simplify_eq. auto.
    + exists w. by rewrite lookup_insert_ne.
  - destruct Hnext as (H1 & H2 & H3). split_and!; [done| |done]. intros j Hj. apply H2.
    destruct (decide (i = j)) as [<-|Hne]; [by eexists|]. by rewrite lookup_insert_ne in Hj.
  - intros j w [[<- <-]|[_ Hw]]%lookup_insert_Some; [done|by eapply Hserv].
Qed.

(** A step of a logger's service is one that others may take. *)
Lemma entry_calm me i v v' s :
  log_wf s → services s !! i = Some v → running v → log_service_step v = Some v' →
  calm me s (set_services (<[i := v']> (services s)) s).
Proof.
  intros Hwf Hv Hr E. pose proof (lw_services s Hwf i v Hv) as Hok.
  destruct (step_running v v' Hok Hr E) as (Hr' & Ht & Hc & Ha).
  split; try done.
  - eapply set_service_wf; [done..|by eapply service_step_ok|done].
  - intros j w Hw. cbn. destruct (decide (i = j)) as [<-|Hne].
    + exists v'. rewrite lookup_insert_eq. simplify_eq. split_and!; [done| |done].
      split; [done|]. split; [done|]. exists [], []. rewrite Ht, !app_nil_r. by split_and!; [|constructor..].
    + exists w. rewrite lookup_insert_ne by done. auto using gains_refl.
Qed.

(** ** Adding a logger *)

Lemma add_service_wf s v :
  log_wf s → service_ok v →
  log_wf (set_services (<[lg_next s := v]> (services s)) (set_lg_next (Pos.succ (lg_next s)) s)).
Proof.
  intros Hwf Hok. pose proof (lw_next s Hwf) as (H1 & H2 & H3). destruct Hwf as [Htab Hhan Hnodup Hlog Hdist Hnext Hserv Hbufs Hpre]. split; cbn; try done.
  - intros p Hp. destruct (Hlog p Hp) as (x & w & Hx & Hw & Hrw). exists x, w.
    split_and!; [done| |done]. rewrite lookup_insert_ne; [done|]. pose proof (H3 p x Hx). intros E. lia.
  - split_and!.
    + intros p Hp%H1. lia.
    + intros j. intros [w [[<- <-]|[_ Hw]]%lookup_insert_Some]; [lia|]. pose proof (H2 j ltac:(by eexists)). lia.
    + intros p x Hx%H3. lia.
  - intros j w [[<- <-]|[_ Hw]]%lookup_insert_Some; [done|by eapply Hserv].
Qed.

Section adding.
Context (me : bio_handle_t) (Hcalm : ∀ s, log_wf s → calm me s (others s)).

Lemma logger_malloc_wf s : log_wf s → log_wf (set_lg_next (Pos.succ (lg_next s)) s).
Proof.
  intros Hwf. pose proof (lw_next s Hwf) as (H1 & H2 & H3). destruct Hwf as [Htab Hhan Hnodup Hlog Hdist Hnext Hserv Hbufs Hpre]. split; cbn; try done.
  split_and!; [intros p Hp%H1|intros j Hj%H2|intros p x Hx%H3]; lia.
Qed.

(** The new service has started, and got nothing yet from the caller. *)
Lemma start_service_spec s args :
  log_wf s →
  wp (bio_start_log_service (Some me) args) (λ i s', i = lg_next s ∧ log_wf s' ∧ loggers s' = loggers s ∧
    impls s' = impls s ∧ (i < lg_next s')%positive ∧ ∃ v, services s' !! i = Some v ∧ running v ∧ ls_args v = Some args) s.
Proof.
  intros Hwf. unfold bio_start_log_service. unfold log_malloc at 1. wp_steps.
  set (i := lg_next s). unfold store_service at 1. wp_steps.
  set (v0 := mk_log_service (Some args) Starting true [] []).
  set (s1 := set_services _ _).
  assert (Hwf1 : log_wf s1) by exact (add_service_wf s v0 Hwf ltac:(by split)).
  assert (Hv0 : services s1 !! i = Some v0) by apply lookup_insert_eq.
  destruct (Hcalm s1 Hwf1) as [Hwf2 Hl2 Hi2 Hn2 _ _ Hs2].
  destruct (Hs2 i v0 Hv0) as (v & Hv & (Ha & _) & Hr). specialize (Hr ltac:(by split; [|constructor])).
  assert (Hdone : ∀ s3, log_wf s3 → loggers s3 = loggers s → impls s3 = impls s → (i < lg_next s3)%positive →
    (∃ v, services s3 !! i = Some v ∧ running v ∧ ls_args v = Some args) →
    wp (_ ← bio_yield (Some me); mret i) (λ i s', i = lg_next s ∧ log_wf s' ∧ loggers s' = loggers s ∧
      impls s' = impls s ∧ (i < lg_next s')%positive ∧ ∃ v, services s' !! i = Some v ∧ running v ∧ ls_args v = Some args) s3).
  { intros s3 Hwf3 Hl3 Hi3 Hn3 (w & Hw & Hrw & Haw). unfold bio_yield. wp_steps.
    destruct (Hcalm s3 Hwf3) as [Hwf4 Hl4 Hi4 Hn4 _ _ Hs4]. destruct (Hs4 i w Hw) as (w' & Hw' & (Ha' & _) & Hr').
    split_and!; [done|done|congruence|congruence|unfold i in *; lia|]. exists w'. split_and!; [done|auto|congruence]. }
  assert (Hn : (i < lg_next (others s1))%positive) by (cbn in Hn2; unfold i; lia).
  unfold bio_yield at 1. do 2 wp_step. unfold wp at 1. rewrite (deref_service_run _ _ _ Hv). cbn beta iota.
  destruct (ls_state v) eqn:Es; try (wp_steps; apply Hdone; [done..|by exists v]).
  assert (exists v', log_service_step v = Some v') as [v' Hstep] by (unfold log_service_step; rewrite Es, Ha; eauto).
  pose proof (lw_services _ Hwf2 _ _ Hv) as Hok.
  destruct (step_running v v' Hok Hr Hstep) as (Hr' & _ & _ & Ha').
  wp_step. unfold wp at 1. rewrite (entry_run _ _ _ _ Hv Hstep). apply Hdone; [|done..|].
  - eapply set_service_wf; [done..|by eapply service_step_ok|done].
  - exists v'. cbn. rewrite lookup_insert_eq. split_and!; [done..|by rewrite Ha', Ha].
Qed.
End adding.

(** ** Removing loggers *)

(** The logger [p] with its handle and its service. *)
Definition logger_at (s : log_state) (p : positive) (x : bio_logger_impl_t) (v : log_service) : Prop :=
  p ∈ loggers s ∧ impls s !! p = Some x ∧ services s !! li_service x = Some v ∧
  live (lg_table s) !! li_handle x = Some (BIO_LOGGER_HANDLE, Some p).

(** No logger is being removed. *)
Definition all_live (s : log_state) : Prop := ∀ p, p ∈ loggers s → ∃ x v, logger_at s p x v.

(** The state after the removal of a logger. *)
Definition removed (p : positive) (x : bio_logger_impl_t) (s s' : log_state) : Prop :=
  loggers s' = filter (.≠ p) (loggers s) ∧ impls s' = delete p (impls s) ∧
  services s' = alter (push end_msg) (li_service x) (services s) ∧
  live (lg_table s') = delete (li_handle x) (live (lg_table s)).

Lemma removed_wf p x v s s' :
  log_wf s → logger_at s p x v → removed p x s s' → wf (lg_table s') →
  ls_state v ≠ Dead → zlen (ls_queue v) < LOG_CAPACITY →
  lg_next s' = lg_next s → log_msg_bufs s' = log_msg_bufs s → log_prefix_len s' = log_prefix_len s →
  current_filename s' = current_filename s → log_wf s'.
Proof.
  intros Hwf (Hp & Hx & Hv & Hh) (El & Ei & Es & Et) Ht Hd Hroom En Eb Ep Ec. destruct Hwf as [Htab Hhan Hnodup Hlog Hdist Hnext Hserv Hbufs Hpre].
  split; rewrite ?El, ?Ei, ?Es, ?Et, ?En, ?Eb, ?Ep, ?Ec; try done.
  - intros h o [Hne Hl]%lookup_delete_Some. destruct (Hhan h o Hl) as (q & y & -> & Hq & Hy & Hyh).
    exists q, y. assert (q ≠ p) by (intros ->; congruence).
    split_and!; [done|by apply list_elem_of_filter|by rewrite lookup_delete_ne|done].
  - by apply NoDup_filter.
  - intros q [Hne Hq]%list_elem_of_filter. destruct (Hlog q Hq) as (y & w & Hy & Hw & Hr).
    exists y, w. split_and!; [by rewrite lookup_delete_ne| |done].
    rewrite lookup_alter_ne; [done|]. intros E. apply Hne. by eapply eq_sym, Hdist.
  - intros q r y z [_ Hy]%lookup_delete_Some [_ Hz]%lookup_delete_Some. by eapply Hdist.
  - destruct Hnext as (H1 & H2 & H3). split_and!.
    + intros q [y [_ Hy]%lookup_delete_Some]. apply H1. by eexists.
    + intros j [w Hw]. apply H2. destruct (decide (li_service x = j)) as [<-|Hne]; [by eexists|].
      rewrite lookup_alter_ne in Hw by done. by eexists.
    + intros q y [_ Hy]%lookup_delete_Some. by eapply H3.
  - intros j w. destruct (decide (li_service x = j)) as [<-|Hne].
    + rewrite lookup_alter_eq, Hv. intros [= <-]. apply push_ok; [by eapply Hserv|done..].
    + rewrite lookup_alter_ne by done. apply Hserv.
Qed.

(** A logger whose mailbox has room is told to end at once. *)
Lemma remove_spec fuel s p x v :
  log_wf s → logger_at s p x v → zlen (ls_queue v) < LOG_CAPACITY →
  wp (bio_remove_logger (S fuel) None (li_handle x)) (λ _ s', log_wf s' ∧ removed p x s s') s.
Proof.
  intros Hwf Hat Hroom. pose proof Hat as (Hp & Hx & Hv & Hh).
  destruct (lw_loggers s Hwf p Hp) as (x' & v' & Hx' & Hv' & Hr & _). simplify_eq.
  unfold bio_remove_logger, log_close_handle. do 2 wp_step.
  eapply wp_mono; [apply close_spec; [apply Hwf|apply live_known; eauto]|].
  intros r t (Ht & _ & Hm). rewrite Hh, decide_True in Hm by done. destruct Hm as [-> Hl]. cbn beta iota.
  wp_step. unfold wp at 1. rewrite (notify_step _ _ _ _ _ x v) by (done || by eapply lw_services).
  rewrite (proj2 (Z.ltb_lt _ _)) by done. wp_steps. unfold free_logger, deref_logger. wp_steps.
  assert (Hrem : removed p x s (set_impls (delete p (impls s)) (set_loggers (filter (.≠ p) (loggers s))
    (sent (li_service x) end_msg (set_lg_table t s))))) by by split_and!.
  split; [by eapply removed_wf|done].
Qed.

Lemma removed_other p x v s s' q y w :
  log_wf s → logger_at s p x v → removed p x s s' → q ≠ p → logger_at s q y w → logger_at s' q y w.
Proof.
  intros Hwf (Hp & Hx & Hv & Hh) (El & Ei & Es & Et) Hne (Hq & Hy & Hw & Hk).
  split_and!; rewrite ?El, ?Ei, ?Es, ?Et.
  - by apply list_elem_of_filter.
  - by rewrite lookup_delete_ne.
  - rewrite lookup_alter_ne; [done|]. intros E. apply Hne. by eapply eq_sym, (lw_distinct s Hwf).
  - rewrite lookup_delete_ne; [done|]. intros E. rewrite E in Hh. congruence.
Qed.

(** ** The end of a service *)

(** The coroutine of a service is resumed [n] times. *)
Fixpoint run_service (n : nat) (i : positive) : st log_state unit :=
  match n with
  | O => mret tt
  | S n => _ ← bio_log_service_entry i; run_service n i
  end.

Definition ended (v : log_service) (calls : list bio_log_service_msg_t) : log_service :=
  mk_log_service (ls_args v) Dead false [] calls.

Lemma set_services_twice i v v' s :
  set_services (<[i := v']> (services (set_services (<[i := v]> (services s)) s)))
    (set_services (<[i := v]> (services s)) s) = set_services (<[i := v']> (services s)) s.
Proof. unfold set_services. cbn. by rewrite insert_insert_eq. Qed.

(** How many times a service runs until its queue is empty. *)
Definition work (v : log_service) : nat :=
  2 * length (ls_queue v) + match ls_state v with Receiving | Dead => 0 | _ => 1 end.

(** The steps of a service that was told to end. *)
Lemma ending_step v t :
  service_ok v → ls_state v ≠ Dead → ls_args v ≠ None → trace v = t ++ [end_msg] → Forall (λ m, ¬ is_end m) t →
  ∃ v', log_service_step v = Some v' ∧ service_ok v' ∧ ls_args v' = ls_args v ∧
    (v' = ended v (t ++ [end_msg]) ∨
     (ls_state v' ≠ Dead ∧ trace v' = t ++ [end_msg] ∧ (work v' < work v)%nat)).
Proof.
  intros Hok Hd Ha Ht Hno.
  assert (∃ v', log_service_step v = Some v') as [v' E].
  { unfold log_service_step. destruct (ls_state v) as [| |m|]; [destruct (ls_args v); [eauto|done]| | |eauto].
    - destruct (ls_open v), (ls_queue v); eauto.
    - destruct (lm_msg m); eauto. }
  exists v'. split; [done|]. split; [by eapply service_step_ok|]. destruct Hok as [_ Hst].
  unfold log_service_step in E. unfold work. unfold trace in Ht |- *.
  destruct (ls_state v) as [| |m|] eqn:Es; [| | |done].
  - destruct (ls_args v) eqn:Ea; [|done]. simplify_eq. cbn. split; [done|]. right. split_and!; [done..|lia].
  - destruct Hst as [Ho Hc]. rewrite Ho in E. destruct (ls_queue v) as [|m q] eqn:Eq; simplify_eq; cbn.
    + rewrite app_nil_r in Ht. rewrite Ht in Hc. apply Forall_app in Hc as [_ [Hm _]%Forall_cons].
      by destruct (Hm eq_refl).
    + split; [done|]. right. rewrite <- app_assoc. split_and!; [done..|lia].
  - destruct Hst as (Ho & cs & Hc & Hcs). destruct (lm_msg m) eqn:Em; simplify_eq; cbn; (split; [done|]).
    + right. split_and!; [done..|lia].
    + left. unfold ended. f_equal. rewrite <- Ht, Hc, <- app_assoc.
      assert (ls_queue v = []) as ->; [|by rewrite app_nil_r].
      rewrite Hc, <- app_assoc in Ht. cbn in Ht.
      destruct (ls_queue v) as [|m' q] eqn:Eq using rev_ind; [done|].
      rewrite app_comm_cons, app_assoc in Ht. apply app_inj_tail in Ht as [<- _].
      apply Forall_app in Hno as [_ [Hm _]%Forall_cons]. by destruct (Hm Em).
Qed.

(** It calls its function for everything that it accepted, in order, and ends. *)
Lemma service_ends i s v t :
  services s !! i = Some v → service_ok v → ls_state v ≠ Dead → ls_args v ≠ None →
  trace v = t ++ [end_msg] → Forall (λ m, ¬ is_end m) t →
  ∃ n0, ∀ n, (n0 ≤ n)%nat →
    run_service n i s = Ok (tt, set_services (<[i := ended v (t ++ [end_msg])]> (services s)) s).
Proof.
  remember (work v) as k eqn:Hk. revert s v Hk. induction k as [k IH] using lt_wf_ind.
  intros s v -> Hv Hok Hd Ha Ht Hno.
  destruct (ending_step v t Hok Hd Ha Ht Hno) as (v' & E & Hok' & Ha' & Hor).
  pose proof (entry_run i v v' s Hv E) as Hrun. set (s1 := set_services _ s) in Hrun.
  assert (Hv1 : services s1 !! i = Some v') by apply lookup_insert_eq.
  destruct Hor as [->|(Hd' & Ht' & Hlt)].
  - exists 1%nat. intros [|n] Hn; [lia|]. cbn [run_service]. rewrite (bind_run _ _ _ _ _ Hrun). clear Hn.
    induction n as [|n IHn]; [done|]. cbn [run_service].
    rewrite (bind_run _ _ tt _ s1); [done|]. rewrite (entry_run i _ _ s1 Hv1 eq_refl). unfold s1.
    by rewrite set_services_twice.
  - destruct (IH (work v') Hlt s1 v' eq_refl Hv1 Hok' Hd') as (n0 & H0); [by rewrite Ha'|done..|].
    exists (S n0). intros [|n] Hn; [lia|]. cbn [run_service]. rewrite (bind_run _ _ _ _ _ Hrun), H0 by lia.
    unfold s1, ended. by rewrite set_services_twice, Ha'.
Qed.

(** ** Cleanup *)

Definition rooms (s : log_state) : Prop :=
  ∀ p x v, logger_at s p x v → zlen (ls_queue v) < LOG_CAPACITY.

Lemma cleanup_spec n s :
  log_wf s → all_live s → rooms s → (length (loggers s) ≤ n)%nat →
  wp (bio_logging_cleanup (S n)) (λ _ s', loggers s' = [] ∧
    (∀ p x v, logger_at s p x v → services s' !! li_service x = Some (push end_msg v)) ∧
    (∀ i, (∀ p x v, logger_at s p x v → li_service x ≠ i) → services s' !! i = services s !! i)) s.
Proof.
  revert s. induction n as [|n IH]; intros s Hwf Hall Hroom Hn.
  { destruct (loggers s) as [|p l] eqn:El; [|cbn in Hn; lia]. cbn [bio_logging_cleanup]. wp_step. wp_step. rewrite El.
    wp_steps. split_and!; [done| |done]. intros p x v (Hp & _). rewrite El in Hp. by apply not_elem_of_nil in Hp. }
  cbn [bio_logging_cleanup]. wp_step. wp_step. destruct (loggers s) as [|p l] eqn:El.
  { wp_steps. split_and!; [done| |done]. intros p x v (Hp & _). rewrite El in Hp. by apply not_elem_of_nil in Hp. }
  destruct (Hall p) as (x & v & Hat); [rewrite El; by left|]. pose proof Hat as (Hp & Hx & Hv & Hh).
  wp_step. unfold wp at 1. rewrite (deref_logger_run _ _ _ Hx). wp_step.
  eapply wp_mono; [eapply remove_spec; [done..|by eapply Hroom]|]. intros _ s1 [Hwf1 Hrem].
  pose proof Hrem as (El1 & _ & Es1 & _).
  assert (Hpl : p ∉ l) by (pose proof (lw_nodup s Hwf) as Hnd; rewrite El in Hnd; by apply NoDup_cons in Hnd as []).
  assert (El2 : loggers s1 = l).
  { rewrite El1, El, filter_cons_False by (intros H; by apply H). apply list_filter_all.
    apply Forall_forall. intros q Hq ->. done. }
  assert (Hback : ∀ q y w, logger_at s1 q y w → q ≠ p ∧ logger_at s q y w).
  { intros q y w (Hq & Hy & Hw & Hk). rewrite El2 in Hq. assert (q ≠ p) by (intros ->; done). split; [done|].
    destruct (Hall q) as (y' & w' & Hat'); [rewrite El; by right|].
    destruct (removed_other p x v s s1 q y' w' Hwf Hat Hrem ltac:(done) Hat') as (_ & Hy' & Hw' & _).
    by simplify_eq. }
  eapply wp_mono; [apply (IH s1 Hwf1)|].
  - intros q Hq. rewrite El2 in Hq. destruct (Hall q) as (y & w & Hat'); [rewrite El; by right|].
    exists y, w. apply (removed_other p x v s s1 q y w); [done..|by intros ->|done].
  - intros q y w Hat'. by eapply Hroom, Hback.
  - rewrite El2. cbn in Hn. lia.
  - intros _ s' (El' & Hs' & Ho'). split; [done|]. split.
    + intros q y w Hat'. destruct (decide (q = p)) as [->|Hne].
      * destruct Hat' as (_ & Hy & Hw & _). simplify_eq. rewrite Ho'; [by rewrite Es1, lookup_alter_eq, Hv|].
        intros q y w' (Hne & _ & Hy' & _)%Hback E. apply Hne. by eapply (lw_distinct s Hwf).
      * eapply Hs'. by apply (removed_other p x v s s1 q y w).
    + intros i Hi. rewrite Ho'.
      * rewrite Es1, lookup_alter_ne; [done|]. by eapply Hi.
      * intros q y w [_ Hat']%Hback. by eapply Hi.
Qed.

(** A new logger is the last one, and live; the others may do something before. *)
Lemma add_logger_spec me s min_level args :
  (∀ s, log_wf s → calm me s (others s)) → log_wf s →
  wp (bio_add_logger (Some me) min_level args) (λ h s', log_wf s' ∧ loggers s' = loggers s ++ [lg_next s] ∧
    ∃ x v, logger_at s' (lg_next s) x v ∧ li_handle x = h ∧ li_min_level x = min_level ∧ ls_args v = Some args) s.
Proof.
  intros Hcalm Hwf. unfold bio_add_logger. unfold log_malloc at 1. do 7 wp_step.
  set (p := lg_next s). set (s1 := set_lg_next (Pos.succ p) s).
  assert (Hwf1 : log_wf s1) by by apply logger_malloc_wf.
  eapply wp_mono; [by apply (start_service_spec me Hcalm s1)|].
  intros i s2 (-> & Hwf2 & El2 & Ei2 & Hi2 & v & Hv & Hr & Ha). cbn [lg_next s1 set_lg_next loggers impls] in *.
  pose proof (lw_next s Hwf) as (H1 & H2 & H3). set (i := Pos.succ p) in *.
  assert (Hfresh : impls s2 !! p = None).
  { rewrite Ei2. destruct (impls s !! p) as [y|] eqn:E; [|done]. pose proof (H1 p ltac:(by eexists)). unfold p in *. lia. }
  assert (Hold : ∀ q y, impls s2 !! q = Some y → (li_service y < p)%positive) by (rewrite Ei2; exact H3).
  unfold store_logger. do 3 wp_step. unfold log_make_handle. wp_step.
  eapply wp_mono; [apply make_spec; apply Hwf2|]. intros h t (Ht & Hk & Hl & _ & _). wp_step.
  unfold deref_logger at 1. do 2 wp_step. eapply wp_need; [apply lookup_insert_eq|].
  wp_steps. set (x := mk_logger h min_level i). set (s3 := set_loggers _ _).
  assert (Hx : impls s3 !! p = Some x) by (cbn; by rewrite lookup_insert_eq).
  assert (Hne : ∀ q, q ≠ p → impls s3 !! q = impls s2 !! q) by (intros q Hq; cbn; by rewrite !lookup_insert_ne).
  assert (Hnew : p ∉ loggers s2) by (intros Hin; destruct (lw_loggers s2 Hwf2 p Hin) as (y & _ & Hy & _); congruence).
  assert (Hl3 : live (lg_table s3) = <[h := (BIO_LOGGER_HANDLE, Some p)]> (live (lg_table s2))) by exact Hl.
  split; [|split; [by rewrite <- El2|]].
  - destruct Hwf2 as [Htab Hhan Hnodup Hlog Hdist Hnext Hserv Hbufs Hpre]. split; try done.
    + intros k o. rewrite Hl3. intros [[E1 E2]|[_ Hk']]%lookup_insert_Some.
      * simplify_eq. exists p, x. split_and!; [done| |done|done]. cbn. apply elem_of_app. right. by left.
      * destruct (Hhan k o Hk') as (q & y & -> & Hq & Hy & Hyh). exists q, y.
        split_and!; [done|cbn; apply elem_of_app; by left| |done]. rewrite Hne; [done|]. by intros ->.
    + cbn. apply NoDup_app. split_and!; [done| |apply NoDup_singleton].
      intros q Hq Hqp%list_elem_of_singleton. by subst q.
    + intros q. cbn [loggers s3 set_loggers]. intros [Hq|Hq%list_elem_of_singleton]%elem_of_app; [|subst q; by exists x, v].
      destruct (Hlog q Hq) as (y & w & Hy & Hw & Hrw). exists y, w. split_and!; [|done|done].
      rewrite Hne; [done|]. by intros ->.
    + intros q r y z Hy Hz E. destruct (decide (q = p)) as [->|Hq], (decide (r = p)) as [->|Hrp]; [done| | |].
      * rewrite Hne in Hz by done. pose proof (Hold _ _ Hz). rewrite Hx in Hy. simplify_eq. cbn in E. lia.
      * rewrite Hne in Hy by done. pose proof (Hold _ _ Hy). rewrite Hx in Hz. simplify_eq. cbn in E. lia.
      * rewrite Hne in Hy, Hz by done. by eapply Hdist.
    + destruct Hnext as (K1 & K2 & K3). split_and!; [|done|].
      * intros q Hq. destruct (decide (q = p)) as [->|Hqp]; [cbn; lia|]. rewrite Hne in Hq by done. by apply K1.
      * intros q y Hy. destruct (decide (q = p)) as [->|Hqp]; [rewrite Hx in Hy; by simplify_eq|].
        rewrite Hne in Hy by done. by eapply K3.
  - exists x, v. split_and!; [|done..]. split_and!; [|done|done|].
    + cbn. apply elem_of_app. right. by left.
    + rewrite Hl3. by rewrite lookup_insert_eq.
Qed.

(** The level of a logger changes, if its handle is live. *)
Lemma set_min_log_level_spec s h level :
  log_wf s → known (lg_table s) h →
  wp (bio_set_min_log_level h level) (λ _ s', log_wf s' ∧
    match live (lg_table s) !! h with
    | Some (BIO_LOGGER_HANDLE, Some p) => ∃ x, impls s !! p = Some x ∧
        s' = set_impls (<[p := mk_logger (li_handle x) level (li_service x)]> (impls s)) s
    | _ => s' = s
    end) s.
Proof.
  intros Hwf Hk. unfold bio_set_min_log_level, log_resolve_handle. do 2 wp_step.
  eapply wp_mono; [apply resolve_spec; [apply Hwf|done]|]. intros r t [-> ->].
  assert (Hs : set_lg_table (lg_table s) s = s) by by destruct s. rewrite Hs.
  destruct (live (lg_table s) !! h) as [[tg o]|] eqn:El; [|by wp_steps].
  case_decide as Ht; [subst tg|by destruct tg; wp_steps].
  destruct (lw_handles s Hwf h o El) as (p & x & -> & Hp & Hx & Hh).
  wp_step. unfold wp at 1. rewrite (deref_logger_run _ _ _ Hx). unfold store_logger. wp_steps.
  split; [|by exists x]. set (x' := mk_logger _ _ _). destruct Hwf as [Htab Hhan Hnodup Hlog Hdist Hnext Hserv Hbufs Hpre]. split; cbn; try done.
  - intros k o Hk'. destruct (Hhan k o Hk') as (q & y & -> & Hq & Hy & Hyh).
    destruct (decide (q = p)) as [->|Hne].
    + exists p, x'. rewrite lookup_insert_eq. simplify_eq. done.
    + exists q, y. by rewrite lookup_insert_ne.
  - intros q Hq. destruct (Hlog q Hq) as (y & w & Hy & Hw & Hr). destruct (decide (q = p)) as [->|Hne].
    + exists x', w. rewrite lookup_insert_eq. by simplify_eq.
    + exists y, w. by rewrite lookup_insert_ne.
  - assert (Hsv : ∀ q y, <[p := x']> (impls s) !! q = Some y → ∃ y', impls s !! q = Some y' ∧ li_service y' = li_service y).
    { intros q y [[<- <-]|[_ Hy]]%lookup_insert_Some; eauto. }
    intros q r y z (y' & Hy & Ey)%Hsv (z' & Hz & Ez)%Hsv E. eapply Hdist; [done..|congruence].
  - destruct Hnext as (K1 & K2 & K3). split_and!; [|done|].
    + intros q [y [[<- _]|[_ Hy]]%lookup_insert_Some]; apply K1; by eexists.
    + intros q y [[<- <-]|[_ Hy]]%lookup_insert_Some; [exact (K3 p x Hx)|by eapply K3].
Qed.

(** C24: The cleanup ends every logger, and loses nothing: it comes to its end if no logger is
    being removed and every mailbox has room; then the function of every logger is called,
    when its coroutine runs, for the messages that it had accepted, each once and in order,
    and last with null pointers, and the coroutine ends. Where the mailbox of the first
    logger is full, the cleanup never ends, since nothing runs outside the event loop. *)
Theorem cleanup_ends_loggers s :
  log_wf s → all_live s →
  (rooms s →
    wp (bio_logging_cleanup (S (length (loggers s)))) (λ _ s', loggers s' = [] ∧
      ∀ p x v, logger_at s p x v →
        ∃ n0, ∀ n, (n0 ≤ n)%nat → ∃ s'', run_service n (li_service x) s' = Ok (tt, s'') ∧
          services s'' !! li_service x = Some (ended v (trace v ++ [end_msg]))) s) ∧
  (∀ p x v, head (loggers s) = Some p → logger_at s p x v → zlen (ls_queue v) = LOG_CAPACITY →
    ∀ fuel, is_ok (bio_logging_cleanup fuel s) = false).
Proof.
  intros Hwf Hall. split.
  - intros Hroom. eapply wp_mono; [by apply cleanup_spec|]. intros _ s' (El & Hs & _). split; [done|].
    intros p x v Hat. pose proof Hat as (Hp & Hx & Hv & _).
    destruct (lw_loggers s Hwf p Hp) as (x' & v' & Hx' & Hv' & Hd & Hno & Ha). simplify_eq.
    destruct (service_ends (li_service x) s' (push end_msg v) (trace v)) as (n0 & H0);
      [by eapply Hs| |done|done|apply trace_push|done|].
    { apply push_ok; [by eapply lw_services|done|by eapply Hroom]. }
    exists n0. intros n Hn. eexists. split; [by apply H0|]. apply lookup_insert_eq.
  - intros p x v Hh (Hp & Hx & Hv & Hl) Hfull [|fuel]; [done|]. cbn [bio_logging_cleanup].
    rewrite (bind_run get _ s s s) by done. destruct (loggers s) as [|q l] eqn:El; [done|]. cbn in Hh. simplify_eq.
    rewrite (bind_run _ _ x s s) by by apply deref_logger_run.
    unfold mbind, st_bind. destruct (bio_remove_logger (S fuel) None (li_handle x) s) as [[[] s1]|e] eqn:E; [|done].
    exfalso. pose proof (lw_services s Hwf _ _ Hv) as Hok.
    destruct (lw_loggers s Hwf p) as (x' & v' & Hx' & Hv' & Hd & _); [rewrite El; by left|]. simplify_eq.
    assert (Hspin : ∀ n (s : log_state), impls s !! p = Some x → services s !! li_service x = Some v →
      bio_notify_service n None p end_msg s = Err OutOfFuel).
    { clear -Hok Hfull Hd. induction n as [|n IH]; intros s Hx Hv; [done|].
      rewrite (notify_step _ _ _ _ _ x v) by done. rewrite Hfull. cbn. by apply IH. }
    unfold bio_remove_logger, log_close_handle, zoom, mbind, st_bind in E.
    pose proof (close_spec (lg_table s) (li_handle x) BIO_LOGGER_HANDLE (lw_table s Hwf)
      (live_known _ _ (ex_intro _ _ Hl))) as Hc. unfold wp in Hc.
    destruct (bio_close_handle _ _ _) as [[r t]|e]; [|done]. destruct Hc as (_ & _ & Hc).
    rewrite Hl, decide_True in Hc by done. destruct Hc as [-> _].
    by rewrite (Hspin _ (set_lg_table t s)) in E.
Qed.
End loggers.
