(* ===== verification/FileLogger.v ===== *)
(** The logger that writes to a file ([src/logging/file.c], [include/bio/logging/file.h]),
    over the files of Linux. *)
From stdpp Require Import strings.
From S2P Require Import Prelude HandleTable Error Io Cursor LinuxFile Format Logging.

(** ** Lines *)

(** [BIO_LOG_LEVEL_LABEL], [BIO_LOG_LEVEL_COLOR]: [None] is the null pointer at the end. *)
Definition BIO_LOG_LEVEL_LABEL : list (option cstring) :=
  [Some (text "TRACE"); Some (text "DEBUG"); Some (text "INFO "); Some (text "WARN ");
   Some (text "ERROR"); Some (text "FATAL"); None].
Definition BIO_LOG_LEVEL_COLOR : list (option cstring) :=
  [Some (text "[94m"); Some (text "[36m"); Some (text "[32m"); Some (text "[33m");
   Some (text "[31m"); Some (text "[35m"); None].

Definition BIO_LOG_TERM_CODE : Z := 27.
Definition BIO_LOG_TERM_RESET : cstring := text "[0m".

(** [bio_file_logger_options_t]. *)
Record bio_file_logger_options_t := mk_file_logger_options { fo_file : bio_handle_t; fo_with_colors : bool }.

(** [bio_file_logger_data_t]. *)
Record bio_file_logger_data_t := mk_file_logger_data {
  fd_options : bio_file_logger_options_t;
  fd_format_buf : bio_fmt_buf_t;
}.

Section file_logger.
Context {OS Sock : Type}.
Local Abbreviation io := (io_ctx OS bio_file_impl_t Sock).
Context (others : io → io) (kernel : request → OS → reply * OS) (strerror : Z → string).

(** The data of the loggers, and the state of input and output. *)
Record fl_state := mk_fl_state {
  fl_data : gmap positive bio_file_logger_data_t;
  fl_next : positive;
  fl_io : io;
}.

Definition set_fl_data (m : gmap positive bio_file_logger_data_t) (s : fl_state) : fl_state :=
  mk_fl_state m (fl_next s) (fl_io s).
Definition set_fl_next (n : positive) (s : fl_state) : fl_state := mk_fl_state (fl_data s) n (fl_io s).
Definition set_fl_io (i : io) (s : fl_state) : fl_state := mk_fl_state (fl_data s) (fl_next s) i.

Definition deref_data (p : positive) : st fl_state bio_file_logger_data_t :=
  s ← get; need Dangling (fl_data s !! p).
Definition store_data (p : positive) (x : bio_file_logger_data_t) : st fl_state unit :=
  modify (λ s, set_fl_data (<[p := x]> (fl_data s)) s).

(** [array[level]] as an argument for [%s]. *)
Definition level_string (array : list (option cstring)) (level : Z) : st fl_state cstring :=
  entry ← need OutOfBounds (zlookup array level);
  need NullDeref entry.

(** The arguments of [bio_fmt] with their format, in the four cases: with colors or not,
    and with the name of the coroutine, if it has one, or its handle. *)
Definition log_line (with_colors : bool) (coro_name : option cstring) (ctx : bio_log_ctx_t) (msg : cstring) :
    st fl_state cstring :=
  label ← (if with_colors then
             color ← level_string BIO_LOG_LEVEL_COLOR (lc_level ctx);
             label ← level_string BIO_LOG_LEVEL_LABEL (lc_level ctx);
             mret ([BIO_LOG_TERM_CODE] ++ color ++ label ++ [BIO_LOG_TERM_CODE] ++ BIO_LOG_TERM_RESET)
           else level_string BIO_LOG_LEVEL_LABEL (lc_level ctx));
  let who := match coro_name with
             | Some name => name
             | None => decimal (index (lc_coro ctx)) ++ text ":" ++ decimal (gen (lc_coro ctx))
             end in
  mret (text "[" ++ label ++ text "][" ++ lc_file ctx ++ text ":" ++ decimal (lc_line ctx) ++ text "]<" ++
        who ++ text ">: " ++ msg ++ [10]).

(** [bio_log_to_file]; [bio_get_coro_name] is an argument. *)
Definition bio_log_to_file (bio_get_coro_name : bio_handle_t → option cstring) (userdata : positive)
    (ctx : option bio_log_ctx_t) (msg : cstring) : st fl_state unit :=
  data ← deref_data userdata;
  match ctx with
  | Some ctx =>
      line ← log_line (fo_with_colors (fd_options data)) (bio_get_coro_name (lc_coro ctx)) ctx msg;
      match bio_vfmt (Some line) (fd_format_buf data) with
      | Ok (msg_len, buf) =>
          _ ← store_data userdata (mk_file_logger_data (fd_options data) buf);
          cells ← need NullDeref (ptr buf);
          bytes ← need Uninit (mapM id (take (Z.to_nat (u64 msg_len)) cells));
          _ ← (if zlen bytes =? u64 msg_len then mret tt else fail OutOfBounds);
          _ ← zoom fl_io set_fl_io (bio_fwrite_exactly others kernel strerror (fo_file (fd_options data)) bytes None);
          mret tt
      | Err e => fail e
      end
  | None => modify (λ s, set_fl_data (delete userdata (fl_data s)) s)
  end.

(** [bio_add_file_logger], with [bio_add_logger] and the address of [bio_log_to_file]. *)
Definition bio_add_file_logger (bio_add_logger : Z → bio_log_service_args_t → st fl_state bio_handle_t)
    (bio_log_to_file_fn : positive) (min_level : Z) (options : bio_file_logger_options_t) :
    st fl_state bio_handle_t :=
  s ← get;
  let logger_data := fl_next s in
  _ ← modify (set_fl_next (Pos.succ logger_data));
  _ ← store_data logger_data (mk_file_logger_data options (mk_fmt_buf None 0));
  bio_add_logger min_level (mk_log_args bio_log_to_file_fn logger_data).

(** ** What a logger writes *)

(** A call of the function of a logger: the names of the coroutines at that time, the
    context and the message. *)
Record log_call := mk_log_call {
  ca_names : bio_handle_t → option cstring;
  ca_ctx : bio_log_ctx_t;
  ca_msg : cstring;
}.

(** The calls for messages, and the last one. *)
Fixpoint log_calls (userdata : positive) (calls : list log_call) : st fl_state unit :=
  match calls with
  | [] => bio_log_to_file (λ _, None) userdata None []
  | c :: calls => _ ← bio_log_to_file (ca_names c) userdata (Some (ca_ctx c)) (ca_msg c); log_calls userdata calls
  end.

(** The labels of the levels. *)
Definition level_label (level : Z) : cstring := default [] (default None (zlookup BIO_LOG_LEVEL_LABEL level)).
Definition level_color (level : Z) : cstring := default [] (default None (zlookup BIO_LOG_LEVEL_COLOR level)).

(** The line for a call. *)
Definition line_of (with_colors : bool) (c : log_call) : cstring :=
  let ctx := ca_ctx c in
  text "[" ++ (if with_colors
               then [27] ++ level_color (lc_level ctx) ++ level_label (lc_level ctx) ++ [27] ++ text "[0m"
               else level_label (lc_level ctx)) ++
  text "][" ++ lc_file ctx ++ text ":" ++ decimal (lc_line ctx) ++ text "]<" ++
  default (decimal (index (lc_coro ctx)) ++ text ":" ++ decimal (gen (lc_coro ctx))) (ca_names c (lc_coro ctx)) ++
  text ">: " ++ ca_msg c ++ text (String (Ascii.ascii_of_nat 10) EmptyString).

Lemma level_string_spec array level x s (Q : cstring → fl_state → Prop) :
  zlookup array level = Some (Some x) → Q x s → wp (level_string array level) Q s.
Proof. intros Hx HQ. unfold level_string. wp_step. eapply wp_need; [exact Hx|]. by wp_steps. Qed.

Lemma levels level : 0 ≤ level ≤ 5 →
  zlookup BIO_LOG_LEVEL_LABEL level = Some (Some (level_label level)) ∧
  zlookup BIO_LOG_LEVEL_COLOR level = Some (Some (level_color level)).
Proof.
  intros H. assert (level = 0 ∨ level = 1 ∨ level = 2 ∨ level = 3 ∨ level = 4 ∨ level = 5) as Hl by lia.
  by destruct_or! Hl; subst.
Qed.

Lemma log_line_spec with_colors c s (Q : cstring → fl_state → Prop) :
  0 ≤ lc_level (ca_ctx c) ≤ 5 → Q (line_of with_colors c) s →
  wp (log_line with_colors (ca_names c (lc_coro (ca_ctx c))) (ca_ctx c) (ca_msg c)) Q s.
Proof.
  intros Hl HQ. destruct (levels _ Hl) as [H1 H2]. unfold log_line. wp_step. destruct with_colors.
  - wp_step. eapply level_string_spec; [done|]. wp_step. eapply level_string_spec; [done|]. wp_steps.
    unfold line_of in HQ. by destruct (ca_names c _).
  - eapply level_string_spec; [done|]. wp_steps. unfold line_of in HQ. by destruct (ca_names c _).
Qed.

Lemma mapM_some_app (l : list Z) rest : mapM id (take (length l) ((Some <$> l) ++ rest)) = Some l.
Proof.
  replace (length l) with (length (Some <$> l)) by apply length_fmap. rewrite take_app_length.
  induction l as [|x l IH]; [done|]. cbn. by rewrite IH.
Qed.

Section spec.
Context (contents : OS → Z → option (list Z)) (Hregular : regular_files kernel contents).
Context (h : bio_handle_t) (p : positive) (fd : Z).
Context (Hmine : ∀ l pos s, file_at contents h p fd l pos s → file_at contents h p fd l pos (others s)).
Context (userdata : positive) (with_colors : bool).

(** The logger has its data, and the file the contents [l] with the position [pos]. *)
Definition logger_ready (l : list Z) (pos : Z) (s : fl_state) : Prop :=
  (∃ buf, fl_data s !! userdata = Some (mk_file_logger_data (mk_file_logger_options h with_colors) buf) ∧ buf_ok buf) ∧
  file_at contents h p fd l pos (fl_io s).

(** The level is one of those that have a label, and the line is no longer than [int] has. *)
Definition call_ok (c : log_call) : Prop :=
  0 ≤ lc_level (ca_ctx c) ≤ 5 ∧ zlen (line_of with_colors c) ≤ INT_MAX.

Lemma log_one_spec l pos s c :
  logger_ready l pos s → call_ok c →
  wp (bio_log_to_file (ca_names c) userdata (Some (ca_ctx c)) (ca_msg c)) (λ _ s', ∃ done,
    done `prefix_of` line_of with_colors c ∧ (writes_succeed kernel → done = line_of with_colors c) ∧
    logger_ready (splice pos done l) (pos + zlen done) s') s.
Proof.
  intros [(buf & Hd & Hb) Hf] [Hl Hmax]. unfold bio_log_to_file, deref_data. wp_steps.
  apply log_line_spec; [done|]. cbn [fd_options fd_format_buf fo_with_colors fo_file].
  revert Hmax. generalize (line_of with_colors c). intros line Hmax.
  pose proof (vfmt_spec (Some line) buf Hb) as Hv. unfold wp in Hv.
  destruct (bio_vfmt _ buf) as [[n buf']|e] eqn:E; [|by destruct e].
  unfold fits in Hv. rewrite (proj2 (Z.leb_le _ _) Hmax) in Hv.
  destruct Hv as (Hb' & -> & cells & rest & Hp & Hc). pose proof (zlen_nonneg line).
  unfold store_data. do 2 wp_step. rewrite Hp. do 2 wp_step. wp_step.
  assert (Hu : u64 (zlen line) = zlen line) by (apply u64_small; unfold INT_MAX in Hmax; lia).
  rewrite Hu. replace (take (Z.to_nat (zlen line)) cells) with (take (length line) ((Some <$> line) ++ Some 0 :: rest)).
  2: { unfold zlen. rewrite Nat2Z.id, Hc, fmap_app, <- app_assoc. done. }
  eapply wp_need; [apply mapM_some_app|]. rewrite Z.eqb_refl. do 4 wp_step.
  assert (Hlen : zlen line < 2 ^ 64) by (unfold INT_MAX in Hmax; lia).
  eapply wp_mono; [eapply fwrite_exactly_spec; done|].
  intros [n e] s' (d & k & Hline & Hn & [_ Hf'] & Hor). wp_steps. exists d.
  split; [by exists k|]. split.
  - intros Hok. destruct Hor as [->|[_ Hno]]; [by rewrite app_nil_r in Hline|by destruct (Hno Hok)].
  - split; [|done]. exists buf'. cbn. by rewrite lookup_insert_eq.
Qed.

Lemma log_calls_spec calls l pos s :
  logger_ready l pos s → Forall call_ok calls →
  wp (log_calls userdata calls) (λ _ s', ∃ ds,
    Forall2 (λ d c, d `prefix_of` line_of with_colors c ∧ (writes_succeed kernel → d = line_of with_colors c)) ds calls ∧
    fl_data s' !! userdata = None ∧ file_at contents h p fd (splice pos (concat ds) l) (pos + zlen (concat ds)) (fl_io s')) s.
Proof.
  revert l pos s. induction calls as [|c calls IH]; intros l pos s Hr Hok; cbn [log_calls].
  - destruct Hr as [(buf & Hd & Hb) Hf]. unfold bio_log_to_file, deref_data. wp_steps. exists [].
    split; [constructor|]. cbn. rewrite lookup_delete_eq. split; [done|]. unfold zlen. cbn.
    rewrite Z.add_0_r. unfold splice. by rewrite decide_True.
  - apply Forall_cons in Hok as [Hc Hok]. wp_step. eapply wp_mono; [by apply log_one_spec|].
    intros _ s1 (d & Hpre & Hall & Hr1). eapply wp_mono; [by apply IH|].
    intros _ s' (ds & Hds & Hd & Hf). exists (d :: ds). split; [by constructor|]. split; [done|].
    pose proof (fa_pos _ _ _ _ _ _ _ (proj2 Hr)). cbn [concat].
    rewrite splice_app in Hf by lia. by rewrite zlen_app, Z.add_assoc.
Qed.

(** C39: A logger writes the lines of its messages to its file, in the order of its calls and
    where the file was: complete lines, if the operating system never refuses to write, and
    beginnings of lines otherwise, since nobody looks at errors. A line has the level, the
    place, the name or the handle of the coroutine, and the message. The last call frees
    what the logger has. *)
Theorem file_logger_writes_lines calls l pos s :
  logger_ready l pos s → Forall call_ok calls →
  wp (log_calls userdata calls) (λ _ s', fl_data s' !! userdata = None ∧ ∃ ds,
    file_at contents h p fd (splice pos (concat ds) l) (pos + zlen (concat ds)) (fl_io s') ∧
    Forall2 (λ d c, d `prefix_of` line_of with_colors c) ds calls ∧
    (writes_succeed kernel → ds = line_of with_colors <$> calls)) s.
Proof.
  intros Hr Hok. eapply wp_mono; [by apply log_calls_spec|]. intros _ s' (ds & Hds & Hd & Hf).
  split; [done|]. exists ds. split; [done|]. split.
  - eapply Forall2_impl; [done|]. by intros d c [? _].
  - intros Hw. clear -Hds Hw. induction Hds as [|d c ds calls [_ Hall] Hds IH]; [done|].
    cbn. f_equal; [by apply Hall|done].
Qed.
End spec.
End file_logger.
