(* ===== verification/TimerHeap.v ===== *)
(** The timer queue ([src/timer.c]): a binary min-heap, ordered by due time, in
    a growing array. The payload of an entry is a signal handle, left abstract
    here. *)
From S2P Require Import Prelude.

Ltac Zify.zify_post_hook ::= Z.div_mod_to_equations.

Section timer_heap.
Context {Sig : Type}.

(** [bio_timer_entry_t] ([src/internal.h]). *)
Record bio_timer_entry_t := mk_entry { due_time_ms : Z; signal : Sig }.

(** The timer fields of [bio_ctx_t]: an array cell is [None] until it is
    first written. *)
Record theap := mk_theap {
  timer_entries : list (option bio_timer_entry_t);
  timer_capacity : Z;
  num_timers : Z;
}.

(** *** The code *)

Definition BIO_INITIAL_TIMER_CAPACITY : Z := 4.

Definition theap_init : theap :=
  mk_theap (replicate 4 None) BIO_INITIAL_TIMER_CAPACITY 0.

Definition get_entry (i : Z) : st theap bio_timer_entry_t :=
  h ← get;
  cell ← need OutOfBounds (zlookup (timer_entries h) i);
  need Uninit cell.

Definition set_entry (i : Z) (e : bio_timer_entry_t) : st theap unit :=
  h ← get;
  _ ← need OutOfBounds (zlookup (timer_entries h) i);
  modify (λ h, mk_theap (zinsert i (Some e) (timer_entries h)) (timer_capacity h) (num_timers h)).

Definition set_num_timers (n : Z) : st theap unit :=
  modify (λ h, mk_theap (timer_entries h) (timer_capacity h) n).

(** C division truncates. *)
Definition bio_heap_parent (i : Z) : Z := Z.quot (i - 1) 2.

Definition bio_heap_swap (index1 index2 : Z) : st theap unit :=
  temp ← get_entry index1;
  e2 ← get_entry index2;
  _ ← set_entry index1 e2;
  set_entry index2 temp.

(** The sift-up loop of [bio_raise_signal_after]. *)
Fixpoint heap_sift_up (fuel : nat) (current : Z) : st theap unit :=
  match fuel with
  | O => fail OutOfFuel
  | S fuel =>
      if current >? 0 then
        p ← get_entry (bio_heap_parent current);
        e ← get_entry current;
        if due_time_ms p >? due_time_ms e then
          let parent := bio_heap_parent current in
          _ ← bio_heap_swap parent current;
          heap_sift_up fuel parent
        else mret tt
      else mret tt
  end.

(** Growing the array: [bio_realloc] keeps the old cells. *)
Definition heap_ensure_capacity : st theap unit :=
  h ← get;
  if num_timers h =? timer_capacity h then
    new_capacity ← int_of (timer_capacity h * 2);
    modify (λ h, mk_theap
      (timer_entries h ++ replicate (Z.to_nat (new_capacity - timer_capacity h)) None)
      new_capacity (num_timers h))
  else mret tt.

(** The heap insertion of [bio_raise_signal_after]. *)
Definition heap_insert (due : Z) (sig : Sig) : st theap unit :=
  _ ← heap_ensure_capacity;
  h ← get;
  let current := num_timers h in
  _ ← set_entry current (mk_entry due sig);
  n ← int_of (num_timers h + 1);
  _ ← set_num_timers n;
  heap_sift_up (S (Z.to_nat current)) current.

(** [entries[i].due_time_ms < entries[smallest].due_time_ms], evaluated only
    when [i < num_entries]. *)
Definition smaller_child (num_entries i smallest : Z) : st theap Z :=
  if i <? num_entries then
    a ← get_entry i;
    b ← get_entry smallest;
    if due_time_ms a <? due_time_ms b then mret i else mret smallest
  else mret smallest.

(** The sift-down loop of [bio_timer_update]. *)
Fixpoint heap_sift_down (fuel : nat) (num_entries index : Z) : st theap unit :=
  match fuel with
  | O => fail OutOfFuel
  | S fuel =>
      let left := 2 * index + 1 in
      let right := 2 * index + 2 in
      smallest ← smaller_child num_entries left index;
      smallest ← smaller_child num_entries right smallest;
      if smallest =? index then mret tt
      else
        _ ← bio_heap_swap index smallest;
        heap_sift_down fuel num_entries smallest
  end.

(** "Delete the timer" of [bio_timer_update]. *)
Definition heap_delete_root : st theap unit :=
  h ← get;
  let num_entries := num_timers h - 1 in
  _ ← set_num_timers num_entries;
  last ← get_entry num_entries;
  _ ← set_entry 0 last;
  heap_sift_down (S (Z.to_nat num_entries)) num_entries 0.

(** *** The abstraction: the used part of the array *)

Definition repr (h : theap) (v : list bio_timer_entry_t) : Prop :=
  num_timers h = zlen v ∧ timer_capacity h = zlen (timer_entries h) ∧ 0 < timer_capacity h ∧
  ∃ tail, timer_entries h = (Some <$> v) ++ tail.

Definition due (v : list bio_timer_entry_t) (i : Z) : Z :=
  from_option due_time_ms 0 (zlookup v i).

(** The heap order, everywhere but at the entries that [skip] selects. *)
Definition heap_order_except (skip : Z → Prop) (v : list bio_timer_entry_t) : Prop :=
  ∀ i, 0 < i < zlen v → ¬ skip i → due v ((i - 1) / 2) ≤ due v i.

Definition heap_order : list bio_timer_entry_t → Prop := heap_order_except (λ _, False).

(** The pending entries, in array order. *)
Definition theap_contents (h : theap) : list bio_timer_entry_t :=
  omap id (take (Z.to_nat (num_timers h)) (timer_entries h)).

(** The invariant of the queue. *)
Definition theap_wf (h : theap) : Prop := ∃ v, repr h v ∧ heap_order v.
Implicit Types (v : list bio_timer_entry_t) (h : theap).

(** *** Array accesses on the used part *)

Lemma repr_lookup h v i e :
  repr h v → zlookup v i = Some e → zlookup (timer_entries h) i = Some (Some e).
Proof.
  intros (_ & _ & _ & tail & ->) He. pose proof (zlookup_range _ _ _ He).
  rewrite zlookup_app, zlen_fmap, decide_True by lia. by rewrite zlookup_fmap, He.
Qed.

Lemma get_entry_spec h v i e :
  repr h v → zlookup v i = Some e → wp (get_entry i) (λ r h', r = e ∧ h' = h) h.
Proof.
  intros Hr He. unfold get_entry. pose proof (repr_lookup _ _ _ _ Hr He). by wp_steps.
Qed.

Lemma set_entry_spec h v i e :
  repr h v → 0 ≤ i < zlen v →
  wp (set_entry i e) (λ _ h', repr h' (zinsert i e v)) h.
Proof.
  intros Hr Hi. destruct (zlookup_in_range v i Hi) as [e' He'].
  pose proof (repr_lookup _ _ _ _ Hr He'). unfold set_entry. wp_steps.
  destruct Hr as (Hn & Hc & Hp & tail & Ht). split_and!; cbn.
  - by rewrite zlen_zinsert.
  - by rewrite zlen_zinsert.
  - done.
  - exists tail. rewrite Ht, zinsert_app_l by (rewrite zlen_fmap; lia).
    by rewrite zinsert_fmap.
Qed.

Lemma bio_heap_swap_spec h v i j x y :
  repr h v → zlookup v i = Some x → zlookup v j = Some y →
  wp (bio_heap_swap i j) (λ _ h', repr h' (zinsert j x (zinsert i y v))) h.
Proof.
  intros Hr Hi Hj. unfold bio_heap_swap.
  wp_use get_entry_spec; [done..|]. intros ? ? [-> ->].
  wp_use get_entry_spec; [done..|]. intros ? ? [-> ->].
  wp_use set_entry_spec; [done|by eapply zlookup_range|].
  intros _ h' Hr'. apply set_entry_spec; [done|].
  rewrite zlen_zinsert. by eapply zlookup_range.
Qed.

Lemma due_lookup v i e : zlookup v i = Some e → due v i = due_time_ms e.
Proof. unfold due. by intros ->. Qed.

Lemma due_zinsert v i j e :
  0 ≤ i < zlen v → due (zinsert i e v) j = if decide (i = j) then due_time_ms e else due v j.
Proof.
  intros Hi. unfold due. rewrite zlookup_zinsert. repeat case_decide; try done; tauto.
Qed.

Lemma due_swap v i j k x y :
  zlookup v i = Some x → zlookup v j = Some y →
  due (zinsert j x (zinsert i y v)) k =
    if decide (j = k) then due v i else if decide (i = k) then due v j else due v k.
Proof.
  intros Hi Hj. pose proof (zlookup_range _ _ _ Hi). pose proof (zlookup_range _ _ _ Hj).
  rewrite due_zinsert by (rewrite zlen_zinsert; lia). rewrite due_zinsert by lia.
  by rewrite (due_lookup _ _ _ Hi), (due_lookup _ _ _ Hj).
Qed.

Lemma bio_heap_parent_div i : 0 < i → bio_heap_parent i = (i - 1) / 2.
Proof. intros Hi. unfold bio_heap_parent. apply Z.quot_div_nonneg; lia. Qed.

(** *** Sifting up *)

(** Entries below [c] are not earlier than the parent of [c]. *)
Definition children_above_parent v (c : Z) : Prop :=
  ∀ i, 0 < i < zlen v → (i - 1) / 2 = c → 0 < c → due v ((c - 1) / 2) ≤ due v i.

Lemma sift_up_step v c x y :
  0 < c → zlookup v ((c - 1) / 2) = Some x → zlookup v c = Some y →
  due_time_ms x > due_time_ms y →
  heap_order_except (λ i, i = c) v → children_above_parent v c →
  let v' := zinsert c x (zinsert ((c - 1) / 2) y v) in
  heap_order_except (λ i, i = (c - 1) / 2) v' ∧ children_above_parent v' ((c - 1) / 2).
Proof.
  intros Hc Hx Hy Hlt Ho Hg v'. subst v'. remember ((c - 1) / 2) as p eqn:Ep.
  assert (Hp : 0 ≤ p < c) by lia.
  pose proof (zlookup_range _ _ _ Hy) as Hcl.
  rewrite <- (due_lookup _ _ _ Hx), <- (due_lookup _ _ _ Hy) in Hlt.
  unfold heap_order_except, children_above_parent in *.
  setoid_rewrite (due_swap _ _ _ _ _ _ Hx Hy). setoid_rewrite zlen_zinsert.
  setoid_rewrite zlen_zinsert.
  split; intros i Hi.
  - intros Hip. specialize (Ho i Hi). specialize (Hg i Hi).
    rewrite <- Ep in Hg. remember ((i - 1) / 2) as q eqn:Eq.
    assert (0 ≤ q < i) by lia. assert (i = c → q = p) by (intros ->; lia). clear Eq Ep.
    repeat case_decide; try subst q; try subst i; lia.
  - intros Hip Hp0. pose proof (Ho i Hi) as Hoi. specialize (Ho p).
    rewrite Hip in Hoi. remember ((p - 1) / 2) as q eqn:Eq.
    assert (0 ≤ q < p) by lia. assert (p < i) by lia. clear Eq Ep Hip.
    repeat case_decide; try subst i; lia.
Qed.

Lemma heap_sift_up_spec fuel h v c :
  repr h v → 0 ≤ c < zlen v → c < Z.of_nat fuel →
  heap_order_except (λ i, i = c) v → children_above_parent v c →
  wp (heap_sift_up fuel c) (λ _ h', ∃ v', repr h' v' ∧ heap_order v' ∧ v' ≡ₚ v) h.
Proof.
  revert h v c. induction fuel as [|fuel IH]; intros h v c Hr Hc Hf Ho Hg; [lia|].
  cbn [heap_sift_up]. destruct (c >? 0) eqn:Hc0.
  - rewrite bio_heap_parent_div by lia.
    destruct (zlookup_in_range v ((c - 1) / 2)) as [x Hx]; [lia|].
    destruct (zlookup_in_range v c Hc) as [y Hy].
    wp_use get_entry_spec; [done..|]. intros ? ? [-> ->].
    wp_use get_entry_spec; [done..|]. intros ? ? [-> ->].
    destruct (due_time_ms x >? due_time_ms y) eqn:Hlt.
    + wp_use bio_heap_swap_spec; [done..|]. intros _ h' Hr'.
      destruct (sift_up_step v c x y) as [Ho' Hg']; try done; try lia.
      wp_use IH; [done|rewrite !zlen_zinsert; lia|lia|done|done|].
      intros _ h'' (v'' & Hr'' & Hh & Hp). exists v''. split_and!; try done.
      by rewrite Hp, zswap_Permutation.
    + wp_steps. exists v. split_and!; try done. intros i Hi _.
      destruct (decide (i = c)) as [->|Hne]; [|by apply Ho].
      rewrite (due_lookup _ _ _ Hx), (due_lookup _ _ _ Hy). lia.
  - wp_steps. exists v. split_and!; try done. intros i Hi _. apply Ho; lia.
Qed.

(** *** Insertion *)

Lemma heap_ensure_capacity_spec h v :
  repr h v →
  wp heap_ensure_capacity (λ _ h', repr h' v ∧ zlen v < timer_capacity h') h.
Proof.
  intros (Hn & Hc & Hp & tail & Ht). unfold heap_ensure_capacity. wp_steps.
  destruct (num_timers h =? timer_capacity h) eqn:E; wp_steps.
  - set (rest := replicate _ _). assert (Hrest : zlen rest = timer_capacity h).
    { unfold rest, zlen. rewrite length_replicate. lia. }
    split; cbn; [|lia]. split_and!; cbn; [done|rewrite zlen_app; lia|lia|].
    exists (tail ++ rest). by rewrite Ht, app_assoc.
  - split; [|rewrite Ht, zlen_app, zlen_fmap in Hc; pose proof (zlen_nonneg tail); lia].
    split_and!; eauto.
Qed.

(** Writing the first unused cell and counting it. *)
Lemma append_entry_spec h v e :
  repr h v → zlen v < timer_capacity h →
  wp (_ ← set_entry (num_timers h) e; n ← int_of (num_timers h + 1); set_num_timers n)
     (λ _ h', repr h' (v ++ [e])) h.
Proof.
  intros (Hn & Hc & Hp & tail & Ht) Hlt.
  destruct tail as [|cell tail].
  { rewrite Ht, app_nil_r, zlen_fmap in Hc. lia. }
  assert (Hcell : zlookup (timer_entries h) (num_timers h) = Some cell).
  { rewrite Ht, zlookup_app, zlen_fmap, decide_False by lia. rewrite Hn, Z.sub_diag. done. }
  unfold set_entry, set_num_timers. wp_steps. split_and!; cbn.
  - rewrite zlen_snoc. lia.
  - by rewrite zlen_zinsert.
  - done.
  - exists tail. rewrite Ht, fmap_app, <- app_assoc. cbn. unfold zinsert.
    rewrite decide_True by (rewrite Hn; apply zlen_nonneg).
    rewrite insert_app_r_alt; [|rewrite length_fmap; unfold zlen in Hn; lia].
    f_equal. replace (_ - _)%nat with 0%nat; [done|].
    rewrite length_fmap. unfold zlen in Hn. lia.
Qed.

Lemma due_snoc_l v e i : i < zlen v → due (v ++ [e]) i = due v i.
Proof. intros Hi. unfold due. by rewrite zlookup_app, decide_True. Qed.

Lemma heap_insert_spec h v d s :
  repr h v → heap_order v →
  wp (heap_insert d s) (λ _ h', ∃ v', repr h' v' ∧ heap_order v' ∧ v' ≡ₚ mk_entry d s :: v) h.
Proof.
  intros Hr Ho. unfold heap_insert.
  wp_use heap_ensure_capacity_spec; [done|]. intros [] h1 [Hr1 Hlt]. wp_steps.
  pose proof (append_entry_spec _ _ (mk_entry d s) Hr1 Hlt) as Happ.
  apply wp_bind_inv in Happ. wp_use Happ. intros [] h2 Hh2.
  apply wp_bind_inv in Hh2. wp_use Hh2. intros n h3 Hh3.
  wp_use Hh3. intros [] h4 Hh4.
  pose proof Hr1 as [Hn1 _]. rewrite Hn1.
  pose proof (zlen_nonneg v). pose proof (zlen_snoc v (mk_entry d s)) as Hl.
  wp_use heap_sift_up_spec; [done|lia|lia| |intros i; lia|].
  - intros i Hi Hne. rewrite !due_snoc_l by lia. apply Ho; [lia|tauto].
  - intros _ h' (v' & Hr' & Ho' & Hp). exists v'. split_and!; try done.
    rewrite Hp. apply Permutation_app_comm.
Qed.

(** *** Sifting down *)

Lemma smaller_child_spec h v i s :
  repr h v → 0 ≤ i → 0 ≤ s → (i < zlen v → s < zlen v) →
  wp (smaller_child (zlen v) i s) (λ r h', h' = h ∧
    r = if (i <? zlen v) && (due v i <? due v s) then i else s) h.
Proof.
  intros Hr Hi Hs His. unfold smaller_child. destruct (i <? zlen v) eqn:E; [|by wp_steps].
  destruct (zlookup_in_range v i) as [a Ha]; [lia|].
  destruct (zlookup_in_range v s) as [b Hb]; [lia|].
  wp_use get_entry_spec; [done..|]. intros ? ? [-> ->].
  wp_use get_entry_spec; [done..|]. intros ? ? [-> ->].
  rewrite (due_lookup _ _ _ Ha), (due_lookup _ _ _ Hb). cbn [andb].
  by destruct (due_time_ms a <? due_time_ms b).
Qed.

(** Sift-down has its hole below [c]: the children of [c] may be too early. *)
Definition is_child_of (c i : Z) : Prop := (i - 1) / 2 = c.

Lemma sift_down_step v c m x y :
  0 ≤ c → m = 2 * c + 1 ∨ m = 2 * c + 2 → zlookup v c = Some x → zlookup v m = Some y →
  (∀ i, is_child_of c i → i < zlen v → due v m ≤ due v i) →
  due v m ≤ due v c →
  heap_order_except (is_child_of c) v → children_above_parent v c →
  let v' := zinsert m x (zinsert c y v) in
  heap_order_except (is_child_of m) v' ∧ children_above_parent v' m.
Proof.
  intros Hc Hm Hx Hy Hmin Hle Ho Hg v'. subst v'.
  pose proof (zlookup_range _ _ _ Hy) as Hml. unfold is_child_of in *.
  unfold heap_order_except, children_above_parent in *.
  setoid_rewrite (due_swap _ _ _ _ _ _ Hx Hy). setoid_rewrite zlen_zinsert.
  setoid_rewrite zlen_zinsert.
  assert (Hmc : (m - 1) / 2 = c) by lia.
  split; intros i Hi.
  - intros Hne. specialize (Ho i Hi). specialize (Hmin i). specialize (Hg m).
    rewrite Hmc in Hg. remember ((i - 1) / 2) as q eqn:Eq.
    remember ((c - 1) / 2) as r eqn:Er.
    assert (0 ≤ q < i) by lia. assert (i = m → q = c) by (intros ->; lia).
    assert (i = c → q = r) by (intros ->; lia). clear Eq Er.
    destruct (decide (i = c)) as [->|]; [replace q with r in * by lia|];
      repeat case_decide; try subst q; try subst i; lia.
  - intros Him Hm0. specialize (Ho i Hi). rewrite Him in Ho. rewrite Hmc.
    assert (m < i) by lia. clear Him.
    repeat case_decide; try subst i; lia.
Qed.

Lemma sift_down_done v c :
  0 ≤ c →
  (∀ i, is_child_of c i → i < zlen v → due v c ≤ due v i) →
  heap_order_except (is_child_of c) v → heap_order v.
Proof.
  intros Hc Hmin Ho i Hi _. destruct (decide ((i - 1) / 2 = c)) as [Hic|Hic].
  - rewrite Hic. apply Hmin; [done|lia].
  - by apply Ho.
Qed.

Lemma heap_sift_down_spec fuel h v c :
  repr h v → 0 ≤ c → (c < zlen v ∨ v = [] ∧ c = 0) → zlen v < c + Z.of_nat fuel →
  heap_order_except (is_child_of c) v → children_above_parent v c →
  wp (heap_sift_down fuel (zlen v) c) (λ _ h', ∃ v', repr h' v' ∧ heap_order v' ∧ v' ≡ₚ v) h.
Proof.
  revert h v c. induction fuel as [|fuel IH]; intros h v c Hr Hc Hcl Hf Ho Hg.
  { destruct Hcl as [?|[-> ->]]; [lia|]. unfold zlen in Hf. cbn in Hf. lia. }
  pose proof (zlen_nonneg v) as Hlen.
  assert (Hnil : v = [] → zlen v = 0) by by intros ->.
  cbn [heap_sift_down].
  wp_use smaller_child_spec; [done|lia..|]. intros m1 ? [-> Hm1].
  assert (Hm1' : (m1 = c ∨ m1 = 2 * c + 1 ∧ 2 * c + 1 < zlen v) ∧ due v m1 ≤ due v c ∧
    (2 * c + 1 < zlen v → due v m1 ≤ due v (2 * c + 1))).
  { destruct ((2 * c + 1 <? zlen v) && _) eqn:E; subst m1; lia. }
  wp_use smaller_child_spec; [done|lia..|]. intros m ? [-> Hm].
  assert (Hm' : (m = m1 ∨ m = 2 * c + 2 ∧ 2 * c + 2 < zlen v) ∧ due v m ≤ due v m1 ∧
    (2 * c + 2 < zlen v → due v m ≤ due v (2 * c + 2))).
  { destruct ((2 * c + 2 <? zlen v) && _) eqn:E; subst m; lia. }
  clear Hm1 Hm.
  assert (Hmin : ∀ i, is_child_of c i → i < zlen v → due v m ≤ due v i).
  { intros i Hi Hil. unfold is_child_of in Hi.
    assert (i = 2 * c + 1 ∨ i = 2 * c + 2) as [-> | ->] by lia; lia. }
  destruct (m =? c) eqn:Emc.
  - wp_steps. exists v. split_and!; [done| |done]. apply (sift_down_done v c); [done| |done].
    assert (m = c) as -> by lia. done.
  - destruct Hcl as [Hcl|[Hcl _]]; [|exfalso; lia].
    destruct (zlookup_in_range v c) as [x Hx]; [lia|].
    destruct (zlookup_in_range v m) as [y Hy]; [lia|].
    wp_use bio_heap_swap_spec; [done..|]. intros [] h' Hr'.
    destruct (sift_down_step v c m x y) as [Ho' Hg']; try done; try lia.
    set (v' := zinsert m x (zinsert c y v)) in *.
    assert (Hl' : zlen v' = zlen v) by by unfold v'; rewrite !zlen_zinsert.
    rewrite <- Hl'.
    wp_use IH; [done|lia|left; lia|lia|done|done|].
    intros _ h'' (v'' & Hr'' & Hh & Hp). exists v''. split_and!; try done.
    rewrite Hp. by apply zswap_Permutation.
Qed.

(** *** Deleting the root *)

Lemma heap_min v i : heap_order v → 0 ≤ i < zlen v → due v 0 ≤ due v i.
Proof.
  intros Ho [Hi0 Hi].
  cut (0 ≤ i → i < zlen v → due v 0 ≤ due v i); [auto|]. clear Hi. revert i Hi0.
  apply (Z_lt_induction (λ i, 0 ≤ i → i < zlen v → due v 0 ≤ due v i)).
  intros i IH Hi0 Hi. destruct (decide (i = 0)) as [->|]; [lia|].
  etrans; [apply (IH ((i - 1) / 2)); lia|]. apply Ho; [lia|tauto].
Qed.

(** Forgetting the last entry, whose cell is still readable. *)
Lemma drop_last_spec h v e :
  repr h (v ++ [e]) →
  wp (_ ← set_num_timers (num_timers h - 1); get_entry (num_timers h - 1))
     (λ r h', r = e ∧ repr h' v) h.
Proof.
  intros Hr. pose proof Hr as (Hn & Hc & Hp & tail & Ht). rewrite zlen_snoc in Hn.
  assert (Hl : zlookup (timer_entries h) (num_timers h - 1) = Some (Some e)).
  { eapply repr_lookup; [done|]. apply zlookup_snoc_eq. lia. }
  unfold set_num_timers, get_entry. wp_steps. split; [done|]. split_and!; cbn; [lia|done|done|].
  exists (Some e :: tail). by rewrite Ht, fmap_app, <- app_assoc.
Qed.

(** Overwriting the root keeps everything but the order below the root. *)
Lemma set_root_spec h v e :
  repr h v → wp (set_entry 0 e) (λ _ h', repr h' (zinsert 0 e v)) h.
Proof.
  intros Hr. destruct v as [|e0 v]; [|apply set_entry_spec; [done|rewrite zlen_cons; pose proof (zlen_nonneg v); lia]].
  destruct Hr as (Hn & Hc & Hp & tail & Ht).
  destruct (zlookup_in_range (timer_entries h) 0) as [cell Hcell]; [lia|].
  unfold set_entry. wp_steps. split_and!; cbn; [done|by rewrite zlen_zinsert|done|].
  eexists. reflexivity.
Qed.

Lemma heap_delete_root_spec h e0 v :
  repr h (e0 :: v) → heap_order (e0 :: v) →
  wp heap_delete_root (λ _ h', ∃ v', repr h' v' ∧ heap_order v' ∧ v' ≡ₚ v) h.
Proof.
  intros Hr Ho.
  assert (Hne : e0 :: v ≠ []) by done.
  destruct (exists_last Hne) as (w & last & Ew). rewrite Ew in Hr, Ho.
  unfold heap_delete_root. wp_steps.
  pose proof Hr as (Hn & _). rewrite zlen_snoc in Hn.
  pose proof (drop_last_spec _ _ _ Hr) as Hd.
  apply wp_bind_inv in Hd. wp_use Hd. intros [] h1 Hh1.
  wp_use Hh1. intros ? h2 [-> Hr2].
  wp_use set_root_spec; [done|]. intros [] h3 Hr3.
  assert (Hl : num_timers h - 1 = zlen (zinsert 0 last w)) by (rewrite zlen_zinsert; lia).
  rewrite Hl. pose proof (zlen_nonneg w). rewrite zlen_zinsert in Hl.
  wp_use heap_sift_down_spec; [done|lia| |rewrite zlen_zinsert; lia| |intros i; lia|].
  - destruct w; [by right|left]; rewrite zlen_zinsert, zlen_cons. pose proof (zlen_nonneg w). lia.
  - intros i Hi Hic. unfold is_child_of in Hic. rewrite zlen_zinsert in Hi.
    rewrite !due_zinsert by lia. rewrite !decide_False by lia.
    specialize (Ho i). rewrite zlen_snoc, !due_snoc_l in Ho by lia. apply Ho; [lia|tauto].
  - intros _ h' (v' & Hr' & Ho' & Hp). exists v'. split_and!; try done.
    rewrite Hp. destruct w as [|e w]; injection Ew as <- Ew; subst; [done|].
    change (zinsert 0 last (e0 :: w)) with (last :: w).
    apply Permutation_cons_append.
Qed.

(** *** The pending entries *)

Lemma contents_repr h v : repr h v → theap_contents h = v.
Proof.
  intros (Hn & _ & _ & tail & Ht). unfold theap_contents. rewrite Hn, Ht. unfold zlen.
  rewrite Nat2Z.id. replace (length v) with (length (Some <$> v)) by apply length_fmap.
  rewrite take_app_length. apply omap_id_Some.
Qed.

Lemma theap_init_repr : repr theap_init [].
Proof. split_and!; [done..|]. by eexists. Qed.

(** *** The queue as a whole *)

Lemma theap_insert_spec h d s :
  theap_wf h →
  wp (heap_insert d s) (λ _ h', theap_wf h' ∧
    theap_contents h' ≡ₚ mk_entry d s :: theap_contents h) h.
Proof.
  intros (v & Hr & Ho). wp_use heap_insert_spec; [done..|].
  intros _ h' (v' & Hr' & Ho' & Hp). split; [by exists v'|].
  by rewrite (contents_repr _ _ Hr), (contents_repr _ _ Hr').
Qed.

(** The root is the earliest entry. *)
Lemma theap_root h :
  theap_wf h → 0 < num_timers h →
  ∃ e v, theap_contents h = e :: v ∧ Forall (λ e', due_time_ms e ≤ due_time_ms e') v ∧
    wp (get_entry 0) (λ r h', r = e ∧ h' = h) h ∧
    wp heap_delete_root (λ _ h', theap_wf h' ∧ theap_contents h' ≡ₚ v) h.
Proof.
  intros (v & Hr & Ho) Hn. rewrite (contents_repr _ _ Hr).
  destruct v as [|e v]; [destruct Hr as [E _]; unfold zlen in E; cbn in E; lia|]. exists e, v. split_and!; [done| | |].
  - apply Forall_forall. intros e' (i & Hi)%list_elem_of_lookup.
    assert (Hi' : zlookup (e :: v) (Z.of_nat i + 1) = Some e').
    { unfold zlookup. rewrite decide_True by lia. replace (Z.to_nat _) with (S i) by lia. done. }
    pose proof (heap_min _ (Z.of_nat i + 1) Ho (zlookup_range _ _ _ Hi')) as Hmin.
    rewrite (due_lookup _ _ _ Hi') in Hmin. done.
  - by eapply get_entry_spec.
  - wp_use heap_delete_root_spec; [done..|]. intros _ h' (v' & Hr' & Ho' & Hp).
    split; [by exists v'|]. by rewrite (contents_repr _ _ Hr').
Qed.

Lemma theap_num_timers h : theap_wf h → num_timers h = zlen (theap_contents h).
Proof. intros (v & Hr & _). rewrite (contents_repr _ _ Hr). by destruct Hr. Qed.
End timer_heap.
Arguments bio_timer_entry_t : clear implicits.
Arguments theap : clear implicits.
