(* ===== verification/Registry.v ===== *)
(** What the handle table promises to its clients: an abstract registry of
    objects, and the proof that [src/handle.c] implements it. *)
From S2P Require Import Prelude HandleTable.

Section registry.
Context {Tag Obj : Type} `{EqDecision Tag}.

Abbreviation table := (table Tag Obj).

(** ** Operations and their results *)

Inductive operation :=
  | OpMake (o : option Obj) (tg : Tag)
  | OpResolve (h : bio_handle_t) (tg : Tag)
  | OpInfo (h : bio_handle_t)
  | OpClose (h : bio_handle_t) (tg : Tag).

Inductive result :=
  | RHandle (h : bio_handle_t)
  | RObj (o : option Obj)
  | RTag (tg : option Tag).

Definition exec (op : operation) : st table result :=
  match op with
  | OpMake o tg => RHandle <$> bio_make_handle o tg
  | OpResolve h tg => RObj <$> bio_resolve_handle h tg
  | OpInfo h => RTag <$> bio_handle_info h
  | OpClose h tg => RObj <$> bio_close_handle h tg
  end.

(** The handle that an operation is called with. *)
Definition argument (op : operation) : option bio_handle_t :=
  match op with
  | OpMake _ _ => None
  | OpResolve h _ | OpInfo h | OpClose h _ => Some h
  end.

(** ** The specification *)

(** The objects that are registered, and the handles that were ever issued. *)
Record registry := mk_registry {
  objects : gmap bio_handle_t (Tag * option Obj);
  issued : gset bio_handle_t;
}.

Definition empty_registry : registry := mk_registry ∅ {[BIO_INVALID_HANDLE]}.

(** The object behind a handle, under a tag. *)
Definition object_of (r : registry) (h : bio_handle_t) (tg : Tag) : option Obj :=
  match objects r !! h with
  | Some (tg', o) => if decide (tg' = tg) then o else None
  | None => None
  end.

Inductive registry_step (r : registry) : operation → result → registry → Prop :=
  | step_make o tg h :
      h ∉ issued r →
      registry_step r (OpMake o tg) (RHandle h)
        (mk_registry (<[h := (tg, o)]> (objects r)) ({[h]} ∪ issued r))
  | step_resolve h tg :
      registry_step r (OpResolve h tg) (RObj (object_of r h tg)) r
  | step_info h :
      registry_step r (OpInfo h) (RTag (fst <$> objects r !! h)) r
  | step_close h tg o :
      objects r !! h = Some (tg, o) →
      registry_step r (OpClose h tg) (RObj o) (mk_registry (delete h (objects r)) (issued r))
  | step_close_other h tg :
      (∀ o, objects r !! h ≠ Some (tg, o)) →
      registry_step r (OpClose h tg) (RObj None) r.

(** ** Refinement *)

Record represents (t : table) (r : registry) : Prop := {
  rp_wf : HandleTable.wf t;
  rp_live : live t = objects r;
  rp_issued : ∀ h, h ∈ issued r → known t h;
  rp_dom : ∀ h, is_Some (objects r !! h) → h ∈ issued r;
}.

(** A client passes only handles that it was given. *)
Definition admissible (r : registry) (op : operation) : Prop :=
  ∀ h, argument op = Some h → h ∈ issued r.

Lemma info_spec (t : table) h :
  HandleTable.wf t → known t h →
  wp (bio_handle_info h) (λ r t', t' = t ∧ r = fst <$> live t !! h) t.
Proof.
  intros Hwf Hk. unfold bio_handle_info. wp_steps. apply slot_of_spec; [done|..].
  - intros s Hs. case_decide as Hd; wp_steps; (split; [done|]).
    + destruct (known_free _ _ _ Hwf Hk Hs Hd) as [[tg' o'] Hl].
      rewrite Hl. apply live_spec in Hl as (_ & s' & Hs' & Ht' & _ & _). by simplify_eq.
    + destruct (live t !! h) as [[tg' o']|] eqn:Hl; [|done].
      apply live_spec in Hl as (_ & s' & Hs' & _ & _ & Hg). by simplify_eq.
  - intros Hs. wp_steps. split; [done|].
    destruct (live t !! h) as [[tg' o']|] eqn:Hl; [|done].
    apply live_spec in Hl as (_ & s' & Hs' & _). by rewrite Hs in Hs'.
Qed.

Lemma wp_fmap {S A B} (f : A → B) (m : st S A) Q s :
  wp m (λ a s', Q (f a) s') s → wp (f <$> m) Q s.
Proof. unfold wp, fmap, st_fmap. by destruct (m s) as [[a s']|e]. Qed.

Lemma represents_evolves t t' r r' :
  represents t r → HandleTable.wf t' → evolves t t' → live t' = objects r' →
  (∀ h, h ∈ issued r' → h ∈ issued r ∨ is_Some (objects r' !! h)) →
  (∀ h, is_Some (objects r' !! h) → h ∈ issued r') → represents t' r'.
Proof.
  intros [H1 H2 H3 H4] Hwf Hev Hl Hi Hd. split; [done|done| |done].
  intros h [Hh|Hh]%Hi; [by apply Hev, H3|]. apply live_known. by rewrite Hl.
Qed.

Lemma exec_refines t r op :
  represents t r → admissible r op →
  wp (exec op) (λ res t', ∃ r', registry_step r op res r' ∧ represents t' r') t.
Proof.
  intros Hrep Hadm. pose proof Hrep as [Hwf Hl Hi Hd].
  destruct op as [o tg|h tg|h|h tg]; cbn; apply wp_fmap.
  - eapply wp_mono; [by apply make_spec|]. intros h t' (Hwf' & Hnk & Hl' & Hev & _).
    eexists. split; [constructor; intros ?%Hi; done|].
    eapply represents_evolves; [done..|cbn; congruence| |]; cbn.
    + intros h' [->%elem_of_singleton|?]%elem_of_union; [right; by rewrite lookup_insert_eq|by left].
    + intros h' [<-|?%Hd]%lookup_insert_is_Some'; set_solver.
  - eapply wp_mono; [apply resolve_spec; [done|by apply Hi, Hadm]|]. intros res t' [-> ->].
    exists r. split; [|done]. rewrite Hl. constructor.
  - eapply wp_mono; [apply info_spec; [done|by apply Hi, Hadm]|]. intros res t' [-> ->].
    exists r. split; [|done]. rewrite Hl. constructor.
  - eapply wp_mono; [apply close_spec; [done|by apply Hi, Hadm]|]. intros res t' (Hwf' & Hev & Hc).
    rewrite Hl in Hc. destruct (objects r !! h) as [[tg' o]|] eqn:E.
    + destruct (decide (tg' = tg)) as [->|Hne]; destruct Hc as [-> Hl'].
      * eexists. split; [by constructor|]. eapply represents_evolves; [done..| |]; cbn; [by left|].
        intros h' [_ ?]%lookup_delete_is_Some. by apply Hd.
      * exists r. subst t'. split; [|done]. constructor. intros o'. rewrite E. congruence.
    + destruct Hc as [-> ->]. exists r. split; [|done]. constructor. by rewrite E.
Qed.

(** ** Runs *)

(** A run of the table: operations with their results. *)
Inductive run : table → list (operation * result) → table → Prop :=
  | run_nil t : run t [] t
  | run_cons t op res t1 tr t2 :
      exec op t = Ok (res, t1) → run t1 tr t2 → run t ((op, res) :: tr) t2.

Inductive registry_run : registry → list (operation * result) → registry → Prop :=
  | registry_run_nil r : registry_run r [] r
  | registry_run_cons r op res r1 tr r2 :
      registry_step r op res r1 → registry_run r1 tr r2 →
      registry_run r ((op, res) :: tr) r2.

(** The handles that a run returned, in their order. *)
Definition returned (x : operation * result) : option bio_handle_t :=
  match x with (OpMake _ _, RHandle h) => Some h | _ => None end.

(** Every operation of the run has been given its handle before. *)
Fixpoint closed_run (I : gset bio_handle_t) (tr : list (operation * result)) : Prop :=
  match tr with
  | [] => True
  | (op, res) :: tr =>
      (∀ h, argument op = Some h → h ∈ I) ∧
      closed_run (match returned (op, res) with Some h => {[h]} ∪ I | None => I end) tr
  end.

Lemma step_issued r op res r' :
  registry_step r op res r' →
  issued r' = match returned (op, res) with Some h => {[h]} ∪ issued r | None => issued r end.
Proof. by destruct 1. Qed.

Lemma run_refines t tr t' r :
  run t tr t' → represents t r → closed_run (issued r) tr →
  ∃ r', registry_run r tr r' ∧ represents t' r'.
Proof.
  intros Hrun. revert r. induction Hrun as [t|t op res t1 tr t2 He _ IH]; intros r Hrep Hcl.
  { exists r. split; [constructor|done]. }
  destruct Hcl as [Hadm Hcl].
  destruct (wp_elim _ _ _ _ _ (exec_refines _ _ _ Hrep Hadm) He) as (r1 & Hs & Hrep1).
  rewrite <- (step_issued _ _ _ _ Hs) in Hcl.
  destruct (IH _ Hrep1 Hcl) as (r2 & Hr & Hrep2). exists r2. split; [by econstructor|done].
Qed.

(** ** Consequences of the specification *)

Definition closed_in (r : registry) (h : bio_handle_t) : Prop :=
  h ∈ issued r ∧ objects r !! h = None.

Lemma closed_step r op res r' h :
  registry_step r op res r' → closed_in r h → closed_in r' h.
Proof.
  intros Hs [Hi Hn]. destruct Hs; try done; (split; [set_solver|]).
  - cbn. rewrite lookup_insert_ne; [done|]. by intros ->.
  - cbn. rewrite lookup_delete. by case_decide.
Qed.

Lemma closed_registry_run r tr r' h :
  registry_run r tr r' → closed_in r h → closed_in r' h.
Proof. induction 1; eauto using closed_step. Qed.

Lemma registry_run_app r tr1 tr2 r' :
  registry_run r (tr1 ++ tr2) r' ↔ ∃ r1, registry_run r tr1 r1 ∧ registry_run r1 tr2 r'.
Proof.
  split.
  - revert r. induction tr1 as [|x tr1 IH]; intros r H; [exists r; split; [constructor|done]|].
    inversion_clear H as [|? ? ? r1 ? ? Hs Hr].
    apply IH in Hr as (r2 & ? & ?). exists r2. split; [by econstructor|done].
  - intros (r1 & H1 & H2). induction H1; [done|]. econstructor; eauto.
Qed.

Lemma closed_dead r h tg : closed_in r h → object_of r h tg = None.
Proof. intros [_ Hn]. unfold object_of. by rewrite Hn. Qed.

(** No handle is issued twice. *)
Lemma registry_run_returned r tr r' :
  registry_run r tr r' →
  NoDup (omap returned tr) ∧ ∀ h, h ∈ omap returned tr → h ∉ issued r.
Proof.
  induction 1 as [r|r op res r1 tr r2 Hs _ [IH1 IH2]].
  { split; [constructor|]. by intros h ?%not_elem_of_nil. }
  assert (Hsub : issued r ⊆ issued r1).
  { rewrite (step_issued _ _ _ _ Hs). destruct (returned _); set_solver. }
  assert (Ho : omap returned ((op, res) :: tr) = match returned (op, res) with
    | Some h => h :: omap returned tr | None => omap returned tr end) by done.
  rewrite Ho. clear Ho. destruct (returned (op, res)) as [h|] eqn:E.
  - destruct Hs as [o tg h' Hh| | | |]; try done. injection E as ->. cbn in IH2, Hsub. split.
    + constructor; [|done]. intros Hin%IH2. set_solver.
    + intros h' [->|Hin]%elem_of_cons; [done|]. apply IH2 in Hin. set_solver.
  - split; [done|]. intros h Hin%IH2. set_solver.
Qed.

Lemma init_represents (t0 t : table) :
  bio_handle_table_init t0 = Ok (tt, t) → represents t empty_registry.
Proof.
  intros He. destruct (wp_elim _ _ _ _ _ (init_spec t0) He) as (Hwf & Hl & _).
  split; [done|done| |].
  - intros h Hh. cbn in Hh. apply elem_of_singleton in Hh as ->. apply known_invalid.
  - intros h [x Hx]. cbn in Hx. by rewrite lookup_empty in Hx.
Qed.

(** ** The handle table is safe to use *)

(** C3: A run of the handle table, from its initialization, by a client that
    passes only handles that it was given, is a run of the registry: the table
    refines its abstract specification. *)
Theorem handle_table_refines_registry (t0 t t' : table) tr :
  bio_handle_table_init t0 = Ok (tt, t) → run t tr t' →
  closed_run {[BIO_INVALID_HANDLE]} tr →
  ∃ r, registry_run empty_registry tr r ∧ represents t' r.
Proof. intros Hi Hr Hc. by eapply run_refines; [|eapply init_represents|]. Qed.

(** Once a handle was closed, it never resolves to an object again, under
    any tag, whatever the table is used for in between. *)
Theorem closed_handle_is_dead (t0 t t' : table) tr1 tr2 h tg tg' o res :
  bio_handle_table_init t0 = Ok (tt, t) →
  run t (tr1 ++ (OpClose h tg, RObj (Some o)) :: tr2 ++ [(OpResolve h tg', res)]) t' →
  closed_run {[BIO_INVALID_HANDLE]}
    (tr1 ++ (OpClose h tg, RObj (Some o)) :: tr2 ++ [(OpResolve h tg', res)]) →
  res = RObj None.
Proof.
  intros Hi Hr Hc. pose proof (init_represents _ _ Hi) as Hrep.
  destruct (run_refines _ _ _ _ Hr Hrep Hc) as (r & Hrr & _).
  apply registry_run_app in Hrr as (r1 & H1 & H2).
  inversion_clear H2 as [|? ? ? r2 ? ? Hs Hr2].
  apply registry_run_app in Hr2 as (r3 & H3 & H4).
  inversion_clear H4 as [|? ? ? r4 ? ? Hs4 _].
  assert (Hdom : ∀ r tr r', registry_run r tr r' →
    (∀ h, is_Some (objects r !! h) → h ∈ issued r) → ∀ h, is_Some (objects r' !! h) → h ∈ issued r').
  { clear. induction 1 as [|r op res r1 tr r2 Hs _ IH]; intros Hd; [done|]. apply IH.
    destruct Hs; cbn; try done.
    - intros h' [<-|?%Hd]%lookup_insert_is_Some'; set_solver.
    - intros h' [_ ?]%lookup_delete_is_Some. by apply Hd. }
  assert (Hcl : closed_in r2 h).
  { inversion Hs as [| | |? ? o' Ho|]; subst. split; cbn; [|apply lookup_delete_eq].
    eapply (Hdom _ _ _ H1); [|eauto]. intros h' [? Hx]. cbn in Hx. by rewrite lookup_empty in Hx. }
  assert (Hcl3 : closed_in r3 h) by by eapply closed_registry_run.
  inversion Hs4; subst. f_equal. by apply closed_dead.
Qed.

(** No two calls of [bio_make_handle] return the same handle. *)
Theorem handles_are_unique (t0 t t' : table) tr :
  bio_handle_table_init t0 = Ok (tt, t) → run t tr t' →
  closed_run {[BIO_INVALID_HANDLE]} tr →
  NoDup (BIO_INVALID_HANDLE :: omap returned tr).
Proof.
  intros Hi Hr Hc. pose proof (init_represents _ _ Hi) as Hrep.
  destruct (run_refines _ _ _ _ Hr Hrep Hc) as (r & Hrr & _).
  destruct (registry_run_returned _ _ _ Hrr) as [Hnd Hni]. constructor; [|done].
  intros Hin%Hni. set_solver.
Qed.
End registry.
