(* ===== verification/Ctx.v ===== *)
(** The shared state: the types of [include/bio/bio.h] and [src/internal.h], the
    global [bio_ctx] with the heap objects it reaches, and the primitive
    accesses from which the components are built.

    Pointers are abstract addresses of type [loc]; [None] is [NULL]. Every kind
    of heap object has its own store, a finite map from addresses to objects.
    Addresses are never reused, so an access to a freed object is an access to
    an address that is not in its store, which is the error [Dangling].

    A circular list of [src/internal.h] is the list of the objects linked in
    it, and the link of an object is the owner of the list it is in
    ([LinkList.v] relates the macros to this view). *)
From stdpp Require Import strings.
From S2P Require Import Prelude HandleTable Pool Uring TimerHeap.

Abbreviation loc := positive.

(** ** Types of [include/bio/bio.h] and [include/bio/timer.h] *)

(** [bio_tag_t]: a tag is the address of a static object; the library's own
    tags, and the tags of its users. *)
Inductive bio_tag_t :=
  | BIO_CORO_HANDLE
  | BIO_SIGNAL_HANDLE
  | BIO_MONITOR_HANDLE
  | BIO_TIMER_HANDLE
  | BIO_MAILBOX_HANDLE
  | BIO_BUFFER_HANDLE
  | BIO_LOGGER_HANDLE
  | BIO_FILE_HANDLE
  | BIO_SOCKET_HANDLE
  | BIO_USER_TAG (n : positive).

#[export] Instance bio_tag_eq_dec : EqDecision bio_tag_t.
Proof. solve_decision. Defined.

(** [bio_entrypoint_t]: function pointers. The library spawns two coroutines of
    its own, timers and services; the others belong to the program that uses
    it. *)
Inductive bio_entrypoint_t :=
  | bio_timer_entry_fn
  | bio_service_wrapper_fn
  | user_fn (n : positive).

#[export] Instance bio_entrypoint_eq_dec : EqDecision bio_entrypoint_t.
Proof. solve_decision. Defined.

(** [bio_coro_state_t]. *)
Inductive bio_coro_state_t :=
  | BIO_CORO_READY
  | BIO_CORO_RUNNING
  | BIO_CORO_WAITING
  | BIO_CORO_DEAD.

#[export] Instance bio_coro_state_eq_dec : EqDecision bio_coro_state_t.
Proof. solve_decision. Defined.

(** [bio_exit_reason_t]. *)
Inductive bio_exit_reason_t :=
  | BIO_EXIT_OS_REQUEST
  | BIO_EXIT_TERMINATE.

(** [bio_coro_options_t]: the stack size has no meaning here. *)
Record bio_coro_options_t := mk_coro_options { opt_daemon : bool }.

(** [bio_timer_type_t]. *)
Inductive bio_timer_type_t :=
  | BIO_TIMER_ONESHOT
  | BIO_TIMER_INTERVAL.

(** ** Heap objects *)

(** A message is a block of memory that a mailbox copies: the handles that it
    holds, and the rest of its contents. *)
Record message := mk_message {
  msg_handles : list bio_handle_t;
  msg_data : list Z;
}.

(** [bio_cls_entry_t]: the specification it belongs to, by address, and the
    address of its data. *)
Record cls_entry := mk_cls_entry { cls_spec : loc; cls_data : loc }.

(** [bio_signal_impl_t] ([src/internal.h]). *)
Record bio_signal_impl_t := mk_signal {
  sig_link : option loc;  (* link: the coroutine whose list it is in *)
  sig_owner : loc;  (* owner *)
  sig_handle : bio_handle_t;  (* handle *)
  sig_wait_counter : Z;  (* wait_counter *)
}.

Definition set_sig_link (f : option loc → option loc) (s : bio_signal_impl_t) :
    bio_signal_impl_t :=
    mk_signal (f (sig_link s)) (sig_owner s) (sig_handle s) (sig_wait_counter s).
Definition set_sig_owner (f : loc → loc) (s : bio_signal_impl_t) : bio_signal_impl_t :=
    mk_signal (sig_link s) (f (sig_owner s)) (sig_handle s) (sig_wait_counter s).
Definition set_sig_handle (f : bio_handle_t → bio_handle_t) (s : bio_signal_impl_t) :
    bio_signal_impl_t :=
    mk_signal (sig_link s) (sig_owner s) (f (sig_handle s)) (sig_wait_counter s).
Definition set_sig_wait_counter (f : Z → Z) (s : bio_signal_impl_t) : bio_signal_impl_t :=
    mk_signal (sig_link s) (sig_owner s) (sig_handle s) (f (sig_wait_counter s)).

(** [bio_coro_impl_t] ([src/internal.h]). *)
Record bio_coro_impl_t := mk_coro {
  co_entrypoint : bio_entrypoint_t;
  co_daemon : bool;
  co_userdata : option loc;
  co_extra_data : option loc;
  co_extra_data_tag : option bio_tag_t;
  co_name : option string;
  co_cls_buckets : option (list (list cls_entry));
  co_handle : bio_handle_t;
  co_state : bio_coro_state_t;
  co_pending_signals : list loc;  (* a circular list of signals *)
  co_monitors : list loc;  (* a circular list of monitors *)
  co_num_blocking_signals : Z;
  co_wait_counter : Z;
}.

Definition set_co_entrypoint (f : bio_entrypoint_t → bio_entrypoint_t) (co : bio_coro_impl_t) :
    bio_coro_impl_t :=
    mk_coro (f (co_entrypoint co)) (co_daemon co) (co_userdata co) (co_extra_data co)
    (co_extra_data_tag co) (co_name co) (co_cls_buckets co) (co_handle co) (co_state co)
    (co_pending_signals co) (co_monitors co) (co_num_blocking_signals co) (co_wait_counter co).
Definition set_co_daemon (f : bool → bool) (co : bio_coro_impl_t) : bio_coro_impl_t :=
    mk_coro (co_entrypoint co) (f (co_daemon co)) (co_userdata co) (co_extra_data co)
    (co_extra_data_tag co) (co_name co) (co_cls_buckets co) (co_handle co) (co_state co)
    (co_pending_signals co) (co_monitors co) (co_num_blocking_signals co) (co_wait_counter co).
Definition set_co_userdata (f : option loc → option loc) (co : bio_coro_impl_t) :
    bio_coro_impl_t :=
    mk_coro (co_entrypoint co) (co_daemon co) (f (co_userdata co)) (co_extra_data co)
    (co_extra_data_tag co) (co_name co) (co_cls_buckets co) (co_handle co) (co_state co)
    (co_pending_signals co) (co_monitors co) (co_num_blocking_signals co) (co_wait_counter co).
Definition set_co_extra_data (f : option loc → option loc) (co : bio_coro_impl_t) :
    bio_coro_impl_t :=
    mk_coro (co_entrypoint co) (co_daemon co) (co_userdata co) (f (co_extra_data co))
    (co_extra_data_tag co) (co_name co) (co_cls_buckets co) (co_handle co) (co_state co)
    (co_pending_signals co) (co_monitors co) (co_num_blocking_signals co) (co_wait_counter co).
Definition set_co_extra_data_tag (f : option bio_tag_t → option bio_tag_t) (co :
    bio_coro_impl_t) : bio_coro_impl_t :=
    mk_coro (co_entrypoint co) (co_daemon co) (co_userdata co) (co_extra_data co) (f
    (co_extra_data_tag co)) (co_name co) (co_cls_buckets co) (co_handle co) (co_state co)
    (co_pending_signals co) (co_monitors co) (co_num_blocking_signals co) (co_wait_counter co).
Definition set_co_name (f : option string → option string) (co : bio_coro_impl_t) :
    bio_coro_impl_t :=
    mk_coro (co_entrypoint co) (co_daemon co) (co_userdata co) (co_extra_data co)
    (co_extra_data_tag co) (f (co_name co)) (co_cls_buckets co) (co_handle co) (co_state co)
    (co_pending_signals co) (co_monitors co) (co_num_blocking_signals co) (co_wait_counter co).
Definition set_co_cls_buckets (f : option (list (list cls_entry)) → option (list (list
    cls_entry))) (co : bio_coro_impl_t) : bio_coro_impl_t :=
    mk_coro (co_entrypoint co) (co_daemon co) (co_userdata co) (co_extra_data co)
    (co_extra_data_tag co) (co_name co) (f (co_cls_buckets co)) (co_handle co) (co_state co)
    (co_pending_signals co) (co_monitors co) (co_num_blocking_signals co) (co_wait_counter co).
Definition set_co_handle (f : bio_handle_t → bio_handle_t) (co : bio_coro_impl_t) :
    bio_coro_impl_t :=
    mk_coro (co_entrypoint co) (co_daemon co) (co_userdata co) (co_extra_data co)
    (co_extra_data_tag co) (co_name co) (co_cls_buckets co) (f (co_handle co)) (co_state co)
    (co_pending_signals co) (co_monitors co) (co_num_blocking_signals co) (co_wait_counter co).
Definition set_co_state (f : bio_coro_state_t → bio_coro_state_t) (co : bio_coro_impl_t) :
    bio_coro_impl_t :=
    mk_coro (co_entrypoint co) (co_daemon co) (co_userdata co) (co_extra_data co)
    (co_extra_data_tag co) (co_name co) (co_cls_buckets co) (co_handle co) (f (co_state co))
    (co_pending_signals co) (co_monitors co) (co_num_blocking_signals co) (co_wait_counter co).
Definition set_co_pending_signals (f : list loc → list loc) (co : bio_coro_impl_t) :
    bio_coro_impl_t :=
    mk_coro (co_entrypoint co) (co_daemon co) (co_userdata co) (co_extra_data co)
    (co_extra_data_tag co) (co_name co) (co_cls_buckets co) (co_handle co) (co_state co) (f
    (co_pending_signals co)) (co_monitors co) (co_num_blocking_signals co) (co_wait_counter co).
Definition set_co_monitors (f : list loc → list loc) (co : bio_coro_impl_t) : bio_coro_impl_t :=
    mk_coro (co_entrypoint co) (co_daemon co) (co_userdata co) (co_extra_data co)
    (co_extra_data_tag co) (co_name co) (co_cls_buckets co) (co_handle co) (co_state co)
    (co_pending_signals co) (f (co_monitors co)) (co_num_blocking_signals co) (co_wait_counter
    co).
Definition set_co_num_blocking_signals (f : Z → Z) (co : bio_coro_impl_t) : bio_coro_impl_t :=
    mk_coro (co_entrypoint co) (co_daemon co) (co_userdata co) (co_extra_data co)
    (co_extra_data_tag co) (co_name co) (co_cls_buckets co) (co_handle co) (co_state co)
    (co_pending_signals co) (co_monitors co) (f (co_num_blocking_signals co)) (co_wait_counter
    co).
Definition set_co_wait_counter (f : Z → Z) (co : bio_coro_impl_t) : bio_coro_impl_t :=
    mk_coro (co_entrypoint co) (co_daemon co) (co_userdata co) (co_extra_data co)
    (co_extra_data_tag co) (co_name co) (co_cls_buckets co) (co_handle co) (co_state co)
    (co_pending_signals co) (co_monitors co) (co_num_blocking_signals co) (f (co_wait_counter
    co)).

(** [bio_monitor_impl_t] ([src/internal.h]). *)
Record bio_monitor_impl_t := mk_monitor {
  mon_link : option loc;  (* link: the coroutine whose list it is in *)
  mon_handle : bio_handle_t;
  mon_signal : bio_handle_t;
}.

Definition set_mon_link (f : option loc → option loc) (m : bio_monitor_impl_t) :
    bio_monitor_impl_t :=
    mk_monitor (f (mon_link m)) (mon_handle m) (mon_signal m).
Definition set_mon_handle (f : bio_handle_t → bio_handle_t) (m : bio_monitor_impl_t) :
    bio_monitor_impl_t :=
    mk_monitor (mon_link m) (f (mon_handle m)) (mon_signal m).
Definition set_mon_signal (f : bio_handle_t → bio_handle_t) (m : bio_monitor_impl_t) :
    bio_monitor_impl_t :=
    mk_monitor (mon_link m) (mon_handle m) (f (mon_signal m)).

(** [bio_mailbox_t] ([src/mailbox.c]). *)
Record bio_mailbox_t := mk_mailbox {
  mb_capacity : Z;
  mb_read : Z;
  mb_write : Z;
  mb_signal : bio_handle_t;
  mb_data : list (option message);  (* data[], None before the first write *)
}.

Definition set_mb_capacity (f : Z → Z) (m : bio_mailbox_t) : bio_mailbox_t :=
    mk_mailbox (f (mb_capacity m)) (mb_read m) (mb_write m) (mb_signal m) (mb_data m).
Definition set_mb_read (f : Z → Z) (m : bio_mailbox_t) : bio_mailbox_t :=
    mk_mailbox (mb_capacity m) (f (mb_read m)) (mb_write m) (mb_signal m) (mb_data m).
Definition set_mb_write (f : Z → Z) (m : bio_mailbox_t) : bio_mailbox_t :=
    mk_mailbox (mb_capacity m) (mb_read m) (f (mb_write m)) (mb_signal m) (mb_data m).
Definition set_mb_signal (f : bio_handle_t → bio_handle_t) (m : bio_mailbox_t) : bio_mailbox_t :=
    mk_mailbox (mb_capacity m) (mb_read m) (mb_write m) (f (mb_signal m)) (mb_data m).
Definition set_mb_data (f : list (option message) → list (option message)) (m : bio_mailbox_t) :
    bio_mailbox_t :=
    mk_mailbox (mb_capacity m) (mb_read m) (mb_write m) (mb_signal m) (f (mb_data m)).

(** [bio_timer_impl_t] ([src/timer.c]). *)
Record bio_timer_impl_t := mk_timer {
  tm_type : bio_timer_type_t;
  tm_timeout_ms : Z;
  tm_fn : positive;  (* a function of the program *)
  tm_userdata : option loc;
  tm_wake_signal : bio_handle_t;
  tm_due_time_ms : Z;
  tm_cancelled : bool;
  tm_handle : bio_handle_t;
}.

Definition set_tm_type (f : bio_timer_type_t → bio_timer_type_t) (t : bio_timer_impl_t) :
    bio_timer_impl_t :=
    mk_timer (f (tm_type t)) (tm_timeout_ms t) (tm_fn t) (tm_userdata t) (tm_wake_signal t)
    (tm_due_time_ms t) (tm_cancelled t) (tm_handle t).
Definition set_tm_timeout_ms (f : Z → Z) (t : bio_timer_impl_t) : bio_timer_impl_t :=
    mk_timer (tm_type t) (f (tm_timeout_ms t)) (tm_fn t) (tm_userdata t) (tm_wake_signal t)
    (tm_due_time_ms t) (tm_cancelled t) (tm_handle t).
Definition set_tm_fn (f : positive → positive) (t : bio_timer_impl_t) : bio_timer_impl_t :=
    mk_timer (tm_type t) (tm_timeout_ms t) (f (tm_fn t)) (tm_userdata t) (tm_wake_signal t)
    (tm_due_time_ms t) (tm_cancelled t) (tm_handle t).
Definition set_tm_userdata (f : option loc → option loc) (t : bio_timer_impl_t) :
    bio_timer_impl_t :=
    mk_timer (tm_type t) (tm_timeout_ms t) (tm_fn t) (f (tm_userdata t)) (tm_wake_signal t)
    (tm_due_time_ms t) (tm_cancelled t) (tm_handle t).
Definition set_tm_wake_signal (f : bio_handle_t → bio_handle_t) (t : bio_timer_impl_t) :
    bio_timer_impl_t :=
    mk_timer (tm_type t) (tm_timeout_ms t) (tm_fn t) (tm_userdata t) (f (tm_wake_signal t))
    (tm_due_time_ms t) (tm_cancelled t) (tm_handle t).
Definition set_tm_due_time_ms (f : Z → Z) (t : bio_timer_impl_t) : bio_timer_impl_t :=
    mk_timer (tm_type t) (tm_timeout_ms t) (tm_fn t) (tm_userdata t) (tm_wake_signal t) (f
    (tm_due_time_ms t)) (tm_cancelled t) (tm_handle t).
Definition set_tm_cancelled (f : bool → bool) (t : bio_timer_impl_t) : bio_timer_impl_t :=
    mk_timer (tm_type t) (tm_timeout_ms t) (tm_fn t) (tm_userdata t) (tm_wake_signal t)
    (tm_due_time_ms t) (f (tm_cancelled t)) (tm_handle t).
Definition set_tm_handle (f : bio_handle_t → bio_handle_t) (t : bio_timer_impl_t) :
    bio_timer_impl_t :=
    mk_timer (tm_type t) (tm_timeout_ms t) (tm_fn t) (tm_userdata t) (tm_wake_signal t)
    (tm_due_time_ms t) (tm_cancelled t) (f (tm_handle t)).

(** [bio_exit_info_t] ([src/internal.h]). *)
Record bio_exit_info_t := mk_exit_info {
  ei_signal : bio_handle_t;
  ei_reason : bio_exit_reason_t;
}.

Definition set_ei_reason (f : bio_exit_reason_t → bio_exit_reason_t) (x : bio_exit_info_t) :
    bio_exit_info_t :=
    mk_exit_info (ei_signal x) (f (ei_reason x)).

(** [bio_service_data_t] ([src/service.c]). *)
Record bio_service_data_t := mk_service_data {
  sd_mailbox : bio_handle_t;
  sd_ready_signal : bio_handle_t;
  sd_entry : positive;  (* a function of the program *)
  sd_args : list Z;
}.

(** ** The global state *)

Abbreviation theap := (TimerHeap.theap bio_handle_t).

(** [bio_ctx_t] ([src/internal.h]), followed by the heap it reaches. *)
Record bio_ctx_t := mk_ctx {
  num_cls_buckets : Z;  (* options.num_cls_buckets *)
  is_terminating : bool;
  exit_handlers : list loc;
  htab : table bio_tag_t loc;  (* the handle table *)
  timer_heap : theap;  (* timer_entries, timer_capacity, num_timers *)
  current_time_ms : Z;
  current_ready_coros : list loc;
  next_ready_coros : list loc;
  num_coros : Z;
  num_daemons : Z;
  mco_running : option loc;  (* mco_running()->user_data *)
  clock_reads : nat;  (* how often the clock was read *)
  next_loc : loc;  (* the next fresh address *)
  coros : gmap loc bio_coro_impl_t;
  signals : gmap loc bio_signal_impl_t;
  monitors : gmap loc bio_monitor_impl_t;
  mailboxes : gmap loc bio_mailbox_t;
  timers : gmap loc bio_timer_impl_t;
  exit_infos : gmap loc bio_exit_info_t;
  service_datas : gmap loc bio_service_data_t;
  thread_pool : bio_pool_t;  (* thread_pool, num_running_async_jobs *)
  bio_platform : bio_platform_t;  (* platform *)
}.

Definition set_num_cls_buckets (f : Z → Z) (c : bio_ctx_t) : bio_ctx_t :=
    mk_ctx (f (num_cls_buckets c)) (is_terminating c) (exit_handlers c) (htab c) (timer_heap c)
    (current_time_ms c) (current_ready_coros c) (next_ready_coros c) (num_coros c) (num_daemons
    c) (mco_running c) (clock_reads c) (next_loc c) (coros c) (signals c) (monitors c)
    (mailboxes c) (timers c) (exit_infos c) (service_datas c) (thread_pool c) (bio_platform c).
Definition set_is_terminating (f : bool → bool) (c : bio_ctx_t) : bio_ctx_t :=
    mk_ctx (num_cls_buckets c) (f (is_terminating c)) (exit_handlers c) (htab c) (timer_heap c)
    (current_time_ms c) (current_ready_coros c) (next_ready_coros c) (num_coros c) (num_daemons
    c) (mco_running c) (clock_reads c) (next_loc c) (coros c) (signals c) (monitors c)
    (mailboxes c) (timers c) (exit_infos c) (service_datas c) (thread_pool c) (bio_platform c).
Definition set_exit_handlers (f : list loc → list loc) (c : bio_ctx_t) : bio_ctx_t :=
    mk_ctx (num_cls_buckets c) (is_terminating c) (f (exit_handlers c)) (htab c) (timer_heap c)
    (current_time_ms c) (current_ready_coros c) (next_ready_coros c) (num_coros c) (num_daemons
    c) (mco_running c) (clock_reads c) (next_loc c) (coros c) (signals c) (monitors c)
    (mailboxes c) (timers c) (exit_infos c) (service_datas c) (thread_pool c) (bio_platform c).
Definition set_htab (f : table bio_tag_t loc → table bio_tag_t loc) (c : bio_ctx_t) : bio_ctx_t :=
    mk_ctx (num_cls_buckets c) (is_terminating c) (exit_handlers c) (f (htab c)) (timer_heap c)
    (current_time_ms c) (current_ready_coros c) (next_ready_coros c) (num_coros c) (num_daemons
    c) (mco_running c) (clock_reads c) (next_loc c) (coros c) (signals c) (monitors c)
    (mailboxes c) (timers c) (exit_infos c) (service_datas c) (thread_pool c) (bio_platform c).
Definition set_timer_heap (f : theap → theap) (c : bio_ctx_t) : bio_ctx_t :=
    mk_ctx (num_cls_buckets c) (is_terminating c) (exit_handlers c) (htab c) (f (timer_heap c))
    (current_time_ms c) (current_ready_coros c) (next_ready_coros c) (num_coros c) (num_daemons
    c) (mco_running c) (clock_reads c) (next_loc c) (coros c) (signals c) (monitors c)
    (mailboxes c) (timers c) (exit_infos c) (service_datas c) (thread_pool c) (bio_platform c).
Definition set_current_time_ms (f : Z → Z) (c : bio_ctx_t) : bio_ctx_t :=
    mk_ctx (num_cls_buckets c) (is_terminating c) (exit_handlers c) (htab c) (timer_heap c) (f
    (current_time_ms c)) (current_ready_coros c) (next_ready_coros c) (num_coros c) (num_daemons
    c) (mco_running c) (clock_reads c) (next_loc c) (coros c) (signals c) (monitors c)
    (mailboxes c) (timers c) (exit_infos c) (service_datas c) (thread_pool c) (bio_platform c).
Definition set_current_ready_coros (f : list loc → list loc) (c : bio_ctx_t) : bio_ctx_t :=
    mk_ctx (num_cls_buckets c) (is_terminating c) (exit_handlers c) (htab c) (timer_heap c)
    (current_time_ms c) (f (current_ready_coros c)) (next_ready_coros c) (num_coros c)
    (num_daemons c) (mco_running c) (clock_reads c) (next_loc c) (coros c) (signals c) (monitors
    c) (mailboxes c) (timers c) (exit_infos c) (service_datas c) (thread_pool c) (bio_platform
    c).
Definition set_next_ready_coros (f : list loc → list loc) (c : bio_ctx_t) : bio_ctx_t :=
    mk_ctx (num_cls_buckets c) (is_terminating c) (exit_handlers c) (htab c) (timer_heap c)
    (current_time_ms c) (current_ready_coros c) (f (next_ready_coros c)) (num_coros c)
    (num_daemons c) (mco_running c) (clock_reads c) (next_loc c) (coros c) (signals c) (monitors
    c) (mailboxes c) (timers c) (exit_infos c) (service_datas c) (thread_pool c) (bio_platform
    c).
Definition set_num_coros (f : Z → Z) (c : bio_ctx_t) : bio_ctx_t :=
    mk_ctx (num_cls_buckets c) (is_terminating c) (exit_handlers c) (htab c) (timer_heap c)
    (current_time_ms c) (current_ready_coros c) (next_ready_coros c) (f (num_coros c))
    (num_daemons c) (mco_running c) (clock_reads c) (next_loc c) (coros c) (signals c) (monitors
    c) (mailboxes c) (timers c) (exit_infos c) (service_datas c) (thread_pool c) (bio_platform
    c).
Definition set_num_daemons (f : Z → Z) (c : bio_ctx_t) : bio_ctx_t :=
    mk_ctx (num_cls_buckets c) (is_terminating c) (exit_handlers c) (htab c) (timer_heap c)
    (current_time_ms c) (current_ready_coros c) (next_ready_coros c) (num_coros c) (f
    (num_daemons c)) (mco_running c) (clock_reads c) (next_loc c) (coros c) (signals c)
    (monitors c) (mailboxes c) (timers c) (exit_infos c) (service_datas c) (thread_pool c)
    (bio_platform c).
Definition set_mco_running (f : option loc → option loc) (c : bio_ctx_t) : bio_ctx_t :=
    mk_ctx (num_cls_buckets c) (is_terminating c) (exit_handlers c) (htab c) (timer_heap c)
    (current_time_ms c) (current_ready_coros c) (next_ready_coros c) (num_coros c) (num_daemons
    c) (f (mco_running c)) (clock_reads c) (next_loc c) (coros c) (signals c) (monitors c)
    (mailboxes c) (timers c) (exit_infos c) (service_datas c) (thread_pool c) (bio_platform c).
Definition set_clock_reads (f : nat → nat) (c : bio_ctx_t) : bio_ctx_t :=
    mk_ctx (num_cls_buckets c) (is_terminating c) (exit_handlers c) (htab c) (timer_heap c)
    (current_time_ms c) (current_ready_coros c) (next_ready_coros c) (num_coros c) (num_daemons
    c) (mco_running c) (f (clock_reads c)) (next_loc c) (coros c) (signals c) (monitors c)
    (mailboxes c) (timers c) (exit_infos c) (service_datas c) (thread_pool c) (bio_platform c).
Definition set_next_loc (f : loc → loc) (c : bio_ctx_t) : bio_ctx_t :=
    mk_ctx (num_cls_buckets c) (is_terminating c) (exit_handlers c) (htab c) (timer_heap c)
    (current_time_ms c) (current_ready_coros c) (next_ready_coros c) (num_coros c) (num_daemons
    c) (mco_running c) (clock_reads c) (f (next_loc c)) (coros c) (signals c) (monitors c)
    (mailboxes c) (timers c) (exit_infos c) (service_datas c) (thread_pool c) (bio_platform c).
Definition set_coros (f : gmap loc bio_coro_impl_t → gmap loc bio_coro_impl_t) (c : bio_ctx_t) :
    bio_ctx_t :=
    mk_ctx (num_cls_buckets c) (is_terminating c) (exit_handlers c) (htab c) (timer_heap c)
    (current_time_ms c) (current_ready_coros c) (next_ready_coros c) (num_coros c) (num_daemons
    c) (mco_running c) (clock_reads c) (next_loc c) (f (coros c)) (signals c) (monitors c)
    (mailboxes c) (timers c) (exit_infos c) (service_datas c) (thread_pool c) (bio_platform c).
Definition set_signals (f : gmap loc bio_signal_impl_t → gmap loc bio_signal_impl_t) (c :
    bio_ctx_t) : bio_ctx_t :=
    mk_ctx (num_cls_buckets c) (is_terminating c) (exit_handlers c) (htab c) (timer_heap c)
    (current_time_ms c) (current_ready_coros c) (next_ready_coros c) (num_coros c) (num_daemons
    c) (mco_running c) (clock_reads c) (next_loc c) (coros c) (f (signals c)) (monitors c)
    (mailboxes c) (timers c) (exit_infos c) (service_datas c) (thread_pool c) (bio_platform c).
Definition set_monitors (f : gmap loc bio_monitor_impl_t → gmap loc bio_monitor_impl_t) (c :
    bio_ctx_t) : bio_ctx_t :=
    mk_ctx (num_cls_buckets c) (is_terminating c) (exit_handlers c) (htab c) (timer_heap c)
    (current_time_ms c) (current_ready_coros c) (next_ready_coros c) (num_coros c) (num_daemons
    c) (mco_running c) (clock_reads c) (next_loc c) (coros c) (signals c) (f (monitors c))
    (mailboxes c) (timers c) (exit_infos c) (service_datas c) (thread_pool c) (bio_platform c).
Definition set_mailboxes (f : gmap loc bio_mailbox_t → gmap loc bio_mailbox_t) (c : bio_ctx_t) :
    bio_ctx_t :=
    mk_ctx (num_cls_buckets c) (is_terminating c) (exit_handlers c) (htab c) (timer_heap c)
    (current_time_ms c) (current_ready_coros c) (next_ready_coros c) (num_coros c) (num_daemons
    c) (mco_running c) (clock_reads c) (next_loc c) (coros c) (signals c) (monitors c) (f
    (mailboxes c)) (timers c) (exit_infos c) (service_datas c) (thread_pool c) (bio_platform c).
Definition set_timers (f : gmap loc bio_timer_impl_t → gmap loc bio_timer_impl_t) (c :
    bio_ctx_t) : bio_ctx_t :=
    mk_ctx (num_cls_buckets c) (is_terminating c) (exit_handlers c) (htab c) (timer_heap c)
    (current_time_ms c) (current_ready_coros c) (next_ready_coros c) (num_coros c) (num_daemons
    c) (mco_running c) (clock_reads c) (next_loc c) (coros c) (signals c) (monitors c)
    (mailboxes c) (f (timers c)) (exit_infos c) (service_datas c) (thread_pool c) (bio_platform
    c).
Definition set_exit_infos (f : gmap loc bio_exit_info_t → gmap loc bio_exit_info_t) (c :
    bio_ctx_t) : bio_ctx_t :=
    mk_ctx (num_cls_buckets c) (is_terminating c) (exit_handlers c) (htab c) (timer_heap c)
    (current_time_ms c) (current_ready_coros c) (next_ready_coros c) (num_coros c) (num_daemons
    c) (mco_running c) (clock_reads c) (next_loc c) (coros c) (signals c) (monitors c)
    (mailboxes c) (timers c) (f (exit_infos c)) (service_datas c) (thread_pool c) (bio_platform
    c).
Definition set_service_datas (f : gmap loc bio_service_data_t → gmap loc bio_service_data_t) (c
    : bio_ctx_t) : bio_ctx_t :=
    mk_ctx (num_cls_buckets c) (is_terminating c) (exit_handlers c) (htab c) (timer_heap c)
    (current_time_ms c) (current_ready_coros c) (next_ready_coros c) (num_coros c) (num_daemons
    c) (mco_running c) (clock_reads c) (next_loc c) (coros c) (signals c) (monitors c)
    (mailboxes c) (timers c) (exit_infos c) (f (service_datas c)) (thread_pool c) (bio_platform
    c).
Definition set_thread_pool (f : bio_pool_t → bio_pool_t) (c : bio_ctx_t) : bio_ctx_t :=
    mk_ctx (num_cls_buckets c) (is_terminating c) (exit_handlers c) (htab c) (timer_heap c)
    (current_time_ms c) (current_ready_coros c) (next_ready_coros c) (num_coros c) (num_daemons
    c) (mco_running c) (clock_reads c) (next_loc c) (coros c) (signals c) (monitors c)
    (mailboxes c) (timers c) (exit_infos c) (service_datas c) (f (thread_pool c)) (bio_platform
    c).
Definition set_bio_platform (f : bio_platform_t → bio_platform_t) (c : bio_ctx_t) : bio_ctx_t :=
    mk_ctx (num_cls_buckets c) (is_terminating c) (exit_handlers c) (htab c) (timer_heap c)
    (current_time_ms c) (current_ready_coros c) (next_ready_coros c) (num_coros c) (num_daemons
    c) (mco_running c) (clock_reads c) (next_loc c) (coros c) (signals c) (monitors c)
    (mailboxes c) (timers c) (exit_infos c) (service_datas c) (thread_pool c) (f (bio_platform
    c)).

(** A computation on the global state. *)
Abbreviation M := (st bio_ctx_t).

(** ** Primitive accesses *)

(** [bio_malloc]: a fresh address. The allocator is assumed not to fail. *)
Definition bio_malloc : M loc :=
  p ← gets next_loc;
  _ ← modify (set_next_loc Pos.succ);
  mret p.

(** [mco_running()] and its [user_data]. *)
Definition running : M (option loc) := gets mco_running.

(** Objects of one kind: [store] is the field that holds them, [set] its setter. *)
Definition deref {X} (store : bio_ctx_t → gmap loc X) (p : loc) : M X :=
  c ← get; need Dangling (store c !! p).

(** Writing fields of an existing object. *)
Definition update {X} (store : bio_ctx_t → gmap loc X)
    (set : (gmap loc X → gmap loc X) → bio_ctx_t → bio_ctx_t) (p : loc) (f : X → X) : M unit :=
  x ← deref store p; modify (set <[p := f x]>).

(** [bio_free]: freeing what is not allocated is an error. *)
Definition free {X} (store : bio_ctx_t → gmap loc X)
    (set : (gmap loc X → gmap loc X) → bio_ctx_t → bio_ctx_t) (p : loc) : M unit :=
  _ ← deref store p; modify (set (delete p)).

Abbreviation deref_coro := (deref coros).
Abbreviation deref_signal := (deref signals).
Abbreviation deref_monitor := (deref monitors).
Abbreviation deref_mailbox := (deref mailboxes).
Abbreviation deref_timer := (deref timers).
Abbreviation update_coro := (update coros set_coros).
Abbreviation update_signal := (update signals set_signals).
Abbreviation update_monitor := (update monitors set_monitors).
Abbreviation update_mailbox := (update mailboxes set_mailboxes).
Abbreviation update_timer := (update timers set_timers).
Abbreviation free_coro := (free coros set_coros).
Abbreviation free_signal := (free signals set_signals).
Abbreviation free_monitor := (free monitors set_monitors).
Abbreviation free_mailbox := (free mailboxes set_mailboxes).
Abbreviation free_timer := (free timers set_timers).

(** Operations of the handle table, on the global table. *)
Definition on_htab {A} (m : st (table bio_tag_t loc) A) : M A :=
  zoom htab (λ t, set_htab (λ _, t)) m.

Definition make_handle (p : loc) (tg : bio_tag_t) : M bio_handle_t :=
  on_htab (bio_make_handle (Some p) tg).
Definition resolve_handle (h : bio_handle_t) (tg : bio_tag_t) : M (option loc) :=
  on_htab (bio_resolve_handle h tg).
Definition close_handle (h : bio_handle_t) (tg : bio_tag_t) : M (option loc) :=
  on_htab (bio_close_handle h tg).

(** [BIO_ARRAY(bio_coro_impl_t* ) next_ready_coros], [bio_array_push]. *)
Definition push_ready (p : loc) : M unit := modify (set_next_ready_coros (λ l, l ++ [p])).

(** ** Symbolic execution *)

Section objects.
Context {X : Type} (store : bio_ctx_t → gmap loc X)
  (set : (gmap loc X → gmap loc X) → bio_ctx_t → bio_ctx_t).

Lemma wp_deref p x (Q : X → bio_ctx_t → Prop) c :
  store c !! p = Some x → Q x c → wp (deref store p) Q c.
Proof. intros Hp HQ. apply wp_bind, wp_get. by eapply wp_need. Qed.

Lemma wp_update p f x (Q : unit → bio_ctx_t → Prop) c :
  store c !! p = Some x → Q tt (set <[p := f x]> c) → wp (update store set p f) Q c.
Proof. intros Hp HQ. apply wp_bind. by eapply wp_deref. Qed.

Lemma wp_free p x (Q : unit → bio_ctx_t → Prop) c :
  store c !! p = Some x → Q tt (set (delete p) c) → wp (free store set p) Q c.
Proof. intros Hp HQ. apply wp_bind. by eapply wp_deref. Qed.
End objects.

(** Find the object at an address after a few writes. *)
Ltac find_object :=
  cbn; first
    [ eassumption
    | rewrite lookup_insert_eq; reflexivity
    | rewrite lookup_insert_ne by congruence; find_object
    | rewrite lookup_delete_ne by congruence; find_object ].

Ltac ctx_step :=
  first
    [ wp_step
    | lazymatch goal with
      | |- wp (deref _ _) _ _ => eapply wp_deref; [find_object|]
      | |- wp (update _ _ _ _) _ _ => eapply wp_update; [find_object|]
      | |- wp (free _ _ _) _ _ => eapply wp_free; [find_object|]
      | |- wp (push_ready _) _ _ => apply wp_modify
      | |- wp running _ _ => apply wp_gets
      | |- wp bio_malloc _ _ => unfold bio_malloc
      end; cbn beta ].
Ltac ctx_steps := repeat ctx_step.

(** Equality of states that were reached by different sequences of writes. *)
Lemma ctx_ext (c c' : bio_ctx_t) :
  num_cls_buckets c = num_cls_buckets c' →
  is_terminating c = is_terminating c' →
  exit_handlers c = exit_handlers c' →
  htab c = htab c' →
  timer_heap c = timer_heap c' →
  current_time_ms c = current_time_ms c' →
  current_ready_coros c = current_ready_coros c' →
  next_ready_coros c = next_ready_coros c' →
  num_coros c = num_coros c' →
  num_daemons c = num_daemons c' →
  mco_running c = mco_running c' →
  clock_reads c = clock_reads c' →
  next_loc c = next_loc c' →
  coros c = coros c' →
  signals c = signals c' →
  monitors c = monitors c' →
  mailboxes c = mailboxes c' →
  timers c = timers c' →
  exit_infos c = exit_infos c' →
  service_datas c = service_datas c' →
  thread_pool c = thread_pool c' →
  bio_platform c = bio_platform c' →
  c = c'.
Proof. destruct c, c'; cbn. intros. subst. reflexivity. Qed.

Lemma coro_ext (co co' : bio_coro_impl_t) :
  co_entrypoint co = co_entrypoint co' →
  co_daemon co = co_daemon co' →
  co_userdata co = co_userdata co' →
  co_extra_data co = co_extra_data co' →
  co_extra_data_tag co = co_extra_data_tag co' →
  co_name co = co_name co' →
  co_cls_buckets co = co_cls_buckets co' →
  co_handle co = co_handle co' →
  co_state co = co_state co' →
  co_pending_signals co = co_pending_signals co' →
  co_monitors co = co_monitors co' →
  co_num_blocking_signals co = co_num_blocking_signals co' →
  co_wait_counter co = co_wait_counter co' →
  co = co'.
Proof. destruct co, co'; cbn. intros. subst. reflexivity. Qed.

Ltac ctx_eq :=
  apply ctx_ext; cbn; rewrite ?insert_insert_eq, ?delete_insert_eq; try reflexivity.
