(* ===== verification/Prog.v ===== *)
(** Coroutines as programs: the control flow of code that runs in a coroutine
    and may be suspended in the middle, the slice of execution between a resume
    and the next suspension, and a program logic for such code. *)
From S2P Require Import Prelude HandleTable TimerHeap Ctx.

(** ** Programs

    Code that never gives up control is a computation of type [M A]. Code that
    may call [mco_yield] is a [prog A]:
    - [Act m] runs [m] without giving up control;
    - [Susp m] runs [m] and calls [mco_yield] if the result is [true];
    - [Loop body s] is a C loop: [body] is run on the loop state until it
      returns [inr]. *)
Inductive prog : Type → Type :=
  | Ret {A} (a : A) : prog A
  | Act {A} (m : M A) : prog A
  | Susp (m : M bool) : prog unit
  | Bind {X A} (p : prog X) (k : X → prog A) : prog A
  | Loop {T A} (body : T → prog (T + A)) (s : T) : prog A.

Declare Scope prog_scope.
Delimit Scope prog_scope with prog.
Notation "'let!' x := p 'in' k" := (Bind p (λ x, k))
  (at level 200, x binder, p at level 100, k at level 200) : prog_scope.
Notation "p ;;; k" := (Bind p (λ _, k))
  (at level 100, k at level 200, right associativity) : prog_scope.
#[global] Open Scope prog_scope.

(** ** Execution

    A slice ends when the program ends or yields. [Spinning] says that a loop
    used up its fuel without doing either: the program holds the thread. *)
Inductive outcome (A : Type) : Type :=
  | Finished (a : A)
  | Suspended (p : prog A)
  | Spinning.
Arguments Finished {A} a.
Arguments Suspended {A} p.
Arguments Spinning {A}.

Fixpoint resume {A} (fuel : nat) (p : prog A) : M (outcome A) :=
  match p with
  | Ret a => mret (Finished a)
  | Act m => a ← m; mret (Finished a)
  | Susp m => b ← m; mret (if b : bool then Suspended (Ret tt) else Finished tt)
  | Bind p k =>
      o ← resume fuel p;
      match o with
      | Finished x => resume fuel (k x)
      | Suspended p' => mret (Suspended (Bind p' k))
      | Spinning => mret Spinning
      end
  | @Loop T A body s =>
      (fix iterate (n : nat) (s : T) : M (outcome A) :=
         match n with
         | O => mret Spinning
         | S n =>
             o ← resume fuel (body s);
             match o with
             | Finished (inl s') => iterate n s'
             | Finished (inr a) => mret (Finished a)
             | Suspended p' => mret (Suspended (Bind p' (λ r,
                 match r with inl s' => Loop body s' | inr a => Ret a end)))
             | Spinning => mret Spinning
             end
         end) fuel s
  end.

(** ** A program logic

    A rely-guarantee logic. [I w] is what a running coroutine may rely on and
    must preserve in every step, [Y w] is what it must establish when it yields;
    the index [w] is fixed during a slice and arbitrary in the next one. [R] is
    how the state may change while others run, [G] is how the coroutine itself
    may change it, and [le] is what is true of both. *)
Section logic.
Context {W : Type} (I Y : W → bio_ctx_t → Prop).
Context (R G le : bio_ctx_t → bio_ctx_t → Prop) `{!PreOrder R, !PreOrder G, !PreOrder le}.
Context (R_le : ∀ c c', R c c' → le c c') (G_le : ∀ c c', G c c' → le c c').

(** [psafe p Q c]: started in any state that others make of [c], every step
    of [p] is free of memory errors and respects the protocol, and [Q] holds
    of its result. *)
Fixpoint psafe {A} (p : prog A) : (A → bio_ctx_t → Prop) → bio_ctx_t → Prop :=
  match p with
  | Ret a => λ Q c, ∀ c', R c c' → Q a c'
  | Act m => λ Q c, ∀ w c', R c c' → I w c' →
      wp m (λ a c'', I w c'' ∧ G c' c'' ∧ ∀ c3, R c'' c3 → Q a c3) c'
  | Susp m => λ Q c, ∀ w c', R c c' → I w c' →
      wp m (λ b c'', (if b : bool then Y w c'' else I w c'') ∧ G c' c'' ∧
                     ∀ c3, R c'' c3 → Q tt c3) c'
  | Bind p k => λ Q c, psafe p (λ x c', psafe (k x) Q c') c
  | @Loop T A body s => λ Q c, ∃ Inv : T → bio_ctx_t → Prop,
      Inv s c ∧ (∀ s c c', Inv s c → R c c' → Inv s c') ∧
      ∀ s c, Inv s c → psafe (body s) (λ r c',
        match r with inl s' => Inv s' c' | inr a => ∀ c3, R c' c3 → Q a c3 end) c
  end.

Lemma psafe_le {A} (p : prog A) Q c c' : psafe p Q c → R c c' → psafe p Q c'.
Proof.
  revert Q. induction p as [A a|A m|m|X A p IHp k IHk|T A body IHb s]; cbn; intros Q H Hle.
  - intros c3 H3. apply H. by etrans.
  - intros w c3 H3. apply H. by etrans.
  - intros w c3 H3. apply H. by etrans.
  - by apply IHp.
  - destruct H as (Inv & H1 & H2 & H3). exists Inv. eauto.
Qed.

Lemma le_RG c c1 c2 c3 : R c c1 → G c1 c2 → R c2 c3 → le c c3.
Proof. intros H1%R_le H2%G_le H3%R_le. by do 2 (etrans; [done|]). Qed.

Lemma psafe_mono {A} (p : prog A) (P Q : A → bio_ctx_t → Prop) c :
  psafe p P c → (∀ a c', le c c' → P a c' → Q a c') → psafe p Q c.
Proof.
  revert P Q c. induction p as [A a|A m|m|X A p IHp k IHk|T A body IHb s];
    cbn; intros P Q c H HPQ.
  - intros c' Hle. auto.
  - intros w c' Hle HI. eapply wp_mono; [by apply H|]. cbn.
    intros a c'' (HI' & Hle' & HP). split_and!; [done|done|].
    intros c3 H3. apply HPQ; [by eapply le_RG|auto].
  - intros w c' Hle HI. eapply wp_mono; [by apply H|]. cbn.
    intros a c'' (HI' & Hle' & HP). split_and!; [done|done|].
    intros c3 H3. apply HPQ; [by eapply le_RG|auto].
  - eapply IHp; [done|]. cbn. intros x c' Hle Hk. eapply IHk; [done|].
    intros a c'' Hle' HP. apply HPQ; [by etrans|done].
  - destruct H as (Inv & H1 & H2 & H3).
    exists (λ s c', Inv s c' ∧ le c c'). split_and!; [done|reflexivity| |].
    + intros s' c1 c2 [Hi Hc] Hle. split; [eauto|]. etrans; [done|by apply R_le].
    + intros s' c1 [Hi Hc]. eapply IHb; [by apply H3|]. cbn.
      intros [s''|a] c2 Hle Hr; [split; [done|by etrans]|].
      intros c3 H3c. apply HPQ; [|auto]. do 2 (etrans; [done|]). by apply R_le.
Qed.

(** Every slice of a safe program is safe, and what remains of it after a
    suspension is safe in every later state. *)
Definition slice_post {A} (w : W) (Q : A → bio_ctx_t → Prop) (c : bio_ctx_t)
    (o : outcome A) (c' : bio_ctx_t) : Prop :=
  G c c' ∧
  match o with
  | Finished a => I w c' ∧ Q a c'
  | Suspended p => Y w c' ∧ psafe p Q c'
  | Spinning => True
  end.

Lemma slice_post_le {A} w (Q : A → bio_ctx_t → Prop) c c' o c'' :
  G c c' → slice_post w Q c' o c'' → slice_post w Q c o c''.
Proof. intros Hle [Hle' H]. split; [by etrans|done]. Qed.

Lemma resume_safe {A} fuel (p : prog A) w Q c :
  psafe p Q c → I w c → wp (resume fuel p) (slice_post w Q c) c.
Proof.
  revert Q c. induction p as [A a|A m|m|X A p IHp k IHk|T A body IHb s]; intros Q c H HI.
  - cbn in *. wp_steps. split; [reflexivity|]. split; [done|]. by apply H.
  - cbn in *. wp_use H; [reflexivity|exact HI|]. intros a c' (HI' & Hle & HQ). wp_steps.
    split; [done|]. split; [done|]. by apply HQ.
  - cbn in *. wp_use H; [reflexivity|exact HI|]. intros b c' (HI' & Hle & HQ). wp_steps.
    destruct b; (split; [done|]; split; [done|]); [done|by apply HQ].
  - cbn in *. wp_use (IHp _ _ H); [done|]. intros [x|p'|] c' [Hle Ho].
    + destruct Ho as [HI' Hk]. eapply wp_mono; [by apply IHk|].
      intros o c''. by apply slice_post_le.
    + wp_steps. split; [done|]. done.
    + wp_steps. done.
  - destruct H as (Inv & H1 & H2 & H3). cbn [resume]. generalize fuel at 2. intros n.
    revert s c H1 HI. induction n as [|n IHn]; intros s c H1 HI.
    { wp_steps. split; [reflexivity|done]. }
    wp_use IHb; [by apply H3|done|]. intros [[s'|a]|p'|] c' [Hle Ho].
    + destruct Ho as [HI' Hs']. eapply wp_mono; [by apply IHn|].
      intros o c''. by apply slice_post_le.
    + destruct Ho as [HI' HQ]. wp_steps. split; [done|]. split; [done|]. by apply HQ.
    + destruct Ho as [HY Hp']. wp_steps. split; [done|]. split; [done|]. cbn.
      eapply psafe_mono; [done|]. cbn. intros [s'|a] c'' Hle' Hr; cbn; [|done].
      exists Inv. by split_and!.
    + wp_steps. by split.
Qed.

(** Rules for building safe programs. *)
Lemma psafe_ret {A} (a : A) (Q : A → bio_ctx_t → Prop) c :
  (∀ c', R c c' → Q a c') → psafe (Ret a) Q c.
Proof. done. Qed.

Lemma psafe_bind {X A} (p : prog X) (k : X → prog A) Q c :
  psafe p (λ x c', psafe (k x) Q c') c → psafe (Bind p k) Q c.
Proof. done. Qed.

(** A step may be used with a postcondition that others do not invalidate. *)
Lemma psafe_act {A} (m : M A) (P Q : A → bio_ctx_t → Prop) c :
  (∀ w c', R c c' → I w c' → wp m (λ a c'', I w c'' ∧ G c' c'' ∧ P a c'') c') →
  (∀ a c1 c2, le c c1 → P a c1 → R c1 c2 → Q a c2) →
  psafe (Act m) Q c.
Proof.
  cbn. intros H HPQ w c' Hle HI. eapply wp_mono; [by apply H|]. cbn.
  intros a c'' (? & ? & HP). split_and!; [done|done|]. intros c3 H3.
  eapply HPQ; [|done|done]. by eapply le_RG.
Qed.
End logic.

(** The guarantee may be weakened. *)
Lemma psafe_guar {W A} (I Y : W → bio_ctx_t → Prop) (R G G' : bio_ctx_t → bio_ctx_t → Prop)
    (p : prog A) (P Q : A → bio_ctx_t → Prop) c :
  (∀ c c', G c c' → G' c c') → psafe I Y R G p P c → (∀ a c', P a c' → Q a c') →
  psafe I Y R G' p Q c.
Proof.
  intros HG. revert P Q c.
  induction p as [A a|A m|m|X A p IHp k IHk|T A body IHb s]; cbn; intros P Q c H HPQ.
  - auto.
  - intros w c' Hle HI. eapply wp_mono; [by apply H|]. cbn. intros a c'' (? & ? & ?). auto.
  - intros w c' Hle HI. eapply wp_mono; [by apply H|]. cbn. intros a c'' (? & ? & ?). auto.
  - eapply IHp; [exact H|]. cbn. intros x c' Hk. by eapply IHk.
  - destruct H as (Inv & H1 & H2 & H3). exists Inv. split_and!; [done..|].
    intros s' c' Hi. eapply IHb; [by apply H3|]. cbn. intros [s''|a] c'' Hr; [done|]. auto.
Qed.
