(* ===== verification/Store.v ===== *)
(** Generic invariants of the object stores: the correspondence between handles
    and objects, the objects linked in the lists of others, and what resolving,
    making and closing a handle does to them. *)
From S2P Require Import Prelude HandleTable TimerHeap Ctx.

(** ** Typed stores

    A store holds the objects of one kind; the handle table refers to them by
    address, under the tag of that kind. *)
Abbreviation lives := (gmap bio_handle_t (bio_tag_t * option loc)).

Section store.
Context {X : Type}.
Implicit Types (tg : bio_tag_t) (s : gmap loc X) (L : lives) (n p : loc).

(** Every live handle with the tag refers to an allocated object, no two to
    the same one, and addresses from [n] on are unused. *)
Record store_ok tg s L n : Prop := {
  so_live : ∀ h o, L !! h = Some (tg, o) → ∃ p, o = Some p ∧ is_Some (s !! p);
  so_inj : ∀ h h' p, L !! h = Some (tg, Some p) → L !! h' = Some (tg, Some p) → h = h';
  so_fresh : ∀ p, is_Some (s !! p) → (p < n)%positive;
}.

(** Objects that record their own handle: it is live and refers back. *)
Definition self_ok tg (hnd : X → bio_handle_t) s L : Prop :=
  ∀ p x, s !! p = Some x → L !! hnd x = Some (tg, Some p).

Lemma so_fresh_None tg s L n p : store_ok tg s L n → (n ≤ p)%positive → s !! p = None.
Proof.
  intros H Hn. apply eq_None_not_Some. intros Hs%(so_fresh _ _ _ _ H). lia.
Qed.

Lemma store_ok_next tg s L n n' :
  store_ok tg s L n → (n ≤ n')%positive → store_ok tg s L n'.
Proof. intros [H1 H2 H3] Hn. split; [done|done|]. intros p Hp%H3. lia. Qed.

Lemma store_ok_succ tg s L n : store_ok tg s L n → store_ok tg s L (Pos.succ n).
Proof. intros H. eapply store_ok_next; [done|lia]. Qed.

(** Another kind's handle comes and goes. *)
Lemma store_ok_make_other tg tg' s L n h o :
  store_ok tg s L n → tg' ≠ tg → L !! h = None → store_ok tg s (<[h := (tg', o)]> L) n.
Proof.
  intros [H1 H2 H3] Hne Hh. split; [| |done].
  - intros h' o'. rewrite lookup_insert_Some. intros [[_ [=]]|[_ ?]]; [done|eauto].
  - intros h1 h2 p. rewrite !lookup_insert_Some.
    intros [[_ [=]]|[_ ?]] [[_ [=]]|[_ ?]]; try done. eauto.
Qed.

Lemma self_ok_make tg hnd s L h y :
  self_ok tg hnd s L → L !! h = None → self_ok tg hnd s (<[h := y]> L).
Proof.
  intros H Hh p x Hp. apply H in Hp. rewrite lookup_insert_ne; [done|]. intros ->. congruence.
Qed.

Lemma store_ok_close_other tg s L n h :
  store_ok tg s L n → store_ok tg s (delete h L) n.
Proof.
  intros [H1 H2 H3]. split; [| |done].
  - intros h' o' [_ ?]%lookup_delete_Some. eauto.
  - intros h1 h2 p [_ ?]%lookup_delete_Some [_ ?]%lookup_delete_Some. eauto.
Qed.

Lemma self_ok_close_other tg tg' hnd s L h o :
  self_ok tg hnd s L → L !! h = Some (tg', o) → tg' ≠ tg → self_ok tg hnd s (delete h L).
Proof.
  intros H Hh Hne p x Hp. apply H in Hp. rewrite lookup_delete_ne; [done|]. intros ->. congruence.
Qed.

(** All objects of the kind change, not their handles. *)
Lemma store_ok_map tg s s' L n :
  store_ok tg s L n → dom s' = dom s → store_ok tg s' L n.
Proof.
  intros [H1 H2 H3] Hd. split; [|done|].
  - intros h o Ho. destruct (H1 _ _ Ho) as (p & -> & Hp). exists p. split; [done|].
    by rewrite <- elem_of_dom, Hd, elem_of_dom.
  - intros p. rewrite <- elem_of_dom, Hd, elem_of_dom. auto.
Qed.

Lemma self_ok_map tg hnd s s' L :
  self_ok tg hnd s L → (∀ p, hnd <$> s' !! p = hnd <$> s !! p) → self_ok tg hnd s' L.
Proof.
  intros H Hs p x Hp. specialize (Hs p). rewrite Hp in Hs.
  destruct (s !! p) as [y|] eqn:Ey; [|done]. injection Hs as ->. auto.
Qed.

(** An object of this kind is created. *)
Lemma store_ok_make tg s L n h x :
  store_ok tg s L n → L !! h = None →
  store_ok tg (<[n := x]> s) (<[h := (tg, Some n)]> L) (Pos.succ n).
Proof.
  intros Hok Hh. pose proof Hok as [H1 H2 H3].
  assert (Hn : ∀ h', L !! h' ≠ Some (tg, Some n)).
  { intros h' E. destruct (H1 _ _ E) as (p & [= <-] & Hp%H3). lia. }
  split.
  - intros h' o'. rewrite lookup_insert_Some. intros [[_ [= <-]]|[_ Ho]].
    + exists n. rewrite lookup_insert_eq. eauto.
    + destruct (H1 _ _ Ho) as (p & -> & Hp). exists p. split; [done|].
      rewrite lookup_insert_is_Some. destruct (decide (n = p)); auto.
  - intros h1 h2 p. rewrite !lookup_insert_Some.
    intros [[<- [= <-]]|[_ E1]] [[<- E2]|[_ E2]]; try done.
    + by apply Hn in E2.
    + injection E2 as <-. by apply Hn in E1.
    + eauto.
  - intros p. rewrite lookup_insert_is_Some. intros [->|[_ Hp%H3]]; lia.
Qed.

Lemma self_ok_insert tg hnd s L n h x :
  self_ok tg hnd s L → L !! h = None → hnd x = h →
  self_ok tg hnd (<[n := x]> s) (<[h := (tg, Some n)]> L).
Proof.
  intros H Hh Hx p y. rewrite lookup_insert_Some. intros [[<- <-]|[Hne Hp]].
  - by rewrite Hx, lookup_insert_eq.
  - apply H in Hp. rewrite lookup_insert_ne; [done|]. intros ->. congruence.
Qed.

(** An object of this kind is closed and freed. *)
Lemma store_ok_free tg s L n h p :
  store_ok tg s L n → L !! h = Some (tg, Some p) →
  store_ok tg (delete p s) (delete h L) n.
Proof.
  intros Hok Hh. pose proof Hok as [H1 H2 H3]. split.
  - intros h' o [Hne Ho]%lookup_delete_Some. destruct (H1 _ _ Ho) as (q & -> & Hq).
    exists q. split; [done|]. rewrite lookup_delete_ne; [done|]. intros ->. eauto.
  - intros h1 h2 q [_ ?]%lookup_delete_Some [_ ?]%lookup_delete_Some. eauto.
  - intros q. rewrite lookup_delete_is_Some. intros [_ Hq]. auto.
Qed.

Lemma self_ok_free tg hnd s L n h p :
  store_ok tg s L n → self_ok tg hnd s L → L !! h = Some (tg, Some p) →
  self_ok tg hnd (delete p s) (delete h L).
Proof.
  intros Hok H Hh q x [Hne Hq]%lookup_delete_Some. apply H in Hq.
  rewrite lookup_delete_ne; [done|]. intros ->. congruence.
Qed.

(** An object without a handle is freed. *)
Lemma store_ok_forget tg s L n p :
  store_ok tg s L n → (∀ h, L !! h ≠ Some (tg, Some p)) → store_ok tg (delete p s) L n.
Proof.
  intros [H1 H2 H3] Hp. split; [|done|].
  - intros h o Ho. destruct (H1 _ _ Ho) as (q & -> & Hq). exists q. split; [done|].
    rewrite lookup_delete_ne; [done|]. intros ->. by eapply Hp.
  - intros q. rewrite lookup_delete_is_Some. intros [_ Hq]. auto.
Qed.

(** An object changes, not its handle. *)
Lemma store_ok_update tg s L n p x :
  store_ok tg s L n → is_Some (s !! p) → store_ok tg (<[p := x]> s) L n.
Proof.
  intros [H1 H2 H3] Hp. split; [|done|].
  - intros h o Ho. destruct (H1 _ _ Ho) as (q & -> & Hq). exists q. split; [done|].
    rewrite lookup_insert_is_Some. destruct (decide (p = q)); auto.
  - intros q. rewrite lookup_insert_is_Some. intros [->|[_ Hq]]; auto.
Qed.

Lemma self_ok_update tg hnd s L p x y :
  self_ok tg hnd s L → s !! p = Some x → hnd y = hnd x → self_ok tg hnd (<[p := y]> s) L.
Proof.
  intros H Hp Hy q z. rewrite lookup_insert_Some. intros [[<- <-]|[_ Hq]]; [|auto].
  rewrite Hy. auto.
Qed.

(** Objects whose handle may be closed before they are freed: a live handle
    is the one that the object records. *)
Definition back_ok tg (hnd : X → bio_handle_t) s L : Prop :=
  ∀ h p x, L !! h = Some (tg, Some p) → s !! p = Some x → hnd x = h.

Lemma back_ok_make_other tg tg' hnd s L h o :
  back_ok tg hnd s L → tg' ≠ tg → back_ok tg hnd s (<[h := (tg', o)]> L).
Proof.
  intros H Hne h' p x [[_ [= ??]]|[_ ?]]%lookup_insert_Some Hp; [done|eauto].
Qed.

Lemma back_ok_close tg hnd s L h : back_ok tg hnd s L → back_ok tg hnd s (delete h L).
Proof. intros H h' p x [_ ?]%lookup_delete_Some. eauto. Qed.

Lemma back_ok_forget tg hnd s L p : back_ok tg hnd s L → back_ok tg hnd (delete p s) L.
Proof. intros H h' q x Hh [_ ?]%lookup_delete_Some. eauto. Qed.

Lemma back_ok_update tg hnd s L p x y :
  back_ok tg hnd s L → s !! p = Some x → hnd y = hnd x → back_ok tg hnd (<[p := y]> s) L.
Proof.
  intros H Hp Hy h q z Hh [[<- <-]|[_ ?]]%lookup_insert_Some; [rewrite Hy|]; eauto.
Qed.

Lemma back_ok_insert tg hnd s L n h x :
  store_ok tg s L n → back_ok tg hnd s L → L !! h = None → hnd x = h →
  back_ok tg hnd (<[n := x]> s) (<[h := (tg, Some n)]> L).
Proof.
  intros Hok H Hh Hx h' p y [[<- [= <-]]|[Hne Hl]]%lookup_insert_Some.
  - rewrite lookup_insert_eq. by intros [= <-].
  - destruct (so_live _ _ _ _ Hok _ _ Hl) as (p' & [= <-] & Hp'%(so_fresh _ _ _ _ Hok)).
    rewrite lookup_insert_ne by lia. eauto.
Qed.

Lemma so_resolve tg s L n h p :
  store_ok tg s L n → L !! h = Some (tg, Some p) → ∃ x, s !! p = Some x.
Proof. intros [H1 _ _] Hh. by destruct (H1 _ _ Hh) as (? & [= <-] & ?). Qed.
End store.

Create HintDb store discriminated.
#[export] Hint Resolve store_ok_make_other store_ok_close_other store_ok_update
  self_ok_make self_ok_close_other store_ok_succ
  store_ok_make self_ok_insert store_ok_free self_ok_free self_ok_update
  back_ok_make_other back_ok_close back_ok_forget back_ok_update back_ok_insert : store.
#[export] Hint Extern 1 (_ ≠ _ :> bio_tag_t) => discriminate : store.
#[export] Hint Extern 1 (is_Some _) => eexists; eassumption : store.
#[export] Hint Extern 1 (_ = _) => reflexivity : store.

(** ** Lists of objects

    Items that are linked in a list of their owner: an item records its owner
    in [link], an owner has its items, once each, in [lst]. *)
Section linked.
Context {X Own : Type} (link : X → option loc) (lst : Own → list loc).
Implicit Types (items : gmap loc X) (owners : gmap loc Own) (p q : loc).

Record linked items owners : Prop := {
  lk_item : ∀ p x, items !! p = Some x → ∃ q, link x = Some q ∧ is_Some (owners !! q);
  lk_nodup : ∀ q o, owners !! q = Some o → NoDup (lst o);
  lk_list : ∀ q o p, owners !! q = Some o →
    p ∈ lst o ↔ ∃ x, items !! p = Some x ∧ link x = Some q;
}.

Lemma linked_append items owners p q x o o' :
  linked items owners → owners !! q = Some o → items !! p = None → link x = Some q →
  lst o' = lst o ++ [p] → linked (<[p := x]> items) (<[q := o']> owners).
Proof.
  intros [H1 H2 H3] Hq Hp Hx Ho. split.
  - intros p' y [[<- <-]|[Hne Hy]]%lookup_insert_Some.
    + exists q. rewrite lookup_insert_eq. eauto.
    + destruct (H1 _ _ Hy) as (q' & ? & ?). exists q'. split; [done|].
      apply lookup_insert_is_Some'. auto.
  - intros q' o1 [[<- <-]|[Hne Hq']]%lookup_insert_Some; [|eauto].
    rewrite Ho. apply NoDup_app. split_and!; [eauto| |apply NoDup_singleton].
    intros p' (y & ? & _)%(H3 _ _ _ Hq) ->%list_elem_of_singleton. congruence.
  - intros q' o1 p' [[<- <-]|[Hne Hq']]%lookup_insert_Some.
    + rewrite Ho, elem_of_app, list_elem_of_singleton, (H3 _ _ p' Hq). split.
      * intros [(y & Hy & ?)| ->].
        -- exists y. rewrite lookup_insert_ne; [done|congruence].
        -- exists x. by rewrite lookup_insert_eq.
      * intros (y & [[<- <-]|[? ?]]%lookup_insert_Some & ?); eauto.
    + rewrite (H3 _ _ p' Hq'). split; intros (y & Hy & ?).
      * exists y. rewrite lookup_insert_ne; [done|congruence].
      * apply lookup_insert_Some in Hy as [[<- <-]|[? ?]]; [congruence|eauto].
Qed.

Lemma linked_remove items owners p q x o o' :
  linked items owners → items !! p = Some x → link x = Some q → owners !! q = Some o →
  lst o' = filter (λ y, y ≠ p) (lst o) → linked (delete p items) (<[q := o']> owners).
Proof.
  intros [H1 H2 H3] Hp Hx Hq Ho. split.
  - intros p' y [Hne Hy]%lookup_delete_Some.
    destruct (H1 _ _ Hy) as (q' & ? & ?). exists q'. split; [done|].
    apply lookup_insert_is_Some'. auto.
  - intros q' o1 [[<- <-]|[Hne Hq']]%lookup_insert_Some; [|eauto].
    rewrite Ho. apply NoDup_filter. eauto.
  - intros q' o1 p' [[<- <-]|[Hne Hq']]%lookup_insert_Some.
    + rewrite Ho, list_elem_of_filter, (H3 _ _ p' Hq). setoid_rewrite lookup_delete_Some.
      naive_solver.
    + rewrite (H3 _ _ p' Hq'). setoid_rewrite lookup_delete_Some. naive_solver.
Qed.

Lemma linked_owner items owners q o o' :
  linked items owners → owners !! q = Some o → lst o' = lst o →
  linked items (<[q := o']> owners).
Proof.
  intros [H1 H2 H3] Hq Ho. split.
  - intros p x Hp. destruct (H1 _ _ Hp) as (q' & ? & ?). exists q'. split; [done|].
    apply lookup_insert_is_Some'. auto.
  - intros q' o1 [[<- <-]|[_ ?]]%lookup_insert_Some; rewrite ?Ho; eauto.
  - intros q' o1 p [[<- <-]|[_ ?]]%lookup_insert_Some; rewrite ?Ho; eauto.
Qed.

Lemma linked_item items owners p x x' :
  linked items owners → items !! p = Some x → link x' = link x →
  linked (<[p := x']> items) owners.
Proof.
  intros [H1 H2 H3] Hp Hx. split; [|done|].
  - intros p' y [[<- <-]|[_ ?]]%lookup_insert_Some; rewrite ?Hx; eauto.
  - intros q o p' Hq. rewrite (H3 _ _ p' Hq). split; intros (y & Hy & ?).
    + destruct (decide (p' = p)) as [->|].
      * exists x'. rewrite lookup_insert_eq. split; [done|congruence].
      * exists y. by rewrite lookup_insert_ne.
    + apply lookup_insert_Some in Hy as [[<- <-]|[? ?]]; [|eauto].
      exists x. split; [done|congruence].
Qed.

(** All items change, but not their links. *)
Lemma linked_items items items' owners :
  linked items owners → (∀ p, link <$> items' !! p = link <$> items !! p) →
  linked items' owners.
Proof.
  intros [H1 H2 H3] Hi.
  assert (Hiff : ∀ p l, (∃ x, items' !! p = Some x ∧ link x = l) ↔
                        ∃ x, items !! p = Some x ∧ link x = l).
  { intros p l. specialize (Hi p). destruct (items' !! p) as [y|], (items !! p) as [z|]; cbn in Hi.
    - injection Hi as E. split; intros (x & [= <-] & <-); eauto.
    - done.
    - done.
    - tauto. }
  split; [|done|].
  - intros p x Hp. destruct (proj1 (Hiff p (link x))) as (y & Hy & E); [eauto|].
    rewrite <- E. eauto.
  - intros q o p Hq. rewrite Hiff. eauto.
Qed.

Lemma linked_new_owner items owners q o :
  linked items owners → owners !! q = None → lst o = [] → linked items (<[q := o]> owners).
Proof.
  intros [H1 H2 H3] Hq Ho. split.
  - intros p x Hp. destruct (H1 _ _ Hp) as (q' & ? & ?). exists q'. split; [done|].
    apply lookup_insert_is_Some'. auto.
  - intros q' o1 [[<- <-]|[_ ?]]%lookup_insert_Some; [|eauto]. rewrite Ho. constructor.
  - intros q' o1 p [[<- <-]|[_ ?]]%lookup_insert_Some; [|eauto]. rewrite Ho.
    split; [by intros ?%not_elem_of_nil|]. intros (x & Hx & Hl).
    destruct (H1 _ _ Hx) as (q' & ? & [? ?]). congruence.
Qed.

Lemma linked_del_owner items owners q o :
  linked items owners → owners !! q = Some o → lst o = [] → linked items (delete q owners).
Proof.
  intros [H1 H2 H3] Hq Ho. split.
  - intros p x Hp. destruct (H1 _ _ Hp) as (q' & Hx & ?). exists q'. split; [done|].
    rewrite lookup_delete_is_Some. split; [|done]. intros <-.
    assert (p ∈ lst o) as Hin by (apply (H3 _ _ _ Hq); eauto).
    rewrite Ho in Hin. by apply not_elem_of_nil in Hin.
  - intros q' o1 [_ ?]%lookup_delete_Some. eauto.
  - intros q' o1 p [_ ?]%lookup_delete_Some. eauto.
Qed.
End linked.

#[export] Hint Resolve linked_owner linked_item linked_new_owner : store.

(** ** Resolving and closing under the invariant *)

Definition lookup_tagged (L : lives) (h : bio_handle_t) (tg : bio_tag_t) : option loc :=
  match L !! h with
  | Some (tg', o) => if decide (tg' = tg) then o else None
  | None => None
  end.

Lemma lookup_tagged_Some (L : lives) h tg p :
  lookup_tagged L h tg = Some p ↔ L !! h = Some (tg, Some p).
Proof.
  unfold lookup_tagged. destruct (L !! h) as [[tg' o]|]; [|done].
  case_decide; [subst; naive_solver|naive_solver].
Qed.

(** A handle that went dead stays so as long as handles are only closed. *)
Lemma lookup_tagged_sub (L L' : lives) h tg :
  L' ⊆ L → lookup_tagged L h tg = None → lookup_tagged L' h tg = None.
Proof.
  intros Hs Hn. unfold lookup_tagged in *. destruct (L' !! h) as [x|] eqn:E; [|done].
  by rewrite (lookup_weaken _ _ _ _ E Hs) in Hn.
Qed.

Lemma wp_on_htab {A} (m : st (table bio_tag_t loc) A) Q c :
  wp m (λ a t, Q a (set_htab (λ _, t) c)) (htab c) → wp (on_htab m) Q c.
Proof. apply (wp_zoom htab (λ t, set_htab (λ _, t))). Qed.

Lemma resolve_handle_spec c h tg :
  HandleTable.wf (htab c) → known (htab c) h →
  wp (resolve_handle h tg) (λ r c', c' = c ∧ r = lookup_tagged (live (htab c)) h tg) c.
Proof.
  intros Hwf Hk. apply wp_on_htab. eapply wp_mono; [by apply resolve_spec|].
  cbn. intros r t [-> ->]. by destruct c.
Qed.

Lemma make_handle_spec c p tg :
  HandleTable.wf (htab c) →
  wp (make_handle p tg) (λ h c', ∃ t, c' = set_htab (λ _, t) c ∧ HandleTable.wf t ∧
    evolves (htab c) t ∧ live t = <[h := (tg, Some p)]> (live (htab c)) ∧
    live (htab c) !! h = None ∧ known t h ∧ h ≠ BIO_INVALID_HANDLE) c.
Proof.
  intros Hwf. apply wp_on_htab. eapply wp_mono; [by apply make_spec|].
  cbn. intros h t (Hwf' & Hnk & Hl & Hev & Hi). exists t.
  split_and!; try done.
  - apply eq_None_not_Some. intros Hs. by apply Hnk, live_known.
  - apply live_known. rewrite Hl, lookup_insert_eq. eauto.
  - intros ->. cbn in Hi. lia.
Qed.

(** A new handle is one that was never handed out before. *)
Lemma make_handle_fresh c p tg :
  HandleTable.wf (htab c) → wp (make_handle p tg) (λ h _, ¬ known (htab c) h) c.
Proof.
  intros Hwf. apply wp_on_htab. eapply wp_mono; [by apply make_spec|]. by intros h t (_ & ? & _).
Qed.

Lemma close_handle_spec c h tg :
  HandleTable.wf (htab c) → known (htab c) h →
  wp (close_handle h tg) (λ r c', ∃ t, c' = set_htab (λ _, t) c ∧ HandleTable.wf t ∧
    evolves (htab c) t ∧
    match live (htab c) !! h with
    | Some (tg', o) => if decide (tg' = tg) then r = o ∧ live t = delete h (live (htab c))
                       else r = None ∧ t = htab c
    | None => r = None ∧ t = htab c
    end) c.
Proof.
  intros Hwf Hk. apply wp_on_htab. eapply wp_mono; [by apply close_spec|]. naive_solver.
Qed.

(** Resolving and closing the handle of an object. *)
Lemma resolve_object {X} (store : bio_ctx_t → gmap loc X) tg c h n :
  HandleTable.wf (htab c) → store_ok tg (store c) (live (htab c)) n → known (htab c) h →
  wp (resolve_handle h tg) (λ r c', c' = c ∧ r = lookup_tagged (live (htab c)) h tg ∧
    ∀ p, r = Some p → live (htab c) !! h = Some (tg, Some p) ∧ ∃ x, store c !! p = Some x) c.
Proof.
  intros Hwf Hst Hk. eapply wp_mono; [by apply resolve_handle_spec|].
  intros r c' [-> ->]. split_and!; [done..|]. intros p Hp%lookup_tagged_Some.
  split; [done|]. by eapply so_resolve.
Qed.

Lemma close_object {X} (store : bio_ctx_t → gmap loc X) tg c h n :
  HandleTable.wf (htab c) → store_ok tg (store c) (live (htab c)) n → known (htab c) h →
  wp (close_handle h tg) (λ r c', r = lookup_tagged (live (htab c)) h tg ∧
    match r with
    | Some p => ∃ t x, c' = set_htab (λ _, t) c ∧ HandleTable.wf t ∧ evolves (htab c) t ∧
        live t = delete h (live (htab c)) ∧ live (htab c) !! h = Some (tg, Some p) ∧
        store c !! p = Some x
    | None => c' = c
    end) c.
Proof.
  intros Hwf Hst Hk. eapply wp_mono; [by apply close_handle_spec|].
  intros r c' (t & -> & Ht & Hev & Hc). unfold lookup_tagged.
  destruct (live (htab c) !! h) as [[tg' o]|] eqn:E; [|destruct Hc as [-> ->]; by destruct c].
  destruct (decide (tg' = tg)) as [->|]; [|destruct Hc as [-> ->]; by destruct c].
  destruct Hc as [-> Hl]. destruct (so_live _ _ _ _ Hst _ _ E) as (p & -> & x & Hx).
  split; [done|]. exists t, x. by split_and!.
Qed.

Lemma set_htab_id c : set_htab (λ _, htab c) c = c.
Proof. by destruct c. Qed.

