(* ===== verification/Ring.v ===== *)
(** Ring buffers with wrapping 32-bit counters: the representation shared by the
    mailboxes ([src/mailbox.c]) and its refinement of a bounded FIFO queue. *)
From S2P Require Import Prelude Bits.

Section ring.
Context {X : Type}.
Implicit Types (data : list (option X)) (q : list X) (x : X) (cap read write i : Z).

(** The buffer holds the queue [q]: [read] and [write] count modulo [2^32],
    their difference is the length of the queue, and its elements are in the
    cells from [read] on. A capacity of 0 is what [bio_next_pow2] makes of a
    capacity that is 0 or more than [2^31]. *)
Record ring cap data read write q : Prop := {
  ring_cap : pow2 cap ∨ cap = 0;
  ring_len : zlen data = cap;
  ring_read : 0 ≤ read < 4294967296;
  ring_write : write = u32 (read + zlen q);
  ring_bound : zlen q ≤ cap;
  ring_cells : ∀ i x, zlookup q i = Some x →
    zlookup data (bio_queue_index (u32 (read + i)) cap) = Some (Some x);
}.

Lemma ring_cap_bound cap data read write q : ring cap data read write q → 0 ≤ cap ≤ 2 ^ 31.
Proof. intros [[H%pow2_pos| ->] _ _ _ _ _]; lia. Qed.

Lemma ring_size cap data read write q :
  ring cap data read write q → u32 (write - read) = zlen q.
Proof.
  intros H. pose proof (ring_cap_bound _ _ _ _ _ H). pose proof (zlen_nonneg q).
  destruct H as [_ _ Hr -> Hb _]. rewrite <- (u32_small read) at 2 by done.
  apply u32_sub_wrap. lia.
Qed.

Lemma ring_empty cap data read write q :
  ring cap data read write q → read = write ↔ q = [].
Proof.
  intros H. pose proof (ring_size _ _ _ _ _ H) as Hs. split.
  - intros E. rewrite E, Z.sub_diag in Hs. destruct q; [done|].
    rewrite zlen_cons in Hs. pose proof (zlen_nonneg q). change (u32 0) with 0 in Hs. lia.
  - intros ->. rewrite (ring_write _ _ _ _ _ H). unfold zlen; cbn. rewrite Z.add_0_r.
    symmetry. apply u32_small, H.
Qed.

(** The queue is determined by the buffer. *)
Lemma ring_det cap data read write q q' :
  ring cap data read write q → ring cap data read write q' → q = q'.
Proof.
  intros H H'. pose proof (ring_size _ _ _ _ _ H) as Hs.
  pose proof (ring_size _ _ _ _ _ H') as Hs'. rewrite Hs in Hs'.
  apply list_eq_same_length with (length q); [unfold zlen in Hs'; lia|done|].
  intros i x y Hi Hx Hy.
  assert (Hx' : zlookup q (Z.of_nat i) = Some x) by (unfold zlookup; by rewrite decide_True, Nat2Z.id by lia).
  assert (Hy' : zlookup q' (Z.of_nat i) = Some y) by (unfold zlookup; by rewrite decide_True, Nat2Z.id by lia).
  apply (ring_cells _ _ _ _ _ H) in Hx'. apply (ring_cells _ _ _ _ _ H') in Hy'. congruence.
Qed.

Lemma ring_init v data :
  zlen data = bio_next_pow2 v → 0 ≤ v < 2 ^ 32 → ring (bio_next_pow2 v) data 0 0 [].
Proof.
  intros Hl Hv. split; try done.
  - destruct (decide (1 ≤ v ≤ 2 ^ 31)) as [Hd|Hd].
    + left. by apply bio_next_pow2_pow2.
    + right. rewrite bio_next_pow2_spec by done. by rewrite decide_False.
  - rewrite <- Hl. apply zlen_nonneg.
  - intros i x [? ?]%zlookup_range. unfold zlen in *; cbn in *. lia.
Qed.

Lemma ring_push cap data read write q x :
  ring cap data read write q → zlen q < cap →
  ring cap (zinsert (bio_queue_index write cap) (Some x) data) read (u32 (write + 1)) (q ++ [x]).
Proof.
  intros H Hlt. pose proof (ring_cap_bound _ _ _ _ _ H) as Hcap.
  destruct H as [Hc Hl Hr -> Hb Hcells]. pose proof (zlen_nonneg q) as Hq.
  destruct Hc as [Hc| ->]; [|lia].
  assert (Hidx : ∀ v, 0 ≤ v `mod` cap < zlen data) by (intros v; rewrite Hl; apply Z.mod_pos_bound; lia).
  split; [by left| |done| | |].
  - by rewrite zlen_zinsert.
  - rewrite zlen_snoc. unfold u32. by rewrite Zplus_mod_idemp_l, <- Z.add_assoc.
  - rewrite zlen_snoc. lia.
  - intros i y Hi. pose proof (zlookup_range _ _ _ Hi) as Hir. rewrite zlen_snoc in Hir.
    rewrite !bio_queue_index_mod, !u32_mod by done.
    destruct (decide (i = zlen q)) as [->|Hne].
    + rewrite zlookup_snoc_eq in Hi by done. injection Hi as ->.
      by apply zlookup_zinsert_eq.
    + rewrite zlookup_app, decide_True in Hi by lia. rewrite zlookup_zinsert_ne.
      * specialize (Hcells _ _ Hi). by rewrite bio_queue_index_mod, u32_mod in Hcells.
      * intros E. apply Hne.
        assert (D : (zlen q - i) `mod` cap = 0).
        { replace (zlen q - i) with (read + zlen q - (read + i)) by lia.
          by rewrite Zminus_mod, E, Z.sub_diag. }
        rewrite Z.mod_small in D; lia.
Qed.

(** The element may be written first, and counted later. *)
Lemma ring_write_free cap data read write q x :
  ring cap data read write q → zlen q < cap →
  ring cap (zinsert (bio_queue_index write cap) (Some x) data) read write q.
Proof.
  intros H Hlt. pose proof (ring_push _ _ _ _ _ x H Hlt) as [_ Hl _ _ _ Hcells].
  destruct H as [Hc _ Hr Hw Hb _]. split; try done. intros i y Hi. apply Hcells.
  pose proof (zlookup_range _ _ _ Hi). by rewrite zlookup_app, decide_True by lia.
Qed.

Lemma ring_publish cap data read write q x :
  ring cap data read write q → zlen q < cap →
  zlookup data (bio_queue_index write cap) = Some (Some x) →
  ring cap data read (u32 (write + 1)) (q ++ [x]).
Proof.
  intros H Hlt Hx. pose proof (ring_push _ _ _ _ _ x H Hlt) as Hp. by rewrite zinsert_id in Hp.
Qed.

Lemma ring_index cap data read write q i :
  ring cap data read write q → 0 < cap →
  ∃ cell, zlookup data (bio_queue_index i cap) = Some cell.
Proof.
  intros [[Hc| ->] Hl _ _ _ _] Hp; [|lia]. apply zlookup_in_range. rewrite Hl.
  rewrite bio_queue_index_mod by done. apply Z.mod_pos_bound. lia.
Qed.

Lemma ring_pop cap data read write q x :
  ring cap data read write (x :: q) →
  zlookup data (bio_queue_index read cap) = Some (Some x) ∧
  ring cap data (u32 (read + 1)) write q.
Proof.
  intros [Hc Hl Hr -> Hb Hcells]. rewrite zlen_cons in *. split.
  - specialize (Hcells 0 x eq_refl). by rewrite Z.add_0_r, u32_small in Hcells.
  - split; [done|done|apply u32_range| |lia|].
    + unfold u32. rewrite Zplus_mod_idemp_l. f_equal. lia.
    + intros i y Hi. pose proof (zlookup_range _ _ _ Hi).
      replace (u32 (u32 (read + 1) + i)) with (u32 (read + (i + 1))).
      * apply Hcells. change (x :: q) with ([x] ++ q).
        rewrite zlookup_app. change (zlen [x]) with 1. rewrite decide_False by lia.
        by replace (i + 1 - 1) with i by lia.
      * unfold u32. rewrite Zplus_mod_idemp_l. f_equal. lia.
Qed.

(** The queue that a buffer holds, computed from the buffer. *)
Definition ring_queue cap data read write : list X :=
  omap (λ i, mjoin (zlookup data (bio_queue_index (u32 (read + i)) cap)))
    (seqZ 0 (u32 (write - read))).

Lemma ring_queue_repr cap data read write q :
  ring cap data read write q → ring_queue cap data read write = q.
Proof.
  intros H. unfold ring_queue. rewrite (ring_size _ _ _ _ _ H).
  destruct H as [_ _ _ _ _ Hcells]. revert Hcells. generalize (λ i, u32 (read + i)) as f.
  intros f Hf. change q with ([] ++ q) in Hf. change 0 with (zlen (@nil X)).
  revert Hf. generalize (@nil X) as p. induction q as [|x q IH]; intros p Hf.
  { reflexivity. }
  rewrite zlen_cons, seqZ_cons by (pose proof (zlen_nonneg q); lia). cbn.
  rewrite (Hf (zlen p) x). 2:{ by rewrite zlookup_app, decide_False, Z.sub_diag by lia. }
  cbn. f_equal. replace (Z.succ (zlen p)) with (zlen (p ++ [x])) by (rewrite zlen_snoc; lia).
  replace (Z.pred (zlen q + 1)) with (zlen q) by lia.
  apply IH. by rewrite <- app_assoc.
Qed.
End ring.
