(* ===== verification/Spsc.v ===== *)
(** The queues between the main thread and a worker thread ([src/thread.c]): one
    thread produces, the other consumes, and each may wait for the other. Their
    operations are interleaved at every access to shared memory.

    A step of a thread is one atomic operation of the code: an access to an atomic
    counter or to a cell of the ring, a lock, a signal. The mutexes and condition
    variables of the C library are given the meaning that they are documented to
    have, spurious wake-ups included. Atomic counters wrap around. *)
From S2P Require Import Prelude Bits Ring.

Section spsc.
Context {V : Type}.

(** ** State *)

(** Which thread holds a mutex. *)
Inductive side := Producer | Consumer.

(** [bio_thread_signal_t]: the holder of the mutex, and whether a thread sleeps on
    the condition variable. *)
Record bio_thread_signal_t := mk_tsignal { mtx : option side; sleeper : bool }.

Definition bio_thread_signal_init : bio_thread_signal_t := mk_tsignal None false.

(** [bio_spscq_t]. The counters [head] and [tail] are converted to [unsigned int]
    when they are read. *)
Record bio_spscq_t := mk_spscq {
  can_produce : bio_thread_signal_t;
  can_consume : bio_thread_signal_t;
  count : Z;
  head : Z;
  tail : Z;
  values : list (option V);
  size : Z;
}.

Definition bio_spscq_init (size : Z) : bio_spscq_t :=
  mk_spscq bio_thread_signal_init bio_thread_signal_init 0 0 0 (replicate (Z.to_nat size) None) size.

(** What is left to do of [bio_spscq_produce]. *)
Inductive producer_pc :=
  | PIdle
  | PLoad (item : V) (wait : bool)  (* atomic_load(&queue->count) == queue->size *)
  | PLock (item : V)                (* mtx_lock(&queue->can_produce.mtx) *)
  | PTest (item : V)                (* while (queue->count == queue->size) *)
  | PSleep (item : V)               (* in cnd_wait *)
  | PUnlock (item : V)              (* mtx_unlock(&queue->can_produce.mtx) *)
  | PClaim (item : V)               (* atomic_fetch_add(&queue->tail, 1) *)
  | PWrite (item : V) (tail : Z)    (* queue->values[...] = item *)
  | PPublish (item : V)             (* atomic_fetch_add(&queue->count, 1) *)
  | PRaiseLock                      (* bio_thread_signal_raise(&queue->can_consume) *)
  | PRaiseSignal
  | PRaiseUnlock.

(** What is left to do of [bio_spscq_consume]. *)
Inductive consumer_pc :=
  | CIdle
  | CLoad (wait : bool)
  | CLock
  | CTest
  | CSleep
  | CUnlock
  | CClaim
  | CRead (head : Z)
  | CRelease (item : V)
  | CRaiseLock
  | CRaiseSignal
  | CRaiseUnlock.

(** A queue with its two threads. *)
Record spsc := mk_spsc { queue : bio_spscq_t; producer : producer_pc; consumer : consumer_pc }.

(** What a step does, for the outside. *)
Inductive event :=
  | Tau
  | Produced (item : V)
  | Refused             (* bio_spscq_produce returns false *)
  | Consumed (item : V)
  | Nothing.            (* bio_spscq_consume returns NULL *)

(** ** The code *)

Definition set_signals (f g : bio_thread_signal_t → bio_thread_signal_t) (q : bio_spscq_t) : bio_spscq_t :=
  mk_spscq (f (can_produce q)) (g (can_consume q)) (count q) (head q) (tail q) (values q) (size q).
Definition set_count (n : Z) (q : bio_spscq_t) : bio_spscq_t :=
  mk_spscq (can_produce q) (can_consume q) n (head q) (tail q) (values q) (size q).
Definition set_head (n : Z) (q : bio_spscq_t) : bio_spscq_t :=
  mk_spscq (can_produce q) (can_consume q) (count q) n (tail q) (values q) (size q).
Definition set_tail (n : Z) (q : bio_spscq_t) : bio_spscq_t :=
  mk_spscq (can_produce q) (can_consume q) (count q) (head q) n (values q) (size q).
Definition set_values (l : list (option V)) (q : bio_spscq_t) : bio_spscq_t :=
  mk_spscq (can_produce q) (can_consume q) (count q) (head q) (tail q) l (size q).

Definition lock (t : side) (s : bio_thread_signal_t) : bio_thread_signal_t := mk_tsignal (Some t) (sleeper s).
Definition unlock (s : bio_thread_signal_t) : bio_thread_signal_t := mk_tsignal None (sleeper s).
(** [cnd_wait] gives the mutex up and sleeps, in one step. *)
Definition fall_asleep (s : bio_thread_signal_t) : bio_thread_signal_t := mk_tsignal None true.
Definition wake (s : bio_thread_signal_t) : bio_thread_signal_t := mk_tsignal (mtx s) false.

(** The next step of [bio_spscq_produce]; [None] if it has to wait. *)
Definition bio_spscq_produce (q : bio_spscq_t) (pc : producer_pc) :
    option (event * bio_spscq_t * producer_pc) :=
  match pc with
  | PIdle => None
  | PLoad item wait =>
      if count q =? size q
      then if wait then Some (Tau, q, PLock item) else Some (Refused, q, PIdle)
      else Some (Tau, q, PClaim item)
  | PLock item =>
      match mtx (can_produce q) with
      | None => Some (Tau, set_signals (lock Producer) id q, PTest item)
      | Some _ => None
      end
  | PTest item =>
      if count q =? size q then Some (Tau, set_signals fall_asleep id q, PSleep item)
      else Some (Tau, q, PUnlock item)
  | PSleep item => if sleeper (can_produce q) then None else Some (Tau, q, PLock item)
  | PUnlock item => Some (Tau, set_signals unlock id q, PClaim item)
  | PClaim item => Some (Tau, set_tail (u32 (tail q + 1)) q, PWrite item (tail q))
  | PWrite item tail =>
      let index := bio_queue_index tail (size q) in
      match zlookup (values q) index with
      | Some _ => Some (Tau, set_values (zinsert index (Some item) (values q)) q, PPublish item)
      | None => None
      end
  | PPublish item =>
      Some (Produced item, set_count (to_int (count q + 1)) q,
        if count q =? 0 then PRaiseLock else PIdle)
  | PRaiseLock =>
      match mtx (can_consume q) with
      | None => Some (Tau, set_signals id (lock Producer) q, PRaiseSignal)
      | Some _ => None
      end
  | PRaiseSignal => Some (Tau, set_signals id wake q, PRaiseUnlock)
  | PRaiseUnlock => Some (Tau, set_signals id unlock q, PIdle)
  end.

(** The next step of [bio_spscq_consume]. *)
Definition bio_spscq_consume (q : bio_spscq_t) (pc : consumer_pc) :
    option (event * bio_spscq_t * consumer_pc) :=
  match pc with
  | CIdle => None
  | CLoad wait =>
      if count q =? 0
      then if wait then Some (Tau, q, CLock) else Some (Nothing, q, CIdle)
      else Some (Tau, q, CClaim)
  | CLock =>
      match mtx (can_consume q) with
      | None => Some (Tau, set_signals id (lock Consumer) q, CTest)
      | Some _ => None
      end
  | CTest =>
      if count q =? 0 then Some (Tau, set_signals id fall_asleep q, CSleep)
      else Some (Tau, q, CUnlock)
  | CSleep => if sleeper (can_consume q) then None else Some (Tau, q, CLock)
  | CUnlock => Some (Tau, set_signals id unlock q, CClaim)
  | CClaim => Some (Tau, set_head (u32 (head q + 1)) q, CRead (head q))
  | CRead head =>
      match zlookup (values q) (bio_queue_index head (size q)) with
      | Some (Some item) => Some (Tau, q, CRelease item)
      | _ => None
      end
  | CRelease item =>
      Some (Consumed item, set_count (to_int (count q - 1)) q,
        if count q =? size q then CRaiseLock else CIdle)
  | CRaiseLock =>
      match mtx (can_produce q) with
      | None => Some (Tau, set_signals (lock Consumer) id q, CRaiseSignal)
      | Some _ => None
      end
  | CRaiseSignal => Some (Tau, set_signals wake id q, CRaiseUnlock)
  | CRaiseUnlock => Some (Tau, set_signals unlock id q, CIdle)
  end.

(** The threads take their steps in any order, and begin an operation whenever the
    one before is over. *)
Inductive spsc_step (s : spsc) : event → spsc → Prop :=
  | step_produce e q pc :
      bio_spscq_produce (queue s) (producer s) = Some (e, q, pc) →
      spsc_step s e (mk_spsc q pc (consumer s))
  | step_consume e q pc :
      bio_spscq_consume (queue s) (consumer s) = Some (e, q, pc) →
      spsc_step s e (mk_spsc q (producer s) pc)
  | step_begin_produce item wait :
      producer s = PIdle → spsc_step s Tau (mk_spsc (queue s) (PLoad item wait) (consumer s))
  | step_begin_consume wait :
      consumer s = CIdle → spsc_step s Tau (mk_spsc (queue s) (producer s) (CLoad wait))
  | step_spurious_produce item :
      producer s = PSleep item →
      spsc_step s Tau (mk_spsc (set_signals wake id (queue s)) (producer s) (consumer s))
  | step_spurious_consume :
      consumer s = CSleep →
      spsc_step s Tau (mk_spsc (set_signals id wake (queue s)) (producer s) (consumer s)).

Inductive spsc_run : spsc → list event → spsc → Prop :=
  | run_nil s : spsc_run s [] s
  | run_snoc s l s1 e s2 : spsc_run s l s1 → spsc_step s1 e s2 → spsc_run s (l ++ [e]) s2.

Definition spsc_init (size : Z) : spsc := mk_spsc (bio_spscq_init size) PIdle CIdle.

(** ** The specification: a bounded queue *)

Inductive fifo_step (cap : Z) (q : list V) : event → list V → Prop :=
  | fifo_tau : fifo_step cap q Tau q
  | fifo_produced item : zlen q < cap → fifo_step cap q (Produced item) (q ++ [item])
  | fifo_refused : zlen q = cap → fifo_step cap q Refused q
  | fifo_consumed item q' : q = item :: q' → fifo_step cap q (Consumed item) q'
  | fifo_nothing : q = [] → fifo_step cap q Nothing q.

Inductive fifo_run (cap : Z) : list event → list V → Prop :=
  | fifo_run_nil : fifo_run cap [] []
  | fifo_run_snoc l q e q' : fifo_run cap l q → fifo_step cap q e q' → fifo_run cap (l ++ [e]) q'.

(** ** The invariant *)

Definition claimed_tail (pc : producer_pc) (write : Z) : Z :=
  match pc with PWrite _ _ | PPublish _ => u32 (write + 1) | _ => write end.
Definition claimed_head (pc : consumer_pc) (read : Z) : Z :=
  match pc with CRead _ | CRelease _ => u32 (read + 1) | _ => read end.

(** What the threads know of the contents [f] of the queue, between its [read] and
    [write] counters. *)
Definition producer_knows (q : bio_spscq_t) (f : list V) (write : Z) (pc : producer_pc) : Prop :=
  match pc with
  | PUnlock _ | PClaim _ => zlen f < size q
  | PWrite _ tail => zlen f < size q ∧ tail = write
  | PPublish item =>
      zlen f < size q ∧ zlookup (values q) (bio_queue_index write (size q)) = Some (Some item)
  | _ => True
  end.
Definition consumer_knows (f : list V) (read : Z) (pc : consumer_pc) : Prop :=
  match pc with
  | CUnlock | CClaim => f ≠ []
  | CRead head => f ≠ [] ∧ head = read
  | CRelease item => ∃ f', f = item :: f'
  | _ => True
  end.

(** Who holds the mutexes. *)
Definition produces_in (pc : producer_pc) : bool := match pc with PTest _ | PUnlock _ => true | _ => false end.
Definition consumes_in (pc : consumer_pc) : bool := match pc with CTest | CUnlock => true | _ => false end.
Definition producer_raising (pc : producer_pc) : bool :=
  match pc with PRaiseSignal | PRaiseUnlock => true | _ => false end.
Definition consumer_raising (pc : consumer_pc) : bool :=
  match pc with CRaiseSignal | CRaiseUnlock => true | _ => false end.

Definition mutex_ok (m : option side) (p c : bool) : Prop :=
  match m with
  | None => p = false ∧ c = false
  | Some Producer => p = true ∧ c = false
  | Some Consumer => p = false ∧ c = true
  end.

Definition producer_asleep (pc : producer_pc) : bool := match pc with PSleep _ => true | _ => false end.
Definition consumer_asleep (pc : consumer_pc) : bool := match pc with CSleep => true | _ => false end.

(** The threads that are about to send a wake-up. *)
Definition producer_will_signal (pc : producer_pc) : bool :=
  match pc with PRaiseLock | PRaiseSignal => true | _ => false end.
Definition consumer_will_signal (pc : consumer_pc) : bool :=
  match pc with CRaiseLock | CRaiseSignal => true | _ => false end.

Record spsc_ok (cap read write : Z) (f : list V) (s : spsc) : Prop := {
  ok_size : size (queue s) = cap;
  ok_cap : pow2 cap ∧ cap ≤ INT_MAX;
  ok_ring : ring cap (values (queue s)) read write f;
  ok_count : count (queue s) = zlen f;
  ok_tail : tail (queue s) = claimed_tail (producer s) write;
  ok_head : head (queue s) = claimed_head (consumer s) read;
  ok_producer : producer_knows (queue s) f write (producer s);
  ok_consumer : consumer_knows f read (consumer s);
  ok_mtx_produce : mutex_ok (mtx (can_produce (queue s))) (produces_in (producer s)) (consumer_raising (consumer s));
  ok_mtx_consume : mutex_ok (mtx (can_consume (queue s))) (producer_raising (producer s)) (consumes_in (consumer s));
  ok_producer_sleeps : sleeper (can_produce (queue s)) = true →
    producer_asleep (producer s) = true ∧ (zlen f = cap ∨ consumer_will_signal (consumer s) = true);
  ok_consumer_sleeps : sleeper (can_consume (queue s)) = true →
    consumer_asleep (consumer s) = true ∧ (zlen f = 0 ∨ producer_will_signal (producer s) = true);
}.

Lemma spsc_init_ok cap : pow2 cap → cap ≤ INT_MAX → spsc_ok cap 0 0 [] (spsc_init cap).
Proof.
  intros Hc Hm. pose proof (pow2_pos _ Hc). split; try done. split; try done.
  - by left.
  - cbn. unfold zlen. rewrite length_replicate. lia.
  - unfold zlen. cbn. lia.
  - intros i x Hi%zlookup_range. unfold zlen in Hi. cbn in Hi. lia.
Qed.

(** *** The steps *)

Lemma zlen_zero (f : list V) : zlen f = 0 → f = [].
Proof. by destruct f. Qed.
Lemma zlen_not_zero (f : list V) : zlen f ≠ 0 → f ≠ [].
Proof. by intros H ->. Qed.

Lemma ring_room cap data read write (f : list V) :
  ring cap data read write f → zlen f ≠ cap → zlen f < cap.
Proof. intros [_ _ _ _ H _] ?. lia. Qed.

Lemma int_count cap data read write (f : list V) d :
  ring cap data read write f → cap ≤ INT_MAX → -1 ≤ d ≤ 1 → zlen f + d ≤ cap →
  to_int (zlen f + d) = zlen f + d.
Proof.
  intros _ Hc Hd Hle. pose proof (zlen_nonneg f). apply to_int_small.
  unfold INT_MAX, INT_MIN in *. lia.
Qed.

Lemma mutex_take_p c : mutex_ok None false c → mutex_ok (Some Producer) true c.
Proof. by intros []. Qed.
Lemma mutex_take_c p : mutex_ok None p false → mutex_ok (Some Consumer) p true.
Proof. by intros []. Qed.
Lemma mutex_give_p m c : mutex_ok m true c → mutex_ok None false c.
Proof. by destruct m as [[]|]; intros []. Qed.
Lemma mutex_give_c m p : mutex_ok m p true → mutex_ok None p false.
Proof. by destruct m as [[]|]; intros []. Qed.

#[local] Hint Resolve mutex_take_p mutex_take_c mutex_give_p mutex_give_c ring_room zlen_zero zlen_not_zero : core.
#[local] Hint Constructors fifo_step : core.

Ltac spsc_simplify :=
  repeat match goal with
  | H : _ ∧ _ |- _ => destruct H
  | H : Some _ = Some _ |- _ => injection H as <- <- <-
  | H : None = Some _ |- _ => discriminate H
  | H : (_ =? _) = true |- _ => apply Z.eqb_eq in H
  | H : (_ =? _) = false |- _ => apply Z.eqb_neq in H
  end.

Ltac spsc_solve := cbn -[mutex_ok]; first [done | by eauto | by intuition eauto | lia].

Lemma consumer_knows_snoc f r pc x : consumer_knows f r pc → consumer_knows (f ++ [x]) r pc.
Proof.
  assert (f ≠ [] → f ++ [x] ≠ []) by (by destruct f).
  destruct pc; cbn; try tauto. intros (f' & ->). by exists (f' ++ [x]).
Qed.

Lemma producer_knows_tail q q' f x w pc :
  producer_knows q (x :: f) w pc → size q' = size q → values q' = values q → producer_knows q' f w pc.
Proof. intros H Hs Hv. destruct pc; cbn in *; rewrite ?Hs, ?Hv, ?zlen_cons in *; intuition lia. Qed.

Lemma produce_ok cap r w f s e q pc :
  spsc_ok cap r w f s → bio_spscq_produce (queue s) (producer s) = Some (e, q, pc) →
  ∃ w' f', fifo_step cap f e f' ∧ spsc_ok cap r w' f' (mk_spsc q pc (consumer s)).
Proof.
  destruct s as [[[mp sp] [mc sc] n hd tl vs sz] p c].
  intros [Hsz [Hcap Hmax] Hr Hn Ht Hh Hp Hc Hmp Hmc Hsp Hsc] E. cbn -[mutex_ok] in *. subst.
  destruct p as [|item wait|item|item|item|item|item|item t|item| | |]; cbn -[mutex_ok] in *.
  all: repeat case_match; spsc_simplify; subst.
  all: try (exists w, f; split; [by auto|split; spsc_solve]; fail).
  - exists w, f. split; [by auto|]. split; try spsc_solve; cbn.
    + by apply ring_write_free.
    + split; [done|]. apply zlookup_zinsert_eq. by eapply zlookup_range.
  - exists (u32 (w + 1)), (f ++ [item]). split; [by auto|]. split; try spsc_solve; cbn.
    + by apply ring_publish.
    + rewrite zlen_snoc. eapply int_count; [exact Hr|done|lia|lia].
    + by apply consumer_knows_snoc.
  - exists (u32 (w + 1)), (f ++ [item]). split; [by auto|]. split; try spsc_solve; cbn.
    + by apply ring_publish.
    + rewrite zlen_snoc. eapply int_count; [exact Hr|done|lia|lia].
    + by apply consumer_knows_snoc.
Qed.

Lemma consume_ok cap r w f s e q pc :
  spsc_ok cap r w f s → bio_spscq_consume (queue s) (consumer s) = Some (e, q, pc) →
  ∃ r' f', fifo_step cap f e f' ∧ spsc_ok cap r' w f' (mk_spsc q (producer s) pc).
Proof.
  destruct s as [[[mp sp] [mc sc] n hd tl vs sz] p c].
  intros [Hsz [Hcap Hmax] Hr Hn Ht Hh Hp Hc Hmp Hmc Hsp Hsc] E. cbn -[mutex_ok] in *. subst.
  destruct c as [|wait| | | | | |h|item| | |]; cbn -[mutex_ok] in *.
  all: repeat case_match; spsc_simplify; subst.
  all: try (exists r, f; split; [by auto|split; spsc_solve]; fail).
  - destruct f as [|x f]; [done|]. destruct (ring_pop _ _ _ _ _ _ Hr) as [Hx _]. simplify_eq.
    exists r, (v :: f). split; [by auto|]. split; spsc_solve.
  - destruct Hc as (f' & ->). destruct (ring_pop _ _ _ _ _ _ Hr) as [_ Hr'].
    pose proof (zlen_cons item f') as Hl. pose proof (zlen_nonneg f'). pose proof (ring_bound _ _ _ _ _ Hr).
    exists (u32 (r + 1)), f'. split; [by eauto|]. split; try spsc_solve; cbn.
    + rewrite to_int_small; unfold INT_MAX, INT_MIN in *; lia.
    + by eapply producer_knows_tail.
  - destruct Hc as (f' & ->). destruct (ring_pop _ _ _ _ _ _ Hr) as [_ Hr'].
    pose proof (zlen_cons item f') as Hl. pose proof (zlen_nonneg f'). pose proof (ring_bound _ _ _ _ _ Hr).
    exists (u32 (r + 1)), f'. split; [by eauto|]. split; try spsc_solve; cbn.
    + rewrite to_int_small; unfold INT_MAX, INT_MIN in *; lia.
    + by eapply producer_knows_tail.
Qed.

Lemma step_ok cap r w f s e s' :
  spsc_ok cap r w f s → spsc_step s e s' →
  ∃ r' w' f', fifo_step cap f e f' ∧ spsc_ok cap r' w' f' s'.
Proof.
  intros Hok Hs. destruct Hs as [e q pc E|e q pc E|item wait Hp|wait Hc|item Hp|Hc].
  - destruct (produce_ok _ _ _ _ _ _ _ _ Hok E) as (w' & f' & ? & ?). by exists r, w', f'.
  - destruct (consume_ok _ _ _ _ _ _ _ _ Hok E) as (r' & f' & ? & ?). by exists r', w, f'.
  - exists r, w, f. split; [constructor|]. destruct Hok. rewrite Hp in *. split; spsc_solve.
  - exists r, w, f. split; [constructor|]. destruct Hok. rewrite Hc in *. split; spsc_solve.
  - exists r, w, f. split; [constructor|]. destruct Hok. rewrite Hp in *. split; spsc_solve.
  - exists r, w, f. split; [constructor|]. destruct Hok. rewrite Hc in *. split; spsc_solve.
Qed.

(** A state that the threads reach, with the contents of the queue. *)
Definition reaches (cap : Z) (l : list event) (f : list V) (s : spsc) : Prop :=
  ∃ r w, spsc_ok cap r w f s ∧ fifo_run cap l f.

Lemma run_ok cap l s :
  pow2 cap → cap ≤ INT_MAX → spsc_run (spsc_init cap) l s → ∃ f, reaches cap l f s.
Proof.
  intros Hc Hm Hr. remember (spsc_init cap) as s0 eqn:E. induction Hr as [s|s l s1 e s2 Hr IH Hs].
  - subst. exists [], 0, 0. split; [by apply spsc_init_ok|constructor].
  - destruct (IH E) as (f & r & w & Hok & Hf).
    destruct (step_ok _ _ _ _ _ _ _ Hok Hs) as (r' & w' & f' & He & Hok').
    exists f', r', w'. split; [done|]. by econstructor.
Qed.

(** ** What the queue promises *)

(** What was produced, and what was consumed, in their order. *)
Definition produced_by (e : event) : option V := match e with Produced v => Some v | _ => None end.
Definition consumed_by (e : event) : option V := match e with Consumed v => Some v | _ => None end.

Lemma fifo_run_order cap l q :
  fifo_run cap l q → omap produced_by l = omap consumed_by l ++ q.
Proof.
  induction 1 as [|l q e q' _ IH Hs]; [done|]. rewrite !omap_app, IH.
  destruct Hs as [|v _| |v q' ->|]; cbn; rewrite ?app_nil_r, <- ?app_assoc; done.
Qed.

(** C19: However the steps of the two threads are interleaved, the queue behaves like a
    bounded queue whose operations happen at once: it refuses only when it is full,
    is empty only when it is, and gives every item once, in the order in which the
    items were put in. *)
Theorem spsc_refines_fifo cap l s :
  pow2 cap → cap ≤ INT_MAX → spsc_run (spsc_init cap) l s →
  ∃ q, fifo_run cap l q ∧ omap produced_by l = omap consumed_by l ++ q ∧ zlen q ≤ cap.
Proof.
  intros Hc Hm Hr. destruct (run_ok _ _ _ Hc Hm Hr) as (f & r & w & Hok & Hf). exists f.
  split_and!; [done|by apply (fifo_run_order cap)|]. apply (ok_ring _ _ _ _ _ Hok).
Qed.

(** Whether a thread can take a step. *)
Definition producer_runs (s : spsc) : Prop := is_Some (bio_spscq_produce (queue s) (producer s)).
Definition consumer_runs (s : spsc) : Prop := is_Some (bio_spscq_consume (queue s) (consumer s)).

Lemma holder_runs_c s :
  consumer_raising (consumer s) = true ∨ consumes_in (consumer s) = true → consumer_runs s.
Proof.
  unfold consumer_runs. destruct (consumer s); cbn; intros [?|?]; try done. case_match; eauto.
Qed.

Lemma holder_runs_p s :
  producer_raising (producer s) = true ∨ produces_in (producer s) = true → producer_runs s.
Proof.
  unfold producer_runs. destruct (producer s); cbn; intros [?|?]; try done. case_match; eauto.
Qed.

(** A thread that cannot run has nothing to do, sleeps, or waits for the other one to
    give up a mutex. *)
Lemma producer_blocked cap r w f s :
  spsc_ok cap r w f s → producer_runs s ∨ consumer_runs s ∨ producer s = PIdle ∨
    (producer_asleep (producer s) = true ∧ sleeper (can_produce (queue s)) = true).
Proof.
  intros Hok. destruct (decide (producer_runs s)) as [|Hn]; [by left|]. right.
  destruct Hok as [Hsz [Hcap _] Hr _ _ _ Hp _ Hmp Hmc _ _].
  pose proof (holder_runs_c s) as Hh. unfold producer_runs in Hn.
  destruct (producer s) as [|item wait|item|item|item|item|item|item t|item| | |]; cbn in Hn, Hmp, Hmc, Hp;
    try (exfalso; apply Hn; repeat case_match; by eauto); auto.
  - destruct (mtx (can_produce (queue s))) as [[]|]; [by destruct Hmp| |exfalso; apply Hn; eauto].
    left. apply Hh. destruct Hmp. auto.
  - destruct (sleeper _); [auto|exfalso; apply Hn; eauto].
  - destruct Hp as [Hlt ->]. rewrite Hsz in *. exfalso. apply Hn.
    pose proof (zlen_nonneg f).
    destruct (ring_index _ _ _ _ _ w Hr) as [cell ->]; [lia|eauto].
  - destruct (mtx (can_consume (queue s))) as [[]|]; [by destruct Hmc| |exfalso; apply Hn; eauto].
    left. apply Hh. destruct Hmc. auto.
Qed.

Lemma consumer_blocked cap r w f s :
  spsc_ok cap r w f s → consumer_runs s ∨ producer_runs s ∨ consumer s = CIdle ∨
    (consumer_asleep (consumer s) = true ∧ sleeper (can_consume (queue s)) = true).
Proof.
  intros Hok. destruct (decide (consumer_runs s)) as [|Hn]; [by left|]. right.
  destruct Hok as [Hsz [Hcap _] Hr _ _ _ _ Hc Hmp Hmc _ _].
  pose proof (holder_runs_p s) as Hh. unfold consumer_runs in Hn.
  destruct (consumer s) as [|wait| | | | | |h|item| | |]; cbn in Hn, Hmp, Hmc, Hc;
    try (exfalso; apply Hn; repeat case_match; by eauto); auto.
  - destruct (mtx (can_consume (queue s))) as [[]|]; [|by destruct Hmc|exfalso; apply Hn; eauto].
    left. apply Hh. destruct Hmc. auto.
  - destruct (sleeper _); [auto|exfalso; apply Hn; eauto].
  - destruct Hc as [Hf ->]. rewrite Hsz in *. exfalso. apply Hn.
    destruct f as [|x f]; [done|]. destruct (ring_pop _ _ _ _ _ _ Hr) as [-> _]. eauto.
  - destruct (mtx (can_produce (queue s))) as [[]|]; [|by destruct Hmp|exfalso; apply Hn; eauto].
    left. apply Hh. destruct Hmp. auto.
Qed.

(** C20: No wake-up is lost between the threads: as long as one of them is in the middle of
    an operation, one of them can go on, unless it sleeps and has to: the producer
    because the queue is full, or the consumer because it is empty, while the other has
    nothing to do. *)
Theorem spsc_no_lost_wakeup cap l s :
  pow2 cap → cap ≤ INT_MAX → spsc_run (spsc_init cap) l s →
  producer_runs s ∨ consumer_runs s ∨ (producer s = PIdle ∧ consumer s = CIdle) ∨
  (producer_asleep (producer s) = true ∧ consumer s = CIdle ∧ count (queue s) = cap) ∨
  (consumer_asleep (consumer s) = true ∧ producer s = PIdle ∧ count (queue s) = 0).
Proof.
  intros Hcap Hm Hr. destruct (run_ok _ _ _ Hcap Hm Hr) as (f & r & w & Hok & _).
  pose proof (pow2_pos _ Hcap). pose proof (ok_count _ _ _ _ _ Hok) as Hn.
  pose proof (ok_producer_sleeps _ _ _ _ _ Hok) as Hsp.
  pose proof (ok_consumer_sleeps _ _ _ _ _ Hok) as Hsc.
  destruct (producer_blocked _ _ _ _ _ Hok) as [?|[?|Hp]]; [auto..|].
  destruct (consumer_blocked _ _ _ _ _ Hok) as [?|[?|Hc]]; [auto..|].
  do 2 right. rewrite Hn. destruct Hp as [Hp|[Hp Hps]], Hc as [Hc|[Hc Hcs]].
  - by left.
  - right. right. destruct (Hsc Hcs) as [_ [Hf|Hw]]; [done|]. by rewrite Hp in Hw.
  - right. left. destruct (Hsp Hps) as [_ [Hf|Hw]]; [done|]. by rewrite Hc in Hw.
  - exfalso. destruct (Hsp Hps) as [_ [Hf|Hw]]; [|by destruct (consumer s)].
    destruct (Hsc Hcs) as [_ [Hf'|Hw]]; [lia|by destruct (producer s)].
Qed.
End spsc.
