(* ===== verification/Invariant.v ===== *)
(** The invariant of the global state, and what the operations of the library
    guarantee to the coroutines that do not run. *)
From S2P Require Import Prelude Bits HandleTable Pool Uring TimerHeap Ctx Prog Store Ring.

(** ** Counting coroutines *)

Definition count {X} (f : X → bool) (m : gmap loc X) : Z :=
  Z.of_nat (size (filter (λ kx, f kx.2 = true) m)).

Section count.
Context {X : Type} (f : X → bool).
Implicit Types (m : gmap loc X) (p : loc) (x : X).

Lemma count_insert_new m p x :
  m !! p = None → count f (<[p := x]> m) = count f m + (if f x then 1 else 0).
Proof.
  intros Hp. unfold count. destruct (f x) eqn:E.
  - rewrite map_filter_insert_True by done. rewrite map_size_insert_None; [lia|].
    apply map_lookup_filter_None. auto.
  - rewrite map_filter_insert_False by (cbn; congruence).
    rewrite delete_id by done. lia.
Qed.

Lemma count_delete m p x :
  m !! p = Some x → count f (delete p m) = count f m - (if f x then 1 else 0).
Proof.
  intros Hp. rewrite <- (insert_delete_id _ _ _ Hp) at 2.
  rewrite count_insert_new by apply lookup_delete_eq. lia.
Qed.

Lemma count_update m p x y :
  m !! p = Some x →
  count f (<[p := y]> m) = count f m - (if f x then 1 else 0) + (if f y then 1 else 0).
Proof.
  intros Hp. rewrite <- insert_delete_eq, count_insert_new by apply lookup_delete_eq.
  by rewrite (count_delete _ _ _ Hp).
Qed.

Lemma count_nonneg m : 0 ≤ count f m.
Proof. unfold count. lia. Qed.

Lemma count_true m : count (λ _ : X, true) m = Z.of_nat (size m).
Proof. unfold count. rewrite map_filter_id; done. Qed.

Lemma count_le m : count f m ≤ count (λ _, true) m.
Proof.
  rewrite count_true. unfold count. apply Nat2Z.inj_le, map_subseteq_size, map_filter_subseteq.
Qed.

(** All the objects count, or not all. *)
Lemma count_all m : count f m = count (λ _, true) m ↔ map_Forall (λ _ x, f x = true) m.
Proof.
  split.
  - intros Hc p x Hp. destruct (f x) eqn:E; [done|]. pose proof (count_delete _ _ _ Hp) as H1.
    pose proof (count_le (delete p m)) as H2. rewrite count_true in Hc, H2. rewrite E in H1.
    pose proof (map_size_delete_Some p m ltac:(eauto)) as H3.
    pose proof (map_size_ne_0_lookup_2 m p ltac:(eauto)) as H4. lia.
  - intros Hall. rewrite count_true. unfold count. by rewrite map_filter_id.
Qed.
End count.

(** ** Scheduling

    [ready] are the coroutines that wait to be run, [cur] is the one that runs. *)
Record sched_ok (ready : list loc) (cur : option loc) (cs : gmap loc bio_coro_impl_t)
    (num_coros : Z) : Prop := {
  sc_nodup : NoDup ready;
  sc_ready : ∀ q, q ∈ ready ↔ ∃ co, cs !! q = Some co ∧ co_state co = BIO_CORO_READY;
  sc_running : ∀ q, cur = Some q ↔ ∃ co, cs !! q = Some co ∧ co_state co = BIO_CORO_RUNNING;
  sc_not_dead : ∀ q co, cs !! q = Some co → co_state co ≠ BIO_CORO_DEAD;
  sc_num_coros : num_coros = count (λ _, true) cs;
}.

Section sched.
Implicit Types (ready : list loc) (cur : option loc) (cs : gmap loc bio_coro_impl_t).

Lemma sched_ok_perm ready ready' cur cs nc :
  sched_ok ready cur cs nc → ready ≡ₚ ready' → sched_ok ready' cur cs nc.
Proof.
  intros [H1 H2 H3 H4 H5] Hp. split; try done; setoid_rewrite <- Hp; done.
Qed.

(** A coroutine changes in other respects than its state. *)
Lemma sched_ok_update ready cur cs nc q co co' :
  sched_ok ready cur cs nc → cs !! q = Some co → co_state co' = co_state co →
  sched_ok ready cur (<[q := co']> cs) nc.
Proof.
  intros [H1 H2 H3 H4 H5] Hq Hs. split; [done| | | |].
  - intros q'. rewrite H2. split; intros (x & Hx & ?).
    + destruct (decide (q = q')) as [->|].
      * exists co'. rewrite lookup_insert_eq. split; congruence.
      * exists x. by rewrite lookup_insert_ne.
    + apply lookup_insert_Some in Hx as [[<- <-]|[? ?]]; [|eauto].
      exists co. split; congruence.
  - intros q'. rewrite H3. split; intros (x & Hx & ?).
    + destruct (decide (q = q')) as [->|].
      * exists co'. rewrite lookup_insert_eq. split; congruence.
      * exists x. by rewrite lookup_insert_ne.
    + apply lookup_insert_Some in Hx as [[<- <-]|[? ?]]; [|eauto].
      exists co. split; congruence.
  - intros q' x [[<- <-]|[? ?]]%lookup_insert_Some; [rewrite Hs|]; eauto.
  - rewrite (count_update _ _ _ _ _ Hq). lia.
Qed.

(** The state of a coroutine changes: the lists follow. *)
Lemma sched_ok_state ready ready' cur cur' cs nc q co co' :
  sched_ok ready cur cs nc → cs !! q = Some co → co_state co' ≠ BIO_CORO_DEAD →
  NoDup ready' →
  (∀ q', q' ≠ q → q' ∈ ready' ↔ q' ∈ ready) →
  (q ∈ ready' ↔ co_state co' = BIO_CORO_READY) →
  (∀ q', q' ≠ q → cur' = Some q' ↔ cur = Some q') →
  (cur' = Some q ↔ co_state co' = BIO_CORO_RUNNING) →
  sched_ok ready' cur' (<[q := co']> cs) nc.
Proof.
  intros [H1 H2 H3 H4 H5] Hq Hnd Hnodup Hr Hrq Hc Hcq. split; [done| | | |].
  - intros q'. destruct (decide (q = q')) as [<-|Hne].
    + rewrite lookup_insert_eq, Hrq. naive_solver.
    + rewrite lookup_insert_ne, Hr, H2 by done. done.
  - intros q'. destruct (decide (q = q')) as [<-|Hne].
    + rewrite lookup_insert_eq, Hcq. naive_solver.
    + rewrite lookup_insert_ne, Hc, H3 by done. done.
  - intros q' x [[<- <-]|[? ?]]%lookup_insert_Some; eauto.
  - rewrite (count_update _ _ _ _ _ Hq). lia.
Qed.

Lemma sched_not_ready ready cur cs nc q co :
  sched_ok ready cur cs nc → cs !! q = Some co → co_state co ≠ BIO_CORO_READY → q ∉ ready.
Proof.
  intros [_ H2 _ _ _] Hq Hs (x & Hx & ?)%H2. congruence.
Qed.

(** A blocked coroutine becomes ready. *)
Lemma sched_ok_wake ready cur cs nc q co co' :
  sched_ok ready cur cs nc → cs !! q = Some co → co_state co = BIO_CORO_WAITING →
  co_state co' = BIO_CORO_READY →
  sched_ok (ready ++ [q]) cur (<[q := co']> cs) nc.
Proof.
  intros Hok Hq Hs Hs'.
  assert (q ∉ ready) as Hn by (eapply sched_not_ready; [done..|congruence]).
  eapply sched_ok_state; try done; rewrite ?Hs'; try done.
  - apply NoDup_snoc; [done|by apply Hok].
  - intros q' Hne. rewrite elem_of_app, list_elem_of_singleton. naive_solver.
  - rewrite elem_of_app, list_elem_of_singleton. naive_solver.
  - split; [|done]. intros (x & Hx & ?)%(sc_running _ _ _ _ Hok). congruence.
Qed.

(** A new coroutine. *)
Lemma sched_ok_spawn ready cur cs nc q co :
  sched_ok ready cur cs nc → cs !! q = None → co_state co = BIO_CORO_READY →
  sched_ok (ready ++ [q]) cur (<[q := co]> cs) (nc + 1).
Proof.
  intros [H1 H2 H3 H4 H5] Hq Hs. split.
  - apply NoDup_snoc; [|done]. intros (x & ? & _)%H2. congruence.
  - intros q'. rewrite elem_of_app, list_elem_of_singleton, H2.
    destruct (decide (q = q')) as [<-|Hne].
    + rewrite lookup_insert_eq. naive_solver.
    + rewrite lookup_insert_ne by done. naive_solver.
  - intros q'. rewrite H3. destruct (decide (q = q')) as [<-|Hne].
    + rewrite lookup_insert_eq, Hq. split; intros (x & [= <-] & ?); congruence.
    + by rewrite lookup_insert_ne.
  - intros q' x [[<- <-]|[? ?]]%lookup_insert_Some; [congruence|eauto].
  - rewrite count_insert_new by done. lia.
Qed.

(** The running coroutine is destroyed. *)
Lemma sched_ok_destroy ready cs nc q co :
  sched_ok ready (Some q) cs nc → cs !! q = Some co →
  sched_ok ready None (delete q cs) (nc - 1).
Proof.
  intros [H1 H2 H3 H4 H5] Hq.
  destruct (proj1 (H3 q) eq_refl) as (co' & Hq' & Hs). simplify_eq.
  split; [done| | | |].
  - intros q'. rewrite H2. setoid_rewrite lookup_delete_Some.
    split; intros (x & Hx & ?); [|by destruct Hx; eauto].
    exists x. split_and!; [|done..]. intros ->. congruence.
  - intros q'. split; [done|]. intros (x & [Hne Hx]%lookup_delete_Some & Hr).
    assert (Some q = Some q') as [= ->] by (apply H3; eauto). done.
  - intros q' x [? ?]%lookup_delete_Some. eauto.
  - by rewrite (count_delete _ _ _ _ Hq).
Qed.
End sched.

(** ** Blocked coroutines *)

(** The pending signals that a coroutine is blocked on, while it is blocked. *)
Definition is_blocking (ss : gmap loc bio_signal_impl_t) (co : bio_coro_impl_t) (p : loc) : Prop :=
  sig_wait_counter <$> ss !! p = Some (co_wait_counter co).

#[export] Instance is_blocking_dec ss co p : Decision (is_blocking ss co p).
Proof. unfold is_blocking. apply _. Defined.

Definition blocking (ss : gmap loc bio_signal_impl_t) (co : bio_coro_impl_t) : list loc :=
  filter (is_blocking ss co) (co_pending_signals co).

(** A coroutine that waits does so for at least one signal and, in the strict
    sense, not for more signals than can still be raised. *)
Definition wait_ok (strict : Prop) (cs : gmap loc bio_coro_impl_t)
    (ss : gmap loc bio_signal_impl_t) : Prop :=
  ∀ q co, cs !! q = Some co → co_state co = BIO_CORO_WAITING →
    0 < co_num_blocking_signals co ∧
    (strict → co_num_blocking_signals co ≤ zlen (blocking ss co)).

Section wait.
Context (strict : Prop).
Implicit Types (cs : gmap loc bio_coro_impl_t) (ss : gmap loc bio_signal_impl_t).

Lemma blocking_ext ss ss' co co' :
  co_pending_signals co' = co_pending_signals co →
  co_wait_counter co' = co_wait_counter co →
  (∀ p, p ∈ co_pending_signals co →
    sig_wait_counter <$> ss' !! p = sig_wait_counter <$> ss !! p) →
  blocking ss' co' = blocking ss co.
Proof.
  intros Hp Hc Hs. unfold blocking. rewrite Hp. apply list_filter_ext_in.
  intros p Hin. unfold is_blocking. by rewrite Hc, Hs.
Qed.

(** Updating a coroutine that is not blocked afterwards. *)
Lemma wait_ok_awake cs ss q co' :
  wait_ok strict cs ss → co_state co' ≠ BIO_CORO_WAITING →
  wait_ok strict (<[q := co']> cs) ss.
Proof. intros H Hs q' co [[<- <-]|[_ ?]]%lookup_insert_Some; [done|eauto]. Qed.

(** Updating a coroutine in respects that have nothing to do with waiting. *)
Lemma wait_ok_update cs ss q co co' :
  wait_ok strict cs ss → cs !! q = Some co →
  co_state co' = co_state co → co_num_blocking_signals co' = co_num_blocking_signals co →
  co_wait_counter co' = co_wait_counter co →
  co_pending_signals co' = co_pending_signals co →
  wait_ok strict (<[q := co']> cs) ss.
Proof.
  intros H Hq Hs Hn Hc Hp q' x [[<- <-]|[_ ?]]%lookup_insert_Some Hw; [|eauto].
  rewrite Hn. rewrite (blocking_ext ss ss co co') by done. apply (H _ _ Hq). congruence.
Qed.

Lemma wait_ok_delete cs ss q : wait_ok strict cs ss → wait_ok strict (delete q cs) ss.
Proof. intros H q' co [_ ?]%lookup_delete_Some. eauto. Qed.

(** A change of signals that are not pending in a blocked coroutine. *)
Lemma wait_ok_signals cs ss ss' :
  wait_ok strict cs ss →
  (∀ q co p, cs !! q = Some co → co_state co = BIO_CORO_WAITING →
    p ∈ co_pending_signals co → sig_wait_counter <$> ss' !! p = sig_wait_counter <$> ss !! p) →
  wait_ok strict cs ss'.
Proof.
  intros H Hs q co Hq Hw. rewrite (blocking_ext ss ss' co co) by eauto. eauto.
Qed.

Lemma wait_ok_new_signal cs ss p s :
  wait_ok strict cs ss → linked sig_link co_pending_signals ss cs → ss !! p = None →
  wait_ok strict cs (<[p := s]> ss).
Proof.
  intros H Hl Hp. apply wait_ok_signals with (1 := H). intros q co p' Hq _ Hin.
  apply (lk_list _ _ _ _ Hl _ _ _ Hq) in Hin as (x & Hx & _).
  rewrite lookup_insert_ne; [done|]. congruence.
Qed.

(** Raising a signal. *)
Lemma blocking_remove ss co co' p :
  co_pending_signals co' = filter (λ x, x ≠ p) (co_pending_signals co) →
  co_wait_counter co' = co_wait_counter co →
  NoDup (co_pending_signals co) → p ∈ co_pending_signals co →
  zlen (blocking (delete p ss) co') =
    zlen (blocking ss co) - (if decide (is_blocking ss co p) then 1 else 0).
Proof.
  intros Hp Hc Hnd Hin.
  assert (E : blocking (delete p ss) co' = filter (λ x, x ≠ p) (blocking ss co)).
  { unfold blocking. rewrite Hp, !list_filter_filter. apply list_filter_iff. intros x.
    unfold is_blocking. rewrite Hc. destruct (decide (x = p)) as [->|].
    - rewrite lookup_delete_eq. cbn. split; [by intros [[=] _]|by intros [[] _]].
    - rewrite lookup_delete_ne by done. tauto. }
  rewrite E. clear E. unfold zlen.
  destruct (decide (is_blocking ss co p)) as [Hb|Hb].
  - assert (p ∈ blocking ss co) as Hbl by by apply list_elem_of_filter.
    apply list_elem_of_split in Hbl as (l1 & l2 & El).
    assert (NoDup (blocking ss co)) as Hbn by by apply NoDup_filter.
    rewrite El in *. apply NoDup_app in Hbn as (_ & Hd & [Hn _]%NoDup_cons).
    rewrite filter_app, filter_cons_False by auto.
    rewrite !list_filter_all.
    + rewrite !length_app. cbn. lia.
    + apply Forall_forall. intros x Hx ->. done.
    + apply Forall_forall. intros x Hx ->. eapply Hd; [done|left].
  - rewrite list_filter_all; [lia|]. apply Forall_forall.
    intros x [Hx _]%list_elem_of_filter ->. done.
Qed.

(** A signal goes: its owner, if still blocked, counts one signal less if that
    signal was one it is blocked on. *)
Lemma wait_ok_remove cs ss q co co' p s :
  wait_ok strict cs ss → linked sig_link co_pending_signals ss cs →
  cs !! q = Some co → ss !! p = Some s → sig_link s = Some q →
  co_pending_signals co' = filter (λ x, x ≠ p) (co_pending_signals co) →
  co_wait_counter co' = co_wait_counter co →
  (co_state co' = BIO_CORO_WAITING → co_state co = BIO_CORO_WAITING ∧
    0 < co_num_blocking_signals co' ∧ co_num_blocking_signals co' =
      co_num_blocking_signals co - (if decide (is_blocking ss co p) then 1 else 0)) →
  wait_ok strict (<[q := co']> cs) (delete p ss).
Proof.
  intros H Hl Hq Hp Hs Hpend Hc Hn q' x [[<- <-]|[Hne Hq']]%lookup_insert_Some Hw.
  - destruct (Hn Hw) as (Hw' & Hpos & Hn'). split; [done|]. intros Hst.
    destruct (H _ _ Hq Hw') as [_ Hb]. specialize (Hb Hst).
    rewrite (blocking_remove ss co co' p); [lia|done|done| |].
    + by apply (lk_nodup _ _ _ _ Hl _ _ Hq).
    + apply (lk_list _ _ _ _ Hl _ _ _ Hq). eauto.
  - rewrite (blocking_ext ss (delete p ss) x x); [eauto|done|done|].
    intros p' Hin. apply (lk_list _ _ _ _ Hl _ _ _ Hq') in Hin as (y & Hy & ?).
    rewrite lookup_delete_ne; [done|]. intros ->. congruence.
Qed.
End wait.

(** ** References between objects *)

(** A message that a mailbox holds. *)
Definition cell_ok (t : table bio_tag_t loc) (cell : option message) : Prop :=
  ∀ msg, cell = Some msg → Forall (known t) (msg_handles msg).

(** Handles that objects store are known to the handle table. *)
Record refs_ok (t : table bio_tag_t loc) (ms : gmap loc bio_monitor_impl_t)
    (bs : gmap loc bio_mailbox_t) (ts : gmap loc bio_timer_impl_t) (th : theap)
    (sds : gmap loc bio_service_data_t) (eis : gmap loc bio_exit_info_t) : Prop := {
  rf_monitor : map_Forall (λ _ m, known t (mon_signal m)) ms;
  rf_mailbox : map_Forall (λ _ b, known t (mb_signal b) ∧ Forall (cell_ok t) (mb_data b)) bs;
  rf_timer : map_Forall (λ _ x, known t (tm_wake_signal x) ∧ known t (tm_handle x)) ts;
  rf_entries : Forall (λ e, known t (TimerHeap.signal e)) (theap_contents th);
  rf_services : map_Forall (λ _ d, known t (sd_mailbox d) ∧ known t (sd_ready_signal d)) sds;
  rf_exits : map_Forall (λ _ x, known t (ei_signal x)) eis;
}.

Lemma refs_ok_evolves t t' ms bs ts th sds eis :
  refs_ok t ms bs ts th sds eis → evolves t t' → refs_ok t' ms bs ts th sds eis.
Proof.
  intros [H1 H2 H3 H4 H5 H6] Hev. split.
  - intros p m Hm. by apply Hev, (H1 _ _ Hm).
  - intros p m Hm. destruct (H2 _ _ Hm) as [Hs Hc]. split; [by apply Hev|].
    eapply Forall_impl; [exact Hc|]. intros cell Hcell msg ->.
    eapply Forall_impl; [by apply Hcell|]. intros h Hh. by apply Hev.
  - intros p m Hm. destruct (H3 _ _ Hm). split; by apply Hev.
  - eapply Forall_impl; [done|]. intros e He. by apply Hev.
  - intros p m Hm. destruct (H5 _ _ Hm). split; by apply Hev.
  - intros p m Hm. by apply Hev, (H6 _ _ Hm).
Qed.

(** The object of a timer belongs to the coroutine that serves it, from its
    creation until that coroutine frees it. *)
Definition timer_impl_of (co : bio_coro_impl_t) : option loc :=
  if decide (co_entrypoint co = bio_timer_entry_fn) then co_userdata co else None.

Definition owns (cs : gmap loc bio_coro_impl_t) (ts : gmap loc bio_timer_impl_t) (q p : loc) : Prop :=
  cs !! q ≫= timer_impl_of = Some p ∧ is_Some (ts !! p).

Record owns_ok (cs : gmap loc bio_coro_impl_t) (ts : gmap loc bio_timer_impl_t) (n : loc) : Prop := {
  ow_inj : ∀ q q' p, owns cs ts q p → owns cs ts q' p → q = q';
  ow_fresh : ∀ q p, cs !! q ≫= timer_impl_of = Some p → (p < n)%positive;
}.

(** Coroutine-local storage: a table of the configured size, or none yet. *)
Definition cls_ok (n : Z) (cs : gmap loc bio_coro_impl_t) : Prop :=
  pow2 n ∧ map_Forall (λ _ co, ∀ bs, co_cls_buckets co = Some bs → zlen bs = n) cs.

Lemma cls_ok_insert n cs q co :
  cls_ok n cs → (∀ bs, co_cls_buckets co = Some bs → zlen bs = n) → cls_ok n (<[q := co]> cs).
Proof. intros [Hn H] Hco. split; [done|]. by apply map_Forall_insert_2. Qed.

Lemma cls_ok_update n cs q co co' :
  cls_ok n cs → cs !! q = Some co → co_cls_buckets co' = co_cls_buckets co →
  cls_ok n (<[q := co']> cs).
Proof.
  intros H Hq Hc. apply cls_ok_insert; [done|]. rewrite Hc. destruct H as [_ H]. exact (H _ _ Hq).
Qed.

#[export] Hint Resolve cls_ok_update : store.

(** Data on the stacks of coroutines is at addresses of its own. *)
Record stack_ok (sds : gmap loc bio_service_data_t) (eis : gmap loc bio_exit_info_t) (n : loc) : Prop := {
  st_services : ∀ p, is_Some (sds !! p) → (p < n)%positive;
  st_exits : ∀ p, is_Some (eis !! p) → (p < n)%positive;
}.

Lemma stack_ok_succ sds eis n : stack_ok sds eis n → stack_ok sds eis (Pos.succ n).
Proof. intros [H1 H2]. split; intros p Hp; [apply H1 in Hp|apply H2 in Hp]; lia. Qed.

#[export] Hint Resolve stack_ok_succ : store.

(** The jobs of the thread pool and the requests to the kernel: their signals are known. *)
Record ext_ok (t : table bio_tag_t loc) (p : bio_pool_t) (s : bio_platform_t) : Prop := {
  ex_pool : pool_ok (known t) p;
  ex_ring : ring_ok (known t) s;
}.

Lemma ext_ok_evolves t t' p s : ext_ok t p s → evolves t t' → ext_ok t' p s.
Proof.
  intros [H1 H2] He. split; [eapply pool_ok_mono; [exact H1|]|eapply ring_ok_mono; [exact H2|]];
    intros h; apply He.
Qed.

#[export] Hint Resolve ext_ok_evolves : store.

(** ** The invariant of the global state *)

(** Objects and the handles that refer to them. *)
Record objects_ok (c : bio_ctx_t) : Prop := {
  ob_coros : store_ok BIO_CORO_HANDLE (coros c) (live (htab c)) (next_loc c);
  ob_coro_self : self_ok BIO_CORO_HANDLE co_handle (coros c) (live (htab c));
  ob_signals : store_ok BIO_SIGNAL_HANDLE (signals c) (live (htab c)) (next_loc c);
  ob_signal_self : self_ok BIO_SIGNAL_HANDLE sig_handle (signals c) (live (htab c));
  ob_monitors : store_ok BIO_MONITOR_HANDLE (monitors c) (live (htab c)) (next_loc c);
  ob_monitor_self : self_ok BIO_MONITOR_HANDLE mon_handle (monitors c) (live (htab c));
  ob_mailboxes : store_ok BIO_MAILBOX_HANDLE (mailboxes c) (live (htab c)) (next_loc c);
  ob_timers : store_ok BIO_TIMER_HANDLE (timers c) (live (htab c)) (next_loc c);
  ob_timer_back : back_ok BIO_TIMER_HANDLE tm_handle (timers c) (live (htab c));
}.

Definition mb_repr (b : bio_mailbox_t) (q : list message) : Prop :=
  ring (mb_capacity b) (mb_data b) (mb_read b) (mb_write b) q.

(** [todo] is the part of [current_ready_coros] that the event loop has still
    to run, [cur] is the coroutine that it is running. *)
Record wf (strict : Prop) (todo : list loc) (cur : option loc) (c : bio_ctx_t) : Prop := {
  wf_htab : HandleTable.wf (htab c);
  wf_mco : mco_running c = None ∨ mco_running c = cur;
  wf_objects : objects_ok c;
  wf_signals : linked sig_link co_pending_signals (signals c) (coros c);
  wf_owner : map_Forall (λ _ s, sig_link s = Some (sig_owner s)) (signals c);
  wf_monitors : linked mon_link co_monitors (monitors c) (coros c);
  wf_refs : refs_ok (htab c) (monitors c) (mailboxes c) (timers c) (timer_heap c)
    (service_datas c) (exit_infos c);
  wf_theap : theap_wf (timer_heap c);
  wf_exits : ∀ p, p ∈ exit_handlers c → is_Some (exit_infos c !! p);
  wf_mailboxes : map_Forall (λ _ b, ∃ q, mb_repr b q) (mailboxes c);
  wf_sched : sched_ok (todo ++ next_ready_coros c) cur (coros c) (num_coros c);
  wf_cls : cls_ok (num_cls_buckets c) (coros c);
  wf_wait : wait_ok strict (coros c) (signals c);
  wf_stack : stack_ok (service_datas c) (exit_infos c) (next_loc c);
  wf_owns : owns_ok (coros c) (timers c) (next_loc c);
  wf_ext : ext_ok (htab c) (thread_pool c) (bio_platform c);
}.

(** ** How the state evolves *)

Definition num_workers (c : bio_ctx_t) : nat := length (pl_workers (thread_pool c)).

(** All completions that were looked at are consumed: the case between the operations of
    the platform. *)
Definition io_idle (c : bio_ctx_t) : Prop := cq_seen (bio_platform c) = cq_head (bio_platform c).

(** Known handles stay known and dead handles stay dead; the data that a
    coroutine passes to another one, or to the exit handlers, on its stack stays
    there (the end of the life of an object on a stack is not modelled). *)
Record ctx_le (c c' : bio_ctx_t) : Prop := {
  le_htab : evolves (htab c) (htab c');
  le_service_datas : service_datas c ⊆ service_datas c';
  le_exit_infos : dom (exit_infos c) ⊆ dom (exit_infos c');
  le_terminating : is_terminating c = true → is_terminating c' = true;
  le_pool : (num_workers c ≤ num_workers c')%nat;
  le_idle : io_idle c → io_idle c';
  le_reqs : dom (io_reqs (bio_platform c)) ⊆ dom (io_reqs (bio_platform c'));
}.

#[export] Instance ctx_le_preorder : PreOrder ctx_le.
Proof.
  split.
  - intros c. by split.
  - intros c1 c2 c3 [] []. split; [by etrans..|auto|by etrans|auto|by etrans].
Qed.

(** [hk c h]: [h] is a handle that may be passed to the library in state [c]. *)
Definition hk (c : bio_ctx_t) (h : bio_handle_t) : Prop := known (htab c) h.

Lemma hk_le c c' h : hk c h → ctx_le c c' → hk c' h.
Proof. intros H Hle. by apply Hle. Qed.

Lemma hk_invalid c : hk c BIO_INVALID_HANDLE.
Proof. apply known_invalid. Qed.

#[export] Hint Resolve hk_le hk_invalid : bio.

(** Steps that only change the handle table, or not even that. *)
Ltac solve_le := split; cbn; [first [assumption | reflexivity]|reflexivity|reflexivity|by intros|reflexivity|by intros|reflexivity].
#[export] Hint Extern 1 (ctx_le _ _) => solve_le : store.

(** The code that a coroutine runs. *)
Definition co_code (co : bio_coro_impl_t) : bio_entrypoint_t * option loc :=
  (co_entrypoint co, co_userdata co).

(** The function that a timer calls. *)
Definition tm_code (x : bio_timer_impl_t) : positive * option loc := (tm_fn x, tm_userdata x).

(** How far [num_daemons] is from the number of daemons. *)
Definition daemon_debt (c : bio_ctx_t) : Z := count co_daemon (coros c) - num_daemons c.

(** What every operation guarantees that neither creates nor destroys coroutines
    or timer objects: handles evolve, coroutines keep their code and timers, and
    daemons stay daemons. *)
Record calm (c c' : bio_ctx_t) : Prop := {
  calm_le : ctx_le c c';
  calm_code : ∀ q, co_code <$> coros c' !! q = co_code <$> coros c !! q;
  calm_timers : ∀ p, tm_code <$> timers c' !! p = tm_code <$> timers c !! p;
  calm_daemons : daemon_debt c' = daemon_debt c;
  calm_flags : ∀ q, co_daemon <$> coros c !! q = Some true → co_daemon <$> coros c' !! q = Some true;
}.

#[export] Instance calm_preorder : PreOrder calm.
Proof.
  split.
  - intros c. by split.
  - intros c1 c2 c3 [H1 H2 H3 H4 H5] [H1' H2' H3' H4' H5']. split; [by etrans|congruence..|auto].
Qed.

(** Moreover, the running coroutine is the same and is not made to wait, and the
    list of the coroutines to run now is the same. *)
Record frame (c c' : bio_ctx_t) : Prop := {
  frame_calm : calm c c';
  frame_mco : mco_running c' = mco_running c;
  frame_running : ∀ q co', coros c' !! q = Some co' → co_state co' = BIO_CORO_RUNNING →
    ∃ co, coros c !! q = Some co ∧ co_state co = BIO_CORO_RUNNING ∧
      co_num_blocking_signals co' = co_num_blocking_signals co;
  frame_current : current_ready_coros c' = current_ready_coros c;
}.

#[export] Instance frame_preorder : PreOrder frame.
Proof.
  split.
  - intros c. split; [reflexivity|done|eauto|done].
  - intros c1 c2 c3 [H1 H2 H3 H4] [H1' H2' H3' H4'].
    split; [by etrans|congruence| |congruence].
    intros q co3 Hq Hr. destruct (H3' _ _ Hq Hr) as (co2 & Hq2 & Hr2 & ->). eauto.
Qed.

(** One coroutine changes, but not its code. *)
Lemma frame_code_update (cs : gmap loc bio_coro_impl_t) q co co' :
  cs !! q = Some co → co_code co' = co_code co →
  ∀ q', co_code <$> <[q := co']> cs !! q' = co_code <$> cs !! q'.
Proof.
  intros Hq Hc q'. destruct (decide (q = q')) as [<-|].
  - rewrite lookup_insert_eq, Hq. cbn. by rewrite Hc.
  - by rewrite lookup_insert_ne.
Qed.

Lemma frame_running_update (cs : gmap loc bio_coro_impl_t) q co co' :
  cs !! q = Some co →
  (co_state co' = BIO_CORO_RUNNING → co_state co = BIO_CORO_RUNNING ∧
     co_num_blocking_signals co' = co_num_blocking_signals co) →
  ∀ q' x', <[q := co']> cs !! q' = Some x' → co_state x' = BIO_CORO_RUNNING →
    ∃ x, cs !! q' = Some x ∧ co_state x = BIO_CORO_RUNNING ∧
      co_num_blocking_signals x' = co_num_blocking_signals x.
Proof.
  intros Hq Hr q' x' [[<- <-]|[_ ?]]%lookup_insert_Some Hx; [|eauto].
  destruct (Hr Hx). eauto.
Qed.

Lemma debt_update (cs : gmap loc bio_coro_impl_t) q co co' n :
  cs !! q = Some co → co_daemon co' = co_daemon co →
  count co_daemon (<[q := co']> cs) - n = count co_daemon cs - n.
Proof. intros Hq Hd. rewrite (count_update _ _ _ _ _ Hq), Hd. lia. Qed.

Lemma flags_update (cs : gmap loc bio_coro_impl_t) q co co' :
  cs !! q = Some co → co_daemon co' = co_daemon co →
  ∀ q', co_daemon <$> cs !! q' = Some true → co_daemon <$> <[q := co']> cs !! q' = Some true.
Proof.
  intros Hq Hd q'. destruct (decide (q = q')) as [<-|].
  - rewrite lookup_insert_eq, Hq. cbn. by rewrite Hd.
  - by rewrite lookup_insert_ne.
Qed.

#[export] Hint Resolve frame_code_update debt_update flags_update : store.

Ltac solve_calm := split; unfold daemon_debt; cbn; eauto with store.

Ltac solve_frame :=
  split; cbn; [solve_calm|eauto with store| |reflexivity];
  try (eapply frame_running_update; [eassumption|cbn; intuition congruence]); eauto.

Lemma timer_impl_code (cs cs' : gmap loc bio_coro_impl_t) q :
  co_code <$> cs' !! q = co_code <$> cs !! q → cs' !! q ≫= timer_impl_of = cs !! q ≫= timer_impl_of.
Proof.
  unfold timer_impl_of. destruct (cs' !! q) as [co'|], (cs !! q) as [co|]; cbn; try done.
  by intros [= -> ->].
Qed.

Lemma owns_code cs cs' ts ts' q p :
  (∀ q, co_code <$> cs' !! q = co_code <$> cs !! q) →
  (∀ p, tm_code <$> ts' !! p = tm_code <$> ts !! p) →
  owns cs' ts' q p ↔ owns cs ts q p.
Proof.
  intros Hc Ht. unfold owns.
  by rewrite <- !(fmap_is_Some tm_code), Ht, (timer_impl_code cs cs').
Qed.

Lemma owns_ok_code cs cs' ts ts' n :
  owns_ok cs ts n → (∀ q, co_code <$> cs' !! q = co_code <$> cs !! q) →
  (∀ p, tm_code <$> ts' !! p = tm_code <$> ts !! p) →
  owns_ok cs' ts' n.
Proof.
  intros [H1 H2] Hc Ht. split.
  - intros q q' p. rewrite !(owns_code cs cs' ts ts') by done. apply H1.
  - intros q p. rewrite (timer_impl_code cs cs') by done. apply H2.
Qed.

Lemma owns_ok_succ cs ts n : owns_ok cs ts n → owns_ok cs ts (Pos.succ n).
Proof. intros [H1 H2]. split; [done|]. intros q p Hp%H2. lia. Qed.

#[export] Hint Resolve owns_ok_code owns_ok_succ : store.

(** What an operation establishes when it is called in a state [c] that
    satisfies [wf strict todo cur]. *)
Definition kept {A} (strict : Prop) (todo : list loc) (cur : option loc) (c : bio_ctx_t)
    (P : A → bio_ctx_t → Prop) (a : A) (c' : bio_ctx_t) : Prop :=
  wf strict todo cur c' ∧ frame c c' ∧ P a c'.

Lemma kept_trans {A} strict todo cur c c' (P : A → bio_ctx_t → Prop) a c'' :
  frame c c' → kept strict todo cur c' P a c'' → kept strict todo cur c P a c''.
Proof. intros Hf (Hwf & Hf' & HP). split_and!; [done|by etrans|done]. Qed.

Lemma kept_same {A} strict todo cur c (P : A → bio_ctx_t → Prop) a :
  wf strict todo cur c → P a c → kept strict todo cur c P a c.
Proof. intros. split_and!; [done|reflexivity|done]. Qed.

Lemma kept_impl {A} strict todo cur c (P Q : A → bio_ctx_t → Prop) a c' :
  kept strict todo cur c P a c' → (frame c c' → P a c' → Q a c') → kept strict todo cur c Q a c'.
Proof. intros (? & ? & ?) HPQ. split_and!; auto. Qed.

(** The state in which a coroutine runs. *)
Record inv (strict : Prop) (cur : option loc) (todo : list loc) (c : bio_ctx_t) : Prop := {
  inv_wf : wf strict todo cur c;
  inv_mco : mco_running c = cur;
  inv_daemons : daemon_debt c = 0;
  inv_rest : io_idle c;
  inv_idle : ∀ q co, cur = Some q → coros c !! q = Some co → co_num_blocking_signals co = 0;
}.

Lemma wf_caller strict todo cur q c :
  wf strict todo cur c → mco_running c = Some q →
  ∃ co, coros c !! q = Some co ∧ co_state co = BIO_CORO_RUNNING.
Proof.
  intros H Hq. apply (sc_running _ _ _ _ (wf_sched _ _ _ _ H)).
  destruct (wf_mco _ _ _ _ H); congruence.
Qed.

Lemma wf_running strict q todo c :
  wf strict todo (Some q) c → ∃ co, coros c !! q = Some co ∧ co_state co = BIO_CORO_RUNNING.
Proof. intros H. by apply (sc_running _ _ _ _ (wf_sched _ _ _ _ H)). Qed.

(** An operation that keeps the well-formedness keeps the invariant of the
    coroutine that calls it. *)
Lemma inv_kept {A} strict cur todo c (P : A → bio_ctx_t → Prop) (a : A) (c' : bio_ctx_t) :
  inv strict cur todo c → kept strict todo cur c P a c' → inv strict cur todo c'.
Proof.
  intros [H1 H2 H4 H5 H3] (Hwf & Hf & HP). split; [done| | | |].
  - rewrite (frame_mco _ _ Hf). done.
  - by rewrite (calm_daemons _ _ (frame_calm _ _ Hf)).
  - by apply (le_idle _ _ (calm_le _ _ (frame_calm _ _ Hf))).
  - intros q co -> Hq. destruct (wf_running _ _ _ _ Hwf) as (co' & Hq' & Hr). simplify_eq.
    destruct (frame_running _ _ Hf _ _ Hq Hr) as (co' & Hq'' & _ & ->). eauto.
Qed.

(** The state in which coroutine [q] yields: it may have announced that it
    waits, for no more signals than can be raised. *)
Record yielding (strict : Prop) (q : loc) (todo : list loc) (c : bio_ctx_t) : Prop := {
  yd_wf : wf strict todo (Some q) c;
  yd_mco : mco_running c = Some q;
  yd_daemons : daemon_debt c = 0;
  yd_rest : io_idle c;
  yd_wait : ∀ co, coros c !! q = Some co →
    0 ≤ co_num_blocking_signals co ∧
    (strict → co_num_blocking_signals co ≤ zlen (blocking (signals c) co));
}.

Lemma inv_yielding strict q todo c : inv strict (Some q) todo c → yielding strict q todo c.
Proof.
  intros [H1 H2 H4 H5 H3]. split; [done..|]. intros co Hq. rewrite (H3 _ _ eq_refl Hq).
  split; [done|]. intros _. apply zlen_nonneg.
Qed.
