(* ===== verification/Signal.v ===== *)
(** Signals ([src/scheduler.c]): creation, raising, waiting. *)
From S2P Require Import Prelude HandleTable TimerHeap Ctx Prog Store Ring Invariant.

(** ** The code *)

(** [bio_make_signal]. *)
Definition bio_make_signal : M bio_handle_t :=
  coro ← running;
  match coro with
  | Some coro =>
      co ← deref_coro coro;
      signal ← bio_malloc;
      wait_counter ← int_of (co_wait_counter co - 1);
      _ ← modify (set_signals <[signal := mk_signal None coro BIO_INVALID_HANDLE wait_counter]>);
      handle ← make_handle signal BIO_SIGNAL_HANDLE;
      _ ← update_signal signal (set_sig_handle (λ _, handle));
      (* BIO_LIST_APPEND(&coro->pending_signals, &signal->link) *)
      _ ← update_coro coro (set_co_pending_signals (λ l, l ++ [signal]));
      _ ← update_signal signal (set_sig_link (λ _, Some coro));
      mret handle
  | None => mret BIO_INVALID_HANDLE
  end.

(** [BIO_LIST_REMOVE(&signal->link)]. *)
Definition unlink_signal (signal : loc) : M unit :=
  s ← deref_signal signal;
  match sig_link s with
  | Some coro =>
      _ ← update_coro coro (set_co_pending_signals (filter (λ p, p ≠ signal)));
      update_signal signal (set_sig_link (λ _, None))
  | None => mret tt
  end.

(** Whether raising the signal counts for the wait of its owner. *)
Definition counts (s : bio_signal_impl_t) (co : bio_coro_impl_t) : Prop :=
  co_state co = BIO_CORO_WAITING ∧ sig_wait_counter s = co_wait_counter co.

#[export] Instance counts_dec s co : Decision (counts s co).
Proof. unfold counts. apply _. Defined.

(** The wake-up in [bio_raise_signal]: one blocking signal less; the owner is
    scheduled when none is left. *)
Definition wake_owner (signal : loc) : M bool :=
  s ← deref_signal signal;
  let owner := sig_owner s in
  co ← deref_coro owner;
  if decide (counts s co) then
    n ← int_of (co_num_blocking_signals co - 1);
    _ ← update_coro owner (set_co_num_blocking_signals (λ _, n));
    if n =? 0 then
      _ ← push_ready owner;
      _ ← update_coro owner (set_co_state (λ _, BIO_CORO_READY));
      mret true
    else mret false
  else mret false.

(** [bio_raise_signal]: returns whether the owner was woken up. *)
Definition bio_raise_signal (ref : bio_handle_t) : M bool :=
  signal ← close_handle ref BIO_SIGNAL_HANDLE;
  match signal with
  | Some signal =>
      owner_waken_up ← wake_owner signal;
      _ ← unlink_signal signal;
      _ ← free_signal signal;
      mret owner_waken_up
  | None => mret false
  end.

(** [bio_check_signal]. *)
Definition bio_check_signal (ref : bio_handle_t) : M bool :=
  signal ← resolve_handle ref BIO_SIGNAL_HANDLE;
  mret (bool_decide (signal = None)).

(** The loop of [bio_wait_for_signals]. *)
Fixpoint wait_scan (coro : loc) (wait_counter : Z) (signals : list bio_handle_t)
    (num_blocking_signals : Z) (signal_raised : bool) : M (Z * bool) :=
  match signals with
  | [] => mret (num_blocking_signals, signal_raised)
  | handle :: signals =>
      signal ← resolve_handle handle BIO_SIGNAL_HANDLE;
      match signal with
      | Some signal =>
          s ← deref_signal signal;
          if decide (sig_owner s = coro) then
            _ ← update_signal signal (set_sig_wait_counter (λ _, wait_counter));
            wait_scan coro wait_counter signals (num_blocking_signals + 1) signal_raised
          else wait_scan coro wait_counter signals num_blocking_signals signal_raised
      | None =>
          wait_scan coro wait_counter signals num_blocking_signals
            (signal_raised || negb (bio_handle_compare handle BIO_INVALID_HANDLE =? 0))
      end
  end.

(** [bio_wait_for_signals] up to its [mco_yield]: whether to yield. *)
Definition prepare_wait (signals : list bio_handle_t) (wait_all : bool) : M bool :=
  coro ← running;
  match coro with
  | Some coro =>
      co ← deref_coro coro;
      wait_counter ← int_of (co_wait_counter co + 1);
      _ ← update_coro coro (set_co_wait_counter (λ _, wait_counter));
      r ← wait_scan coro wait_counter signals 0 false;
      let '(num_blocking_signals, signal_raised) := r in
      if (num_blocking_signals >? 0) && (wait_all || negb signal_raised) then
        _ ← update_coro coro (set_co_num_blocking_signals
              (λ _, if wait_all then num_blocking_signals else 1));
        mret true
      else mret false
  | None => mret false
  end.

Definition bio_wait_for_signals (signals : list bio_handle_t) (wait_all : bool) : prog unit :=
  Susp (prepare_wait signals wait_all).

Definition bio_wait_for_one_signal (signal : bio_handle_t) : prog unit :=
  bio_wait_for_signals [signal] true.

(** ** Creation *)

Section signal.
Context (strict : Prop) (todo : list loc) (cur : option loc).
Implicit Types (c : bio_ctx_t).

(** The state after [bio_make_signal]. *)
Definition with_signal (t : table bio_tag_t loc) (q : loc) (co : bio_coro_impl_t)
    (h : bio_handle_t) (c : bio_ctx_t) : bio_ctx_t :=
  set_htab (λ _, t) (set_next_loc Pos.succ
    (set_coros <[q := set_co_pending_signals (λ l, l ++ [next_loc c]) co]>
      (set_signals <[next_loc c := mk_signal (Some q) q h (co_wait_counter co - 1)]> c))).

Lemma make_signal_run c q co :
  wf strict todo cur c → mco_running c = Some q → coros c !! q = Some co →
  wp bio_make_signal (λ h c', ∃ t, c' = with_signal t q co h c ∧
    HandleTable.wf t ∧ evolves (htab c) t ∧ known t h ∧
    live t = <[h := (BIO_SIGNAL_HANDLE, Some (next_loc c))]> (live (htab c)) ∧
    live (htab c) !! h = None) c.
Proof.
  intros Hwf Hq Hco. unfold bio_make_signal. ctx_steps. rewrite Hq. ctx_steps.
  wp_use make_handle_spec; [apply Hwf|].
  intros h c' (t & -> & Ht & Hev & Hl & Hh & Hk & _). ctx_steps.
  exists t. split_and!; try done.
  unfold with_signal. ctx_eq.
Qed.

Lemma with_signal_wf t q co h c :
  wf strict todo cur c → coros c !! q = Some co →
  co_state co = BIO_CORO_RUNNING → HandleTable.wf t → evolves (htab c) t →
  live t = <[h := (BIO_SIGNAL_HANDLE, Some (next_loc c))]> (live (htab c)) →
  live (htab c) !! h = None →
  wf strict todo cur (with_signal t q co h c).
Proof.
  intros Hwf Hq Hr Ht Hev Hl Hh. destruct Hwf as [? ? [] ? ? ? ? ? ? ? ? ? ? ? ?].
  assert (signals c !! next_loc c = None) as Hn by by eapply so_fresh_None.
  split; cbn; try done; eauto with store.
  - split; cbn; rewrite Hl; eauto with store.
  - by eapply linked_append.
  - by apply map_Forall_insert_2.
  - by eapply refs_ok_evolves.
  - by eapply sched_ok_update.
  - apply wait_ok_awake; [|cbn; congruence]. by eapply wait_ok_new_signal.
Qed.

Lemma with_signal_frame t q co h c :
  coros c !! q = Some co → evolves (htab c) t → frame c (with_signal t q co h c).
Proof.
  intros Hq Hev. solve_frame.
Qed.

Lemma make_signal_spec c :
  wf strict todo cur c →
  wp bio_make_signal (kept strict todo cur c (λ h c', hk c' h ∧
    mailboxes c' = mailboxes c ∧ timers c' = timers c ∧
    match mco_running c with
    | Some q => live (htab c) !! h = None ∧
        live (htab c') = <[h := (BIO_SIGNAL_HANDLE, Some (next_loc c))]> (live (htab c)) ∧
        sig_owner <$> signals c' !! next_loc c = Some q
    | None => h = BIO_INVALID_HANDLE ∧ c' = c
    end)) c.
Proof.
  intros Hwf. destruct (mco_running c) as [q|] eqn:Hq.
  - destruct (wf_caller _ _ _ _ _ Hwf Hq) as (co & Hco & Hr).
    eapply wp_mono; [by eapply make_signal_run|]. cbn.
    intros h c' (t & -> & Ht & Hev & Hk & Hl & Hh).
    split_and!; [by apply with_signal_wf|by apply with_signal_frame|done..|].
    cbn. by rewrite lookup_insert_eq.
  - unfold bio_make_signal. ctx_steps. rewrite Hq. ctx_steps.
    apply kept_same; [done|]. split_and!; [apply hk_invalid|done..].
Qed.

(** The signal of a coroutine has a new handle. *)
Lemma make_signal_fresh c q :
  wf strict todo cur c → mco_running c = Some q →
  wp bio_make_signal (λ h _, ¬ known (htab c) h) c.
Proof.
  intros Hwf Hq. destruct (wf_caller _ _ _ _ _ Hwf Hq) as (co & Hco & _).
  unfold bio_make_signal. ctx_steps. rewrite Hq. ctx_steps.
  eapply wp_mono; [eapply wp_conj; [apply make_handle_fresh|apply make_handle_spec]; apply Hwf|].
  intros h c' (Hn & t & -> & _). by ctx_steps.
Qed.

(** ** Raising *)

(** Whether the signal is the last one that its owner waits for. *)
Definition wakes (s : bio_signal_impl_t) (co : bio_coro_impl_t) : bool :=
  bool_decide (counts s co) && (co_num_blocking_signals co =? 1).

(** The owner of a signal, and the state, after it was raised. *)
Definition woken_owner (s : bio_signal_impl_t) (co : bio_coro_impl_t) : bio_coro_impl_t :=
  set_co_state (λ st, if wakes s co then BIO_CORO_READY else st)
    (set_co_num_blocking_signals (λ n, if decide (counts s co) then n - 1 else n) co).

Definition woken (s : bio_signal_impl_t) (co : bio_coro_impl_t) (c : bio_ctx_t) : bio_ctx_t :=
  set_coros <[sig_owner s := woken_owner s co]>
    (set_next_ready_coros (λ l, if wakes s co then l ++ [sig_owner s] else l) c).

Definition raised_owner (p : loc) (s : bio_signal_impl_t) (co : bio_coro_impl_t) :
    bio_coro_impl_t :=
  set_co_pending_signals (filter (λ x, x ≠ p)) (woken_owner s co).

Definition raised (t : table bio_tag_t loc) (p : loc) (s : bio_signal_impl_t)
    (co : bio_coro_impl_t) (c : bio_ctx_t) : bio_ctx_t :=
  set_htab (λ _, t) (set_signals (delete p)
    (set_coros <[sig_owner s := raised_owner p s co]>
      (set_next_ready_coros (λ l, if wakes s co then l ++ [sig_owner s] else l) c))).

Lemma wake_run c p s co :
  signals c !! p = Some s → coros c !! sig_owner s = Some co →
  wp (wake_owner p) (λ r c', r = wakes s co ∧ c' = woken s co c) c.
Proof.
  intros Hs Hco. unfold wake_owner. ctx_steps.
  unfold woken, woken_owner, wakes. destruct (decide (counts s co)) as [Hc|Hc].
  - rewrite (bool_decide_true _ Hc). cbn. ctx_steps.
    replace (co_num_blocking_signals co - 1 =? 0) with (co_num_blocking_signals co =? 1) by lia.
    destruct (_ =? 1); ctx_steps; (split; [done|]).
    + ctx_eq.
    + ctx_eq.
  - rewrite (bool_decide_false _ Hc). cbn. ctx_steps. split; [done|].
    ctx_eq. rewrite insert_id; [done|]. rewrite Hco. by destruct co.
Qed.

Lemma unlink_run c p s co :
  signals c !! p = Some s → sig_link s = Some (sig_owner s) →
  coros c !! sig_owner s = Some co →
  wp (unlink_signal p) (λ _ c',
    c' = set_signals <[p := set_sig_link (λ _, None) s]>
           (set_coros <[sig_owner s := set_co_pending_signals (filter (λ x, x ≠ p)) co]> c)) c.
Proof.
  intros Hs Hlink Hco. unfold unlink_signal. ctx_steps. rewrite Hlink. ctx_steps. ctx_eq.
Qed.

(** [p] is the live signal that [h] refers to, [s] its contents, [co] its owner. *)
Definition signal_at (c : bio_ctx_t) (h : bio_handle_t) (p : loc) (s : bio_signal_impl_t)
    (co : bio_coro_impl_t) : Prop :=
  live (htab c) !! h = Some (BIO_SIGNAL_HANDLE, Some p) ∧ signals c !! p = Some s ∧
  coros c !! sig_owner s = Some co.

Lemma signal_at_lookup c h p :
  wf strict todo cur c → lookup_tagged (live (htab c)) h BIO_SIGNAL_HANDLE = Some p →
  ∃ s co, signal_at c h p s co.
Proof.
  intros Hwf Hl%lookup_tagged_Some.
  destruct (so_resolve _ _ _ _ _ _ (ob_signals _ (wf_objects _ _ _ _ Hwf)) Hl) as [s Hs].
  destruct (lk_item _ _ _ _ (wf_signals _ _ _ _ Hwf) _ _ Hs) as (q & Hq & co & Hco).
  exists s, co. rewrite (wf_owner _ _ _ _ Hwf _ _ Hs) in Hq. by injection Hq as <-.
Qed.

Lemma raise_run_at c h :
  HandleTable.wf (htab c) → store_ok BIO_SIGNAL_HANDLE (signals c) (live (htab c)) (next_loc c) →
  hk c h →
  (∀ p, lookup_tagged (live (htab c)) h BIO_SIGNAL_HANDLE = Some p →
    ∃ s co, signal_at c h p s co ∧ sig_link s = Some (sig_owner s)) →
  wp (bio_raise_signal h) (λ r c',
    match lookup_tagged (live (htab c)) h BIO_SIGNAL_HANDLE with
    | Some p => ∃ s co t, signal_at c h p s co ∧ c' = raised t p s co c ∧ r = wakes s co ∧
        HandleTable.wf t ∧ evolves (htab c) t ∧ live t = delete h (live (htab c))
    | None => c' = c ∧ r = false
    end) c.
Proof.
  intros Htab Hst Hk Hat. unfold bio_raise_signal.
  wp_use close_handle_spec; [done..|]. intros r c' (t & -> & Ht & Hev & Hc).
  destruct (lookup_tagged _ h _) as [p|] eqn:El.
  - destruct (Hat p eq_refl) as (s & co & (Hl & Hs & Hco) & Hlink).
    rewrite Hl in Hc. rewrite decide_True in Hc by done. destruct Hc as [-> Hlive].
    ctx_steps. wp_use wake_run; [done..|]. intros r c' [-> ->].
    wp_use unlink_run; [find_object..|]. intros [] c' ->. ctx_steps.
    exists s, co, t. split_and!; try done. unfold woken, raised. ctx_eq.
  - assert (Hn : r = None ∧ t = htab c).
    { unfold lookup_tagged in El. destruct (live (htab c) !! h) as [[tg o]|] eqn:E; [|done].
      destruct (decide (tg = BIO_SIGNAL_HANDLE)) as [->|]; [|done].
      destruct (so_live _ _ _ _ Hst _ _ E) as (p & -> & _). done. }
    destruct Hn as [-> ->]. ctx_steps. by rewrite set_htab_id.
Qed.

Lemma raise_run c h :
  wf strict todo cur c → hk c h →
  wp (bio_raise_signal h) (λ r c',
    match lookup_tagged (live (htab c)) h BIO_SIGNAL_HANDLE with
    | Some p => ∃ s co t, signal_at c h p s co ∧ c' = raised t p s co c ∧ r = wakes s co ∧
        HandleTable.wf t ∧ evolves (htab c) t ∧ live t = delete h (live (htab c))
    | None => c' = c ∧ r = false
    end) c.
Proof.
  intros Hwf Hk. apply raise_run_at; [apply Hwf|apply Hwf|done|]. intros p El.
  destruct (signal_at_lookup _ _ _ Hwf El) as (s & co & Hat). exists s, co.
  split; [done|]. by apply (wf_owner _ _ _ _ Hwf p), Hat.
Qed.

Lemma raised_wf c h p s co t :
  wf strict todo cur c → signal_at c h p s co → HandleTable.wf t → evolves (htab c) t →
  live t = delete h (live (htab c)) → wf strict todo cur (raised t p s co c).
Proof.
  intros Hwf (Hl & Hs & Hco) Ht Hev Hlive. destruct Hwf as [? ? [] ? ? ? ? ? ? ? Hsched Hcls Hwait ? ?].
  pose proof (lk_nodup _ _ _ _ wf_signals _ _ Hco) as Hnd.
  assert (p ∈ co_pending_signals co) as Hin.
  { apply (lk_list _ _ _ _ wf_signals _ _ _ Hco). exists s. eauto. }
  pose proof (wf_owner _ _ Hs) as Hlink. cbn in Hlink.
  split; cbn; try done; eauto with store.
  - split; cbn; rewrite Hlive; eauto with store.
  - by eapply linked_remove.
  - by apply map_Forall_delete.
  - by eapply refs_ok_evolves.
  - unfold raised_owner, woken_owner. destruct (wakes s co) eqn:Ew.
    + apply andb_true_iff in Ew as [[Hw _]%bool_decide_eq_true _]. rewrite app_assoc.
      by eapply sched_ok_wake.
    + by eapply sched_ok_update.
  - eapply wait_ok_remove; [done..|]. cbn. intros Hw.
    assert (Hb : is_blocking (signals c) co p ↔ sig_wait_counter s = co_wait_counter co).
    { unfold is_blocking. rewrite Hs. cbn. split; [by intros [= ->]|by intros ->]. }
    unfold wakes in *. destruct (decide (counts s co)) as [[Hst Hc]|Hc].
    + destruct (Hwait _ _ Hco Hst) as [Hpos _].
      rewrite bool_decide_true in Hw by done. rewrite (decide_True (P := is_blocking _ _ _)) by tauto.
      destruct (Z.eqb_spec (co_num_blocking_signals co) 1); [done|]. split; [done|lia].
    + unfold counts in Hc. rewrite bool_decide_false in Hw by done. cbn in Hw.
      rewrite (decide_False (P := is_blocking _ _ _)) by tauto.
      destruct (Hwait _ _ Hco Hw) as [Hpos _]. split; [done|lia].
Qed.

Lemma raised_frame t p s co c :
  coros c !! sig_owner s = Some co → evolves (htab c) t → frame c (raised t p s co c).
Proof.
  intros Hco Hev. solve_frame.
  eapply frame_running_update; [done|]. cbn. unfold wakes.
  destruct (decide (counts s co)) as [Hc|Hc].
  - destruct (_ && _); [done|]. destruct Hc. congruence.
  - rewrite bool_decide_false by done. done.
Qed.

Lemma raise_signal_spec c h :
  wf strict todo cur c → hk c h →
  wp (bio_raise_signal h) (kept strict todo cur c (λ _ c',
    live (htab c') !! h = None ∨ ∃ tg o, live (htab c') !! h = Some (tg, o) ∧
      tg ≠ BIO_SIGNAL_HANDLE)) c.
Proof.
  intros Hwf Hk. eapply wp_mono; [by apply raise_run|]. cbn. intros r c'.
  destruct (lookup_tagged _ h _) as [p|] eqn:E.
  - intros (s & co & t & Hat & -> & -> & Ht & Hev & Hl). split_and!.
    + by eapply raised_wf.
    + apply raised_frame; [apply Hat|done].
    + left. cbn. by rewrite Hl, lookup_delete_eq.
  - intros [-> ->]. apply kept_same; [done|].
    destruct (live (htab c) !! h) as [[tg o]|] eqn:El; [right|by left].
    exists tg, o. split; [done|]. intros ->.
    destruct (so_live _ _ _ _ (ob_signals _ (wf_objects _ _ _ _ Hwf)) _ _ El) as (p & -> & _).
    apply lookup_tagged_Some in El. congruence.
Qed.

Lemma check_signal_spec c h :
  wf strict todo cur c → hk c h →
  wp (bio_check_signal h) (λ r c', c' = c ∧
    r = bool_decide (lookup_tagged (live (htab c)) h BIO_SIGNAL_HANDLE = None)) c.
Proof.
  intros Hwf Hk. unfold bio_check_signal. wp_use resolve_handle_spec; [apply Hwf|done|].
  intros r c' [-> ->]. by wp_steps.
Qed.
(** ** Waiting *)

(** The live signals of [q] among the handles, and whether one of the handles
    counts as a raised signal. *)
Definition own_signal (c : bio_ctx_t) (q : loc) (h : bio_handle_t) : option loc :=
  p ← lookup_tagged (live (htab c)) h BIO_SIGNAL_HANDLE;
  s ← signals c !! p;
  if decide (sig_owner s = q) then Some p else None.

Definition handle_raised (c : bio_ctx_t) (h : bio_handle_t) : bool :=
  bool_decide (lookup_tagged (live (htab c)) h BIO_SIGNAL_HANDLE = None ∧ h ≠ BIO_INVALID_HANDLE).

(** The signals in [l] are marked with the wait that they take part in. *)
Definition mark (wc : Z) (l : list loc) (ss : gmap loc bio_signal_impl_t) :
    gmap loc bio_signal_impl_t :=
  map_imap (λ p s, Some (if decide (p ∈ l) then set_sig_wait_counter (λ _, wc) s else s)) ss.

Lemma mark_lookup wc l ss p :
  mark wc l ss !! p =
    (λ s, if decide (p ∈ l) then set_sig_wait_counter (λ _, wc) s else s) <$> ss !! p.
Proof. unfold mark. rewrite map_lookup_imap. by destruct (ss !! p). Qed.

Lemma mark_nil wc ss : mark wc [] ss = ss.
Proof.
  apply map_eq. intros p. rewrite mark_lookup. by destruct (ss !! p).
Qed.

Lemma mark_cons wc p l ss s :
  ss !! p = Some s →
  mark wc (p :: l) ss = mark wc l (<[p := set_sig_wait_counter (λ _, wc) s]> ss).
Proof.
  intros Hp. apply map_eq. intros p'. rewrite !mark_lookup.
  destruct (decide (p = p')) as [<-|Hne].
  - rewrite lookup_insert_eq, Hp. cbn. rewrite decide_True by left. by destruct (decide _).
  - rewrite lookup_insert_ne by done. destruct (ss !! p'); cbn; [|done]. f_equal.
    apply decide_ext. rewrite elem_of_cons. naive_solver.
Qed.

(** Marking changes neither the owners nor what is raised. *)
Lemma own_signals_mark c q wc p s (hs : list bio_handle_t) :
  signals c !! p = Some s →
  omap (own_signal (set_signals <[p := set_sig_wait_counter (λ _, wc) s]> c) q) hs =
    omap (own_signal c q) hs.
Proof.
  intros Hp. apply list_omap_ext. induction hs as [|h hs IH]; constructor; [|done].
  unfold own_signal. cbn. destruct (lookup_tagged _ _ _) as [p'|]; [|done]. cbn.
  destruct (decide (p = p')) as [<-|]; [by rewrite lookup_insert_eq, Hp|].
  by rewrite lookup_insert_ne.
Qed.

Lemma wait_scan_run q wc hs c n r :
  HandleTable.wf (htab c) → store_ok BIO_SIGNAL_HANDLE (signals c) (live (htab c)) (next_loc c) →
  Forall (hk c) hs →
  wp (wait_scan q wc hs n r) (λ x c',
    x = (n + zlen (omap (own_signal c q) hs), r || existsb (handle_raised c) hs) ∧
    c' = set_signals (mark wc (omap (own_signal c q) hs)) c) c.
Proof.
  revert c n r. induction hs as [|h hs IH]; intros c n r Ht Hst Hhs; cbn [wait_scan].
  { wp_steps. cbn. rewrite orb_false_r. split; [f_equal; unfold zlen; cbn; lia|].
    apply ctx_ext; cbn; try done. by rewrite mark_nil. }
  apply Forall_cons in Hhs as [Hh Hhs].
  wp_use resolve_handle_spec; [done..|]. intros o c' [-> ->].
  cbn [omap list_omap existsb].
  destruct (lookup_tagged _ h _) as [p|] eqn:El.
  - assert (Hraised : handle_raised c h = false).
    { unfold handle_raised. rewrite El. by apply bool_decide_eq_false; intros []. }
    destruct (so_resolve _ _ _ _ h p Hst) as [s Hs]; [by apply lookup_tagged_Some|].
    ctx_steps. rewrite Hraised. cbn [orb]. case_decide as Hown.
    + assert (Ho : own_signal c q h = Some p).
      { unfold own_signal. rewrite El. cbn. rewrite Hs. cbn. by rewrite decide_True. }
      rewrite Ho. ctx_steps. wp_use IH; cbn; try done.
      * apply store_ok_update; eauto.
      * intros [n' r'] c' [[= -> ->] ->]. rewrite own_signals_mark by done. split.
        -- rewrite zlen_cons. f_equal. lia.
        -- ctx_eq. by rewrite (mark_cons _ _ _ _ s).
    + assert (Ho : own_signal c q h = None).
      { unfold own_signal. rewrite El. cbn. rewrite Hs. cbn. by rewrite decide_False. }
      rewrite Ho. ctx_steps. by apply IH.
  - assert (Ho : own_signal c q h = None) by (unfold own_signal; by rewrite El).
    rewrite Ho. rewrite bio_handle_compare_bool.
    assert (Hraised : handle_raised c h = negb (bool_decide (h = BIO_INVALID_HANDLE))).
    { unfold handle_raised. rewrite El. rewrite <- bool_decide_not. apply bool_decide_ext. tauto. }
    rewrite Hraised, orb_assoc. by apply IH.
Qed.

(** The state in which [bio_wait_for_signals] yields. *)
Definition waits (q : loc) (co : bio_coro_impl_t) (hs : list bio_handle_t) (wait_all : bool)
    (c : bio_ctx_t) : bool :=
  (zlen (omap (own_signal c q) hs) >? 0) && (wait_all || negb (existsb (handle_raised c) hs)).

Definition waiting (q : loc) (co : bio_coro_impl_t) (hs : list bio_handle_t) (wait_all : bool)
    (c : bio_ctx_t) : bio_ctx_t :=
  set_signals (mark (co_wait_counter co + 1) (omap (own_signal c q) hs))
    (set_coros <[q := set_co_num_blocking_signals (λ n,
        if waits q co hs wait_all c
        then if wait_all then zlen (omap (own_signal c q) hs) else 1
        else n) (set_co_wait_counter (λ _, co_wait_counter co + 1) co)]> c).

Lemma prepare_wait_run q co hs wait_all c :
  wf strict todo cur c → Forall (hk c) hs → mco_running c = Some q → coros c !! q = Some co →
  wp (prepare_wait hs wait_all) (λ b c',
    b = waits q co hs wait_all c ∧ c' = waiting q co hs wait_all c) c.
Proof.
  intros Hwf Hhs Hq Hco. unfold prepare_wait. ctx_steps. rewrite Hq. ctx_steps.
  wp_use wait_scan_run; [apply Hwf|apply Hwf|done|]. cbn.
  intros [n r] c' [[= -> ->] ->]. unfold waits, waiting, waits. cbn.
  match goal with |- context [existsb (handle_raised ?c') hs] =>
    change (handle_raised c') with (handle_raised c);
    change (own_signal c' q) with (own_signal c q) end.
  destruct (_ && _); ctx_steps; (split; [done|]).
  - ctx_eq.
  - ctx_eq.
Qed.

Lemma own_signal_Some c q h p :
  own_signal c q h = Some p ↔
    ∃ s, live (htab c) !! h = Some (BIO_SIGNAL_HANDLE, Some p) ∧ signals c !! p = Some s ∧
      sig_owner s = q.
Proof.
  unfold own_signal. destruct (lookup_tagged _ h _) as [p'|] eqn:El; cbn.
  - apply lookup_tagged_Some in El. rewrite El. destruct (signals c !! p') as [s|] eqn:Es; cbn.
    + case_decide; split.
      * intros [= <-]. eauto.
      * intros (s' & [= <-] & _). done.
      * done.
      * intros (s' & [= <-] & ? & ?). congruence.
    + split; [done|]. intros (s' & [= <-] & ? & _). congruence.
  - split; [done|]. intros (s & Hl%lookup_tagged_Some & _). congruence.
Qed.

(** Different handles are different signals. *)
Lemma own_signals_nodup c q (hs : list bio_handle_t) :
  store_ok BIO_SIGNAL_HANDLE (signals c) (live (htab c)) (next_loc c) →
  NoDup hs → NoDup (omap (own_signal c q) hs).
Proof.
  intros Hok Hnd. apply NoDup_omap; [|done]. intros h1 h2 p (s1 & H1 & _)%own_signal_Some
    (s2 & H2 & _)%own_signal_Some. by eapply so_inj.
Qed.

(** The signals that the caller waits for are among those it is blocked on. *)
Lemma own_signals_blocking c q co co' hs l :
  wf strict todo cur c → coros c !! q = Some co →
  co_pending_signals co' = co_pending_signals co →
  l = omap (own_signal c q) hs →
  ∀ p, p ∈ l → p ∈ blocking (mark (co_wait_counter co') l (signals c)) co'.
Proof.
  intros Hwf Hco Hp -> p Hin. apply list_elem_of_filter. split.
  - unfold is_blocking. rewrite mark_lookup.
    apply list_elem_of_omap in Hin as Hin'. destruct Hin' as (h & _ & (s & _ & Hs & _)%own_signal_Some).
    rewrite Hs. cbn. by rewrite decide_True.
  - apply list_elem_of_omap in Hin as (h & _ & (s & _ & Hs & <-)%own_signal_Some).
    rewrite Hp. apply (lk_list _ _ _ _ (wf_signals _ _ _ _ Hwf) _ _ _ Hco).
    exists s. split; [done|]. by rewrite (wf_owner _ _ _ _ Hwf _ _ Hs).
Qed.

Lemma mark_fmap {A} (f : bio_signal_impl_t → A) wc l ss p :
  (∀ s, f (set_sig_wait_counter (λ _, wc) s) = f s) → f <$> mark wc l ss !! p = f <$> ss !! p.
Proof.
  intros Hf. rewrite mark_lookup. destruct (ss !! p); cbn; [|done]. by case_decide; rewrite ?Hf.
Qed.

Lemma mark_dom wc l ss : dom (mark wc l ss) = dom ss.
Proof.
  apply set_eq. intros p. rewrite !elem_of_dom, mark_lookup. apply fmap_is_Some.
Qed.

Lemma waiting_wf q co hs wait_all c :
  wf strict todo cur c → coros c !! q = Some co → co_state co = BIO_CORO_RUNNING →
  wf strict todo cur (waiting q co hs wait_all c).
Proof.
  intros Hwf Hco Hr. pose proof Hwf as [? ? [] ? Hown ? ? ? ? ? ? ? ? ? ?].
  split; cbn; try done; eauto with store.
  - split; cbn; eauto using store_ok_map, mark_dom with store.
    eapply self_ok_map; [done|]. intros p. by apply mark_fmap.
  - eapply linked_items; [eauto with store|]. intros p. by apply mark_fmap.
  - intros p s. rewrite mark_lookup. intros (s' & Hs' & ->)%fmap_Some.
    case_decide; cbn; by apply (Hown p).
  - by eapply sched_ok_update.
  - apply wait_ok_awake; [|cbn; congruence].
    eapply wait_ok_signals; [done|]. intros q' co' p Hq' Hw Hin.
    rewrite mark_lookup. destruct (signals c !! p) as [s|] eqn:Es; [|done]. cbn.
    rewrite decide_False; [done|].
    intros (h & _ & (s' & _ & Hs' & Hq)%own_signal_Some)%list_elem_of_omap. simplify_eq.
    apply (lk_list _ _ _ _ wf_signals _ _ _ Hq') in Hin as (s2 & ? & Hl). simplify_eq.
    rewrite (Hown p) in Hl by done. injection Hl as <-. congruence.
Qed.

Lemma waiting_calm q co hs wait_all c :
  coros c !! q = Some co → calm c (waiting q co hs wait_all c).
Proof. intros Hco. solve_calm. Qed.
End signal.

(** The caller either goes on, or yields and waits for no more signals than
    can be raised, provided that it does not list a signal twice. *)
Lemma prepare_wait_spec strict todo q hs wait_all c :
  inv strict (Some q) todo c → Forall (hk c) hs →
  (strict → wait_all = true → NoDup hs) →
  wp (prepare_wait hs wait_all) (λ b c',
    (if b : bool then yielding strict q todo c' else inv strict (Some q) todo c') ∧ calm c c') c.
Proof.
  intros Hinv Hhs Hnd. pose proof Hinv as [Hwf Hq Hdebt Hidle].
  destruct (wf_running _ _ _ _ Hwf) as (co & Hco & Hr).
  eapply wp_mono; [by eapply prepare_wait_run|]. cbn. intros b c' [-> ->].
  split; [|by apply waiting_calm].
  assert (Hwf' : wf strict todo (Some q) (waiting q co hs wait_all c)) by by apply waiting_wf.
  pose proof (calm_daemons _ _ (waiting_calm q co hs wait_all c Hco)) as Hdebt'.
  rewrite Hdebt in Hdebt'.
  destruct (waits q co hs wait_all c) eqn:Ew.
  - split; [done..|]. intros x. cbn. rewrite lookup_insert_eq, Ew. intros [= <-]. cbn.
    apply andb_true_iff in Ew as [Hpos _].
    set (co' := set_co_num_blocking_signals _ _). set (l := omap (own_signal c q) hs) in *.
    assert (Hsub : ∀ p, p ∈ l → p ∈ blocking (mark (co_wait_counter co + 1) l (signals c)) co').
    { intros p. apply (own_signals_blocking strict todo (Some q) c q co co' hs); done. }
    assert (Hlen : NoDup l →
      zlen l ≤ zlen (blocking (mark (co_wait_counter co + 1) l (signals c)) co')).
    { intros Hn. unfold zlen. by apply Nat2Z.inj_le, submseteq_length, NoDup_submseteq. }
    split.
    + subst co'. cbn. destruct wait_all; lia.
    + intros Hst. subst co'. cbn in *. destruct wait_all.
      * apply Hlen, own_signals_nodup; [apply Hwf|auto].
      * destruct l as [|p l']; [done|]. apply (zlen_elem _ p), Hsub. left.
  - split; [done..|]. intros q' x [= <-]. cbn. rewrite lookup_insert_eq, Ew.
    intros [= <-]. cbn. eauto.
Qed.

(** ** Who is woken up, and when *)

Section wake.
Context (strict : Prop) (todo : list loc) (cur : option loc).
Implicit Types (c : bio_ctx_t).

(** Coroutine [q] waits for all the signals in [hs]. *)
Record waits_for (c : bio_ctx_t) (q : loc) (hs : list bio_handle_t) : Prop := {
  wt_nodup : NoDup hs;
  wt_coro : ∃ co, coros c !! q = Some co ∧ co_state co = BIO_CORO_WAITING ∧
    co_num_blocking_signals co = zlen hs ∧
    ∀ h, h ∈ hs → ∃ p, own_signal c q h = Some p ∧ is_blocking (signals c) co p;
}.

(** One of them is raised. *)
Lemma raise_waiting c q h hs :
  wf strict todo cur c → waits_for c q (h :: hs) →
  wp (bio_raise_signal h) (λ woken c', wf strict todo cur c' ∧
    woken = bool_decide (hs = []) ∧
    if woken then co_state <$> coros c' !! q = Some BIO_CORO_READY ∧
      next_ready_coros c' = next_ready_coros c ++ [q]
    else waits_for c' q hs ∧ next_ready_coros c' = next_ready_coros c) c.
Proof.
  intros Hwf [Hnd (co & Hq & Hst & Hn & Hall)]. apply NoDup_cons in Hnd as [Hni Hnd].
  destruct (Hall h) as (p & (s & Hl & Hs & Ho)%own_signal_Some & Hb); [left|].
  assert (Hk : hk c h) by (apply live_known; eauto).
  eapply wp_mono; [by apply (raise_run strict todo cur)|]. cbn. intros woken c'.
  rewrite (proj2 (lookup_tagged_Some _ _ _ _) Hl). intros (s' & co' & t & Hat & -> & -> & Ht & Hev & Hlt).
  split; [by eapply raised_wf|]. destruct Hat as (_ & Hs' & Hq'). simplify_eq.
  unfold is_blocking in Hb. rewrite Hs in Hb. injection Hb as Hb.
  assert (Hw : wakes s co = bool_decide (hs = [])).
  { unfold wakes. rewrite bool_decide_true by done. rewrite Hn, zlen_cons. cbn.
    destruct hs; [done|]. rewrite zlen_cons. pose proof (zlen_nonneg hs).
    rewrite (bool_decide_false (_ :: _ = [])) by done. lia. }
  rewrite Hw. split; [done|]. cbn. rewrite Hw. unfold raised_owner, woken_owner. rewrite Hw.
  destruct (bool_decide (hs = [])) eqn:Eh.
  - by rewrite lookup_insert_eq.
  - split; [|done]. split; [done|]. cbn. rewrite lookup_insert_eq. eexists. split; [done|].
    unfold raised_owner, woken_owner. cbn. rewrite Hw, decide_True by done. cbn. split_and!; [done|rewrite zlen_cons in Hn; cbn; lia|].
    intros h' Hin. destruct (Hall h') as (p' & (s' & Hl' & Hs'' & Ho')%own_signal_Some & Hb'); [by right|].
    assert (h' ≠ h) as Hne by (intros ->; done).
    assert (p' ≠ p) as Hnp.
    { intros ->. apply Hne. by eapply (so_inj _ _ _ _ (ob_signals _ (wf_objects _ _ _ _ Hwf))). }
    exists p'. split.
    + apply own_signal_Some. exists s'. cbn. rewrite Hlt, !lookup_delete_ne by done. done.
    + unfold is_blocking in *. cbn. by rewrite lookup_delete_ne.
Qed.

Fixpoint raise_all (hs : list bio_handle_t) : M (list bool) :=
  match hs with
  | [] => mret []
  | h :: hs => woken ← bio_raise_signal h; rest ← raise_all hs; mret (woken :: rest)
  end.

(** C11: A coroutine that waits for all of several signals is woken up by the last of
    them that is raised, in any order, and not before: then it is scheduled, once. *)
Theorem wait_all_wakes_last c q hs hs' h :
  wf strict todo cur c → waits_for c q hs → hs ≡ₚ hs' ++ [h] →
  wp (raise_all (hs' ++ [h])) (λ woken c', wf strict todo cur c' ∧
    woken = replicate (length hs') false ++ [true] ∧
    co_state <$> coros c' !! q = Some BIO_CORO_READY ∧
    next_ready_coros c' = next_ready_coros c ++ [q]) c.
Proof.
  intros Hwf Hw Hp.
  assert (Hw' : waits_for c q (hs' ++ [h])).
  { destruct Hw as [Hnd (co & Hq & Hst & Hn & Hall)]. split; [by rewrite <- Hp|].
    exists co. split_and!; [done..| |].
    - rewrite Hn. unfold zlen. by rewrite Hp.
    - intros h' Hin. apply Hall. by rewrite Hp. }
  clear Hw Hp hs. revert c Hwf Hw'. induction hs' as [|h' hs' IH]; intros c Hwf Hw; cbn.
  - wp_use raise_waiting; [done..|]. intros woken c' (Hwf' & -> & Hr & Hn). by wp_steps.
  - wp_use raise_waiting; [done..|]. rewrite bool_decide_false by by destruct hs'.
    intros woken c1 (Hwf1 & -> & Hw1 & Hn1). wp_use IH; [done..|].
    intros r c2 (Hwf2 & -> & Hr & Hn2). wp_steps. split_and!; [done..|congruence].
Qed.
End wake.
