(* ===== verification/Timer.v ===== *)
(** Delayed signals ([src/timer.c]): [bio_raise_signal_after], [bio_timer_update]
    and [bio_time_until_next_timer]. *)
From Stdlib Require Import Sorted.
From S2P Require Import Prelude HandleTable TimerHeap Ctx Prog Store Ring Invariant Signal.

(** ** The code *)

(** Operations on the queue of timers. *)
Definition on_theap {A} (m : st theap A) : M A :=
  zoom timer_heap (λ h, set_timer_heap (λ _, h)) m.

Section code.
(** The clock of the platform: the value of its [n]th reading. *)
Context (clock : nat → Z).

Definition bio_platform_current_time_ms : M Z :=
  n ← gets clock_reads;
  _ ← modify (set_clock_reads S);
  mret (clock n).

(** [bio_timer_init]. *)
Definition bio_timer_init : M unit :=
  _ ← modify (set_timer_heap (λ _, theap_init));
  now ← bio_platform_current_time_ms;
  modify (set_current_time_ms (λ _, now)).

(** The loop of [bio_timer_update]. *)
Fixpoint expire_timers (fuel : nat) (current_time : Z) : M unit :=
  match fuel with
  | O => fail OutOfFuel
  | S fuel =>
      heap ← gets timer_heap;
      if num_timers heap >? 0 then
        entry ← on_theap (get_entry 0);
        if due_time_ms entry <=? current_time then
          _ ← bio_raise_signal (TimerHeap.signal entry);
          _ ← on_theap heap_delete_root;
          expire_timers fuel current_time
        else mret tt
      else mret tt
  end.

(** [bio_timer_update]: every round removes a timer. *)
Definition bio_timer_update : M unit :=
  current_time ← bio_platform_current_time_ms;
  _ ← modify (set_current_time_ms (λ _, current_time));
  heap ← gets timer_heap;
  expire_timers (S (Z.to_nat (num_timers heap))) current_time.

(** [bio_time_until_next_timer]. *)
Definition bio_time_until_next_timer : M Z :=
  heap ← gets timer_heap;
  if num_timers heap >? 0 then
    current_time ← bio_platform_current_time_ms;
    entry ← on_theap (get_entry 0);
    if due_time_ms entry <? current_time then mret 0
    else i64_of (due_time_ms entry - current_time)
  else mret (-1).
End code.

(** [bio_raise_signal_after]. *)
Definition bio_raise_signal_after (signal : bio_handle_t) (time_ms : Z) : M unit :=
  if time_ms >? 0 then
    current_time ← gets current_time_ms;
    due ← i64_of (current_time + time_ms);
    on_theap (heap_insert due signal)
  else
    _ ← bio_raise_signal signal;
    mret tt.

(** ** Safety and behaviour *)

Section timer.
Context (strict : Prop) (todo : list loc) (cur : option loc).
Implicit Types (c : bio_ctx_t) (e : bio_timer_entry_t bio_handle_t).

Abbreviation pending c := (theap_contents (timer_heap c)).

(** Changes that the invariant does not depend on. *)
Lemma set_clock_reads_wf f c :
  wf strict todo cur c → wf strict todo cur (set_clock_reads f c).
Proof. intros []. split; try done. destruct wf_objects. by split. Qed.

Lemma set_current_time_wf f c :
  wf strict todo cur c → wf strict todo cur (set_current_time_ms f c).
Proof. intros []. split; try done. destruct wf_objects. by split. Qed.

Lemma set_timer_heap_wf h c :
  wf strict todo cur c → theap_wf h → Forall (λ e, hk c (TimerHeap.signal e)) (theap_contents h) →
  wf strict todo cur (set_timer_heap (λ _, h) c).
Proof.
  intros [] Hh He. split; try done.
  - destruct wf_objects. by split.
  - destruct wf_refs. by split.
Qed.

Lemma set_timer_heap_frame h c : frame c (set_timer_heap (λ _, h) c).
Proof. split; [split; done|done|eauto|done]. Qed.

Lemma time_spec clock c :
  wf strict todo cur c →
  wp (bio_platform_current_time_ms clock) (λ r c',
    r = clock (clock_reads c) ∧ c' = set_clock_reads S c) c.
Proof. intros Hwf. unfold bio_platform_current_time_ms. by wp_steps. Qed.

(** What an operation that only raises signals does to the handles. *)
Definition only_raises (l : list bio_handle_t) (c c' : bio_ctx_t) : Prop :=
  ∀ h, live (htab c') !! h =
    (if decide (h ∈ l ∧ lookup_tagged (live (htab c)) h BIO_SIGNAL_HANDLE ≠ None)
     then None else live (htab c) !! h).

Lemma only_raises_sub l c c' : only_raises l c c' → live (htab c') ⊆ live (htab c).
Proof.
  intros H. apply map_subseteq_spec. intros h o. rewrite (H h). by case_decide.
Qed.

Lemma only_raises_dead l c c' h :
  only_raises l c c' → h ∈ l → lookup_tagged (live (htab c')) h BIO_SIGNAL_HANDLE = None.
Proof.
  intros H Hin. unfold lookup_tagged at 1. rewrite (H h).
  destruct (lookup_tagged (live (htab c)) h BIO_SIGNAL_HANDLE) eqn:E.
  - by rewrite decide_True.
  - rewrite decide_False by (by intros [_ ?]). exact E.
Qed.

(** Raising a signal with all that is known of its effect. *)
Lemma raise_signal_full c h :
  wf strict todo cur c → hk c h →
  wp (bio_raise_signal h) (kept strict todo cur c (λ _ c',
    only_raises [h] c c' ∧ timer_heap c' = timer_heap c ∧
    current_time_ms c' = current_time_ms c ∧ mailboxes c' = mailboxes c ∧
    timers c' = timers c ∧ monitors c' = monitors c ∧ exit_infos c' = exit_infos c ∧
    exit_handlers c' = exit_handlers c)) c.
Proof.
  intros Hwf Hk. eapply wp_mono; [by apply (raise_run strict todo cur)|]. cbn. intros r c'.
  destruct (lookup_tagged _ h _) as [p|] eqn:E.
  - intros (s & co & t & Hat & -> & -> & Ht & Hev & Hl).
    split_and!; [by eapply raised_wf|apply raised_frame; [apply Hat|done]|..]; try done.
    intros h'. cbn. rewrite Hl, lookup_delete.
    destruct (decide (h = h')) as [<-|Hne].
    + rewrite decide_True; [done|]. split; [by left|congruence].
    + rewrite decide_False; [done|]. intros [->%list_elem_of_singleton _]. done.
  - intros [-> ->]. apply kept_same; [done|]. split_and!; try done.
    intros h'. rewrite decide_False; [done|]. intros [->%list_elem_of_singleton ?]. done.
Qed.

Lemma only_raises_cons h l c c1 c2 :
  only_raises [h] c c1 → only_raises l c1 c2 → only_raises (h :: l) c c2.
Proof.
  intros H1 H2 x. rewrite (H2 x). specialize (H1 x).
  assert (Hlk : lookup_tagged (live (htab c1)) x BIO_SIGNAL_HANDLE =
    if decide (x = h) then None else lookup_tagged (live (htab c)) x BIO_SIGNAL_HANDLE).
  { unfold lookup_tagged at 1. rewrite H1. destruct (decide (x = h)) as [->|Hne].
    - destruct (lookup_tagged _ h _) eqn:E.
      + by rewrite decide_True by (split; [left|done]).
      + rewrite decide_False by (by intros [_ ?]). exact E.
    - by rewrite decide_False by (by intros [?%list_elem_of_singleton _]). }
  rewrite Hlk, H1. clear Hlk H1 H2. destruct (decide (x = h)) as [->|Hne].
  - rewrite decide_False by (by intros [_ ?]). apply decide_ext.
    rewrite list_elem_of_singleton, elem_of_cons. tauto.
  - rewrite (decide_False (P := x ∈ [h] ∧ _)) by (by intros [?%list_elem_of_singleton _]).
    apply decide_ext. rewrite elem_of_cons. tauto.
Qed.

Lemma expire_timers_spec fuel now c :
  wf strict todo cur c → num_timers (timer_heap c) < Z.of_nat fuel →
  wp (expire_timers fuel now) (kept strict todo cur c (λ _ c', ∃ fired,
    pending c ≡ₚ fired ++ pending c' ∧ Forall (λ e, due_time_ms e ≤ now) fired ∧
    Forall (λ e, now < due_time_ms e) (pending c') ∧
    StronglySorted Z.le (due_time_ms <$> fired) ∧
    only_raises (TimerHeap.signal <$> fired) c c' ∧ current_time_ms c' = current_time_ms c)) c.
Proof.
  revert c. induction fuel as [|fuel IH]; intros c Hwf Hf.
  { pose proof (theap_num_timers _ (wf_theap _ _ _ _ Hwf)). pose proof (zlen_nonneg (pending c)). lia. }
  cbn [expire_timers]. wp_steps. pose proof (wf_theap _ _ _ _ Hwf) as Hh.
  pose proof (theap_num_timers _ Hh) as Hnum.
  destruct (num_timers (timer_heap c) >? 0) eqn:En.
  - destruct (theap_root _ Hh) as (e & v & Hv & Hmin & Hget & Hdel); [lia|].
    pose proof (rf_entries _ _ _ _ _ _ _ (wf_refs _ _ _ _ Hwf)) as Hkn. rewrite Hv in Hkn.
    apply Forall_cons in Hkn as [Hke Hkv].
    apply wp_bind, wp_zoom. eapply wp_mono; [exact Hget|]. intros ? ? [-> ->].
    replace (set_timer_heap _ c) with c by by destruct c.
    destruct (due_time_ms e <=? now) eqn:Ed.
    + wp_use raise_signal_full; [done|done|]. intros _ c1 (Hwf1 & Hf1 & Hr1 & Ht1 & Hn1 & _).
      apply wp_bind, wp_zoom. rewrite Ht1. eapply wp_mono; [exact Hdel|].
      intros [] h [Hh' Hp]. cbn beta.
      assert (Hz : zlen (theap_contents h) = zlen v) by (unfold zlen; by rewrite Hp).
      pose proof (theap_num_timers _ Hh') as Hnum'. rewrite Hv, zlen_cons in Hnum.
      assert (Hwf2 : wf strict todo cur (set_timer_heap (λ _, h) c1)).
      { apply set_timer_heap_wf; [done..|]. rewrite Hp. eapply Forall_impl; [exact Hkv|].
        intros e' He'. eapply hk_le; [exact He'|apply Hf1]. }
      wp_use IH; [done|cbn; lia|]. intros [] c2 (Hwf3 & Hf3 & fired & Hp3 & Hd3 & Ha3 & Hs3 & Hr3 & Hn3).
      split; [done|]. split; [etrans; [exact Hf1|]; etrans; [|exact Hf3]; apply set_timer_heap_frame|].
      exists (e :: fired). cbn in Hp3. split_and!.
      * rewrite Hv. cbn. by rewrite <- Hp3, Hp.
      * constructor; [lia|done].
      * done.
      * cbn. constructor; [done|]. apply Forall_fmap, Forall_forall. intros e' He'.
        rewrite Forall_forall in Hmin. apply Hmin. rewrite <- Hp, Hp3. apply elem_of_app. by left.
      * cbn. eapply only_raises_cons; [exact Hr1|]. exact Hr3.
      * by rewrite Hn3.
    + wp_steps. apply kept_same; [done|]. exists []. split_and!; try done; [|constructor..].
      rewrite Hv. constructor; [lia|]. eapply Forall_impl; [exact Hmin|]. intros e'. cbn. lia.
  - wp_steps. apply kept_same; [done|]. exists []. split_and!; try done; [|constructor].
    destruct (pending c) as [|e v]; [done|].
    rewrite zlen_cons in Hnum. pose proof (zlen_nonneg v). lia.
Qed.

Lemma set_clock_reads_frame f c : frame c (set_clock_reads f c).
Proof. split; [split; done|done|eauto|done]. Qed.

Lemma set_current_time_frame f c : frame c (set_current_time_ms f c).
Proof. split; [split; done|done|eauto|done]. Qed.

Lemma timer_update_spec clock c :
  wf strict todo cur c →
  wp (bio_timer_update clock) (kept strict todo cur c (λ _ c', ∃ fired,
    let now := clock (clock_reads c) in
    pending c ≡ₚ fired ++ pending c' ∧ Forall (λ e, due_time_ms e ≤ now) fired ∧
    Forall (λ e, now < due_time_ms e) (pending c') ∧
    StronglySorted Z.le (due_time_ms <$> fired) ∧
    only_raises (TimerHeap.signal <$> fired) c c' ∧ current_time_ms c' = now)) c.
Proof.
  intros Hwf. unfold bio_timer_update. wp_use time_spec; [done|]. intros now c1 [-> ->]. wp_steps.
  wp_use expire_timers_spec.
  - by apply set_current_time_wf, set_clock_reads_wf.
  - cbn. lia.
  - intros [] c' (Hwf' & Hf & fired & Hfired). split; [done|]. split; [|by exists fired].
    etrans; [|exact Hf]. etrans; [apply set_clock_reads_frame|apply set_current_time_frame].
Qed.

Lemma time_until_next_timer_spec clock c :
  wf strict todo cur c →
  wp (bio_time_until_next_timer clock) (kept strict todo cur c (λ r c',
    c' = (if bool_decide (pending c = []) then c else set_clock_reads S c) ∧
    (pending c = [] → r = -1) ∧
    ∀ e, e ∈ pending c → 0 ≤ r ≤ Z.max 0 (due_time_ms e - clock (clock_reads c)))) c.
Proof.
  intros Hwf. unfold bio_time_until_next_timer. wp_steps.
  pose proof (wf_theap _ _ _ _ Hwf) as Hh. pose proof (theap_num_timers _ Hh) as Hnum.
  destruct (num_timers (timer_heap c) >? 0) eqn:En.
  - destruct (theap_root _ Hh) as (e & v & Hv & Hmin & Hget & _); [lia|]. rewrite Hv.
    wp_use time_spec; [done|]. intros now c1 [-> ->].
    apply wp_bind, wp_zoom. eapply wp_mono; [exact Hget|]. intros ? ? [-> ->]. cbn beta.
    replace (set_timer_heap _ _) with (set_clock_reads S c) by by destruct c.
    assert (Hall : ∀ e', e' ∈ e :: v → due_time_ms e ≤ due_time_ms e').
    { intros e' [->|Hin]%elem_of_cons; [lia|]. rewrite Forall_forall in Hmin. auto. }
    rewrite bool_decide_false by done.
    destruct (_ <? _) eqn:El; wp_steps; (split; [by apply set_clock_reads_wf|]);
      (split; [apply set_clock_reads_frame|]); (split; [done|]); (split; [done|]);
      intros e' He'%Hall; lia.
  - wp_steps. apply kept_same; [done|]. destruct (pending c) as [|e v].
    + split_and!; [done..|]. intros e []%not_elem_of_nil.
    + rewrite zlen_cons in Hnum. pose proof (zlen_nonneg v). lia.
Qed.

Lemma raise_signal_after_spec c h t :
  wf strict todo cur c → hk c h →
  wp (bio_raise_signal_after h t) (kept strict todo cur c (λ _ c',
    if t >? 0 then
      pending c' ≡ₚ mk_entry (current_time_ms c + t) h :: pending c ∧ htab c' = htab c ∧
      coros c' = coros c
    else only_raises [h] c c')) c.
Proof.
  intros Hwf Hk. unfold bio_raise_signal_after. destruct (t >? 0).
  - wp_steps. apply wp_zoom. wp_use theap_insert_spec; [apply Hwf|].
    intros [] h' [Hh' Hp]. split; [|split; [apply set_timer_heap_frame|done]].
    apply set_timer_heap_wf; [done..|]. rewrite Hp. constructor; [done|].
    apply (rf_entries _ _ _ _ _ _ _ (wf_refs _ _ _ _ Hwf)).
  - wp_use raise_signal_full; [done..|]. intros b c' (Hwf' & Hf & Hr & _). wp_steps.
    by split_and!.
Qed.
End timer.

(** ** The queue of delayed signals *)

Section correct.
Context (strict : Prop) (todo : list loc) (cur : option loc).


(** C18: The timeout that the event loop waits for input and output never lets it
    sleep past the next delayed signal, and it is infinite only without one. *)
Theorem sleep_until_next_timer clock c :
  wf strict todo cur c →
  wp (bio_time_until_next_timer clock) (λ r c', wf strict todo cur c' ∧
    let now := clock (clock_reads c) in
    if bool_decide (theap_contents (timer_heap c) = []) then r = -1
    else 0 ≤ r ∧ ∀ e, e ∈ theap_contents (timer_heap c) → now + r ≤ Z.max now (due_time_ms e)) c.
Proof.
  intros Hwf. eapply wp_mono; [by apply time_until_next_timer_spec|].
  intros r c' (Hwf' & _ & _ & Hnone & Hr). split; [done|]. cbn. case_bool_decide as Hc; [auto|].
  destruct (theap_contents (timer_heap c)) as [|e v]; [done|].
  split; [apply (Hr e); left|]. intros e' He'%Hr. lia.
Qed.
End correct.
