(* ===== verification/Coro.v ===== *)
(** Coroutines ([src/scheduler.c]): creation, inspection, monitors and
    coroutine-local storage. *)
From stdpp Require Import strings.
From S2P Require Import Prelude Bits HandleTable TimerHeap Ctx Prog Store Ring Invariant Signal.
From S2P Require Import Timer.

(** ** The code *)

Definition BIO_DEFAULT_NUM_CLS_BUCKETS : Z := 4.

(** [bio_scheduler_init]: [options.num_cls_buckets] is what the user asked for. *)
Definition bio_scheduler_init : M unit :=
  _ ← modify (set_num_coros (λ _, 0));
  _ ← modify (set_num_daemons (λ _, 0));
  n ← gets num_cls_buckets;
  if n =? 0 then modify (set_num_cls_buckets (λ _, BIO_DEFAULT_NUM_CLS_BUCKETS))
  else modify (set_num_cls_buckets (λ _, to_int (bio_next_pow2 (u32 n)))).

(** [bio_scheduler_cleanup]. *)
Definition bio_scheduler_cleanup : M unit :=
  _ ← modify (set_next_ready_coros (λ _, []));
  modify (set_current_ready_coros (λ _, [])).

(** The initial contents of a [bio_coro_impl_t] in [bio_spawn_ex]. *)
Definition new_coro (entrypoint : bio_entrypoint_t) (userdata : option loc)
    (options : bio_coro_options_t) (handle : bio_handle_t) : bio_coro_impl_t :=
  mk_coro entrypoint (opt_daemon options) userdata None None None None
    handle BIO_CORO_READY [] [] 0 0.

(** [bio_spawn_ex]. *)
Definition bio_spawn_ex (clock : nat → Z) (entrypoint : bio_entrypoint_t) (userdata : option loc)
    (options : option bio_coro_options_t) : M bio_handle_t :=
  let options := default (mk_coro_options false) options in
  coro ← bio_malloc;
  _ ← modify (set_coros <[coro := new_coro entrypoint userdata options BIO_INVALID_HANDLE]>);
  handle ← make_handle coro BIO_CORO_HANDLE;
  _ ← update_coro coro (set_co_handle (λ _, handle));
  _ ← push_ready coro;
  n ← gets num_coros;
  n ← int_of (n + 1);
  _ ← modify (set_num_coros (λ _, n));
  _ ← (if n =? 1 then bio_timer_update clock else mret tt);
  _ ← (if opt_daemon options then
         d ← gets num_daemons;
         d ← int_of (d + 1);
         modify (set_num_daemons (λ _, d))
       else mret tt);
  co ← deref_coro coro;
  mret (co_handle co).

(** [bio_spawn] ([bio.h]). *)
Definition bio_spawn (clock : nat → Z) (entrypoint : bio_entrypoint_t) (userdata : option loc) :
    M bio_handle_t :=
  bio_spawn_ex clock entrypoint userdata None.

(** [bio_coro_state]. *)
Definition bio_coro_state (ref : bio_handle_t) : M bio_coro_state_t :=
  coro ← resolve_handle ref BIO_CORO_HANDLE;
  match coro with
  | Some coro => co ← deref_coro coro; mret (co_state co)
  | None => mret BIO_CORO_DEAD
  end.

(** [bio_yield]. *)
Definition bio_yield : prog unit := Susp (mret true).

(** [bio_current_coro]. *)
Definition bio_current_coro : M bio_handle_t :=
  impl ← running;
  match impl with
  | Some coro => co ← deref_coro coro; mret (co_handle co)
  | None => mret BIO_INVALID_HANDLE
  end.

(** [bio_monitor]. *)
Definition bio_monitor (coro signal : bio_handle_t) : M bio_handle_t :=
  coro_impl ← resolve_handle coro BIO_CORO_HANDLE;
  signal_impl ← resolve_handle signal BIO_SIGNAL_HANDLE;
  ok ← (match coro_impl, signal_impl with
        | Some coro_impl, Some signal_impl =>
            s ← deref_signal signal_impl;
            mret (if decide (sig_owner s ≠ coro_impl) then Some coro_impl else None)
        | _, _ => mret None
        end);
  match ok with
  | Some coro_impl =>
      monitor ← bio_malloc;
      _ ← modify (set_monitors <[monitor := mk_monitor None BIO_INVALID_HANDLE signal]>);
      handle ← make_handle monitor BIO_MONITOR_HANDLE;
      _ ← update_monitor monitor (set_mon_handle (λ _, handle));
      (* BIO_LIST_APPEND(&coro_impl->monitors, &monitor->link) *)
      _ ← update_coro coro_impl (set_co_monitors (λ l, l ++ [monitor]));
      _ ← update_monitor monitor (set_mon_link (λ _, Some coro_impl));
      mret handle
  | None =>
      _ ← bio_raise_signal signal;
      mret BIO_INVALID_HANDLE
  end.

(** [BIO_LIST_REMOVE(&monitor->link)]. *)
Definition unlink_monitor (monitor : loc) : M unit :=
  m ← deref_monitor monitor;
  match mon_link m with
  | Some coro =>
      _ ← update_coro coro (set_co_monitors (filter (λ p, p ≠ monitor)));
      update_monitor monitor (set_mon_link (λ _, None))
  | None => mret tt
  end.

(** [bio_unmonitor]. *)
Definition bio_unmonitor (ref : bio_handle_t) : M unit :=
  monitor ← close_handle ref BIO_MONITOR_HANDLE;
  match monitor with
  | Some monitor =>
      _ ← unlink_monitor monitor;
      free_monitor monitor
  | None => mret tt
  end.

(** [bio_join] ([bio.h]). *)
Definition bio_join (coro : bio_handle_t) : prog unit :=
  let! term_signal := Act bio_make_signal in
  Act (bio_monitor coro term_signal) ;;;
  bio_wait_for_one_signal term_signal.

(** [bio_set_coro_data], [bio_get_coro_data]. *)
Definition bio_set_coro_data (data : option loc) (tag : option bio_tag_t) : M unit :=
  impl ← running;
  match impl with
  | Some coro =>
      _ ← update_coro coro (set_co_extra_data (λ _, data));
      update_coro coro (set_co_extra_data_tag (λ _, tag))
  | None => mret tt
  end.

Definition bio_get_coro_data (coro : bio_handle_t) (tag : option bio_tag_t) : M (option loc) :=
  coro_impl ← resolve_handle coro BIO_CORO_HANDLE;
  match coro_impl with
  | Some coro_impl =>
      co ← deref_coro coro_impl;
      mret (if decide (co_extra_data_tag co = tag) then co_extra_data co else None)
  | None => mret None
  end.

(** [bio_set_coro_name], [bio_get_coro_name]. *)
Definition bio_set_coro_name (name : option string) : M unit :=
  impl ← running;
  match impl with
  | Some coro => update_coro coro (set_co_name (λ _, name))
  | None => mret tt
  end.

Definition bio_get_coro_name (coro : bio_handle_t) : M (option string) :=
  coro_impl ← resolve_handle coro BIO_CORO_HANDLE;
  match coro_impl with
  | Some coro_impl => co ← deref_coro coro_impl; mret (co_name co)
  | None => mret None
  end.

(** [bio_get_cls]. The buckets are circular lists of entries; the data of an
    entry is part of it, and has its address. The initializer of the
    specification is foreign code. *)
Section cls.
Context (cls_init : loc → loc → M unit).

(** Creating the buckets on the first use. *)
Definition cls_ensure_buckets (coro : loc) : M (list (list cls_entry)) :=
  num_buckets ← gets num_cls_buckets;
  co ← deref_coro coro;
  match co_cls_buckets co with
  | Some buckets => mret buckets
  | None =>
      let buckets := replicate (Z.to_nat num_buckets) [] in
      _ ← update_coro coro (set_co_cls_buckets (λ _, Some buckets));
      mret buckets
  end.

Definition cls_bucket_index (cls : loc) (num_buckets : Z) : Z :=
  Z.land (bio_splittable64 (Zpos cls)) (u64 (num_buckets - 1)).

(** [BIO_LIST_APPEND(bucket, &new_entry->link)]. *)
Definition cls_append (coro : loc) (index : Z) (entry : cls_entry) : M unit :=
  co ← deref_coro coro;
  buckets ← need NullDeref (co_cls_buckets co);
  bucket ← need OutOfBounds (zlookup buckets index);
  update_coro coro (set_co_cls_buckets (λ _, Some (zinsert index (bucket ++ [entry]) buckets))).

Definition bio_get_cls (cls : loc) : M (option loc) :=
  impl ← running;
  match impl with
  | Some coro =>
      num_buckets ← gets num_cls_buckets;
      buckets ← cls_ensure_buckets coro;
      let bucket_index := cls_bucket_index cls num_buckets in
      bucket ← need OutOfBounds (zlookup buckets bucket_index);
      match list_find (λ entry, cls_spec entry = cls) bucket with
      | Some (_, entry) => mret (Some (cls_data entry))
      | None =>
          new_entry ← bio_malloc;
          _ ← cls_init cls new_entry;
          _ ← cls_append coro bucket_index (mk_cls_entry cls new_entry);
          mret (Some new_entry)
      end
  | None => mret None
  end.
End cls.

(** ** Creating coroutines *)

(** [spawned e u c c']: a coroutine was created that runs [e] on [u], otherwise
    the step is as in [frame]. *)
Record spawned (entry : bio_entrypoint_t) (ud : option loc) (c c' : bio_ctx_t) : Prop := {
  sp_le : ctx_le c c';
  sp_mco : mco_running c' = mco_running c;
  sp_running : ∀ q co', coros c' !! q = Some co' → co_state co' = BIO_CORO_RUNNING →
    ∃ co, coros c !! q = Some co ∧ co_state co = BIO_CORO_RUNNING ∧
      co_num_blocking_signals co' = co_num_blocking_signals co;
  sp_code : ∃ q, coros c !! q = None ∧ ∀ q', co_code <$> coros c' !! q' =
    if decide (q' = q) then Some (entry, ud) else co_code <$> coros c !! q';
  sp_timers : ∀ p, tm_code <$> timers c' !! p = tm_code <$> timers c !! p;
  sp_current : current_ready_coros c' = current_ready_coros c;
}.

Lemma spawned_frame e u c c' c'' : spawned e u c c' → frame c' c'' → spawned e u c c''.
Proof.
  intros [H1 H2 H3 (q & Hq & H4) H5 H6] [[H1' H4' H5' _ _] H2' H3' H6']. split.
  - by etrans.
  - congruence.
  - intros q' co3 Hq' Hr. destruct (H3' _ _ Hq' Hr) as (co2 & Hq2 & Hr2 & ->). eauto.
  - exists q. split; [done|]. intros q'. by rewrite H4', H4.
  - congruence.
  - congruence.
Qed.

Section spawn.
Context (strict : Prop) (todo : list loc) (cur : option loc).
Implicit Types (c : bio_ctx_t).

Definition with_coro (t : table bio_tag_t loc) (co : bio_coro_impl_t) (c : bio_ctx_t) : bio_ctx_t :=
  set_htab (λ _, t) (set_next_loc Pos.succ (set_coros <[next_loc c := co]>
    (set_next_ready_coros (λ l, l ++ [next_loc c]) (set_num_coros (λ n, n + 1) c)))).

Lemma with_coro_wf t e u o h c :
  wf strict todo cur c → HandleTable.wf t → evolves (htab c) t →
  live t = <[h := (BIO_CORO_HANDLE, Some (next_loc c))]> (live (htab c)) →
  live (htab c) !! h = None →
  (∀ p, e = bio_timer_entry_fn → u = Some p → (p < next_loc c)%positive ∧
    ∀ q, ¬ owns (coros c) (timers c) q p) →
  wf strict todo cur (with_coro t (new_coro e u o h) c).
Proof.
  intros Hwf Ht Hev Hl Hh Hown. destruct Hwf as [? ? [] ? ? ? ? ? ? ? ? ? ? ? Howns].
  assert (coros c !! next_loc c = None) as Hn by by eapply so_fresh_None.
  split; cbn; try done.
  - split; cbn; rewrite Hl; eauto with store.
  - by apply linked_new_owner.
  - by apply linked_new_owner.
  - by eapply refs_ok_evolves.
  - rewrite app_assoc. by apply sched_ok_spawn.
  - by apply cls_ok_insert.
  - by apply wait_ok_awake.
  - by apply stack_ok_succ.
  - assert (Hnew : ∀ p, owns (<[next_loc c := new_coro e u o h]> (coros c)) (timers c) (next_loc c) p →
      e = bio_timer_entry_fn ∧ u = Some p).
    { intros p [Hp _]. rewrite lookup_insert_eq in Hp. cbn in Hp. unfold timer_impl_of in Hp.
      cbn in Hp. case_decide; [done|discriminate]. }
    assert (Hold : ∀ q p, q ≠ next_loc c →
      owns (<[next_loc c := new_coro e u o h]> (coros c)) (timers c) q p →
      owns (coros c) (timers c) q p).
    { intros q p Hq [Hp Hs]. split; [|done]. by rewrite lookup_insert_ne in Hp. }
    destruct Howns as [Howns Hfresh]. split; cycle 1.
    { intros q p. destruct (decide (q = next_loc c)) as [->|Hne].
      - rewrite lookup_insert_eq. cbn. unfold timer_impl_of. cbn. case_decide; [|done].
        intros Hu. destruct (Hown p); [done..|lia].
      - rewrite lookup_insert_ne by done. intros Hp%Hfresh. lia. }
    intros q q' p H1 H2. destruct (decide (q = next_loc c)) as [->|Hq], (decide (q' = next_loc c)) as [->|Hq'].
    + done.
    + destruct (Hnew _ H1) as [-> ->]. exfalso. destruct (Hown p) as [_ Hno]; [done..|]. eapply Hno. by eapply Hold.
    + destruct (Hnew _ H2) as [-> ->]. exfalso. destruct (Hown p) as [_ Hno]; [done..|]. eapply Hno. by eapply Hold.
    + by eapply Howns; apply Hold.
  - by eapply ext_ok_evolves.
Qed.

Lemma with_coro_spawned t e u o h c :
  coros c !! next_loc c = None → evolves (htab c) t →
  spawned e u c (with_coro t (new_coro e u o h) c).
Proof.
  intros Hn Hev. split; cbn; [solve_le|done| |exists (next_loc c)|done|done].
  - intros q co' [[<- <-]|[_ Hq]]%lookup_insert_Some; [done|eauto].
  - split; [done|]. intros q. destruct (decide (q = next_loc c)) as [->|].
    + by rewrite lookup_insert_eq.
    + by rewrite lookup_insert_ne.
Qed.

Lemma with_coro_debt t e u o h c :
  coros c !! next_loc c = None →
  daemon_debt (with_coro t (new_coro e u o h) c) =
    daemon_debt c + (if opt_daemon o then 1 else 0).
Proof.
  intros Hn. unfold daemon_debt. cbn. rewrite count_insert_new by done. cbn. lia.
Qed.

Lemma set_num_daemons_wf f c : wf strict todo cur c → wf strict todo cur (set_num_daemons f c).
Proof. intros []. split; try done. destruct wf_objects. by split. Qed.

Lemma coro_handle_known c q co :
  wf strict todo cur c → coros c !! q = Some co → hk c (co_handle co).
Proof.
  intros Hwf Hq. apply live_known.
  rewrite (ob_coro_self _ (wf_objects _ _ _ _ Hwf) _ _ Hq). eauto.
Qed.

Lemma spawn_ex_spec clock e u options c :
  wf strict todo cur c →
  (∀ p, e = bio_timer_entry_fn → u = Some p → (p < next_loc c)%positive ∧
    ∀ q, ¬ owns (coros c) (timers c) q p) →
  wp (bio_spawn_ex clock e u options) (λ h c',
    wf strict todo cur c' ∧ spawned e u c c' ∧ daemon_debt c' = daemon_debt c ∧ hk c' h) c.
Proof.
  intros Hwf Hown. set (o := default (mk_coro_options false) options).
  unfold bio_spawn_ex. fold o. pose proof (ob_coros _ (wf_objects _ _ _ _ Hwf)) as Hcs.
  assert (coros c !! next_loc c = None) as Hn by by eapply so_fresh_None.
  ctx_steps. wp_use make_handle_spec; [apply Hwf|].
  intros h c' (t & -> & Ht & Hev & Hl & Hh & Hk & _). ctx_steps.
  cbn in Ht, Hev, Hl, Hh, Hk.
  match goal with |- wp _ _ ?c' =>
    replace c' with (with_coro t (new_coro e u o h) c) by (unfold with_coro; ctx_eq) end.
  set (c1 := with_coro t _ c).
  assert (Hwf1 : wf strict todo cur c1) by by apply with_coro_wf.
  assert (Hsp1 : spawned e u c c1) by by apply with_coro_spawned.
  pose proof (with_coro_debt t e u o h c Hn) as Hd1. fold c1 in Hd1.
  eapply (wp_mono _ (kept strict todo cur c1 (λ _ _, True))).
  { destruct (_ =? 1).
    - wp_use timer_update_spec; [done|]. intros [] c2 Hk2.
      eapply kept_impl; [exact Hk2|done].
    - wp_steps. by apply kept_same. }
  intros [] c2 (Hwf2 & Hf2 & _).
  assert (Hsp2 : spawned e u c c2) by by eapply spawned_frame.
  pose proof (calm_daemons _ _ (frame_calm _ _ Hf2)) as Hd2.
  assert (Hend : ∀ c3, coros c3 = coros c2 → wf strict todo cur c3 → htab c3 = htab c2 →
    wp (deref_coro (next_loc c)) (λ co c', c' = c3 ∧ hk c3 (co_handle co)) c3).
  { intros c3 Hcs3 Hwf3 Hh3. pose proof (calm_code _ _ (frame_calm _ _ Hf2) (next_loc c)) as Hco.
    cbn in Hco. rewrite lookup_insert_eq in Hco.
    destruct (coros c2 !! next_loc c) as [co|] eqn:Eco; [|done]. rewrite <- Hcs3 in Eco.
    ctx_steps. split; [done|]. by eapply coro_handle_known. }
  destruct (opt_daemon o) eqn:Ed.
  - ctx_steps. wp_use Hend; [done|by apply set_num_daemons_wf|done|].
    intros co c' [-> Hk']. wp_steps. split_and!; [by apply set_num_daemons_wf| | |done].
    + destruct Hsp2 as [[] ? ? ? ? ?]. by split.
    + unfold daemon_debt in *. cbn. lia.
  - wp_steps. wp_use Hend; [done..|]. intros co c' [-> Hk']. wp_steps. split_and!; [done..| |done]. lia.
Qed.
End spawn.

(** ** Inspecting coroutines *)

Section coro.
Context (strict : Prop) (todo : list loc) (cur : option loc).
Implicit Types (c : bio_ctx_t) (co : bio_coro_impl_t).

Lemma resolve_coro c h :
  wf strict todo cur c → hk c h →
  wp (resolve_handle h BIO_CORO_HANDLE) (λ r c', c' = c ∧
    r = lookup_tagged (live (htab c)) h BIO_CORO_HANDLE ∧
    ∀ p, r = Some p → live (htab c) !! h = Some (BIO_CORO_HANDLE, Some p) ∧
      ∃ co, coros c !! p = Some co) c.
Proof. intros Hwf Hk. by eapply (resolve_object coros); [apply Hwf|apply Hwf|]. Qed.

(** A coroutine is dead when its handle is; before that, its state is the one
    the scheduler gave it. *)
Lemma coro_state_spec c h :
  wf strict todo cur c → hk c h →
  wp (bio_coro_state h) (λ r c', c' = c ∧
    match lookup_tagged (live (htab c)) h BIO_CORO_HANDLE with
    | Some q => ∃ co, coros c !! q = Some co ∧ r = co_state co ∧ r ≠ BIO_CORO_DEAD
    | None => r = BIO_CORO_DEAD
    end) c.
Proof.
  intros Hwf Hk. unfold bio_coro_state. wp_use resolve_coro; [done..|].
  intros r c' (-> & <- & Hr). destruct r as [q|].
  - destruct (Hr q eq_refl) as (_ & co & Hq). ctx_steps. split; [done|]. exists co.
    split_and!; [done..|]. by apply (sc_not_dead _ _ _ _ (wf_sched _ _ _ _ Hwf) _ _ Hq).
  - by wp_steps.
Qed.

Lemma current_coro_spec c :
  wf strict todo cur c →
  wp bio_current_coro (λ r c', c' = c ∧ hk c r ∧
    match mco_running c with
    | Some q => lookup_tagged (live (htab c)) r BIO_CORO_HANDLE = Some q
    | None => r = BIO_INVALID_HANDLE
    end) c.
Proof.
  intros Hwf. unfold bio_current_coro. ctx_steps. destruct (mco_running c) as [q|] eqn:Hq.
  - destruct (wf_caller _ _ _ _ _ Hwf Hq) as (co & Hco & _). ctx_steps. split_and!; [done| |].
    + by eapply coro_handle_known.
    + apply lookup_tagged_Some, (ob_coro_self _ (wf_objects _ _ _ _ Hwf) _ _ Hco).
  - wp_steps. split_and!; [done| |done]. apply hk_invalid.
Qed.

(** Fields that the scheduler does not look at. *)
Definition minor (co co' : bio_coro_impl_t) : Prop :=
  co_handle co' = co_handle co ∧ co_state co' = co_state co ∧
  co_pending_signals co' = co_pending_signals co ∧ co_monitors co' = co_monitors co ∧
  co_num_blocking_signals co' = co_num_blocking_signals co ∧
  co_wait_counter co' = co_wait_counter co ∧ co_code co' = co_code co ∧
  co_daemon co' = co_daemon co.

Lemma minor_update c q co co' :
  wf strict todo cur c → coros c !! q = Some co → minor co co' →
  (∀ bs, co_cls_buckets co' = Some bs → zlen bs = num_cls_buckets c) →
  wf strict todo cur (set_coros <[q := co']> c) ∧ frame c (set_coros <[q := co']> c).
Proof.
  intros Hwf Hq (H1 & H2 & H3 & H4 & H5 & H6 & H7 & H8) Hcls. split.
  - destruct Hwf as [? ? [] ? ? ? ? ? ? ? ? ? ? ? ?]. split; cbn; try done; eauto with store.
    + split; cbn; eauto with store.
    + by eapply sched_ok_update.
    + by apply cls_ok_insert.
    + by eapply wait_ok_update.
  - solve_frame.
Qed.

Lemma wf_cls_of c q co :
  wf strict todo cur c → coros c !! q = Some co →
  ∀ bs, co_cls_buckets co = Some bs → zlen bs = num_cls_buckets c.
Proof. intros Hwf Hq. by eapply (proj2 (wf_cls _ _ _ _ Hwf)). Qed.

Lemma set_coro_data_spec c d tg :
  wf strict todo cur c →
  wp (bio_set_coro_data d tg) (kept strict todo cur c (λ _ c', htab c' = htab c ∧
    ∀ q, mco_running c = Some q → ∃ co, coros c' !! q = Some co ∧
      co_extra_data co = d ∧ co_extra_data_tag co = tg)) c.
Proof.
  intros Hwf. unfold bio_set_coro_data. ctx_steps. destruct (mco_running c) as [q|] eqn:Hq.
  - destruct (wf_caller _ _ _ _ _ Hwf Hq) as (co & Hco & _). ctx_steps.
    match goal with |- kept _ _ _ _ _ _ ?c' => set (c1 := c') end.
    assert (E : c1 = set_coros <[q := set_co_extra_data_tag (λ _, tg)
      (set_co_extra_data (λ _, d) co)]> c) by (subst c1; ctx_eq).
    rewrite E. clear c1 E.
    destruct (minor_update c q co (set_co_extra_data_tag (λ _, tg) (set_co_extra_data (λ _, d) co)))
      as [Hwf' Hf]; [done|done|by repeat split|exact (wf_cls_of _ _ _ Hwf Hco)|]. split_and!; [done..|].
    intros q' [= <-]. cbn. rewrite lookup_insert_eq. eauto.
  - wp_steps. by apply kept_same.
Qed.

Lemma get_coro_data_spec c h tg :
  wf strict todo cur c → hk c h →
  wp (bio_get_coro_data h tg) (λ r c', c' = c ∧
    r = q ← lookup_tagged (live (htab c)) h BIO_CORO_HANDLE; co ← coros c !! q;
        if decide (co_extra_data_tag co = tg) then co_extra_data co else None) c.
Proof.
  intros Hwf Hk. unfold bio_get_coro_data. wp_use resolve_coro; [done..|].
  intros r c' (-> & <- & Hr). destruct r as [q|].
  - destruct (Hr q eq_refl) as (_ & co & Hq). ctx_steps. split; [done|]. cbn. by rewrite Hq.
  - by wp_steps.
Qed.

Lemma set_coro_name_spec c name :
  wf strict todo cur c →
  wp (bio_set_coro_name name) (kept strict todo cur c (λ _ c', htab c' = htab c ∧
    ∀ q, mco_running c = Some q → ∃ co, coros c' !! q = Some co ∧ co_name co = name)) c.
Proof.
  intros Hwf. unfold bio_set_coro_name. ctx_steps. destruct (mco_running c) as [q|] eqn:Hq.
  - destruct (wf_caller _ _ _ _ _ Hwf Hq) as (co & Hco & _). ctx_steps.
    destruct (minor_update c q co (set_co_name (λ _, name) co))
      as [Hwf' Hf]; [done|done|by repeat split|exact (wf_cls_of _ _ _ Hwf Hco)|]. split_and!; [done..|].
    intros q' [= <-]. cbn. rewrite lookup_insert_eq. eauto.
  - wp_steps. by apply kept_same.
Qed.

Lemma get_coro_name_spec c h :
  wf strict todo cur c → hk c h →
  wp (bio_get_coro_name h) (λ r c', c' = c ∧
    r = q ← lookup_tagged (live (htab c)) h BIO_CORO_HANDLE; co ← coros c !! q; co_name co) c.
Proof.
  intros Hwf Hk. unfold bio_get_coro_name. wp_use resolve_coro; [done..|].
  intros r c' (-> & <- & Hr). destruct r as [q|].
  - destruct (Hr q eq_refl) as (_ & co & Hq). ctx_steps. split; [done|]. cbn. by rewrite Hq.
  - by wp_steps.
Qed.
End coro.

(** ** Monitors *)

Section monitor.
Context (strict : Prop) (todo : list loc) (cur : option loc).
Implicit Types (c : bio_ctx_t) (co : bio_coro_impl_t).

Definition with_monitor (t : table bio_tag_t loc) (q : loc) (co : bio_coro_impl_t)
    (h signal : bio_handle_t) (c : bio_ctx_t) : bio_ctx_t :=
  set_htab (λ _, t) (set_next_loc Pos.succ
    (set_coros <[q := set_co_monitors (λ l, l ++ [next_loc c]) co]>
      (set_monitors <[next_loc c := mk_monitor (Some q) h signal]> c))).

Lemma with_monitor_wf t q co h s c :
  wf strict todo cur c → coros c !! q = Some co → hk c s →
  HandleTable.wf t → evolves (htab c) t →
  live t = <[h := (BIO_MONITOR_HANDLE, Some (next_loc c))]> (live (htab c)) →
  live (htab c) !! h = None →
  wf strict todo cur (with_monitor t q co h s c).
Proof.
  intros Hwf Hq Hs Ht Hev Hl Hh. destruct Hwf as [? ? [] ? ? ? Hrefs ? ? ? ? ? ? ? ?].
  assert (monitors c !! next_loc c = None) as Hn by by eapply so_fresh_None.
  split; cbn; try done; eauto with store.
  - split; cbn; rewrite Hl; eauto with store.
  - by eapply linked_append.
  - destruct (refs_ok_evolves _ _ _ _ _ _ _ _ Hrefs Hev). split; try done.
    apply map_Forall_insert_2; [|done]. by apply Hev.
  - by eapply sched_ok_update.
  - by eapply wait_ok_update.
Qed.

Lemma with_monitor_frame t q co h s c :
  coros c !! q = Some co → evolves (htab c) t → frame c (with_monitor t q co h s c).
Proof. intros Hq Hev. solve_frame. Qed.

Lemma resolve_signal c h :
  wf strict todo cur c → hk c h →
  wp (resolve_handle h BIO_SIGNAL_HANDLE) (λ r c', c' = c ∧
    r = lookup_tagged (live (htab c)) h BIO_SIGNAL_HANDLE ∧
    ∀ p, r = Some p → live (htab c) !! h = Some (BIO_SIGNAL_HANDLE, Some p) ∧
      ∃ s, signals c !! p = Some s) c.
Proof. intros Hwf Hk. by eapply (resolve_object signals); [apply Hwf|apply Hwf|]. Qed.

(** [monitorable c h s]: the coroutine that a monitor for it and a signal
    would be attached to. *)
Definition monitorable (c : bio_ctx_t) (h s : bio_handle_t) : option loc :=
  q ← lookup_tagged (live (htab c)) h BIO_CORO_HANDLE;
  p ← lookup_tagged (live (htab c)) s BIO_SIGNAL_HANDLE;
  x ← signals c !! p;
  if decide (sig_owner x ≠ q) then Some q else None.

Lemma monitor_run c h s :
  wf strict todo cur c → hk c h → hk c s →
  wp (bio_monitor h s) (λ r c',
    match monitorable c h s with
    | Some q => ∃ co t, coros c !! q = Some co ∧ c' = with_monitor t q co r s c ∧
        HandleTable.wf t ∧ evolves (htab c) t ∧ known t r ∧
        live t = <[r := (BIO_MONITOR_HANDLE, Some (next_loc c))]> (live (htab c)) ∧
        live (htab c) !! r = None
    | None => r = BIO_INVALID_HANDLE ∧ kept strict todo cur c (λ _, only_raises [s] c) () c'
    end) c.
Proof.
  intros Hwf Hh Hs. unfold bio_monitor, monitorable.
  wp_use resolve_coro; [done..|]. intros r c' (-> & <- & Hr).
  wp_use resolve_signal; [done..|]. intros r' c' (-> & <- & Hr').
  assert (Hraise : wp (_ ← bio_raise_signal s; mret BIO_INVALID_HANDLE) (λ r c',
    r = BIO_INVALID_HANDLE ∧ kept strict todo cur c (λ _, only_raises [s] c) () c') c).
  { wp_use raise_signal_full; [done..|]. intros b c' (? & ? & ? & _). wp_steps. by split_and!. }
  destruct r as [q|]; [|by apply wp_bind, wp_ret].
  destruct r' as [p|]; [|by apply wp_bind, wp_ret].
  destruct (Hr q eq_refl) as (_ & co & Hq). destruct (Hr' p eq_refl) as (_ & x & Hp).
  cbn [mbind option_bind]. rewrite Hp. cbn [mbind option_bind]. ctx_steps.
  destruct (decide (sig_owner x ≠ q)); [|exact Hraise]. ctx_steps.
  wp_use make_handle_spec; [apply Hwf|].
  intros h' c' (t & -> & Ht & Hev & Hl & Hl' & Hk & _). ctx_steps.
  exists co, t. split_and!; try done. unfold with_monitor. ctx_eq.
Qed.

Lemma monitor_spec c h s :
  wf strict todo cur c → hk c h → hk c s →
  wp (bio_monitor h s) (kept strict todo cur c (λ r c', hk c' r)) c.
Proof.
  intros Hwf Hh Hs. eapply wp_mono; [by apply monitor_run|]. cbn. intros r c'.
  destruct (monitorable c h s) as [q|].
  - intros (co & t & Hq & -> & Ht & Hev & Hk & Hl & Hl').
    split_and!; [by apply with_monitor_wf|by apply with_monitor_frame|done].
  - intros [-> (? & ? & _)]. split_and!; [done..|]. apply hk_invalid.
Qed.

Lemma unmonitor_spec c h :
  wf strict todo cur c → hk c h →
  wp (bio_unmonitor h) (kept strict todo cur c (λ _ c',
    ∀ p, lookup_tagged (live (htab c)) h BIO_MONITOR_HANDLE = Some p →
      monitors c' = delete p (monitors c))) c.
Proof.
  intros Hwf Hk. unfold bio_unmonitor.
  wp_use (close_object monitors); [apply Hwf|apply Hwf|done|].
  intros r c' (-> & Hc). destruct (lookup_tagged _ _ _) as [p|] eqn:El.
  - destruct Hc as (t & m & -> & Ht & Hev & Hl & Hlk & Hm).
    destruct (lk_item _ _ _ _ (wf_monitors _ _ _ _ Hwf) _ _ Hm) as (q & Hlink & co & Hco).
    unfold unlink_monitor. ctx_steps. rewrite Hlink. ctx_steps.
    match goal with |- kept _ _ _ _ _ _ ?c' => replace c' with
      (set_htab (λ _, t) (set_monitors (delete p)
        (set_coros <[q := set_co_monitors (filter (λ x, x ≠ p)) co]> c)))
      by (symmetry; ctx_eq) end.
    split_and!.
    + destruct Hwf as [? ? [] ? ? ? Hrefs ? ? ? ? ? ? ? ?]. split; cbn; try done; eauto with store.
      * split; cbn; rewrite Hl; eauto with store.
      * by eapply linked_remove.
      * destruct (refs_ok_evolves _ _ _ _ _ _ _ _ Hrefs Hev). split; try done.
        by apply map_Forall_delete.
      * by eapply sched_ok_update.
      * by eapply wait_ok_update.
    + solve_frame.
    + by intros p' [= <-].
  - subst c'. wp_steps. by apply kept_same.
Qed.
End monitor.

(** ** Coroutine-local storage *)

(** The data of a specification in a coroutine. *)
Definition cls_bucket (c : bio_ctx_t) (q cls : loc) : option (list cls_entry) :=
  co ← coros c !! q;
  buckets ← co_cls_buckets co;
  zlookup buckets (cls_bucket_index cls (num_cls_buckets c)).

Definition cls_lookup (c : bio_ctx_t) (q cls : loc) : option loc :=
  bucket ← cls_bucket c q cls;
  x ← list_find (λ entry, cls_spec entry = cls) bucket;
  Some (cls_data x.2).

Lemma cls_bucket_index_range cls n : pow2 n → 0 ≤ cls_bucket_index cls n < n.
Proof.
  intros Hn. pose proof (pow2_pos _ Hn) as Hp. unfold cls_bucket_index, u64.
  rewrite Z.mod_small by lia. destruct Hn as (k & Hk & ->).
  rewrite Z.sub_1_r, <- Z.ones_equiv, Z.land_ones by lia. apply Z.mod_pos_bound. lia.
Qed.

Section cls_spec.
Context (strict : Prop) (todo : list loc) (cur : option loc) (cls_init : loc → loc → M unit).

(** The initializer of a specification initializes the data of one entry: it
    may use the library, but not the storage of the calling coroutine. *)
Context (cls_init_ok : ∀ cls d c, wf strict todo cur c →
  wp (cls_init cls d) (kept strict todo cur c (λ _ c',
    num_cls_buckets c' = num_cls_buckets c ∧
    ∀ q, mco_running c = Some q →
      co_cls_buckets <$> coros c' !! q = co_cls_buckets <$> coros c !! q)) c).

Lemma bio_malloc_spec c :
  wf strict todo cur c →
  wp bio_malloc (kept strict todo cur c (λ p c', p = next_loc c ∧
    c' = set_next_loc Pos.succ c)) c.
Proof.
  intros Hwf. ctx_steps. split_and!; [|split; [split; done|done|eauto|done]|done|done].
  destruct Hwf. split; cbn; try done; [|eauto with store..].
  destruct wf_objects. split; cbn; eauto with store.
Qed.

Lemma cls_ensure_spec c q :
  wf strict todo cur c → mco_running c = Some q →
  wp (cls_ensure_buckets q) (kept strict todo cur c (λ bs c',
    co_cls_buckets <$> coros c' !! q = Some (Some bs) ∧ zlen bs = num_cls_buckets c ∧
    num_cls_buckets c' = num_cls_buckets c ∧
    match coros c !! q ≫= co_cls_buckets with
    | Some bs' => c' = c ∧ bs = bs'
    | None => Forall (λ b, b = []) bs
    end)) c.
Proof.
  intros Hwf Hq. destruct (wf_caller _ _ _ _ _ Hwf Hq) as (co & Hco & _).
  unfold cls_ensure_buckets. ctx_steps. rewrite Hco. cbn.
  destruct (co_cls_buckets co) as [bs|] eqn:Ebs; ctx_steps.
  - apply kept_same; [done|]. rewrite Hco. cbn.
    split_and!; [congruence|by eapply wf_cls_of|done..].
  - set (bs := replicate _ _).
    assert (Hl : zlen bs = num_cls_buckets c).
    { destruct (wf_cls _ _ _ _ Hwf) as [?%pow2_pos _]. unfold bs, zlen. rewrite length_replicate. lia. }
    destruct (minor_update strict todo cur c q co (set_co_cls_buckets (λ _, Some bs) co))
      as [Hwf' Hf]; [done|done|by repeat split|by intros ? [= <-]|].
    split_and!; try done.
    + cbn. by rewrite lookup_insert_eq.
    + apply Forall_replicate. done.
Qed.

Lemma cls_append_spec c q co bs b cls e :
  wf strict todo cur c → coros c !! q = Some co → co_cls_buckets co = Some bs →
  zlookup bs (cls_bucket_index cls (num_cls_buckets c)) = Some b →
  wp (cls_append q (cls_bucket_index cls (num_cls_buckets c)) e)
    (kept strict todo cur c (λ _ c', cls_bucket c' q cls = Some (b ++ [e]))) c.
Proof.
  intros Hwf Hco Hbs Hb. unfold cls_append. ctx_steps.
  set (bs' := zinsert _ _ bs).
  destruct (minor_update strict todo cur c q co (set_co_cls_buckets (λ _, Some bs') co))
    as [Hwf' Hf]; [done|done|by repeat split| |].
  { intros ? [= <-]. unfold bs'. rewrite zlen_zinsert. by eapply wf_cls_of. }
  split_and!; [done..|]. unfold cls_bucket. cbn. rewrite lookup_insert_eq. cbn.
  apply zlookup_zinsert_eq. by eapply zlookup_range.
Qed.

Lemma get_cls_spec c cls :
  wf strict todo cur c →
  wp (bio_get_cls cls_init cls) (kept strict todo cur c (λ r c',
    match mco_running c with
    | Some q => ∃ d, r = Some d ∧ cls_lookup c' q cls = Some d ∧
        ∀ d', cls_lookup c q cls = Some d' → d' = d ∧ c' = c
    | None => r = None ∧ c' = c
    end)) c.
Proof.
  intros Hwf. unfold bio_get_cls. ctx_steps.
  destruct (mco_running c) as [q|] eqn:Hq; [|wp_steps; by apply kept_same].
  ctx_steps. wp_use cls_ensure_spec; [done..|].
  intros bs c1 (Hwf1 & Hf1 & Hbs & Hl & Hn1 & Hold).
  pose proof (cls_bucket_index_range cls _ (proj1 (wf_cls _ _ _ _ Hwf))) as Hi.
  destruct (zlookup_in_range bs (cls_bucket_index cls (num_cls_buckets c))) as [b Hb]; [lia|].
  wp_steps. destruct (coros c1 !! q) as [co1|] eqn:Hco1; [|done]. injection Hbs as Hbs.
  assert (Hbk : cls_bucket c1 q cls = Some b).
  { unfold cls_bucket. rewrite Hco1. cbn. rewrite Hbs. cbn. by rewrite Hn1. }
  assert (Hcase : c1 = c ∨ b = [] ∧ cls_lookup c q cls = None).
  { destruct (coros c !! q ≫= co_cls_buckets) as [bs'|] eqn:Ebs; [left; by destruct Hold|right].
    split; [rewrite Forall_forall in Hold; by eapply Hold, zlookup_elem|].
    unfold cls_lookup, cls_bucket. destruct (coros c !! q) as [co|]; [|done]. cbn in *. by rewrite Ebs. }
  destruct (list_find _ b) as [[i e]|] eqn:Ef.
  - wp_steps. destruct Hcase as [->|[-> _]]; [|done]. apply kept_same; [done|].
    assert (Hlk : cls_lookup c q cls = Some (cls_data e)).
    { unfold cls_lookup. rewrite Hbk. cbn. by rewrite Ef. }
    exists (cls_data e). split_and!; [done|done|]. intros d' Hd'. split; congruence.
  - assert (Hnone : cls_lookup c q cls = None).
    { destruct Hcase as [->|[_ ?]]; [|done]. unfold cls_lookup. rewrite Hbk. cbn. by rewrite Ef. }
    wp_use bio_malloc_spec; [done|]. intros d c2 (Hwf2 & Hf2 & -> & ->).
    wp_use cls_init_ok; [exact Hwf2|]. intros [] c3 (Hwf3 & Hf3 & Hn3 & Hb3).
    cbn in Hn3, Hb3. specialize (Hb3 q).
    rewrite (frame_mco _ _ Hf1), Hq, Hco1 in Hb3. specialize (Hb3 eq_refl). cbn in Hb3.
    destruct (coros c3 !! q) as [co3|] eqn:Hco3; [|done]. injection Hb3 as Hb3.
    rewrite <- Hn1, <- Hn3 in Hb |- *.
    wp_use (cls_append_spec c3 q co3 bs b); [done|done|congruence|done|].
    intros [] c4 (Hwf4 & Hf4 & Hb4). wp_steps.
    split_and!; [done|by do 3 (etrans; [done|])|].
    exists (next_loc c1). split_and!; [done| |intros d'; congruence].
    unfold cls_lookup. rewrite Hb4. cbn. rewrite (list_find_app_r _ _ _ Ef). cbn.
    by rewrite decide_True.
Qed.
End cls_spec.

(** ** Coroutines, from the point of view of their users *)

Section correct.
Context (strict : Prop) (todo : list loc) (cur : option loc).
Implicit Types (c : bio_ctx_t).

(** A handle of a coroutine reports its state while it lives, and that it is dead
    from then on: no coroutine that exists is ever reported dead. *)
Theorem coro_state_dead_iff c h :
  wf strict todo cur c → hk c h →
  wp (bio_coro_state h) (λ r c', c' = c ∧
    (r = BIO_CORO_DEAD ↔ ¬ ∃ q co, live (htab c) !! h = Some (BIO_CORO_HANDLE, Some q) ∧
      coros c !! q = Some co)) c.
Proof.
  intros Hwf Hk. eapply wp_mono; [by apply (coro_state_spec strict todo cur)|].
  intros r c' [-> Hr]. split; [done|]. destruct (lookup_tagged _ h _) as [q|] eqn:E.
  - destruct Hr as (co & Hq & -> & Hd). split; [done|]. intros Hn. exfalso. apply Hn.
    exists q, co. split; [by apply lookup_tagged_Some|done].
  - split; [|done]. intros _ (q & co & Hl%lookup_tagged_Some & _). congruence.
Qed.

(** A local variable keeps its data: the second access by the same coroutine
    returns what the first one returned, and does not initialize it again. *)
Theorem cls_is_stable cls_init cls q c :
  (∀ cls d c, wf strict todo cur c →
    wp (cls_init cls d) (kept strict todo cur c (λ _ c',
      num_cls_buckets c' = num_cls_buckets c ∧
      ∀ q, mco_running c = Some q →
        co_cls_buckets <$> coros c' !! q = co_cls_buckets <$> coros c !! q)) c) →
  wf strict todo cur c → mco_running c = Some q →
  wp (r1 ← bio_get_cls cls_init cls; c1 ← get; r2 ← bio_get_cls cls_init cls; mret (r1, c1, r2))
    (λ x c', wf strict todo cur c' ∧ ∃ d, x = (Some d, c', Some d)) c.
Proof.
  intros Hinit Hwf Hq. wp_use get_cls_spec; [exact Hinit|done|].
  intros r1 c1 (Hwf1 & Hf1 & Hr1). rewrite Hq in Hr1. destruct Hr1 as (d & -> & Hd & _). wp_steps.
  wp_use get_cls_spec; [exact Hinit|done|]. intros r2 c2 (Hwf2 & _ & Hr2).
  rewrite (frame_mco _ _ Hf1), Hq in Hr2. destruct Hr2 as (d2 & -> & _ & Hsame).
  destruct (Hsame _ Hd) as [-> ->]. wp_steps. split; [done|]. eauto.
Qed.

(** A new coroutine is ready: it is at the end of the queue, known to the caller by
    a handle that was unknown before, and the coroutines that exist are untouched. *)
Theorem spawn_makes_ready clock e u options c :
  wf strict todo cur c → e ≠ bio_timer_entry_fn → 0 < num_coros c →
  wp (bio_spawn_ex clock e u options) (λ h c', wf strict todo cur c' ∧
    next_ready_coros c' = next_ready_coros c ++ [next_loc c] ∧
    ¬ known (htab c) h ∧ live (htab c') !! h = Some (BIO_CORO_HANDLE, Some (next_loc c)) ∧
    coros c' = <[next_loc c := new_coro e u (default (mk_coro_options false) options) h]> (coros c) ∧
    num_coros c' = num_coros c + 1) c.
Proof.
  intros Hwf He Hn. set (o := default _ options).
  set (Q := λ h c', next_ready_coros c' = next_ready_coros c ++ [next_loc c] ∧
    ¬ known (htab c) h ∧ live (htab c') !! h = Some (BIO_CORO_HANDLE, Some (next_loc c)) ∧
    coros c' = <[next_loc c := new_coro e u o h]> (coros c) ∧ num_coros c' = num_coros c + 1).
  assert (HQ : wp (bio_spawn_ex clock e u options) Q c).
  { unfold bio_spawn_ex. fold o. ctx_steps.
    apply wp_on_htab. eapply wp_mono; [apply HandleTable.make_spec, Hwf|].
    intros h t (_ & Hnk & Hl & _). cbn in Hnk, Hl. ctx_steps.
    rewrite (proj2 (Z.eqb_neq _ 1)) by (cbn; lia). wp_steps.
    assert (Hend : ∀ f c', c' = set_num_daemons f (with_coro t (new_coro e u o h) c) →
      wp (co ← deref_coro (next_loc c); mret (co_handle co)) Q c').
    { intros f c' ->. apply wp_bind. eapply wp_deref; [cbn; apply lookup_insert_eq|]. wp_steps.
      split_and!; [done|done| |done|done]. cbn. rewrite Hl. apply lookup_insert_eq. }
    destruct (opt_daemon o); wp_steps.
    + apply wp_bind_inv, (Hend (λ _, num_daemons c + 1)). unfold with_coro. ctx_eq.
    + apply wp_bind_inv, (Hend id). unfold with_coro. ctx_eq. }
  eapply wp_mono; [eapply wp_conj; [|exact HQ]; by apply (spawn_ex_spec strict todo cur)|].
  cbn. intros h c' [(Hwf' & _) Hc]. split; [done|exact Hc].
Qed.
End correct.
