(* ===== verification/Finish.v ===== *)
(** The end of a coroutine (the second half of the inner loop of [bio_loop] in
    [src/scheduler.c]): its local storage, its signals and its monitors. *)
From S2P Require Import Prelude Bits HandleTable TimerHeap Ctx Prog Store Ring Invariant Signal.
From S2P Require Import Timer Coro.

(** ** The code *)

Section code.
(** [cls->cleanup], for every specification [cls]. *)
Context (cls_cleanup : loc → loc → M unit).

(** The end of a coroutine: first the cleanup of its local storage. *)
Fixpoint cleanup_entries (entries : list cls_entry) : M unit :=
  match entries with
  | [] => mret tt
  | entry :: entries =>
      _ ← cls_cleanup (cls_spec entry) (cls_data entry);
      cleanup_entries entries
  end.

Fixpoint cleanup_buckets (buckets : list (list cls_entry)) (bucket_index : Z) (rounds : nat) : M unit :=
  match rounds with
  | O => mret tt
  | S rounds =>
      bucket ← need OutOfBounds (zlookup buckets bucket_index);
      _ ← cleanup_entries bucket;
      cleanup_buckets buckets (bucket_index + 1) rounds
  end.

Definition cleanup_cls (coro : loc) : M unit :=
  co ← deref_coro coro;
  num_buckets ← gets num_cls_buckets;
  match co_cls_buckets co with
  | Some buckets => cleanup_buckets buckets 0 (Z.to_nat num_buckets)
  | None => mret tt
  end.

(** Then all its signals are destroyed. The signals are not removed from the
    list, which is not used any more. *)
Fixpoint destroy_signals (signals : list loc) : M unit :=
  match signals with
  | [] => mret tt
  | signal :: signals =>
      s ← deref_signal signal;
      _ ← close_handle (sig_handle s) BIO_SIGNAL_HANDLE;
      _ ← free_signal signal;
      destroy_signals signals
  end.

(** Then all monitors are triggered, and destroyed likewise. *)
Fixpoint trigger_monitors (monitors : list loc) : M unit :=
  match monitors with
  | [] => mret tt
  | monitor :: monitors =>
      m ← deref_monitor monitor;
      _ ← bio_raise_signal (mon_signal m);
      m ← deref_monitor monitor;
      _ ← close_handle (mon_handle m) BIO_MONITOR_HANDLE;
      _ ← free_monitor monitor;
      trigger_monitors monitors
  end.

Definition destroy_coro (coro : loc) : M unit :=
  co ← deref_coro coro;
  _ ← close_handle (co_handle co) BIO_CORO_HANDLE;
  n ← gets num_coros;
  n ← int_of (n - 1);
  _ ← modify (set_num_coros (λ _, n));
  _ ← (if co_daemon co then
         d ← gets num_daemons;
         d ← int_of (d - 1);
         modify (set_num_daemons (λ _, d))
       else mret tt);
  free_coro coro.

Definition finish_coro (coro : loc) : M unit :=
  _ ← cleanup_cls coro;
  co ← deref_coro coro;
  _ ← destroy_signals (co_pending_signals co);
  co ← deref_coro coro;
  _ ← trigger_monitors (co_monitors co);
  destroy_coro coro.
End code.

(** ** The state during the end of a coroutine

    While a coroutine [q] is taken apart, its lists still contain what was freed;
    [view q co ss ms c] is the state with what is left of the lists. *)
Definition with_lists (ss ms : list loc) (co : bio_coro_impl_t) : bio_coro_impl_t :=
  set_co_pending_signals (λ _, ss) (set_co_monitors (λ _, ms) co).

Definition view (q : loc) (co : bio_coro_impl_t) (ss ms : list loc) (c : bio_ctx_t) : bio_ctx_t :=
  set_coros <[q := with_lists ss ms co]> c.

Lemma view_id q co c :
  coros c !! q = Some co → view q co (co_pending_signals co) (co_monitors co) c = c.
Proof. intros Hq. unfold view. apply ctx_ext; cbn; try done. apply insert_id. by destruct co. Qed.

Lemma filter_head (p : loc) (l : list loc) : NoDup (p :: l) → l = filter (λ x, x ≠ p) (p :: l).
Proof.
  intros [Hp _]%NoDup_cons. rewrite filter_cons_False by auto. rewrite list_filter_all; [done|].
  apply Forall_forall. by intros x Hx ->.
Qed.

Section finish.
Context (strict : Prop) (todo : list loc) (q : loc).
Implicit Types (c : bio_ctx_t) (co : bio_coro_impl_t) (ss ms : list loc).

Abbreviation wf := (wf strict todo (Some q)).

(** ** One signal or monitor less *)

Lemma drop_signal_wf c co p ss s t :
  wf c → coros c !! q = Some co → co_state co = BIO_CORO_RUNNING →
  co_pending_signals co = p :: ss → signals c !! p = Some s →
  HandleTable.wf t → evolves (htab c) t → live t = delete (sig_handle s) (live (htab c)) →
  wf (set_coros <[q := set_co_pending_signals (λ _, ss) co]>
       (set_htab (λ _, t) (set_signals (delete p) c))).
Proof.
  intros Hwf Hq Hr Hp Hs Ht Hev Hl.
  destruct Hwf as [? ? [] Hlk ? ? ? ? ? ? ? ? ? ? ?].
  pose proof (lk_nodup _ _ _ _ Hlk _ _ Hq) as Hnd. rewrite Hp in Hnd.
  assert (Hlink : sig_link s = Some q).
  { assert (p ∈ co_pending_signals co) as Hin by (rewrite Hp; left).
    apply (lk_list _ _ _ _ Hlk _ _ _ Hq) in Hin as (s' & Hs' & ?). congruence. }
  assert (Hf : ss = filter (λ x, x ≠ p) (co_pending_signals co)).
  { rewrite Hp. by apply filter_head. }
  pose proof (ob_signal_self _ _ Hs) as Hself.
  split; cbn; try done; eauto with store.
  - split; cbn; rewrite Hl; eauto with store.
  - by eapply linked_remove.
  - by apply map_Forall_delete.
  - by eapply refs_ok_evolves.
  - by eapply sched_ok_update.
  - eapply wait_ok_remove; try done. cbn. congruence.
Qed.

Lemma drop_monitor_wf c co p ms m t :
  wf c → coros c !! q = Some co →
  co_monitors co = p :: ms → monitors c !! p = Some m →
  HandleTable.wf t → evolves (htab c) t → live t = delete (mon_handle m) (live (htab c)) →
  wf (set_coros <[q := set_co_monitors (λ _, ms) co]>
       (set_htab (λ _, t) (set_monitors (delete p) c))).
Proof.
  intros Hwf Hq Hp Hm Ht Hev Hl.
  destruct Hwf as [? ? [] ? ? Hlk Hrefs ? ? ? ? ? ? ? ?].
  pose proof (lk_nodup _ _ _ _ Hlk _ _ Hq) as Hnd. rewrite Hp in Hnd.
  assert (Hlink : mon_link m = Some q).
  { assert (p ∈ co_monitors co) as Hin by (rewrite Hp; left).
    apply (lk_list _ _ _ _ Hlk _ _ _ Hq) in Hin as (m' & Hm' & ?). congruence. }
  assert (Hf : ms = filter (λ x, x ≠ p) (co_monitors co)).
  { rewrite Hp. by apply filter_head. }
  pose proof (ob_monitor_self _ _ Hm) as Hself.
  split; cbn; try done; eauto with store.
  - split; cbn; rewrite Hl; eauto with store.
  - by eapply linked_remove.
  - destruct (refs_ok_evolves _ _ _ _ _ _ _ _ Hrefs Hev). split; try done.
    by apply map_Forall_delete.
  - by eapply sched_ok_update.
  - by eapply wait_ok_update.
Qed.

(** ** The loops *)

(** A step during which the coroutine is taken apart. *)
Record shrinks (c c' : bio_ctx_t) : Prop := {
  sh_frame : frame c c';
  sh_self : coros c' !! q = coros c !! q;
  sh_live : live (htab c') ⊆ live (htab c);
}.

#[local] Instance shrinks_preorder : PreOrder shrinks.
Proof.
  split.
  - by split.
  - intros c1 c2 c3 [H1 H2 H3] [H4 H5 H6]. split; [by etrans|congruence|by etrans].
Qed.

Lemma close_shrinks c t h :
  evolves (htab c) t → live t = delete h (live (htab c)) → shrinks c (set_htab (λ _, t) c).
Proof.
  intros Hev Hl. split; [split; [solve_calm|done|eauto|done]|done|]. cbn. rewrite Hl. apply delete_subseteq.
Qed.

Lemma close_self (hnd : bio_handle_t) tg p c :
  HandleTable.wf (htab c) → live (htab c) !! hnd = Some (tg, Some p) →
  wp (close_handle hnd tg) (λ r c', r = Some p ∧ ∃ t, c' = set_htab (λ _, t) c ∧ HandleTable.wf t ∧
    evolves (htab c) t ∧ live t = delete hnd (live (htab c))) c.
Proof.
  intros Ht Hl. eapply wp_mono; [apply close_handle_spec; [done|apply live_known; eauto]|].
  intros r c' (t & -> & Ht' & Hev & Hc). rewrite Hl in Hc. rewrite decide_True in Hc by done.
  destruct Hc as [-> Hlive]. split; [done|]. by exists t.
Qed.

Lemma destroy_signals_spec co ss ms c :
  wf (view q co ss ms c) → coros c !! q = Some co → co_state co = BIO_CORO_RUNNING →
  wp (destroy_signals ss) (λ _ c', wf (view q co [] ms c') ∧ shrinks c c' ∧
    monitors c' = monitors c) c.
Proof.
  revert c. induction ss as [|p ss IH]; intros c Hwf Hq Hr; cbn [destroy_signals].
  { wp_steps. by split_and!. }
  set (cov := with_lists (p :: ss) ms co).
  assert (Hqv : coros (view q co (p :: ss) ms c) !! q = Some cov) by apply lookup_insert_eq.
  assert (∃ s, signals c !! p = Some s) as [s Hs].
  { assert (p ∈ co_pending_signals cov) as Hin by left.
    apply (lk_list _ _ _ _ (wf_signals _ _ _ _ Hwf) _ _ _ Hqv) in Hin as (s & Hs & _). eauto. }
  ctx_steps. wp_use close_self; [apply Hwf|apply (ob_signal_self _ (wf_objects _ _ _ _ Hwf) _ _ Hs)|].
  intros r c' (-> & t & -> & Ht & Hev & Hl). ctx_steps.
  pose proof (drop_signal_wf _ cov p ss s t Hwf Hqv Hr eq_refl Hs Ht Hev Hl) as Hwf1.
  match goal with |- wp _ _ ?c' => set (c1 := c') end.
  assert (Hsh : shrinks c c1).
  { etrans; [by eapply close_shrinks|]. split; [split; [solve_calm|done|eauto|done]|done|done]. }
  eapply wp_mono; [apply IH; [|done..]|].
  - match type of Hwf1 with wf ?d => replace (view q co ss ms c1) with d; [done|] end.
    unfold view, c1. ctx_eq.
  - intros [] c2 (Hwf2 & Hsh2 & Hm2). split_and!; [done|by etrans|done].
Qed.

(** Raising a signal while the coroutine is taken apart: it has no signals of
    its own any more. *)
Lemma raise_view co ms h c :
  wf (view q co [] ms c) → coros c !! q = Some co → hk c h →
  wp (bio_raise_signal h) (λ _ c', wf (view q co [] ms c') ∧ shrinks c c' ∧
    monitors c' = monitors c ∧ lookup_tagged (live (htab c')) h BIO_SIGNAL_HANDLE = None) c.
Proof.
  intros Hwf Hq Hk. pose proof (wf_objects _ _ _ _ Hwf) as Hobj.
  assert (Hat : ∀ p, lookup_tagged (live (htab c)) h BIO_SIGNAL_HANDLE = Some p → ∃ s x,
    signal_at (view q co [] ms c) h p s x ∧ sig_owner s ≠ q ∧ signal_at c h p s x ∧
    sig_link s = Some (sig_owner s)).
  { intros p El. destruct (signal_at_lookup _ _ _ _ _ _ Hwf El) as (s & x & Hat).
    pose proof Hat as (Hl & Hs & Hx). cbn in Hl, Hs.
    pose proof (wf_owner _ _ _ _ Hwf _ _ Hs) as Hlink. cbn in Hlink.
    assert (sig_owner s ≠ q) as Hne.
    { intros Eq. rewrite Eq in Hlink. cbn in Hx. rewrite Eq, lookup_insert_eq in Hx.
      injection Hx as <-.
      assert (p ∈ co_pending_signals (with_lists [] ms co)) as Hin; [|by apply not_elem_of_nil in Hin].
      apply (lk_list _ _ _ _ (wf_signals _ _ _ _ Hwf) q); [apply lookup_insert_eq|eauto]. }
    exists s, x. split_and!; [done..| |done]. split_and!; [done..|].
    cbn in Hx. by rewrite lookup_insert_ne in Hx. }
  eapply wp_mono; [apply (raise_run_at c h); [apply Hwf|apply Hobj|done|]|].
  { intros p El. destruct (Hat p El) as (s & x & _ & _ & ? & ?). eauto. }
  intros b c' Hc. destruct (lookup_tagged _ h _) as [p|] eqn:El.
  - destruct Hc as (s & x & t & Hx & -> & _ & Ht & Hev & Hl).
    destruct (Hat p eq_refl) as (s' & x' & Hv & Hne & Hx' & _).
    assert (s' = s ∧ x' = x) as [-> ->].
    { destruct Hx as (_ & Hs & Hx), Hx' as (_ & Hs' & Hx'). simplify_eq. done. }
    split_and!.
    + replace (view q co [] ms (raised t p s x c)) with (raised t p s x (view q co [] ms c))
        by (unfold view, raised; ctx_eq; by rewrite insert_insert_ne).
      by eapply raised_wf.
    + split; [apply raised_frame; [apply Hx|done]| |].
      * cbn. by rewrite lookup_insert_ne.
      * cbn. rewrite Hl. apply delete_subseteq.
    + done.
    + unfold lookup_tagged. cbn. by rewrite Hl, lookup_delete_eq.
  - destruct Hc as [-> _]. by split_and!.
Qed.

Lemma trigger_monitors_spec co ms c :
  wf (view q co [] ms c) → coros c !! q = Some co →
  wp (trigger_monitors ms) (λ _ c', wf (view q co [] [] c') ∧ shrinks c c' ∧
    ∀ p m, p ∈ ms → monitors c !! p = Some m →
      lookup_tagged (live (htab c')) (mon_signal m) BIO_SIGNAL_HANDLE = None) c.
Proof.
  revert c. induction ms as [|p ms IH]; intros c Hwf Hq; cbn [trigger_monitors].
  { wp_steps. split_and!; [done..|]. by intros p m ?%not_elem_of_nil. }
  set (cov := with_lists [] (p :: ms) co).
  assert (Hqv : ∀ c, coros (view q co [] (p :: ms) c) !! q = Some cov) by (intros; apply lookup_insert_eq).
  assert (∃ m, monitors c !! p = Some m) as [m Hm].
  { assert (p ∈ co_monitors cov) as Hin by left.
    apply (lk_list _ _ _ _ (wf_monitors _ _ _ _ Hwf) _ _ _ (Hqv c)) in Hin as (m & Hm & _). eauto. }
  ctx_steps. wp_use (raise_view co (p :: ms)); [done|done| |].
  { apply (rf_monitor _ _ _ _ _ _ _ (wf_refs _ _ _ _ Hwf) _ _ Hm). }
  intros b c1 (Hwf1 & Hsh1 & Hm1 & Hd1). rewrite <- Hm1 in Hm. ctx_steps.
  wp_use close_self; [apply Hwf1|apply (ob_monitor_self _ (wf_objects _ _ _ _ Hwf1) _ _ Hm)|].
  intros r c' (-> & t & -> & Ht & Hev & Hl). ctx_steps.
  pose proof (drop_monitor_wf _ cov p ms m t Hwf1 (Hqv c1) eq_refl Hm Ht Hev Hl) as Hwf2.
  match goal with |- wp _ _ ?c' => set (c2 := c') end.
  assert (Hsh2 : shrinks c1 c2).
  { etrans; [by eapply close_shrinks|]. split; [split; [solve_calm|done|eauto|done]|done|done]. }
  eapply wp_mono; [apply IH|].
  - match type of Hwf2 with wf ?d => replace (view q co [] ms c2) with d; [done|] end.
    unfold view, c2. ctx_eq.
  - by rewrite (sh_self _ _ Hsh2), (sh_self _ _ Hsh1).
  - intros [] c3 (Hwf3 & Hsh3 & Hd3). assert (Hsh : shrinks c1 c3) by by etrans.
    split_and!; [done|by etrans|]. intros p' m' Hp' Hm'.
    destruct (decide (p' = p)) as [->|Hne].
    + rewrite <- Hm1, Hm in Hm'. injection Hm' as <-.
      eapply lookup_tagged_sub; [apply Hsh|exact Hd1].
    + apply elem_of_cons in Hp' as [->|Hp']; [done|]. eapply Hd3; [exact Hp'|].
      cbn. rewrite lookup_delete_ne by done. by rewrite Hm1.
Qed.

(** ** The end *)

(** What remains of a step in which the coroutine came to its end. *)
Record finished (c c' : bio_ctx_t) : Prop := {
  fi_le : ctx_le c c';
  fi_gone : coros c' !! q = None;
  fi_code : ∀ q', q' ≠ q → co_code <$> coros c' !! q' = co_code <$> coros c !! q';
  fi_timers : ∀ p, tm_code <$> timers c' !! p = tm_code <$> timers c !! p;
  fi_daemons : daemon_debt c' = daemon_debt c;
  fi_mco : mco_running c' = mco_running c;
}.

Lemma finished_frame c c' c'' : frame c c' → finished c' c'' → finished c c''.
Proof.
  intros [[H1 H2 H3 H4 _] H5 _ _] [K1 K2 K3 K4 K5 K6]. split; try congruence; [by etrans|].
  intros q' Hne. by rewrite K3, H2.
Qed.

Lemma owns_ok_delete cs ts n : owns_ok cs ts n → owns_ok (delete q cs) ts n.
Proof.
  intros [H1 H2].
  assert (Hd : ∀ q' x, delete q cs !! q' ≫= timer_impl_of = Some x → cs !! q' ≫= timer_impl_of = Some x).
  { intros q' x. destruct (decide (q = q')) as [<-|]; [by rewrite lookup_delete_eq|].
    by rewrite lookup_delete_ne. }
  split; [|eauto]. intros q1 q2 p [Ho1 Hp] [Ho2 _]. eapply H1; (split; [by apply Hd|done]).
Qed.

Lemma destroyed_wf co t f c :
  wf (view q co [] [] c) → mco_running c = None → HandleTable.wf t → evolves (htab c) t →
  live t = delete (co_handle co) (live (htab c)) →
  Invariant.wf strict todo None (set_coros (delete q) (set_num_daemons f
    (set_num_coros (λ n, n - 1) (set_htab (λ _, t) c)))).
Proof.
  intros Hwf Hmco Ht Hev Hl. set (cov := with_lists [] [] co).
  assert (Hq : coros (view q co [] [] c) !! q = Some cov) by apply lookup_insert_eq.
  assert (E : delete q (coros c) = delete q (coros (view q co [] [] c)))
    by (symmetry; apply delete_insert_eq).
  set (d := view q co [] [] c) in *.
  change (htab c) with (htab d) in *. change (mco_running c) with (mco_running d) in *.
  destruct Hwf as [? ? [] ? ? ? ? ? ? ? ? [Hp Hcls] ? ? ?].
  assert (Hself : live (htab d) !! co_handle co = Some (BIO_CORO_HANDLE, Some q))
    by apply (ob_coro_self _ _ Hq).
  split; cbn; rewrite ?E; eauto with store.
  - split; cbn; rewrite ?E, Hl; eauto with store.
  - by eapply linked_del_owner.
  - by eapply linked_del_owner.
  - by eapply refs_ok_evolves.
  - by eapply sched_ok_destroy.
  - split; [done|]. by apply map_Forall_delete.
  - by apply wait_ok_delete.
  - by apply owns_ok_delete.
Qed.

Lemma destroy_coro_spec co c :
  wf (view q co [] [] c) → coros c !! q = Some co → mco_running c = None →
  wp (destroy_coro q) (λ _ c', Invariant.wf strict todo None c' ∧ finished c c' ∧
    live (htab c') = delete (co_handle co) (live (htab c))) c.
Proof.
  intros Hwf Hq Hmco. unfold destroy_coro. ctx_steps.
  assert (Hqv : coros (view q co [] [] c) !! q = Some (with_lists [] [] co)) by apply lookup_insert_eq.
  wp_use close_self; [apply Hwf|apply (ob_coro_self _ (wf_objects _ _ _ _ Hwf) _ _ Hqv)|].
  intros r c' (-> & t & -> & Ht & Hev & Hl). ctx_steps.
  assert (Hend : ∀ f c', co_daemon co = false ∧ f = id ∨ co_daemon co = true ∧ f = (λ n, n - 1) →
    c' = set_coros (delete q) (set_num_daemons f (set_num_coros (λ n, n - 1) (set_htab (λ _, t) c))) →
    Invariant.wf strict todo None c' ∧ finished c c' ∧
    live (htab c') = delete (co_handle co) (live (htab c))).
  { intros f c' Hf ->. split_and!; [by eapply destroyed_wf| |done]. split; cbn.
    - solve_le.
    - apply lookup_delete_eq.
    - intros q' Hne. by rewrite lookup_delete_ne.
    - done.
    - unfold daemon_debt. cbn. rewrite (count_delete _ _ _ _ Hq).
      destruct Hf as [[-> ->]|[-> ->]]; cbn; lia.
    - done. }
  destruct (co_daemon co) eqn:Ed; ctx_steps.
  - apply (Hend (λ n, n - 1)); [auto|]. ctx_eq.
  - apply (Hend id); [auto|]. ctx_eq.
Qed.

(** ** The whole end of a coroutine *)

Section cleanup.
(** The cleanup function of a local variable may use the library, outside of
    any coroutine. *)
Context (cls_cleanup : loc → loc → M unit).
Context (cleanup_ok : ∀ spec d c, wf c → mco_running c = None →
  wp (cls_cleanup spec d) (kept strict todo (Some q) c (λ _ _, True)) c).

Lemma cleanup_entries_spec es c :
  wf c → mco_running c = None →
  wp (cleanup_entries cls_cleanup es) (kept strict todo (Some q) c (λ _ _, True)) c.
Proof.
  revert c. induction es as [|e es IH]; intros c Hwf Hm; cbn [cleanup_entries].
  { wp_steps. by apply kept_same. }
  wp_use cleanup_ok; [done..|]. intros [] c1 (Hwf1 & Hf1 & _).
  eapply wp_mono; [apply IH; [done|by rewrite (frame_mco _ _ Hf1)]|].
  intros [] c2. by apply kept_trans.
Qed.

Lemma cleanup_buckets_spec bs i n c :
  wf c → mco_running c = None → 0 ≤ i → i + Z.of_nat n ≤ zlen bs →
  wp (cleanup_buckets cls_cleanup bs i n) (kept strict todo (Some q) c (λ _ _, True)) c.
Proof.
  revert i c. induction n as [|n IH]; intros i c Hwf Hm Hi Hn; cbn [cleanup_buckets].
  { wp_steps. by apply kept_same. }
  destruct (zlookup_in_range bs i) as [b Hb]; [lia|]. wp_steps.
  wp_use cleanup_entries_spec; [done..|]. intros [] c1 (Hwf1 & Hf1 & _).
  eapply wp_mono; [apply IH; [done|by rewrite (frame_mco _ _ Hf1)|lia..]|].
  intros [] c2. by apply kept_trans.
Qed.

Lemma cleanup_cls_spec co c :
  wf c → mco_running c = None → coros c !! q = Some co →
  wp (cleanup_cls cls_cleanup q) (kept strict todo (Some q) c (λ _ c',
    co_cls_buckets co = None → c' = c)) c.
Proof.
  intros Hwf Hm Hq. unfold cleanup_cls. ctx_steps.
  destruct (co_cls_buckets co) as [bs|] eqn:Eb; [|wp_steps; by apply kept_same].
  pose proof (wf_cls_of _ _ _ _ _ _ Hwf Hq _ Eb) as Hl.
  destruct (wf_cls _ _ _ _ Hwf) as [?%pow2_pos _].
  eapply wp_mono; [apply cleanup_buckets_spec; [done..|lia]|].
  intros [] c' Hk. by eapply kept_impl.
Qed.

Lemma finish_coro_spec co c :
  wf c → mco_running c = None → coros c !! q = Some co →
  wp (finish_coro cls_cleanup q) (λ _ c',
    Invariant.wf strict todo None c' ∧ finished c c' ∧
    (co_cls_buckets co = None →
      live (htab c') !! co_handle co = None ∧ live (htab c') ⊆ live (htab c) ∧
      ∀ p m, p ∈ co_monitors co → monitors c !! p = Some m →
        lookup_tagged (live (htab c')) (mon_signal m) BIO_SIGNAL_HANDLE = None)) c.
Proof.
  intros Hwf Hm Hq. unfold finish_coro. wp_use cleanup_cls_spec; [done..|].
  intros [] c1 (Hwf1 & Hf1 & Hsame).
  destruct (wf_running _ _ _ _ Hwf1) as (co1 & Hq1 & Hr1). ctx_steps.
  wp_use (destroy_signals_spec co1 (co_pending_signals co1) (co_monitors co1)); [|done..|].
  { by rewrite view_id. }
  intros [] c2 (Hwf2 & Hsh2 & Hm2).
  assert (Hq2 : coros c2 !! q = Some co1) by by rewrite (sh_self _ _ Hsh2). ctx_steps.
  wp_use trigger_monitors_spec; [done..|]. intros [] c3 (Hwf3 & Hsh3 & Hd3).
  assert (Hf : frame c c3) by (etrans; [exact Hf1|]; etrans; [apply Hsh2|apply Hsh3]).
  eapply wp_mono; [apply (destroy_coro_spec co1); [done| |]|].
  - by rewrite (sh_self _ _ Hsh3).
  - by rewrite (frame_mco _ _ Hf).
  - intros [] c4 (Hwf4 & Hfi & Hl4). split_and!; [done|by eapply finished_frame|].
    intros Hn. specialize (Hsame Hn). subst c1. rewrite Hq in Hq1. injection Hq1 as <-.
    rewrite Hl4. split_and!.
    + apply lookup_delete_eq.
    + etrans; [apply delete_subseteq|]. etrans; [apply Hsh3|apply Hsh2].
    + intros p m Hp Hpm. eapply lookup_tagged_sub; [apply delete_subseteq|].
      apply (Hd3 p); [done|]. by rewrite Hm2.
Qed.
End cleanup.
End finish.

(** ** What the end of a coroutine means to the others *)

Section correct.
Context (strict : Prop) (todo : list loc).

End correct.
