(* ===== verification/Mailbox.v ===== *)
(** Mailboxes ([src/mailbox.c], [include/bio/mailbox.h]): bounded queues of
    messages between coroutines. The macros of the header fix the size of a
    message for every mailbox, so that a cell of the buffer holds one message. *)
From S2P Require Import Prelude Bits HandleTable TimerHeap Ctx Prog Store Ring Invariant Signal.
From S2P Require Import Timer Coro.

(** ** The code *)

(** [bio__mailbox_open]. *)
Definition bio__mailbox_open (capacity : Z) : M bio_handle_t :=
  let capacity := bio_next_pow2 capacity in
  mailbox ← bio_malloc;
  _ ← modify (set_mailboxes <[mailbox :=
        mk_mailbox capacity 0 0 BIO_INVALID_HANDLE (replicate (Z.to_nat capacity) None)]>);
  make_handle mailbox BIO_MAILBOX_HANDLE.

(** Whether the mailbox has a waiting receiver:
    [bio_handle_compare(mailbox->signal.handle, BIO_INVALID_HANDLE) != 0]. *)
Definition has_receiver (b : bio_mailbox_t) : bool :=
  negb (bio_handle_compare (mb_signal b) BIO_INVALID_HANDLE =? 0).

(** [bio__mailbox_close]. *)
Definition bio__mailbox_close (handle : bio_handle_t) : M unit :=
  mailbox ← close_handle handle BIO_MAILBOX_HANDLE;
  match mailbox with
  | Some mailbox =>
      b ← deref_mailbox mailbox;
      _ ← (if has_receiver b then _ ← bio_raise_signal (mb_signal b); mret tt else mret tt);
      free_mailbox mailbox
  | None => mret tt
  end.

(** [bio__mailbox_is_open]. *)
Definition bio__mailbox_is_open (handle : bio_handle_t) : M bool :=
  mailbox ← resolve_handle handle BIO_MAILBOX_HANDLE;
  mret (bool_decide (mailbox ≠ None)).

(** [memcpy(mailbox->data + index * item_size, data, item_size)]. *)
Definition put_cell (mailbox : loc) (index : Z) (msg : message) : M unit :=
  b ← deref_mailbox mailbox;
  _ ← need OutOfBounds (zlookup (mb_data b) index);
  update_mailbox mailbox (set_mb_data (zinsert index (Some msg))).

(** [memcpy(data, mailbox->data + index * item_size, item_size)]. *)
Definition get_cell (mailbox : loc) (index : Z) : M message :=
  b ← deref_mailbox mailbox;
  cell ← need OutOfBounds (zlookup (mb_data b) index);
  need Uninit cell.

(** [bio__mailbox_send]. *)
Definition bio__mailbox_send (handle : bio_handle_t) (data : message) : M bool :=
  mailbox ← resolve_handle handle BIO_MAILBOX_HANDLE;
  match mailbox with
  | Some mailbox =>
      b ← deref_mailbox mailbox;
      let size := u32 (mb_write b - mb_read b) in
      if size <? mb_capacity b then
        let index := bio_queue_index (mb_write b) (mb_capacity b) in
        _ ← update_mailbox mailbox (set_mb_write (λ w, u32 (w + 1)));
        _ ← put_cell mailbox index data;
        _ ← (if has_receiver b then
               _ ← bio_raise_signal (mb_signal b);
               update_mailbox mailbox (set_mb_signal (λ _, BIO_INVALID_HANDLE))
             else mret tt);
        mret true
      else mret false
  | None => mret false
  end.

(** The first part of [bio__mailbox_recv]: what to do about an empty mailbox. *)
Inductive recv_action := RecvFail | RecvWait (signal : bio_handle_t) | RecvReady.

Definition recv_begin (handle : bio_handle_t) : M recv_action :=
  mailbox ← resolve_handle handle BIO_MAILBOX_HANDLE;
  match mailbox with
  | Some mailbox =>
      b ← deref_mailbox mailbox;
      if mb_read b =? mb_write b then
        if has_receiver b then mret RecvFail
        else
          signal ← bio_make_signal;
          _ ← update_mailbox mailbox (set_mb_signal (λ _, signal));
          mret (RecvWait signal)
      else mret RecvReady
  | None => mret RecvFail
  end.

(** Its second part, after a possible suspension; [None] stands for [false]. *)
Definition recv_take (handle : bio_handle_t) : M (option message) :=
  mailbox ← resolve_handle handle BIO_MAILBOX_HANDLE;
  match mailbox with
  | Some mailbox =>
      b ← deref_mailbox mailbox;
      if mb_read b =? mb_write b then mret None
      else
        let index := bio_queue_index (mb_read b) (mb_capacity b) in
        _ ← update_mailbox mailbox (set_mb_read (λ r, u32 (r + 1)));
        msg ← get_cell mailbox index;
        mret (Some msg)
  | None => mret None
  end.

(** [bio__mailbox_recv]. *)
Definition bio__mailbox_recv (handle : bio_handle_t) : prog (option message) :=
  let! action := Act (recv_begin handle) in
  match action with
  | RecvFail => Ret None
  | RecvWait signal => bio_wait_for_one_signal signal ;;; Act (recv_take handle)
  | RecvReady => Act (recv_take handle)
  end.

(** [bio__mailbox_can_recv], [bio__mailbox_can_send]. *)
Definition bio__mailbox_can_recv (handle : bio_handle_t) : M bool :=
  mailbox ← resolve_handle handle BIO_MAILBOX_HANDLE;
  match mailbox with
  | Some mailbox => b ← deref_mailbox mailbox; mret (negb (mb_read b =? mb_write b))
  | None => mret false
  end.

Definition bio__mailbox_can_send (handle : bio_handle_t) : M bool :=
  mailbox ← resolve_handle handle BIO_MAILBOX_HANDLE;
  match mailbox with
  | Some mailbox =>
      b ← deref_mailbox mailbox; mret (u32 (mb_write b - mb_read b) <? mb_capacity b)
  | None => mret false
  end.

(** [bio_wait_and_send_message] ([mailbox.h]); [condition] is evaluated before
    every attempt, and only for an open mailbox. *)
Definition bio_wait_and_send_message (condition : M bool) (mailbox : bio_handle_t)
    (msg : message) : prog unit :=
  Loop (λ _ : unit,
    let! continue := Act (is_open ← bio__mailbox_is_open mailbox;
                          if is_open : bool then condition else mret false) in
    if continue : bool then
      let! sent := Act (bio__mailbox_send mailbox msg) in
      if sent : bool then Ret (inr tt)
      else bio_yield ;;; Ret (inl tt)
    else Ret (inr tt)) tt.

(** [bio_foreach_message] ([mailbox.h]): [body] returns whether to break. *)
Definition bio_foreach_message (mailbox : bio_handle_t) (body : message → prog bool) : prog unit :=
  Loop (λ _ : unit,
    let! received := bio__mailbox_recv mailbox in
    match received with
    | Some msg =>
        let! stop := body msg in
        if stop : bool then Ret (inr tt) else Ret (inl tt)
    | None => Ret (inr tt)
    end) tt.

(** ** Specifications *)

(** The open mailbox that a handle refers to, and its queue. *)
Definition mailbox_at (c : bio_ctx_t) (h : bio_handle_t) : option loc :=
  lookup_tagged (live (htab c)) h BIO_MAILBOX_HANDLE.

Definition holds (c : bio_ctx_t) (p : loc) (cap : Z) (q : list message) : Prop :=
  ∃ b, mailboxes c !! p = Some b ∧ mb_capacity b = cap ∧ mb_repr b q.

Section mailbox.
Context (strict : Prop) (todo : list loc) (cur : option loc).
Implicit Types (c : bio_ctx_t) (b : bio_mailbox_t) (q : list message).

Lemma resolve_mailbox c h :
  wf strict todo cur c → hk c h →
  wp (resolve_handle h BIO_MAILBOX_HANDLE) (λ r c', c' = c ∧ r = mailbox_at c h ∧
    ∀ p, r = Some p → live (htab c) !! h = Some (BIO_MAILBOX_HANDLE, Some p) ∧
      ∃ b, mailboxes c !! p = Some b) c.
Proof. intros Hwf Hk. by eapply (resolve_object mailboxes); [apply Hwf|apply Hwf|]. Qed.

Lemma mailbox_repr c p b :
  wf strict todo cur c → mailboxes c !! p = Some b → ∃ q, mb_repr b q.
Proof. intros Hwf Hp. apply (wf_mailboxes _ _ _ _ Hwf _ _ Hp). Qed.

Lemma mailbox_signal_known c p b :
  wf strict todo cur c → mailboxes c !! p = Some b → hk c (mb_signal b).
Proof. intros Hwf Hp. apply (rf_mailbox _ _ _ _ _ _ _ (wf_refs _ _ _ _ Hwf) _ _ Hp). Qed.

Lemma mailbox_cells_ok c p b :
  wf strict todo cur c → mailboxes c !! p = Some b → Forall (cell_ok (htab c)) (mb_data b).
Proof. intros Hwf Hp. apply (rf_mailbox _ _ _ _ _ _ _ (wf_refs _ _ _ _ Hwf) _ _ Hp). Qed.

Lemma has_receiver_spec b : has_receiver b = bool_decide (mb_signal b ≠ BIO_INVALID_HANDLE).
Proof. unfold has_receiver. by rewrite bio_handle_compare_bool, bool_decide_not. Qed.

(** A mailbox changes. *)
Lemma update_mailbox_wf c p b b' q :
  wf strict todo cur c → mailboxes c !! p = Some b → mb_repr b' q → hk c (mb_signal b') →
  Forall (cell_ok (htab c)) (mb_data b') →
  wf strict todo cur (set_mailboxes <[p := b']> c) ∧ frame c (set_mailboxes <[p := b']> c).
Proof.
  intros Hwf Hp Hr Hk Hcs. split; [|split; [solve_calm|done|eauto|done]].
  destruct Hwf as [? ? [] ? ? ? [] ? ? ? ? ? ? ? ?]. split; cbn; try done; eauto with store.
  - split; cbn; eauto with store.
  - split; try done. by apply map_Forall_insert_2.
  - apply map_Forall_insert_2; [by exists q|done].
Qed.

(** *** Opening *)

Lemma open_spec c v :
  wf strict todo cur c → 0 ≤ v < 2 ^ 32 →
  wp (bio__mailbox_open v) (kept strict todo cur c (λ h c', hk c' h ∧
    mailbox_at c h = None ∧ mailbox_at c' h = Some (next_loc c) ∧
    holds c' (next_loc c) (bio_next_pow2 v) [])) c.
Proof.
  intros Hwf Hv. unfold bio__mailbox_open. ctx_steps.
  match goal with |- context [<[_ := ?x]>] => set (b := x) end.
  eapply wp_mono; [apply make_handle_spec, Hwf|].
  intros h c' (t & -> & Ht & Hev & Hl & Hh & Hk & _). cbn in Ht, Hev, Hl, Hh.
  assert (Hb : mb_repr b []).
  { apply ring_init; [|done]. subst b. unfold zlen. cbn. rewrite length_replicate.
    rewrite bio_next_pow2_spec by done. case_decide; [|done].
    pose proof (Z.pow_pos_nonneg 2 (Z.log2_up v)). pose proof (Z.log2_up_nonneg v). lia. }
  split_and!.
  - destruct Hwf as [? ? [] ? ? ? Hrefs ? ? ? ? ? ? ? ?]. split; cbn; try done; eauto with store.
    + split; cbn; rewrite Hl; eauto with store.
    + destruct (refs_ok_evolves _ _ _ _ _ _ _ _ Hrefs Hev). split; try done.
      apply map_Forall_insert_2; [|done]. split; [apply known_invalid|].
      apply Forall_replicate. by intros msg.
    + apply map_Forall_insert_2; [by exists []|done].
  - split; [solve_calm|done|eauto|done].
  - done.
  - unfold mailbox_at, lookup_tagged. by rewrite Hh.
  - unfold mailbox_at. apply lookup_tagged_Some. cbn. by rewrite Hl, lookup_insert_eq.
  - exists b. cbn. by rewrite lookup_insert_eq.
Qed.

Lemma is_open_spec c h :
  wf strict todo cur c → hk c h →
  wp (bio__mailbox_is_open h) (λ r c', c' = c ∧ r = bool_decide (mailbox_at c h ≠ None)) c.
Proof.
  intros Hwf Hk. unfold bio__mailbox_is_open. wp_use resolve_mailbox; [done..|].
  intros r c' (-> & <- & _). by wp_steps.
Qed.

(** *** Sending *)

(** Waking the receiver, if there is one. *)
Lemma wake_receiver_spec c p b :
  wf strict todo cur c → mailboxes c !! p = Some b →
  wp (if has_receiver b then
        _ ← bio_raise_signal (mb_signal b);
        update_mailbox p (set_mb_signal (λ _, BIO_INVALID_HANDLE))
      else mret tt)
    (kept strict todo cur c (λ _ c',
      (if has_receiver b then only_raises [mb_signal b] c c' else htab c' = htab c) ∧
      mailboxes c' = <[p := set_mb_signal (λ _, BIO_INVALID_HANDLE) b]> (mailboxes c))) c.
Proof.
  intros Hwf Hp. rewrite has_receiver_spec. case_bool_decide as Hs.
  - wp_use raise_signal_full; [done|by eapply mailbox_signal_known|].
    intros r c1 (Hwf1 & Hf1 & Hr1 & _ & _ & Hm1 & _). rewrite <- Hm1 in Hp. ctx_steps.
    destruct (mailbox_repr _ _ _ Hwf1 Hp) as [q Hq].
    destruct (update_mailbox_wf c1 p b (set_mb_signal (λ _, BIO_INVALID_HANDLE) b) q)
      as [Hwf2 Hf2]; [done..|apply hk_invalid|exact (mailbox_cells_ok _ _ _ Hwf1 Hp)|].
    split_and!; [done|by etrans|done|]. cbn. by rewrite Hm1.
  - wp_steps. apply kept_same; [done|]. split; [done|].
    rewrite insert_id; [done|]. rewrite Hp. f_equal.
    destruct b; cbn in *. by subst.
Qed.

(** A message is sent if and only if the mailbox is open and not full. It
    goes to the end of the queue, and the waiting receiver is woken up. *)
Lemma send_spec c h msg :
  wf strict todo cur c → hk c h → Forall (hk c) (msg_handles msg) →
  wp (bio__mailbox_send h msg) (kept strict todo cur c (λ r c',
    match mailbox_at c h with
    | Some p => ∃ b q, mailboxes c !! p = Some b ∧ mb_repr b q ∧
        if zlen q <? mb_capacity b then
          r = true ∧ holds c' p (mb_capacity b) (q ++ [msg]) ∧
          (∀ p', p' ≠ p → mailboxes c' !! p' = mailboxes c !! p') ∧
          if has_receiver b then only_raises [mb_signal b] c c' else htab c' = htab c
        else r = false ∧ c' = c
    | None => r = false ∧ c' = c
    end)) c.
Proof.
  intros Hwf Hk Hmsg. unfold bio__mailbox_send. wp_use resolve_mailbox; [done..|].
  intros r c' (-> & <- & Hr). destruct r as [p|]; [|wp_steps; by apply kept_same].
  destruct (Hr p eq_refl) as (Hl & b & Hb). destruct (mailbox_repr _ _ _ Hwf Hb) as [q Hq].
  ctx_steps. rewrite (ring_size _ _ _ _ _ Hq).
  destruct (zlen q <? mb_capacity b) eqn:Esz; cycle 1.
  { wp_steps. apply kept_same; [done|]. exists b, q. by rewrite Esz. }
  pose proof (zlen_nonneg q) as Hpos.
  pose proof (ring_push _ _ _ _ _ msg Hq ltac:(lia)) as Hpush.
  destruct (ring_index _ _ _ _ _ (mb_write b) Hq ltac:(lia)) as [cell Hcell].
  unfold put_cell. ctx_steps. cbn [mb_data set_mb_write]. ctx_steps.
  set (b2 := set_mb_data (zinsert _ _) _).
  match goal with |- wp _ _ ?c' => replace c' with (set_mailboxes <[p := b2]> c) by (symmetry; ctx_eq) end.
  destruct (update_mailbox_wf c p b b2 (q ++ [msg])) as [Hwf2 Hf2];
    [done|done|exact Hpush|exact (mailbox_signal_known _ _ _ Hwf Hb)| |].
  { apply Forall_zinsert; [exact (mailbox_cells_ok _ _ _ Hwf Hb)|]. by intros ? [= <-]. }
  assert (Hb2 : mailboxes (set_mailboxes <[p := b2]> c) !! p = Some b2) by apply lookup_insert_eq.
  pose proof (wake_receiver_spec _ _ _ Hwf2 Hb2) as Hwake. eapply wp_mono; [exact Hwake|].
  intros [] c3 (Hwf3 & Hf3 & Hr3 & Hm3). wp_steps. split_and!; [done|by etrans|].
  exists b, q. rewrite Esz. split_and!; [done..| | |].
  - eexists. rewrite Hm3, lookup_insert_eq. split_and!; [done..|]. exact Hpush.
  - intros p' Hne. rewrite Hm3. cbn. by rewrite !lookup_insert_ne.
  - exact Hr3.
Qed.

(** *** Receiving *)

Lemma recv_take_spec c h :
  wf strict todo cur c → hk c h →
  wp (recv_take h) (kept strict todo cur c (λ r c', htab c' = htab c ∧
    (∀ msg, r = Some msg → Forall (hk c') (msg_handles msg)) ∧
    match mailbox_at c h with
    | Some p => ∃ b q, mailboxes c !! p = Some b ∧ mb_repr b q ∧
        match q with
        | msg :: q => r = Some msg ∧ holds c' p (mb_capacity b) q
        | [] => r = None ∧ c' = c
        end
    | None => r = None ∧ c' = c
    end)) c.
Proof.
  intros Hwf Hk. unfold recv_take. wp_use resolve_mailbox; [done..|].
  intros r c' (-> & <- & Hr). destruct r as [p|]; [|wp_steps; by apply kept_same].
  destruct (Hr p eq_refl) as (Hl & b & Hb). destruct (mailbox_repr _ _ _ Hwf Hb) as [q Hq].
  ctx_steps. pose proof (ring_empty _ _ _ _ _ Hq) as He.
  destruct (Z.eqb_spec (mb_read b) (mb_write b)) as [E|E].
  - wp_steps. apply kept_same; [done|]. split_and!; [done..|]. exists b, q. apply He in E as ->. done.
  - destruct q as [|msg q]; [tauto|]. destruct (ring_pop _ _ _ _ _ _ Hq) as [Hcell Hpop].
    unfold get_cell. ctx_steps. cbn [mb_data set_mb_read]. ctx_steps.
    destruct (update_mailbox_wf c p b (set_mb_read (λ r, u32 (r + 1)) b) q) as [Hwf2 Hf2];
      [done|done|exact Hpop|exact (mailbox_signal_known _ _ _ Hwf Hb)|exact (mailbox_cells_ok _ _ _ Hwf Hb)|].
    split_and!; [done..| |].
    { pose proof (mailbox_cells_ok _ _ _ Hwf Hb) as Hcs. rewrite Forall_forall in Hcs.
      intros m [= <-]. by eapply Hcs; [eapply zlookup_elem|]. } exists b, (msg :: q). split_and!; [done..|].
    eexists. cbn. rewrite lookup_insert_eq. split_and!; [done..|]. exact Hpop.
Qed.

Lemma recv_begin_spec c h :
  wf strict todo cur c → hk c h →
  wp (recv_begin h) (kept strict todo cur c (λ r c',
    match r with RecvWait signal => hk c' signal | _ => c' = c end ∧
    match mailbox_at c h with
    | Some p => ∃ b q, mailboxes c !! p = Some b ∧ mb_repr b q ∧
        match r with
        | RecvReady => q ≠ []
        | RecvWait _ => q = [] ∧ has_receiver b = false
        | RecvFail => q = [] ∧ has_receiver b = true
        end
    | None => r = RecvFail
    end)) c.
Proof.
  intros Hwf Hk. unfold recv_begin. wp_use resolve_mailbox; [done..|].
  intros r c' (-> & <- & Hr). destruct r as [p|]; [|wp_steps; by apply kept_same].
  destruct (Hr p eq_refl) as (Hl & b & Hb). destruct (mailbox_repr _ _ _ Hwf Hb) as [q Hq].
  ctx_steps. pose proof (ring_empty _ _ _ _ _ Hq) as He.
  destruct (Z.eqb_spec (mb_read b) (mb_write b)) as [E|E].
  - apply He in E as ->. destruct (has_receiver b) eqn:Er.
    + wp_steps. apply kept_same; [done|]. split; [done|]. by exists b, [].
    + wp_use make_signal_spec; [done|]. intros h' c1 (Hwf1 & Hf1 & Hk1 & Hm1 & _).
      rewrite <- Hm1 in Hb. ctx_steps.
      destruct (update_mailbox_wf c1 p b (set_mb_signal (λ _, h') b) []) as [Hwf2 Hf2];
        [done..|exact (mailbox_cells_ok _ _ _ Hwf1 Hb)|].
      split_and!; [done|by etrans|done|]. exists b, []. rewrite Hm1 in Hb. by split_and!.
  - wp_steps. apply kept_same; [done|]. split; [done|]. exists b, q. split_and!; [done..|].
    intros ->. tauto.
Qed.

Lemma can_recv_spec c h :
  wf strict todo cur c → hk c h →
  wp (bio__mailbox_can_recv h) (λ r c', c' = c ∧
    match mailbox_at c h with
    | Some p => ∃ b q, mailboxes c !! p = Some b ∧ mb_repr b q ∧ r = bool_decide (q ≠ [])
    | None => r = false
    end) c.
Proof.
  intros Hwf Hk. unfold bio__mailbox_can_recv. wp_use resolve_mailbox; [done..|].
  intros r c' (-> & <- & Hr). destruct r as [p|]; [|by wp_steps].
  destruct (Hr p eq_refl) as (Hl & b & Hb). destruct (mailbox_repr _ _ _ Hwf Hb) as [q Hq].
  ctx_steps. split; [done|]. exists b, q. split_and!; [done..|].
  pose proof (ring_empty _ _ _ _ _ Hq). rewrite bool_decide_not. f_equal.
  destruct (Z.eqb_spec (mb_read b) (mb_write b)).
  - by rewrite bool_decide_true by tauto.
  - by rewrite bool_decide_false by tauto.
Qed.

Lemma can_send_spec c h :
  wf strict todo cur c → hk c h →
  wp (bio__mailbox_can_send h) (λ r c', c' = c ∧
    match mailbox_at c h with
    | Some p => ∃ b q, mailboxes c !! p = Some b ∧ mb_repr b q ∧
        r = (zlen q <? mb_capacity b)
    | None => r = false
    end) c.
Proof.
  intros Hwf Hk. unfold bio__mailbox_can_send. wp_use resolve_mailbox; [done..|].
  intros r c' (-> & <- & Hr). destruct r as [p|]; [|by wp_steps].
  destruct (Hr p eq_refl) as (Hl & b & Hb). destruct (mailbox_repr _ _ _ Hwf Hb) as [q Hq].
  ctx_steps. split; [done|]. exists b, q. by rewrite (ring_size _ _ _ _ _ Hq).
Qed.

(** *** Closing *)

Lemma close_table_wf c t h p :
  wf strict todo cur c → HandleTable.wf t → evolves (htab c) t →
  live t = delete h (live (htab c)) → live (htab c) !! h = Some (BIO_MAILBOX_HANDLE, Some p) →
  wf strict todo cur (set_htab (λ _, t) c) ∧ frame c (set_htab (λ _, t) c).
Proof.
  intros Hwf Ht Hev Hl Hh. split; [|split; [solve_calm|done|eauto|done]].
  destruct Hwf as [? ? [] ? ? ? Hrefs ? ? ? ? ? ? ? ?]. split; cbn; try done.
  - split; cbn; rewrite Hl; eauto with store.
  - by eapply refs_ok_evolves.
  - by eapply ext_ok_evolves.
Qed.

Lemma free_mailbox_wf c p :
  wf strict todo cur c → (∀ h, live (htab c) !! h ≠ Some (BIO_MAILBOX_HANDLE, Some p)) →
  wf strict todo cur (set_mailboxes (delete p) c) ∧ frame c (set_mailboxes (delete p) c).
Proof.
  intros Hwf Hp. split; [|split; [solve_calm|done|eauto|done]].
  destruct Hwf as [? ? [] ? ? ? [] ? ? ? ? ? ? ? ?]. split; cbn; try done.
  - split; cbn; eauto using store_ok_forget with store.
  - split; try done. by apply map_Forall_delete.
  - by apply map_Forall_delete.
Qed.

(** After closing, the handle is dead, the waiting receiver is woken up, and
    the messages that were in the mailbox are gone. *)
Lemma mailbox_close_spec c h :
  wf strict todo cur c → hk c h →
  wp (bio__mailbox_close h) (kept strict todo cur c (λ _ c',
    mailbox_at c' h = None ∧
    match mailbox_at c h with
    | Some p => ∃ b, mailboxes c !! p = Some b ∧ mailboxes c' = delete p (mailboxes c) ∧
        (has_receiver b = true → lookup_tagged (live (htab c')) (mb_signal b) BIO_SIGNAL_HANDLE = None)
    | None => c' = c
    end)) c.
Proof.
  intros Hwf Hk. unfold bio__mailbox_close.
  wp_use (close_object mailboxes); [apply Hwf|apply Hwf|done|].
  intros r c' (-> & Hc). fold (mailbox_at c h) in *.
  destruct (mailbox_at c h) as [p|] eqn:Em; [|subst c'; wp_steps; by apply kept_same].
  destruct Hc as (t & b & -> & Ht & Hev & Hl & Hlk & Hb).
  destruct (close_table_wf c t h p) as [Hwf1 Hf1]; [done..|].
  set (c1 := set_htab (λ _, t) c) in *. change (mailboxes c) with (mailboxes c1) in Hb |- *.
  assert (Hraise : wp (if has_receiver b then _ ← bio_raise_signal (mb_signal b); mret tt else mret tt)
    (kept strict todo cur c1 (λ _ c2, mailboxes c2 = mailboxes c1 ∧
      live (htab c2) ⊆ live (htab c1) ∧
      (has_receiver b = true → lookup_tagged (live (htab c2)) (mb_signal b) BIO_SIGNAL_HANDLE = None))) c1).
  { destruct (has_receiver b).
    - wp_use raise_signal_full; [done|by eapply mailbox_signal_known|].
      intros r c2 (Hwf2 & Hf2 & Hr2 & _ & _ & Hm2 & _). wp_steps.
      split_and!; [done..| |].
      + apply only_raises_sub with (1 := Hr2).
      + intros _. apply only_raises_dead with (1 := Hr2). by left.
    - wp_steps. by apply kept_same. }
  ctx_steps. eapply wp_mono; [exact Hraise|].
  intros [] c2 (Hwf2 & Hf2 & Hm2 & Hs2 & Hd2).
  rewrite <- Hm2 in Hb. ctx_steps.
  assert (Hgone : ∀ k o, live (htab c2) !! k = Some o → k ≠ h ∧ live (htab c) !! k = Some o).
  { intros k o Hko. apply (lookup_weaken _ _ _ _ Hko) in Hs2. cbn in Hs2. rewrite Hl in Hs2.
    by apply lookup_delete_Some in Hs2 as [? ?]. }
  destruct (free_mailbox_wf c2 p) as [Hwf3 Hf3]; [done| |].
  { intros k [Hne Hk']%Hgone. apply Hne.
    by eapply (so_inj _ _ _ _ (ob_mailboxes _ (wf_objects _ _ _ _ Hwf))). }
  split_and!; [done|by do 2 (etrans; [done|])| |].
  - unfold mailbox_at, lookup_tagged. cbn. destruct (live (htab c2) !! h) eqn:E; [|done].
    by apply Hgone in E as [? _].
  - exists b. split_and!; [congruence| |done]. cbn. by rewrite Hm2.
Qed.
End mailbox.

(** ** A mailbox is a bounded queue *)

Section correct.
Context (strict : Prop) (todo : list loc) (cur : option loc).
Implicit Types (c : bio_ctx_t) (q : list message).

Lemma holds_det c p b cap q q' :
  mailboxes c !! p = Some b → mb_repr b q → holds c p cap q' → q' = q ∧ mb_capacity b = cap.
Proof. intros Hb Hq (b' & Hb' & <- & Hq'). simplify_eq. split; [by eapply ring_det|done]. Qed.

(** Raising signals does not close mailboxes. *)
Lemma only_raises_mailbox l c c' h : only_raises l c c' → mailbox_at c' h = mailbox_at c h.
Proof.
  intros H. unfold mailbox_at, lookup_tagged. rewrite (H h). case_decide as Hd; [|done].
  destruct Hd as [_ Hd]. unfold lookup_tagged in Hd.
  destruct (live (htab c) !! h) as [[tg o]|]; [|done]. destruct (decide (tg = BIO_SIGNAL_HANDLE)); [|done].
  subst tg. done.
Qed.

(** C12: Sending to a mailbox that is not full and then receiving from it returns the
    oldest message of the queue, and leaves the others in their order. *)
Theorem mailbox_fifo c h p cap q msg :
  wf strict todo cur c → hk c h → Forall (hk c) (msg_handles msg) →
  mailbox_at c h = Some p → holds c p cap q → zlen q < cap →
  wp (sent ← bio__mailbox_send h msg; r ← recv_take h; mret (sent, r)) (λ x c',
    wf strict todo cur c' ∧ x = (true, Some (default msg (head q))) ∧
    mailbox_at c' h = Some p ∧ holds c' p cap (tail (q ++ [msg]))) c.
Proof.
  intros Hwf Hk Hm Hp Hh Hlt. wp_use send_spec; [done..|]. intros sent c1 (Hwf1 & Hf1 & Hs).
  rewrite Hp in Hs. destruct Hs as (b & q' & Hb & Hq' & Hs).
  destruct (holds_det _ _ _ _ _ _ Hb Hq' Hh) as [<- <-].
  rewrite (proj2 (Z.ltb_lt _ _) Hlt) in Hs. destruct Hs as (-> & Hh1 & _ & Hr).
  assert (Hp1 : mailbox_at c1 h = Some p).
  { destruct (has_receiver b); [by rewrite (only_raises_mailbox _ _ _ _ Hr)|].
    unfold mailbox_at. by rewrite Hr. }
  wp_use recv_take_spec; [done|eapply hk_le; [exact Hk|apply Hf1]|].
  intros r c2 (Hwf2 & _ & Ht2 & _ & Hr2). rewrite Hp1 in Hr2. destruct Hr2 as (b1 & q1 & Hb1 & Hq1 & Hr2).
  destruct (holds_det _ _ _ _ _ _ Hb1 Hq1 Hh1) as [<- Hcap].
  wp_steps. split; [done|]. assert (Hp2 : mailbox_at c2 h = Some p) by (unfold mailbox_at; by rewrite Ht2).
  rewrite Hcap in Hr2. destruct q as [|m q]; cbn in *; by destruct Hr2 as [-> ?].
Qed.

(** A message is accepted if and only if the mailbox is open and holds fewer
    messages than its capacity; otherwise nothing changes. *)
Theorem mailbox_send_accepts c h msg :
  wf strict todo cur c → hk c h → Forall (hk c) (msg_handles msg) →
  wp (bio__mailbox_send h msg) (λ sent c', wf strict todo cur c' ∧
    (sent = true ↔ ∃ p cap q, mailbox_at c h = Some p ∧ holds c p cap q ∧ zlen q < cap) ∧
    (sent = false → c' = c)) c.
Proof.
  intros Hwf Hk Hm. eapply wp_mono; [by apply send_spec|]. intros sent c' (Hwf' & _ & Hs).
  split; [done|]. destruct (mailbox_at c h) as [p|]; cycle 1.
  { destruct Hs as [-> ->]. split; [|done]. split; [done|]. by intros (? & ? & ? & [=] & _). }
  destruct Hs as (b & q & Hb & Hq & Hs). destruct (zlen q <? mb_capacity b) eqn:E.
  - destruct Hs as (-> & _). split; [|done]. split; [|done]. intros _.
    exists p, (mb_capacity b), q. split_and!; [done|by exists b|lia].
  - destruct Hs as [-> ->]. split; [|done]. split; [done|].
    intros (p' & cap & q' & [= <-] & Hh & Hlt). destruct (holds_det _ _ _ _ _ _ Hb Hq Hh) as [-> <-]. lia.
Qed.

(** Closing a mailbox invalidates its handle and wakes up the coroutine that waits
    for a message, whose second attempt then finds the mailbox closed. *)
Theorem mailbox_close_wakes_receiver c h p b :
  wf strict todo cur c → hk c h → mailbox_at c h = Some p → mailboxes c !! p = Some b →
  wp (_ ← bio__mailbox_close h; recv_take h) (λ r c', wf strict todo cur c' ∧ r = None ∧
    mailbox_at c' h = None ∧ mailboxes c' = delete p (mailboxes c) ∧
    (has_receiver b = true → lookup_tagged (live (htab c')) (mb_signal b) BIO_SIGNAL_HANDLE = None)) c.
Proof.
  intros Hwf Hk Hp Hb. wp_use mailbox_close_spec; [done..|]. intros [] c1 (Hwf1 & Hf1 & Hd & Hs).
  rewrite Hp in Hs. destruct Hs as (b' & Hb' & Hm1 & Hsig). simplify_eq.
  eapply wp_mono; [apply recv_take_spec; [done|eapply hk_le; [exact Hk|apply Hf1]]|].
  intros r c2 (Hwf2 & _ & _ & _ & Hr). rewrite Hd in Hr. destruct Hr as [-> ->]. by split_and!.
Qed.
End correct.
