(* ===== verification/Protocol.v ===== *)
(** The rely-guarantee protocol of coroutines, as an instance of the program
    logic of [Prog.v], and its rules for the operations of the library. *)
From S2P Require Import Prelude Bits HandleTable TimerHeap Ctx Prog Store Ring Invariant Signal.
From S2P Require Import Timer Coro.

(** The interface of the program: what function [n] of it expects of its argument
    [u] in a state [c]. Others do not invalidate it. *)
Class StablePre (upre : positive → option loc → bio_ctx_t → Prop) : Prop :=
  upre_le : ∀ n u c c', upre n u c → ctx_le c c' → upre n u c'.

Section protocol.
(** [strict]: whether coroutines promise not to wait twice for a signal. *)
Context (strict : Prop) (upre : positive → option loc → bio_ctx_t → Prop) `{!StablePre upre}.

(** The function of a timer object. *)
Definition timer_at (c : bio_ctx_t) (p : loc) : option (positive * option loc) :=
  tm_code <$> timers c !! p.

Definition owns_in (c : bio_ctx_t) (q p : loc) : Prop := owns (coros c) (timers c) q p.

(** The timer objects of [q] stay. *)
Definition timers_stay (q : loc) (c c' : bio_ctx_t) : Prop :=
  ∀ p, owns_in c q p → owns_in c' q p ∧ timer_at c' p = timer_at c p.

(** What the others do to the state, from the point of view of [q]. *)
Record rely (q : loc) (c c' : bio_ctx_t) : Prop := {
  rely_le : ctx_le c c';
  rely_timers : timers_stay q c c';
}.

(** What a new coroutine may count on. *)
Definition start_ok (c : bio_ctx_t) (q : loc) (code : bio_entrypoint_t * option loc) : Prop :=
  match code with
  | (bio_timer_entry_fn, u) => ∃ p n v, u = Some p ∧ owns_in c q p ∧
      timer_at c p = Some (n, v) ∧ upre n v c
  | (bio_service_wrapper_fn, u) => ∃ p d, u = Some p ∧ service_datas c !! p = Some d ∧
      upre (sd_entry d) (Some p) c
  | (user_fn n, u) => upre n u c
  end.

(** What [q] does to the state, from the point of view of the others. With
    [own], it keeps its own timer object, too. *)
Record guar (own : bool) (q : loc) (c c' : bio_ctx_t) : Prop := {
  guar_le : ctx_le c c';
  guar_timers : ∀ q', own = true ∨ q' ≠ q → timers_stay q' c c';
  guar_code : ∀ q', q' ≠ q →
    match coros c !! q' with
    | Some co => co_code <$> coros c' !! q' = Some (co_code co)
    | None => ∀ co', coros c' !! q' = Some co' → start_ok c' q' (co_code co')
    end;
}.

#[export] Instance rely_preorder q : PreOrder (rely q).
Proof.
  split.
  - intros c. split; [reflexivity|]. by intros p.
  - intros c1 c2 c3 [H1 H2] [H3 H4]. split; [by etrans|].
    intros p [Ho Ht]%H2. apply H4 in Ho as [Ho Ht']. split; [done|congruence].
Qed.

Lemma start_ok_rely c c' q code : start_ok c q code → rely q c c' → start_ok c' q code.
Proof.
  intros H [Hle Ht]. destruct code as [[| |n] u]; cbn in *.
  - destruct H as (p & n & v & -> & Ho & Hp & Hu). destruct (Ht _ Ho) as [Ho' Hp'].
    exists p, n, v. split_and!; [done|done|congruence|by eapply upre_le].
  - destruct H as (p & d & -> & Hd & Hu). exists p, d. split_and!; [done| |by eapply upre_le].
    eapply lookup_weaken; [done|apply Hle].
  - by eapply upre_le.
Qed.

Lemma guar_rely own q q' c c' : guar own q c c' → own = true ∨ q' ≠ q → rely q' c c'.
Proof. intros [H1 H2 H3] Hne. split; [done|]. by apply H2. Qed.

Lemma guar_weaken own q c c' : guar true q c c' → guar own q c c'.
Proof. intros [H1 H2 H3]. split; [done| |done]. intros q' _. apply H2. by left. Qed.

#[export] Instance guar_preorder own q : PreOrder (guar own q).
Proof.
  split.
  - intros c. split; [reflexivity|by intros q' _ p|].
    intros q' _. destruct (coros c !! q') eqn:E; [done|]. intros co'. congruence.
  - intros c1 c2 c3 G1 G2. pose proof G1 as [H1 H2 H3]. pose proof G2 as [H4 H5 H6]. split.
    + by etrans.
    + intros q' Hne p [Ho Ht]%(H2 _ Hne). apply (H5 _ Hne) in Ho as [Ho Ht'].
      split; [done|congruence].
    + intros q' Hne. specialize (H3 _ Hne). specialize (H6 _ Hne).
      destruct (coros c1 !! q') as [co1|].
      * destruct (coros c2 !! q') as [co2|]; [|done]. cbn in H3. congruence.
      * intros co3 Hq. destruct (coros c2 !! q') as [co2|]; [|by apply H6].
        assert (co_code co3 = co_code co2) as -> by (rewrite Hq in H6; cbn in H6; congruence).
        eapply start_ok_rely; [by apply H3|]. eapply guar_rely; [done|by right].
Qed.

(** Operations that create no coroutine and free no timer. *)
Lemma calm_stay q c c' : calm c c' → timers_stay q c c'.
Proof.
  intros [_ Hc Ht _ _] p Ho. split; [|apply Ht]. by apply (owns_code (coros c) (coros c') (timers c)).
Qed.

Lemma calm_guar own q c c' : calm c c' → guar own q c c'.
Proof.
  intros H. split; [apply H|intros q' _; by apply calm_stay|].
  intros q' _. pose proof (calm_code _ _ H q') as E. destruct (coros c !! q') as [co|]; [done|].
  intros co' Hq. by rewrite Hq in E.
Qed.

Lemma calm_rely q c c' : calm c c' → rely q c c'.
Proof. intros H. split; [apply H|by apply calm_stay]. Qed.

(** Creating a coroutine. *)
Lemma spawned_guar own q e u c c' :
  spawned e u c c' → (∀ q', coros c !! q' = None → (∀ q1 p, owns_in c q1 p → owns_in c' q1 p) →
    coros c' !! q' ≫= timer_impl_of = timer_impl_of (new_coro e u (mk_coro_options false) BIO_INVALID_HANDLE) →
    start_ok c' q' (e, u)) →
  guar own q c c'.
Proof.
  intros [H1 H2 H3 (q0 & Hq0 & H4) H5 _] Hs.
  assert (Hstay : ∀ q1 p, owns_in c q1 p → owns_in c' q1 p).
  { intros q1 p [Ho Hp]. split.
    - specialize (H4 q1). destruct (decide (q1 = q0)) as [->|]; [by rewrite Hq0 in Ho|].
      destruct (coros c !! q1) as [co|]; [|done]. destruct (coros c' !! q1) as [co'|]; [|done].
      cbn in *. injection H4 as E1 E2. unfold timer_impl_of in *. by rewrite E1, E2.
    - by rewrite <- (fmap_is_Some tm_code), H5, fmap_is_Some. }
  split; [done| |].
  - intros q' _ p Ho. split; [by apply Hstay|apply H5].
  - intros q' _. specialize (H4 q'). destruct (decide (q' = q0)) as [->|Hne].
    + rewrite Hq0. intros co' Hq'. rewrite Hq' in H4. injection H4 as E1 E2.
      replace (co_code co') with (e, u) by (unfold co_code; congruence).
      apply Hs; [done|done|]. rewrite Hq'. cbn. unfold timer_impl_of. cbn. by rewrite E1, E2.
    + destruct (coros c !! q') as [co|]; [done|]. intros co' Hq'. by rewrite Hq' in H4.
Qed.

(** ** Safe programs *)

Definition safe_own (own : bool) {A} (q : loc) : prog A → (A → bio_ctx_t → Prop) → bio_ctx_t → Prop :=
  psafe (inv strict (Some q)) (yielding strict q) (rely q) (guar own q).

(** Code that keeps the timer object of its coroutine. *)
Definition safe {A} := @safe_own true A.

Lemma safe_weaken own {A} q (p : prog A) (P Q : A → bio_ctx_t → Prop) c :
  safe q p P c → (∀ a c', P a c' → Q a c') → safe_own own q p Q c.
Proof. apply psafe_guar. intros c1 c2. apply guar_weaken. Qed.

Lemma safe_ret {A} own q (a : A) (Q : A → bio_ctx_t → Prop) c :
  (∀ c', rely q c c' → Q a c') → safe_own own q (Ret a) Q c.
Proof. done. Qed.

Lemma safe_bind {X A} own q (p : prog X) (k : X → prog A) Q c :
  safe_own own q p (λ x c', safe_own own q (k x) Q c') c → safe_own own q (Bind p k) Q c.
Proof. done. Qed.

Lemma safe_mono {A} q (p : prog A) (P Q : A → bio_ctx_t → Prop) c :
  safe q p P c → (∀ a c', rely q c c' → P a c' → Q a c') → safe q p Q c.
Proof.
  apply psafe_mono; [apply _|done|]. intros c1 c2 Hg. eapply guar_rely; [exact Hg|by left].
Qed.

Lemma safe_rely {A} own q (p : prog A) Q c c' :
  safe_own own q p Q c → rely q c c' → safe_own own q p Q c'.
Proof. apply psafe_le; apply _. Qed.

(** A loop, by an invariant that others do not invalidate. *)
Lemma safe_loop {T A} own q (body : T → prog (T + A)) (s : T) (Inv : T → bio_ctx_t → Prop)
    (Q : A → bio_ctx_t → Prop) c :
  Inv s c → (∀ s c c', Inv s c → rely q c c' → Inv s c') →
  (∀ s c, Inv s c → safe_own own q (body s) (λ r c',
    match r with inl s' => Inv s' c' | inr a => ∀ c3, rely q c' c3 → Q a c3 end) c) →
  safe_own own q (Loop body s) Q c.
Proof. intros H1 H2 H3. exists Inv. by split_and!. Qed.

(** An operation of the library, by its specification. *)
Lemma safe_step {A} q (m : M A) (P Q : A → bio_ctx_t → Prop) c :
  (∀ todo c', rely q c c' → inv strict (Some q) todo c' →
    wp m (kept strict todo (Some q) c' P) c') →
  (∀ a c' c'', rely q c c' → P a c' → rely q c' c'' → Q a c'') →
  safe q (Act m) Q c.
Proof.
  intros H HPQ todo c' Hr Hinv. eapply wp_mono; [by apply H|].
  intros a c'' Hk. split; [by eapply inv_kept|].
  destruct Hk as (Hwf & Hf & HP). split; [apply calm_guar, Hf|].
  intros c3 Hr3. eapply HPQ; [|done|done]. etrans; [exact Hr|]. apply calm_rely, Hf.
Qed.

Lemma safe_act {A} q (m : M A) (P Q : A → bio_ctx_t → Prop) c :
  (∀ todo c', rely q c c' → wf strict todo (Some q) c' → mco_running c' = Some q →
    wp m (kept strict todo (Some q) c' P) c') →
  (∀ a c' c'', rely q c c' → P a c' → rely q c' c'' → Q a c'') →
  safe q (Act m) Q c.
Proof. intros H. apply safe_step. intros todo c' Hr Hinv. apply H; [done|apply Hinv|apply Hinv]. Qed.

(** What an operation that may create coroutines or timers establishes. *)
Record grown (own : bool) (q : loc) (todo : list loc) (c c' : bio_ctx_t) : Prop := {
  gr_wf : wf strict todo (Some q) c';
  gr_guar : guar own q c c';
  gr_mco : mco_running c' = mco_running c;
  gr_running : ∀ q co', coros c' !! q = Some co' → co_state co' = BIO_CORO_RUNNING →
    ∃ co, coros c !! q = Some co ∧ co_state co = BIO_CORO_RUNNING ∧
      co_num_blocking_signals co' = co_num_blocking_signals co;
  gr_debt : daemon_debt c' = daemon_debt c;
}.

Lemma safe_grow {A} own q (m : M A) (P Q : A → bio_ctx_t → Prop) c :
  (∀ todo c', rely q c c' → wf strict todo (Some q) c' → mco_running c' = Some q →
    wp m (λ a c'', grown own q todo c' c'' ∧ P a c'') c') →
  (∀ a c' c'', ctx_le c c' → P a c' → rely q c' c'' → Q a c'') →
  safe_own own q (Act m) Q c.
Proof.
  intros H HPQ todo c' Hr Hinv. eapply wp_mono; [apply H; [done|apply Hinv|apply Hinv]|].
  intros a c'' [[G1 G2 G3 G4 G5] HP]. split; [|split; [done|]].
  - destruct Hinv as [I1 I2 I3 Ir I4]. split; [done|congruence|congruence|by apply (le_idle _ _ (guar_le _ _ _ _ G2))|].
    intros q' co [= <-] Hq. destruct (wf_running _ _ _ _ G1) as (co' & Hq' & Hrun). simplify_eq.
    destruct (G4 _ _ Hq Hrun) as (co' & Hq' & _ & ->). eauto.
  - intros c3 Hr3. eapply HPQ; [|done|done]. etrans; [apply Hr|apply G2].
Qed.

(** [bio_spawn_ex] for the functions of the program. *)
Lemma safe_spawn q clock n u options (Q : bio_handle_t → bio_ctx_t → Prop) c :
  upre n u c → (∀ h c', ctx_le c c' → hk c' h → Q h c') →
  safe q (Act (bio_spawn_ex clock (user_fn n) u options)) Q c.
Proof.
  intros Hu HQ. apply safe_grow with (P := λ h c', hk c' h).
  - intros todo c' Hr Hwf Hq. eapply wp_mono; [by apply (spawn_ex_spec strict todo (Some q))|].
    intros h c'' (Hwf' & Hsp & Hdebt & Hk). split; [|done].
    split; [done| |apply Hsp|apply Hsp|done].
    eapply spawned_guar; [done|]. intros q' _ _ _. cbn.
    eapply upre_le; [exact Hu|]. etrans; [apply Hr|apply Hsp].
  - intros h c' c'' Hle Hk Hr. apply HQ; [etrans; [exact Hle|apply Hr]|].
    eapply hk_le; [exact Hk|apply Hr].
Qed.

(** Operations that only read. *)
Lemma safe_read {A} q (m : M A) (P Q : A → bio_ctx_t → Prop) c :
  (∀ todo c', rely q c c' → wf strict todo (Some q) c' →
    wp m (λ a c'', c'' = c' ∧ P a c') c') →
  (∀ a c' c'', rely q c c' → P a c' → rely q c' c'' → Q a c'') →
  safe q (Act m) Q c.
Proof.
  intros H HPQ. apply safe_act with (P := P); [|done].
  intros todo c' Hr Hwf _. eapply wp_mono; [by eapply H|]. intros a c'' [-> HP].
  by apply kept_same.
Qed.

(** Yielding and waiting. *)
Lemma safe_yield q (Q : unit → bio_ctx_t → Prop) c :
  (∀ c', rely q c c' → Q tt c') → safe q bio_yield Q c.
Proof.
  intros HQ todo c' Hr Hinv. apply wp_ret. split; [by apply inv_yielding|].
  split; [reflexivity|]. intros c3 Hr3. apply HQ. by etrans.
Qed.

Lemma safe_wait q hs wait_all (Q : unit → bio_ctx_t → Prop) c :
  Forall (hk c) hs → (strict → wait_all = true → NoDup hs) →
  (∀ c', rely q c c' → Q tt c') →
  safe q (bio_wait_for_signals hs wait_all) Q c.
Proof.
  intros Hhs Hnd HQ todo c' Hr Hinv.
  assert (Forall (hk c') hs) as Hhs'.
  { eapply Forall_impl; [exact Hhs|]. intros h Hh. eapply hk_le; [exact Hh|apply Hr]. }
  eapply wp_mono; [by apply prepare_wait_spec|].
  intros b c'' [Hb Hcalm]. split; [exact Hb|]. split; [by apply calm_guar|].
  intros c3 Hr3. apply HQ. etrans; [exact Hr|]. etrans; [by apply calm_rely|exact Hr3].
Qed.
End protocol.
