(* ===== verification/TimerCoro.v ===== *)
(** Timers ([src/timer.c], [include/bio/timer.h]): coroutines that call a
    function after some time, once or periodically. *)
From S2P Require Import Prelude Bits HandleTable TimerHeap Ctx Prog Store Ring Invariant Signal.
From S2P Require Import Timer Coro Protocol.

(** ** The code *)

Section code.
(** The clock, and the functions of the program. *)
Context (clock : nat → Z) (user : positive → option loc → prog unit).

(** [bio_current_time_ms] ([src/bio.c]). *)
Definition bio_current_time_ms : M Z := bio_platform_current_time_ms clock.

(** One round of [bio_timer_entry] up to its wait. *)
Definition timer_arm (impl : loc) : M bio_handle_t :=
  signal ← bio_make_signal;
  _ ← update_timer impl (set_tm_wake_signal (λ _, signal));
  t ← deref_timer impl;
  now ← bio_current_time_ms;
  delay ← i64_of (tm_due_time_ms t - now);
  _ ← bio_raise_signal_after (tm_wake_signal t) delay;
  t ← deref_timer impl;
  mret (tm_wake_signal t).

(** What it does when it is woken up. *)
Inductive timer_action := TimerStop | TimerFire (current_time_ms : Z) | TimerAgain.

Definition timer_woken (impl : loc) : M timer_action :=
  current_time_ms ← bio_current_time_ms;
  t ← deref_timer impl;
  if tm_cancelled t then mret TimerStop
  else if current_time_ms >=? tm_due_time_ms t then mret (TimerFire current_time_ms)
  else mret TimerAgain.

(** After the call of its function: whether to stop. *)
Definition timer_fired (impl : loc) (current_time_ms : Z) : M bool :=
  t ← deref_timer impl;
  match tm_type t with
  | BIO_TIMER_ONESHOT => mret true
  | BIO_TIMER_INTERVAL =>
      due ← i64_of (current_time_ms + tm_timeout_ms t);
      _ ← update_timer impl (set_tm_due_time_ms (λ _, due));
      mret false
  end.

Definition timer_end (impl : loc) : M unit :=
  t ← deref_timer impl;
  _ ← close_handle (tm_handle t) BIO_TIMER_HANDLE;
  free_timer impl.

(** [bio_timer_entry]. *)
Definition bio_timer_entry (impl : loc) : prog unit :=
  Loop (λ _ : unit,
    let! signal := Act (timer_arm impl) in
    bio_wait_for_one_signal signal ;;;
    let! action := Act (timer_woken impl) in
    match action with
    | TimerStop => Ret (inr tt)
    | TimerFire now =>
        let! t := Act (deref_timer impl) in
        user (tm_fn t) (tm_userdata t) ;;;
        let! stop := Act (timer_fired impl now) in
        if stop : bool then Ret (inr tt) else Ret (inl tt)
    | TimerAgain => Ret (inl tt)
    end) tt ;;;
  Act (timer_end impl).

(** [bio_create_timer]. *)
Definition bio_create_timer (type : bio_timer_type_t) (timeout_ms : Z) (fn : positive)
    (userdata : option loc) : M bio_handle_t :=
  impl ← bio_malloc;
  now ← bio_current_time_ms;
  due ← i64_of (now + timeout_ms);
  _ ← modify (set_timers <[impl :=
        mk_timer type timeout_ms fn userdata BIO_INVALID_HANDLE due false BIO_INVALID_HANDLE]>);
  handle ← make_handle impl BIO_TIMER_HANDLE;
  _ ← update_timer impl (set_tm_handle (λ _, handle));
  _ ← bio_spawn clock bio_timer_entry_fn (Some impl);
  mret handle.

(** [bio_reset_timer]. *)
Definition bio_reset_timer (timer : bio_handle_t) (timeout_ms : Z) : M unit :=
  impl ← resolve_handle timer BIO_TIMER_HANDLE;
  match impl with
  | Some impl =>
      _ ← update_timer impl (set_tm_timeout_ms (λ _, timeout_ms));
      now ← bio_current_time_ms;
      due ← i64_of (now + timeout_ms);
      update_timer impl (set_tm_due_time_ms (λ _, due))
  | None => mret tt
  end.
End code.

(** [bio_is_timer_pending]. *)
Definition bio_is_timer_pending (timer : bio_handle_t) : M bool :=
  impl ← resolve_handle timer BIO_TIMER_HANDLE;
  mret (bool_decide (impl ≠ None)).

(** [bio_cancel_timer]. *)
Definition bio_cancel_timer (timer : bio_handle_t) : M unit :=
  impl ← resolve_handle timer BIO_TIMER_HANDLE;
  match impl with
  | Some impl =>
      _ ← update_timer impl (set_tm_cancelled (λ _, true));
      t ← deref_timer impl;
      _ ← bio_raise_signal (tm_wake_signal t);
      _ ← close_handle (tm_handle t) BIO_TIMER_HANDLE;
      mret tt
  | None => mret tt
  end.

(** ** Operations on timer objects *)

Section timer.
Context (strict : Prop) (todo : list loc) (cur : option loc).
Implicit Types (c : bio_ctx_t) (x : bio_timer_impl_t).

(** A timer changes, but not its function. *)
Lemma update_timer_wf c p x x' :
  wf strict todo cur c → timers c !! p = Some x → tm_code x' = tm_code x →
  tm_handle x' = tm_handle x → hk c (tm_wake_signal x') →
  wf strict todo cur (set_timers <[p := x']> c) ∧ frame c (set_timers <[p := x']> c).
Proof.
  intros Hwf Hp Hc Hh Hk.
  assert (Hcode : ∀ p', tm_code <$> <[p := x']> (timers c) !! p' = tm_code <$> timers c !! p').
  { intros p'. destruct (decide (p = p')) as [<-|].
    - rewrite lookup_insert_eq, Hp. cbn. by rewrite Hc.
    - by rewrite lookup_insert_ne. }
  split; [|split; [solve_calm|done|eauto|done]].
  destruct Hwf as [? ? [] ? ? ? [? ? Hts ? ? ?] ? ? ? ? ? ? ? ?]. split; cbn; try done; eauto with store.
  - split; cbn; eauto with store.
  - split; try done. apply map_Forall_insert_2; [|done]. split; [done|].
    rewrite Hh. by apply (Hts p).
Qed.

Lemma timer_known c p x :
  wf strict todo cur c → timers c !! p = Some x → hk c (tm_wake_signal x) ∧ hk c (tm_handle x).
Proof. intros Hwf Hp. apply (rf_timer _ _ _ _ _ _ _ (wf_refs _ _ _ _ Hwf) _ _ Hp). Qed.

(** The handle of a timer is closed, the object stays. *)
Lemma close_timer_spec c h :
  wf strict todo cur c → hk c h →
  wp (close_handle h BIO_TIMER_HANDLE) (kept strict todo cur c (λ _ c',
    timers c' = timers c ∧ coros c' = coros c ∧
    (∀ k o, live (htab c') !! k = Some o → live (htab c) !! k = Some o) ∧
    lookup_tagged (live (htab c')) h BIO_TIMER_HANDLE = None)) c.
Proof.
  intros Hwf Hk. wp_use (close_object timers); [apply Hwf|apply Hwf|done|].
  intros r c' (-> & Hc). destruct (lookup_tagged _ h _) as [p|] eqn:El; cycle 1.
  { subst c'. apply kept_same; [done|]. by rewrite El. }
  destruct Hc as (t & x & -> & Ht & Hev & Hl & Hlk & Hx). split_and!; try done.
  - destruct Hwf as [? ? [] ? ? ? Hrefs ? ? ? ? ? ? ? ?]. split; cbn; try done; eauto with store.
    + split; cbn; rewrite Hl; eauto with store.
    + by eapply refs_ok_evolves.
  - solve_frame.
  - intros k o. cbn. rewrite Hl. by intros [? ?]%lookup_delete_Some.
  - cbn. unfold lookup_tagged. by rewrite Hl, lookup_delete_eq.
Qed.

(** A timer object is made, with its handle. *)
Definition with_timer (t : table bio_tag_t loc) (x : bio_timer_impl_t) (c : bio_ctx_t) : bio_ctx_t :=
  set_htab (λ _, t) (set_next_loc Pos.succ (set_timers <[next_loc c := x]> c)).

Lemma with_timer_wf t x h c :
  wf strict todo cur c → HandleTable.wf t → evolves (htab c) t →
  live t = <[h := (BIO_TIMER_HANDLE, Some (next_loc c))]> (live (htab c)) →
  live (htab c) !! h = None → tm_handle x = h → known t h → known t (tm_wake_signal x) →
  wf strict todo cur (with_timer t x c).
Proof.
  intros Hwf Ht Hev Hl Hh Hx Hk1 Hk2.
  destruct Hwf as [? ? [] ? ? ? Hrefs ? ? ? ? ? ? ? [Hinj Hfresh]].
  assert (timers c !! next_loc c = None) as Hn by by eapply so_fresh_None.
  split; cbn; try done.
  - split; cbn; rewrite Hl; eauto with store.
  - destruct (refs_ok_evolves _ _ _ _ _ _ _ _ Hrefs Hev). split; try done.
    apply map_Forall_insert_2; [|done]. by rewrite Hx.
  - by apply stack_ok_succ.
  - apply owns_ok_succ. split; [|done].
    assert (Hold : ∀ q p, owns (coros c) (<[next_loc c := x]> (timers c)) q p → owns (coros c) (timers c) q p).
    { intros q p [Ho Hp]. split; [done|]. apply lookup_insert_is_Some in Hp as [<-|[_ ?]]; [|done].
      apply Hfresh in Ho. lia. }
    intros q q' p H1%Hold H2%Hold. by eapply Hinj.
  - by eapply ext_ok_evolves.
Qed.

Lemma time_kept clock c :
  wf strict todo cur c →
  wp (bio_current_time_ms clock) (kept strict todo cur c (λ r c',
    c' = set_clock_reads S c ∧ r = clock (clock_reads c))) c.
Proof.
  intros Hwf. unfold bio_current_time_ms. wp_use time_spec; [done|].
  intros r c' [-> ->]. split_and!; [by apply set_clock_reads_wf|apply set_clock_reads_frame|done..].
Qed.

Lemma resolve_timer c h :
  wf strict todo cur c → hk c h →
  wp (resolve_handle h BIO_TIMER_HANDLE) (λ r c', c' = c ∧
    r = lookup_tagged (live (htab c)) h BIO_TIMER_HANDLE ∧
    ∀ p, r = Some p → live (htab c) !! h = Some (BIO_TIMER_HANDLE, Some p) ∧
      ∃ x, timers c !! p = Some x ∧ tm_handle x = h) c.
Proof.
  intros Hwf Hk. eapply wp_mono; [eapply (resolve_object timers); [apply Hwf|apply Hwf|done]|].
  intros r c' (-> & Hr & Hp). split_and!; [done..|]. intros p E.
  destruct (Hp p E) as (Hl & x & Hx). split; [done|]. exists x. split; [done|].
  by eapply (ob_timer_back _ (wf_objects _ _ _ _ Hwf)).
Qed.

Lemma is_timer_pending_spec c h :
  wf strict todo cur c → hk c h →
  wp (bio_is_timer_pending h) (λ r c', c' = c ∧
    r = bool_decide (lookup_tagged (live (htab c)) h BIO_TIMER_HANDLE ≠ None)) c.
Proof.
  intros Hwf Hk. unfold bio_is_timer_pending. wp_use resolve_timer; [done..|].
  intros r c' (-> & <- & _). by wp_steps.
Qed.

Lemma reset_timer_spec clock c h timeout :
  wf strict todo cur c → hk c h →
  wp (bio_reset_timer clock h timeout) (kept strict todo cur c (λ _ c',
    match lookup_tagged (live (htab c)) h BIO_TIMER_HANDLE with
    | Some p => ∃ x, timers c !! p = Some x ∧ timers c' = <[p :=
        set_tm_due_time_ms (λ _, clock (clock_reads c) + timeout)
          (set_tm_timeout_ms (λ _, timeout) x)]> (timers c) ∧ timer_heap c' = timer_heap c
    | None => c' = c
    end)) c.
Proof.
  intros Hwf Hk. unfold bio_reset_timer. wp_use resolve_timer; [done..|].
  intros r c' (-> & <- & Hr). destruct r as [p|]; [|wp_steps; by apply kept_same].
  destruct (Hr p eq_refl) as (Hl & x & Hx & Hh). ctx_steps.
  destruct (timer_known _ _ _ Hwf Hx) as [Hk1 Hk2].
  destruct (update_timer_wf c p x (set_tm_timeout_ms (λ _, timeout) x)) as [Hwf1 Hf1]; [done..|].
  wp_use time_kept; [done|]. intros now c2 (Hwf2 & Hf2 & -> & ->). ctx_steps.
  set (x' := set_tm_due_time_ms _ _).
  match goal with |- kept _ _ _ _ _ _ (set_timers <[p := x']> ?c1) =>
    destruct (update_timer_wf c1 p (set_tm_timeout_ms (λ _, timeout) x) x') as [Hwf3 Hf3];
      [done|apply lookup_insert_eq|done..|] end.
  split_and!; [done|by do 2 (etrans; [done|])|]. exists x. split_and!; [done| |done].
  cbn. by rewrite insert_insert_eq.
Qed.

(** Cancelling wakes up the coroutine of the timer, which sees the flag. *)
Lemma cancel_timer_spec c h :
  wf strict todo cur c → hk c h →
  wp (bio_cancel_timer h) (kept strict todo cur c (λ _ c',
    lookup_tagged (live (htab c')) h BIO_TIMER_HANDLE = None ∧
    match lookup_tagged (live (htab c)) h BIO_TIMER_HANDLE with
    | Some p => ∃ x, timers c !! p = Some x ∧
        timers c' = <[p := set_tm_cancelled (λ _, true) x]> (timers c) ∧
        lookup_tagged (live (htab c')) (tm_wake_signal x) BIO_SIGNAL_HANDLE = None
    | None => c' = c
    end)) c.
Proof.
  intros Hwf Hk. unfold bio_cancel_timer. wp_use resolve_timer; [done..|].
  intros r c' (-> & Er & Hr). rewrite <- Er. destruct r as [p|].
  2:{ wp_steps. apply kept_same; [done|]. by rewrite Er. }
  destruct (Hr p eq_refl) as (Hl & x & Hx & Hh). ctx_steps. cbn [tm_wake_signal tm_handle set_tm_cancelled].
  destruct (timer_known _ _ _ Hwf Hx) as [Hk1 Hk2].
  destruct (update_timer_wf c p x (set_tm_cancelled (λ _, true) x)) as [Hwf1 Hf1]; [done..|].
  wp_use raise_signal_full; [done|done|].
  intros b c2 (Hwf2 & Hf2 & Hr2 & _ & _ & _ & Ht2 & _).
  wp_use close_timer_spec; [done|eapply hk_le; [|apply Hf2]; exact Hk2|].
  intros r c3 (Hwf3 & Hf3 & Ht3 & _ & Hsub & Hdead). wp_steps.
  split_and!; [done|by do 2 (etrans; [done|])|by rewrite <- Hh|].
  exists x. split_and!; [done| |].
  - rewrite Ht3, Ht2. reflexivity.
  - pose proof (only_raises_dead _ _ _ (tm_wake_signal x) Hr2 ltac:(by left)) as Hd.
    unfold lookup_tagged in Hd |- *.
    destruct (live (htab c3) !! tm_wake_signal x) as [[tg o]|] eqn:E; [|done].
    apply Hsub in E. by rewrite E in Hd.
Qed.
End timer.

(** ** Timers in the protocol *)

Section protocol.
Context (strict : Prop) (upre : positive → option loc → bio_ctx_t → Prop) `{!StablePre upre}.
Context (clock : nat → Z) (user : positive → option loc → prog unit).

Lemma with_timer_guar q t x c todo cur :
  wf strict todo cur c → evolves (htab c) t → guar upre true q c (with_timer t x c).
Proof.
  intros Hwf Hev.
  assert (timers c !! next_loc c = None) as Hn
    by (eapply so_fresh_None; [apply (wf_objects _ _ _ _ Hwf)|done]).
  split; [cbn; solve_le| |].
  - intros q' _ p [Ho Hp]. assert (p ≠ next_loc c) as Hne by (intros ->; by rewrite Hn in Hp; destruct Hp).
    unfold owns_in, owns, timer_at. cbn. by rewrite lookup_insert_ne.
  - intros q' _. cbn. destruct (coros c !! q') eqn:E; [done|]. intros co'. congruence.
Qed.

Lemma create_timer_spec q todo c type timeout fn ud :
  wf strict todo (Some q) c → upre fn ud c →
  wp (bio_create_timer clock type timeout fn ud) (λ h c',
    grown strict upre true q todo c c' ∧ hk c' h) c.
Proof.
  intros Hwf Hu. unfold bio_create_timer, bio_current_time_ms, bio_platform_current_time_ms. ctx_steps.
  wp_use make_handle_spec; [apply Hwf|].
  intros h c1 (t & -> & Ht & Hev & Hl & Hh & Hk & _). cbn in Ht, Hev, Hl, Hh. ctx_steps.
  match goal with |- context [set_tm_handle _ ?y] => set (x := set_tm_handle (λ _, h) y) end.
  match goal with |- wp _ _ ?c' =>
    replace c' with (with_timer t x (set_clock_reads S c)) by (unfold with_timer; symmetry; ctx_eq) end.
  set (c1 := with_timer t x (set_clock_reads S c)).
  assert (Hwf0 : wf strict todo (Some q) (set_clock_reads S c)) by by apply set_clock_reads_wf.
  assert (Hwf1 : wf strict todo (Some q) c1).
  { eapply with_timer_wf; try done. apply known_invalid. }
  assert (Hfresh : ∀ q', ¬ owns (coros c1) (timers c1) q' (next_loc c)).
  { intros q' [Ho _]. cbn in Ho. apply (ow_fresh _ _ _ (wf_owns _ _ _ _ Hwf)) in Ho. lia. }
  unfold bio_spawn. wp_use (spawn_ex_spec strict todo (Some q)); [done| |].
  { intros p _ [= <-]. split; [cbn; lia|done]. }
  intros hc c2 (Hwf2 & Hsp & Hdebt & _). wp_steps.
  assert (Hx : timer_at c2 (next_loc c) = Some (fn, ud)).
  { unfold timer_at. rewrite (sp_timers _ _ _ _ Hsp). cbn. by rewrite lookup_insert_eq. }
  assert (Hg : guar upre true q c c2).
  { etrans; [by eapply (calm_guar upre true q c), set_clock_reads_frame|].
    etrans; [by eapply with_timer_guar|]. eapply spawned_guar; [exact Hsp|].
    intros q' _ _ Himpl. cbn. exists (next_loc c), fn, ud. split_and!; [done| |done|].
    - split; [exact Himpl|]. unfold timer_at in Hx. by eapply fmap_is_Some; eexists.
    - eapply upre_le; [exact Hu|]. etrans; [|apply Hsp]. cbn. solve_le. }
  split; [|eapply hk_le; [|apply Hsp]; exact Hk].
  split; [done|done|by rewrite (sp_mco _ _ _ _ Hsp)|apply (sp_running _ _ _ _ Hsp)|].
  by rewrite Hdebt.
Qed.

Lemma safe_create_timer q type timeout fn ud (Q : bio_handle_t → bio_ctx_t → Prop) c :
  upre fn ud c → (∀ h c', ctx_le c c' → hk c' h → Q h c') →
  safe strict upre q (Act (bio_create_timer clock type timeout fn ud)) Q c.
Proof.
  intros Hu HQ. apply safe_grow with (P := λ h c', hk c' h).
  - intros todo c' Hr Hwf Hq. apply create_timer_spec; [done|].
    eapply upre_le; [exact Hu|apply Hr].
  - intros h c' c'' Hle Hk Hr. apply HQ; [etrans; [exact Hle|apply Hr]|].
    eapply hk_le; [exact Hk|apply Hr].
Qed.

(** *** The coroutine of a timer *)

(** What it relies on: it owns the object, whose function may be called. *)
Definition serves (q p : loc) (c : bio_ctx_t) : Prop :=
  start_ok upre c q (bio_timer_entry_fn, Some p).

Lemma serves_frame q p c c' : serves q p c → frame c c' → serves q p c'.
Proof. intros H Hf. eapply start_ok_rely; [exact _|exact H|]. apply calm_rely, Hf. Qed.

Lemma serves_rely q p c c' : serves q p c → rely q c c' → serves q p c'.
Proof. intros H Hr. by eapply start_ok_rely. Qed.

Lemma serves_timer q p c : serves q p c → ∃ x, timers c !! p = Some x.
Proof. intros (p' & n & v & [= <-] & [_ [x Hx]] & _). eauto. Qed.

Lemma serves_call q p c x :
  serves q p c → timers c !! p = Some x → upre (tm_fn x) (tm_userdata x) c.
Proof.
  intros (p' & n & v & [= <-] & _ & Hp & Hu) Hx. unfold timer_at in Hp. rewrite Hx in Hp.
  cbn in Hp. by injection Hp as -> ->.
Qed.

Lemma timer_arm_spec q p todo c :
  wf strict todo (Some q) c → serves q p c →
  wp (timer_arm clock p) (kept strict todo (Some q) c (λ h c', hk c' h ∧ serves q p c')) c.
Proof.
  intros Hwf Hs. unfold timer_arm.
  wp_use make_signal_spec; [done|]. intros h c1 (Hwf1 & Hf1 & Hk1 & _).
  pose proof (serves_frame _ _ _ _ Hs Hf1) as Hs1. destruct (serves_timer _ _ _ Hs1) as [x Hx].
  ctx_steps. set (x' := set_tm_wake_signal _ x).
  destruct (timer_known _ _ _ _ _ _ Hwf1 Hx) as [_ Hkx].
  destruct (update_timer_wf strict todo (Some q) c1 p x x') as [Hwf2 Hf2]; [done..|].
  set (c2 := set_timers <[p:=x']> c1) in *.
  wp_use time_kept; [done|]. intros now c3 (Hwf3 & Hf3 & -> & ->). wp_steps.
  wp_use raise_signal_after_spec; [done|exact Hk1|].
  intros [] c4 (Hwf4 & Hf4 & _).
  assert (Hf : frame c1 c4) by (do 2 (etrans; [done|]); done).
  pose proof (serves_frame _ _ _ _ Hs1 Hf) as Hs4. destruct (serves_timer _ _ _ Hs4) as [x4 Hx4].
  ctx_steps. split_and!; [done|by etrans|by eapply timer_known|done].
Qed.

Lemma timer_woken_spec q p todo c :
  wf strict todo (Some q) c → serves q p c →
  wp (timer_woken clock p) (kept strict todo (Some q) c (λ r c', serves q p c' ∧
    ∃ x, timers c !! p = Some x ∧
      r = (if tm_cancelled x then TimerStop
           else if clock (clock_reads c) >=? tm_due_time_ms x
           then TimerFire (clock (clock_reads c)) else TimerAgain))) c.
Proof.
  intros Hwf Hs. unfold timer_woken. destruct (serves_timer _ _ _ Hs) as [x Hx].
  wp_use time_kept; [done|]. intros now c1 (Hwf1 & Hf1 & -> & ->).
  pose proof (serves_frame _ _ _ _ Hs Hf1) as Hs1.
  ctx_steps. destruct (tm_cancelled x) eqn:Ec; [|destruct (_ >=? _) eqn:Ed]; wp_steps;
    (split; [done|]; split; [done|]; split; [done|]; exists x; by rewrite ?Ec, ?Ed).
Qed.

Lemma timer_fired_spec q p todo c now :
  wf strict todo (Some q) c → serves q p c →
  wp (timer_fired p now) (kept strict todo (Some q) c (λ r c', serves q p c' ∧
    ∃ x, timers c !! p = Some x ∧
      match tm_type x with
      | BIO_TIMER_ONESHOT => r = true ∧ c' = c
      | BIO_TIMER_INTERVAL => r = false ∧
          timers c' = <[p := set_tm_due_time_ms (λ _, now + tm_timeout_ms x) x]> (timers c)
      end)) c.
Proof.
  intros Hwf Hs. unfold timer_fired. destruct (serves_timer _ _ _ Hs) as [x Hx].
  ctx_steps. destruct (tm_type x) eqn:Et; ctx_steps.
  - apply kept_same; [done|]. split; [done|]. exists x. by rewrite Et.
  - destruct (timer_known _ _ _ _ _ _ Hwf Hx) as [Hk1 Hk2]. set (x' := set_tm_due_time_ms _ x).
    destruct (update_timer_wf strict todo (Some q) c p x x') as [Hwf1 Hf1]; [done..|].
    split; [done|]. split; [done|]. split; [by eapply serves_frame|]. exists x. by rewrite Et.
Qed.

Lemma timer_end_spec q p todo c :
  wf strict todo (Some q) c → serves q p c →
  wp (timer_end p) (λ _ c', grown strict upre false q todo c c' ∧ timers c' = delete p (timers c)) c.
Proof.
  intros Hwf Hs. unfold timer_end. destruct (serves_timer _ _ _ Hs) as [x Hx]. ctx_steps.
  wp_use close_timer_spec; [done|by eapply timer_known|].
  intros r c1 (Hwf1 & Hf1 & Ht1 & Hc1 & Hsub & Hdead).
  rewrite <- Ht1 in Hx. ctx_steps. rewrite <- Ht1. split; [|done].
  assert (Hgone : ∀ k, live (htab c1) !! k ≠ Some (BIO_TIMER_HANDLE, Some p)).
  { intros k Hk. assert (tm_handle x = k) as <-
      by by eapply (ob_timer_back _ (wf_objects _ _ _ _ Hwf1)).
    apply lookup_tagged_Some in Hk. congruence. }
  assert (Hsame : ∀ q' p', p' ≠ p → owns_in (set_timers (delete p) c1) q' p' ↔ owns_in c1 q' p').
  { intros q' p' Hne. unfold owns_in, owns. cbn. by rewrite lookup_delete_ne. }
  split.
  - destruct Hwf1 as [? ? [] ? ? ? [] ? ? ? ? ? ? ? [Hinj Hfr]]. split; cbn; try done.
    + split; cbn; eauto using store_ok_forget with store.
    + split; try done. by apply map_Forall_delete.
    + split; [|done]. intros q1 q2 p' [H1 H1'] [H2 H2'].
      apply lookup_delete_is_Some in H1' as [_ H1'], H2' as [_ H2']. by eapply (Hinj q1 q2 p').
  - etrans; [apply calm_guar, Hf1|]. split; [cbn; solve_le| |].
    + intros q' [?|Hne] p' Ho; [done|]. assert (p' ≠ p) as Hp.
      { intros ->. apply Hne. eapply (ow_inj _ _ _ (wf_owns _ _ _ _ Hwf1)); [exact Ho|].
        destruct Hs as (p0 & n & v & [= <-] & Ho' & _). apply (calm_stay q c c1); [apply Hf1|done]. }
      split; [by apply Hsame|]. unfold timer_at. cbn. by rewrite lookup_delete_ne.
    + intros q' _. cbn. destruct (coros c1 !! q') eqn:E; [done|]. intros co'. congruence.
  - apply Hf1.
  - apply Hf1.
  - apply (calm_daemons _ _ (frame_calm _ _ Hf1)).
Qed.

(** The coroutine of a timer is safe if the functions of the program are. *)
Lemma safe_timer_entry q p c :
  (∀ n u c, upre n u c → safe strict upre q (user n u) (λ _ _, True) c) →
  serves q p c →
  safe_own strict upre false q (bio_timer_entry clock user p) (λ _ _, True) c.
Proof.
  intros Huser Hs. unfold bio_timer_entry. apply safe_bind.
  eapply (safe_weaken strict upre false q _ (λ _ c', serves q p c')).
  - eapply safe_loop with (Inv := λ _ c', serves q p c'); [exact Hs| |].
    { intros _ c1 c2. apply serves_rely. }
    clear c Hs. intros _ c Hs. apply safe_bind.
    eapply safe_act with (P := λ h c', hk c' h ∧ serves q p c').
    { intros todo c' Hr Hwf _. apply timer_arm_spec; [done|]. by eapply serves_rely. }
    intros h c1 c2 _ [Hk Hs1] Hr. apply safe_bind. apply safe_wait.
    { constructor; [|done]. eapply hk_le; [exact Hk|apply Hr]. }
    { intros _ _. apply NoDup_singleton. }
    intros c3 Hr3. apply safe_bind.
    assert (Hs3 : serves q p c3) by (eapply serves_rely; [|exact Hr3]; by eapply serves_rely).
    eapply safe_act with (P := λ _ c', serves q p c').
    { intros todo c' Hr' Hwf _. eapply wp_mono;
        [apply timer_woken_spec; [done|by eapply serves_rely]|].
      intros a c'' Ha. eapply kept_impl; [exact Ha|]. by intros _ []. }
    intros action d1 d2 _ Ks1 Kr. assert (Ks2 : serves q p d2) by by eapply serves_rely.
    destruct action as [|now|].
    + apply safe_ret. intros d3 Kr3 d4 Kr4. eapply serves_rely; [|exact Kr4]. by eapply serves_rely.
    + apply safe_bind. eapply safe_read with
        (P := λ x c', serves q p c' ∧ upre (tm_fn x) (tm_userdata x) c').
      { intros todo c' Kr' Hwf. assert (Hs' : serves q p c') by by eapply serves_rely.
        destruct (serves_timer _ _ _ Hs') as [x Hx]. eapply wp_deref; [exact Hx|].
        split_and!; [done..|]. by eapply serves_call. }
      intros x d3 d4 _ [Ks3 Hu] Kr4. apply safe_bind.
      assert (Ks4 : serves q p d4) by by eapply serves_rely.
      eapply safe_mono; [apply Huser; eapply upre_le; [exact Hu|apply Kr4]|].
      intros [] d5 Kr5 _. apply safe_bind.
      assert (Ks5 : serves q p d5) by by eapply serves_rely.
      eapply safe_act with (P := λ _ c', serves q p c').
      { intros todo c' Kr' Hwf _. eapply wp_mono;
          [apply timer_fired_spec; [done|by eapply serves_rely]|].
        intros a c'' Ha. eapply kept_impl; [exact Ha|]. by intros _ []. }
      intros stop d6 d7 _ Ks6 Kr7. assert (Ks7 : serves q p d7) by by eapply serves_rely.
      destruct stop; apply safe_ret; intros d8 Kr8;
        [intros d9 Kr9; eapply serves_rely; [|exact Kr9]|]; by eapply serves_rely.
    + apply safe_ret. intros d3 Kr3. by eapply serves_rely.
  - intros _ c' Hs'. eapply safe_grow with (P := λ _ _, True); [|done].
    intros todo c1 Hr Hwf _. eapply wp_mono; [apply timer_end_spec; [done|by eapply serves_rely]|].
    by intros a c2 [Hg _].
Qed.
End protocol.

(** ** When timers call their function *)

Section correct.
Context (strict : Prop) (upre : positive → option loc → bio_ctx_t → Prop) `{!StablePre upre}.


(** An interval timer is armed again from the time at which it was called, a
    one-shot timer ends. *)
Theorem timer_interval_repeats q p todo c now x :
  wf strict todo (Some q) c → serves upre q p c → timers c !! p = Some x →
  wp (timer_fired p now) (λ stop c', wf strict todo (Some q) c' ∧
    match tm_type x with
    | BIO_TIMER_ONESHOT => stop = true ∧ timers c' = timers c
    | BIO_TIMER_INTERVAL => stop = false ∧
        timers c' = <[p := set_tm_due_time_ms (λ _, now + tm_timeout_ms x) x]> (timers c)
    end) c.
Proof.
  intros Hwf Hs Hx. eapply wp_mono; [by eapply timer_fired_spec|].
  intros stop c' (Hwf' & _ & _ & x' & Hx' & Hc). simplify_eq. split; [done|].
  destruct (tm_type x); [by destruct Hc as [-> ->]|done].
Qed.

(** A timer that was cancelled is not pending, its coroutine is woken up, and it
    will find the flag. *)
Theorem cancelled_timer_stops todo cur c h p :
  wf strict todo cur c → hk c h →
  live (htab c) !! h = Some (BIO_TIMER_HANDLE, Some p) →
  wp (_ ← bio_cancel_timer h; bio_is_timer_pending h) (λ r c', wf strict todo cur c' ∧ r = false ∧
    ∃ x, timers c !! p = Some x ∧ timers c' = <[p := set_tm_cancelled (λ _, true) x]> (timers c) ∧
      lookup_tagged (live (htab c')) (tm_wake_signal x) BIO_SIGNAL_HANDLE = None) c.
Proof.
  intros Hwf Hk Hl%lookup_tagged_Some. wp_use cancel_timer_spec; [done..|].
  intros [] c1 (Hwf1 & Hf1 & Hd & Hc). rewrite Hl in Hc. destruct Hc as (x & Hx & Ht & Hs).
  eapply wp_mono; [apply (is_timer_pending_spec strict todo cur); [done|eapply hk_le; [exact Hk|apply Hf1]]|].
  intros r c2 [-> ->]. split; [done|]. rewrite bool_decide_false by by intros ?.
  split; [done|]. by exists x.
Qed.
End correct.
