(* ===== verification/Client.v ===== *)
(** Rules of the protocol for the operations of the library that may suspend
    their caller: [bio_join], receiving messages, sending until it succeeds. *)
From S2P Require Import Prelude Bits HandleTable TimerHeap Ctx Prog Store Ring Invariant Signal.
From S2P Require Import Timer Coro Mailbox Protocol.

Section client.
Context (strict : Prop) (upre : positive → option loc → bio_ctx_t → Prop) `{!StablePre upre}.

Abbreviation safe := (safe strict upre).

Lemma rely_trans q c1 c2 c3 : rely q c1 c2 → rely q c2 c3 → rely q c1 c3.
Proof. by etrans. Qed.

Lemma rely_hk q c c' h : hk c h → rely q c c' → hk c' h.
Proof. intros Hk Hr. eapply hk_le; [exact Hk|apply Hr]. Qed.

Lemma rely_hks q c c' hs : Forall (hk c) hs → rely q c c' → Forall (hk c') hs.
Proof. intros Hk Hr. eapply Forall_impl; [exact Hk|]. intros h Hh. by eapply rely_hk. Qed.

(** Making a signal, raising one, and what [bio_join] does with them. *)
Lemma safe_make_signal q (Q : bio_handle_t → bio_ctx_t → Prop) c :
  (∀ h c', rely q c c' → hk c' h → Q h c') → safe q (Act bio_make_signal) Q c.
Proof.
  intros HQ. eapply safe_act with (P := λ h c', hk c' h).
  - intros todo c' Hr Hwf _. eapply wp_mono; [by apply make_signal_spec|].
    intros h c'' Hk. eapply kept_impl; [exact Hk|]. by intros _ [? _].
  - intros h c' c'' Hr Hk Hr'. apply HQ; [by etrans|]. by eapply rely_hk.
Qed.

(** The new signal is different from all that are known. *)
Lemma safe_make_signal_fresh q (Q : bio_handle_t → bio_ctx_t → Prop) c :
  (∀ h c', rely q c c' → hk c' h → ¬ hk c h → Q h c') → safe q (Act bio_make_signal) Q c.
Proof.
  intros HQ. eapply safe_act with (P := λ h c', hk c' h ∧ ¬ hk c h).
  - intros todo c' Hr Hwf Hq. eapply wp_mono;
      [eapply wp_conj; [by apply make_signal_spec|by apply (make_signal_fresh strict todo (Some q) _ q)]|].
    intros h c'' [Hk Hn]. eapply kept_impl; [exact Hk|]. intros _ [? _]. split; [done|].
    intros Hkn. by apply Hn, (rely_hk q c).
  - intros h c' c'' Hr [Hk Hn] Hr'. apply HQ; [by etrans|by eapply rely_hk|done].
Qed.

Lemma safe_raise_signal q h (Q : bool → bio_ctx_t → Prop) c :
  hk c h → (∀ b c', rely q c c' → Q b c') → safe q (Act (bio_raise_signal h)) Q c.
Proof.
  intros Hk HQ. eapply safe_act with (P := λ _ _, True).
  - intros todo c' Hr Hwf _. eapply wp_mono; [apply raise_signal_spec; [done|by eapply rely_hk]|].
    intros b c'' Hb. eapply kept_impl; [exact Hb|done].
  - intros b c' c'' Hr _ Hr'. apply HQ. by etrans.
Qed.

Lemma safe_check_signal q h (Q : bool → bio_ctx_t → Prop) c :
  hk c h → (∀ b c', rely q c c' → Q b c') → safe q (Act (bio_check_signal h)) Q c.
Proof.
  intros Hk HQ. eapply safe_read with (P := λ _ _, True).
  - intros todo c' Hr Hwf. eapply wp_mono; [eapply check_signal_spec; [exact Hwf|by eapply rely_hk]|].
    by intros b c'' [-> _].
  - intros b c' c'' Hr _ Hr'. apply HQ. by etrans.
Qed.

Lemma safe_monitor q h s (Q : bio_handle_t → bio_ctx_t → Prop) c :
  hk c h → hk c s → (∀ m c', rely q c c' → hk c' m → Q m c') → safe q (Act (bio_monitor h s)) Q c.
Proof.
  intros Hh Hs HQ. eapply safe_act with (P := λ m c', hk c' m).
  - intros todo c' Hr Hwf _. apply monitor_spec; [done|by eapply rely_hk|by eapply rely_hk].
  - intros m c' c'' Hr Hk Hr'. apply HQ; [by etrans|]. by eapply rely_hk.
Qed.

Lemma safe_unmonitor q m (Q : unit → bio_ctx_t → Prop) c :
  hk c m → (∀ c', rely q c c' → Q tt c') → safe q (Act (bio_unmonitor m)) Q c.
Proof.
  intros Hm HQ. eapply safe_act with (P := λ _ _, True).
  - intros todo c' Hr Hwf _. eapply wp_mono; [apply unmonitor_spec; [done|by eapply rely_hk]|].
    intros [] c'' Hk. eapply kept_impl; [exact Hk|done].
  - intros [] c' c'' Hr _ Hr'. apply HQ. by etrans.
Qed.

Lemma safe_coro_state q h (Q : bio_coro_state_t → bio_ctx_t → Prop) c :
  hk c h → (∀ s c', rely q c c' → Q s c') → safe q (Act (bio_coro_state h)) Q c.
Proof.
  intros Hh HQ. eapply safe_read with (P := λ _ _, True).
  - intros todo c' Hr Hwf. eapply wp_mono; [eapply coro_state_spec; [exact Hwf|by eapply rely_hk]|].
    by intros s c'' [-> _].
  - intros s c' c'' Hr _ Hr'. apply HQ. by etrans.
Qed.

Lemma safe_wait_one q h (Q : unit → bio_ctx_t → Prop) c :
  hk c h → (∀ c', rely q c c' → Q tt c') → safe q (bio_wait_for_one_signal h) Q c.
Proof.
  intros Hh HQ. apply safe_wait; [by constructor| |done]. intros _ _. apply NoDup_singleton.
Qed.

Lemma safe_join q h (Q : unit → bio_ctx_t → Prop) c :
  hk c h → (∀ c', rely q c c' → Q tt c') → safe q (bio_join h) Q c.
Proof.
  intros Hh HQ. apply safe_bind, safe_make_signal. intros s c1 Hr1 Hs.
  apply safe_bind, safe_monitor; [by eapply rely_hk|done|]. intros m c2 Hr2 _.
  apply safe_wait_one; [by eapply rely_hk|]. intros c3 Hr3. apply HQ. by do 2 (etrans; [done|]).
Qed.

(** Mailboxes. *)
Lemma safe_send q h msg (Q : bool → bio_ctx_t → Prop) c :
  hk c h → Forall (hk c) (msg_handles msg) → (∀ b c', rely q c c' → Q b c') →
  safe q (Act (bio__mailbox_send h msg)) Q c.
Proof.
  intros Hh Hm HQ. eapply safe_act with (P := λ _ _, True).
  - intros todo c' Hr Hwf _. eapply wp_mono;
      [apply send_spec; [done|by eapply rely_hk|by eapply rely_hks]|].
    intros b c'' Hk. eapply kept_impl; [exact Hk|done].
  - intros b c' c'' Hr _ Hr'. apply HQ. by etrans.
Qed.

Lemma safe_is_open q h (Q : bool → bio_ctx_t → Prop) c :
  hk c h → (∀ b c', rely q c c' → Q b c') → safe q (Act (bio__mailbox_is_open h)) Q c.
Proof.
  intros Hh HQ. eapply safe_read with (P := λ _ _, True).
  - intros todo c' Hr Hwf. eapply wp_mono; [eapply is_open_spec; [exact Hwf|by eapply rely_hk]|].
    by intros s c'' [-> _].
  - intros s c' c'' Hr _ Hr'. apply HQ. by etrans.
Qed.

Lemma safe_close_mailbox q h (Q : unit → bio_ctx_t → Prop) c :
  hk c h → (∀ c', rely q c c' → Q tt c') → safe q (Act (bio__mailbox_close h)) Q c.
Proof.
  intros Hh HQ. eapply safe_act with (P := λ _ _, True).
  - intros todo c' Hr Hwf _. eapply wp_mono; [apply mailbox_close_spec; [done|by eapply rely_hk]|].
    intros [] c'' Hk. eapply kept_impl; [exact Hk|done].
  - intros [] c' c'' Hr _ Hr'. apply HQ. by etrans.
Qed.

Definition msg_ok (c : bio_ctx_t) (r : option message) : Prop :=
  ∀ msg, r = Some msg → Forall (hk c) (msg_handles msg).

Lemma safe_recv_take q h (Q : option message → bio_ctx_t → Prop) c :
  hk c h → (∀ r c', rely q c c' → msg_ok c' r → Q r c') → safe q (Act (recv_take h)) Q c.
Proof.
  intros Hh HQ. eapply safe_act with (P := λ r c', msg_ok c' r).
  - intros todo c' Hr Hwf _. eapply wp_mono; [apply recv_take_spec; [done|by eapply rely_hk]|].
    intros r c'' Hk. eapply kept_impl; [exact Hk|]. by intros _ (_ & Hm & _).
  - intros r c' c'' Hr Hm Hr'. apply HQ; [by etrans|]. intros msg Hmsg. eapply rely_hks; eauto.
Qed.

Lemma safe_recv q h (Q : option message → bio_ctx_t → Prop) c :
  hk c h → (∀ r c', rely q c c' → msg_ok c' r → Q r c') → safe q (bio__mailbox_recv h) Q c.
Proof.
  intros Hh HQ. apply safe_bind. eapply safe_act with
    (P := λ a c', match a with RecvWait s => hk c' s | _ => True end).
  - intros todo c' Hr Hwf _. eapply wp_mono; [apply recv_begin_spec; [done|by eapply rely_hk]|].
    intros a c'' Hk. eapply kept_impl; [exact Hk|]. intros _ [Ha _]. by destruct a.
  - intros a c' c'' Hr Ha Hr'. assert (Hr2 : rely q c c'') by by etrans. destruct a as [|s|].
    + apply safe_ret. intros c3 Hr3. apply HQ; [by etrans|]. by intros msg.
    + apply safe_bind, safe_wait_one; [by eapply rely_hk|]. intros c3 Hr3.
      assert (Hr4 : rely q c c3) by by etrans.
      apply safe_recv_take; [by eapply rely_hk|]. intros r c4 Hr5. apply HQ. by etrans.
    + apply safe_recv_take; [by eapply rely_hk|]. intros r c4 Hr5. apply HQ. by etrans.
Qed.

(** A condition that others do not invalidate. *)
Definition stable (q : loc) (P : bio_ctx_t → Prop) : Prop :=
  ∀ c c', P c → rely q c c' → P c'.

(** [bio_foreach_message]: the body is run on every message. *)
Lemma safe_foreach q h body (Inv : bio_ctx_t → Prop) (Q : unit → bio_ctx_t → Prop) c :
  hk c h → Inv c → stable q Inv →
  (∀ msg c', Inv c' → Forall (hk c') (msg_handles msg) →
    safe q (body msg) (λ _ c'', Inv c'') c') →
  (∀ c', Inv c' → Q tt c') →
  safe q (bio_foreach_message h body) Q c.
Proof.
  intros Hh Hi Hst Hbody HQ.
  eapply safe_loop with (Inv := λ _ c', hk c' h ∧ Inv c'); [done| |].
  { intros _ c1 c2 [Hk Hi1] Hr. split; [by eapply rely_hk|by eapply Hst]. }
  intros _ c1 [Hk Hi1]. apply safe_bind, safe_recv; [done|]. intros r c2 Hr2 Hm.
  destruct r as [msg|].
  - apply safe_bind. eapply safe_mono.
    { apply Hbody; [by eapply Hst|by apply Hm]. }
    intros stop c3 Hr3 Hi3. assert (Hr4 : rely q c1 c3) by by etrans.
    destruct stop; apply safe_ret; intros c4 Hr5.
    + intros c5 Hr6. apply HQ. eapply Hst; [|exact Hr6]. by eapply Hst.
    + split; [|by eapply Hst]. eapply rely_hk; [|exact Hr5]. by eapply rely_hk.
  - apply safe_ret. intros c3 Hr3 c4 Hr4. apply HQ. eapply Hst; [|exact Hr4].
    eapply Hst; [|exact Hr3]. by eapply Hst.
Qed.

(** [bio_wait_and_send_message]. *)
Lemma safe_wait_and_send q condition h msg (Q : unit → bio_ctx_t → Prop) c :
  (∀ todo c', wf strict todo (Some q) c' → mco_running c' = Some q → ctx_le c c' →
    wp condition (kept strict todo (Some q) c' (λ _ _, True)) c') →
  hk c h → Forall (hk c) (msg_handles msg) → (∀ c', rely q c c' → Q tt c') →
  safe q (bio_wait_and_send_message condition h msg) Q c.
Proof.
  intros Hcond Hh Hm HQ.
  eapply safe_loop with (Inv := λ _ c', rely q c c'); [reflexivity|by intros; etrans|].
  intros _ c1 Hr1. apply safe_bind. eapply safe_act with (P := λ _ _, True).
  { intros todo c' Hr Hwf Hq. assert (Hr' : rely q c c') by by etrans.
    wp_use is_open_spec; [exact Hwf|by eapply rely_hk|]. intros b c'' [-> _].
    destruct b; [apply Hcond; [done|done|apply Hr']|]. wp_steps. by apply kept_same. }
  intros b c2 c3 Hr2 _ Hr3. assert (Hr4 : rely q c c3) by by do 2 (etrans; [done|]).
  destruct b; [|apply safe_ret; intros c4 Hr5 c5 Hr6; apply HQ; by do 2 (etrans; [done|])].
  apply safe_bind, safe_send; [by eapply rely_hk|by eapply rely_hks|].
  intros sent c4 Hr5. destruct sent.
  - apply safe_ret. intros c5 Hr6 c6 Hr7. apply HQ. etrans; [exact Hr4|]. etrans; [exact Hr5|]. by etrans.
  - apply safe_bind, safe_yield; [done|]. intros c5 Hr6. apply safe_ret. intros c6 Hr7.
    etrans; [exact Hr4|]. etrans; [exact Hr5|]. by etrans.
Qed.
End client.
