(* ===== verification/Thread.v ===== *)
(** Asynchronous jobs ([src/thread.c]): what the main thread does with the thread pool.

    The pool is a part of the global state; before every access of the main thread to a
    queue, the workers take any number of steps ([schedule]). *)
From S2P Require Import Prelude Bits HandleTable Pool Uring TimerHeap Ctx Prog Store Ring Invariant.
From S2P Require Import Signal Timer Coro Mailbox Protocol Client.

(** ** The code *)

Definition BIO_DEFAULT_THREAD_POOL_SIZE : Z := 2.
Definition BIO_DEFAULT_THREAD_POOL_QUEUE_SIZE : Z := 2.

(** A computation on the thread pool. *)
Definition on_pool {A} (m : st bio_pool_t A) : M A := zoom thread_pool (λ p, set_thread_pool (λ _, p)) m.

Section code.
Context (schedule : nat → list nat).

(** [bio_thread_init], with the options of the thread pool. *)
Definition new_worker : bio_worker_thread_t := mk_worker WIdle [] [] 0 [].

Definition bio_thread_init (num_threads queue_size : Z) : M unit :=
  let num_threads := if num_threads <=? 0 then BIO_DEFAULT_THREAD_POOL_SIZE else num_threads in
  let queue_size := if queue_size <=? 0 then BIO_DEFAULT_THREAD_POOL_QUEUE_SIZE else queue_size in
  let queue_size := to_int (bio_next_pow2 (u32 queue_size)) in
  _ ← int_of (queue_size * 2);
  _ ← on_pool (modify (set_pl_queue_size (λ _, queue_size)));
  _ ← on_pool (modify (set_pl_workers (λ _, replicate (Z.to_nat num_threads) new_worker)));
  on_pool (modify (set_pl_num_running (λ _, 0))).

(** [bio_thread_drain_responses]. Every round takes a message that the worker had. *)
Fixpoint drain_responses (fuel i : nat) : M unit :=
  match fuel with
  | O => fail OutOfFuel
  | S fuel =>
      r ← on_pool (consume_response schedule i);
      match r with
      | None => mret tt
      | Some msg =>
          m ← on_pool (deref_msg msg);
          _ ← match wm_type m with
              | BIO_WORKER_MSG_RUN => _ ← bio_raise_signal (wm_signal m); on_pool (count_down i msg)
              | _ => mret tt
              end;
          _ ← on_pool (free_msg i msg);
          drain_responses fuel i
      end
  end.

Definition bio_thread_drain_responses (i : nat) : M unit :=
  w ← on_pool (get_worker i);
  drain_responses (S (length (inflight w))) i.

(** The loop of [bio_thread_update], over [n] workers from [i] on. *)
Fixpoint update_workers (n i : nat) : M unit :=
  match n with
  | O => mret tt
  | S n => _ ← bio_thread_drain_responses i; update_workers n (S i)
  end.

Definition bio_thread_update : M unit :=
  c ← get;
  update_workers (length (pl_workers (thread_pool c))) 0.

(** The inner loop of [bio_run_async]: the least busy worker. *)
Fixpoint choose_worker (n i : nat) (min_load chosen : Z) : M Z :=
  match n with
  | O => mret chosen
  | S n =>
      _ ← bio_thread_drain_responses i;
      w ← on_pool (get_worker i);
      let load := wk_load w in
      if load <? min_load then choose_worker n (S i) load (Z.of_nat i)
      else choose_worker n (S i) min_load chosen
  end.

(** One round of [bio_run_async]: whether the message was sent. *)
Definition try_run_async (msg : bio_worker_msg_t) : M bool :=
  c ← get;
  chosen ← choose_worker (length (pl_workers (thread_pool c))) 0 UINT_MAX (-1);
  if chosen <? 0 then fail OutOfBounds
  else on_pool (send_request schedule (Z.to_nat chosen) msg).

(** [bio_run_async]. The message is a block that no other thread knows before it is
    sent: its contents are a value until then. *)
Definition bio_run_async (task : positive) (userdata : option positive) (signal : bio_handle_t) : prog unit :=
  let msg := mk_worker_msg BIO_WORKER_MSG_RUN true task userdata signal in
  Loop (λ _ : unit,
    let! message_sent := Act (try_run_async msg) in
    if message_sent : bool then Ret (inr tt) else bio_yield ;;; Ret (inl tt)) tt.

(** [bio_num_running_async_jobs]. *)
Definition bio_num_running_async_jobs : M Z := c ← get; mret (pl_num_running (thread_pool c)).
End code.

(** ** Behaviour *)

Section thread.
Context (schedule : nat → list nat) (strict : Prop) (todo : list loc) (cur : option loc).
Implicit Types (c : bio_ctx_t) (p : bio_pool_t).

Abbreviation runs c := (pool_runs (known (htab c)) (thread_pool c)).

Lemma wf_pool c : wf strict todo cur c → (0 < num_workers c)%nat → runs c.
Proof.
  intros Hwf Hn. destruct (ex_pool _ _ _ (wf_ext _ _ _ _ Hwf)) as [E|]; [|done].
  unfold num_workers in Hn. rewrite E in Hn. cbn in Hn. lia.
Qed.

Lemma wp_on_pool {A} (m : st bio_pool_t A) (Q : A → bio_ctx_t → Prop) c :
  wp m (λ a p, Q a (set_thread_pool (λ _, p) c)) (thread_pool c) → wp (on_pool m) Q c.
Proof. apply (wp_zoom thread_pool (λ p, set_thread_pool (λ _, p))). Qed.

(** The pool changes, and nothing else. *)
Lemma set_pool_wf c p :
  wf strict todo cur c → pool_ok (known (htab c)) p → wf strict todo cur (set_thread_pool (λ _, p) c).
Proof. intros [] Hp. split; try done; [by destruct wf_objects|]. split; [exact Hp|apply wf_ext]. Qed.

Lemma set_pool_frame c p :
  (num_workers c ≤ length (pl_workers p))%nat → frame c (set_thread_pool (λ _, p) c).
Proof. intros Hn. split; [split; try done; by split|done|eauto|done]. Qed.

Lemma on_pool_kept {A} (m : st bio_pool_t A) (P : A → bio_pool_t → Prop) c :
  wf strict todo cur c →
  wp m (λ a p, pool_runs (known (htab c)) p ∧ length (pl_workers p) = num_workers c ∧ P a p) (thread_pool c) →
  wp (on_pool m) (kept strict todo cur c (λ a c', c' = set_thread_pool (λ _, thread_pool c') c ∧
    P a (thread_pool c'))) c.
Proof.
  intros Hwf H. apply wp_on_pool. eapply wp_mono; [exact H|]. intros a p (Hok & Hl & HP). split_and!.
  - apply set_pool_wf; [done|by right].
  - apply set_pool_frame. lia.
  - done.
  - done.
Qed.

(** Raising a signal has nothing to do with the pool. *)
Lemma raise_keeps_pool c h :
  wf strict todo cur c → hk c h →
  wp (bio_raise_signal h) (kept strict todo cur c (λ _ c', thread_pool c' = thread_pool c ∧
    live (htab c') ⊆ live (htab c) ∧ lookup_tagged (live (htab c')) h BIO_SIGNAL_HANDLE = None)) c.
Proof.
  intros Hwf Hk. eapply wp_mono; [eapply wp_conj; [by eapply raise_run|by apply raise_signal_spec]|].
  intros r c' [Hr (Hwf' & Hf & Hd)]. split_and!; [done|done| | |].
  - destruct (lookup_tagged _ h _); [|by destruct Hr as [-> _]].
    by destruct Hr as (s & co & t & _ & -> & _).
  - destruct (lookup_tagged _ h _); [|by destruct Hr as [-> _]].
    destruct Hr as (s & co & t & _ & -> & _ & _ & _ & Hl). cbn. rewrite Hl. apply delete_subseteq.
  - apply eq_None_not_Some. intros [p Hp%lookup_tagged_Some].
    destruct Hd as [E|(tg & o & E & Ht)]; pose proof (eq_trans (eq_sym E) Hp) as E'; [done|]. by injection E' as ->.
Qed.
(** *** Draining the responses of a worker *)

(** A response that waits in the queue of worker [i]. *)
Definition responded p (i : nat) (m : positive) : Prop :=
  ∃ w, pl_workers p !! i = Some w ∧ m ∈ wk_responses w.

Definition signal_raised c (h : bio_handle_t) : Prop :=
  lookup_tagged (live (htab c)) h BIO_SIGNAL_HANDLE = None.

(** The jobs [l] were reported. *)
Record drained c (l : list positive) c' : Prop := {
  dr_live : live (htab c') ⊆ live (htab c);
  dr_reported : pl_reported (thread_pool c') = pl_reported (thread_pool c) ++ l;
  dr_submitted : pl_submitted (thread_pool c') = pl_submitted (thread_pool c);
  dr_size : pl_queue_size (thread_pool c') = pl_queue_size (thread_pool c);
  dr_workers : num_workers c' = num_workers c;
  dr_msgs : pl_msgs (thread_pool c') ⊆ pl_msgs (thread_pool c);
  dr_signals : ∀ m, m ∈ l → ∃ x, pl_msgs (thread_pool c) !! m = Some x ∧ signal_raised c' (wm_signal x);
  dr_responses : ∀ i m, responded (thread_pool c) i m → m ∈ l ∨ responded (thread_pool c') i m;
}.

Lemma signal_raised_live c c' h : signal_raised c h → live (htab c') ⊆ live (htab c) → signal_raised c' h.
Proof.
  unfold signal_raised. intros H Hs. apply eq_None_not_Some. intros [p Hp%lookup_tagged_Some].
  assert (lookup_tagged (live (htab c)) h BIO_SIGNAL_HANDLE = Some p); [|congruence].
  apply lookup_tagged_Some. eapply lookup_weaken; [exact Hp|exact Hs].
Qed.

Lemma drained_trans c1 l1 c2 l2 c3 : drained c1 l1 c2 → drained c2 l2 c3 → drained c1 (l1 ++ l2) c3.
Proof.
  intros [] []. split; try congruence.
  - by etrans.
  - by rewrite dr_reported1, dr_reported0, app_assoc.
  - by etrans.
  - intros m [Hm|Hm]%elem_of_app.
    + destruct (dr_signals0 _ Hm) as (x & Hx & Hr). exists x. split; [done|].
      by eapply signal_raised_live.
    + destruct (dr_signals1 _ Hm) as (x & Hx & Hr). exists x. split; [|done].
      by eapply lookup_weaken.
  - intros i m Hm. rewrite elem_of_app. destruct (dr_responses0 _ _ Hm) as [?|Hm']; [by left; left|].
    destruct (dr_responses1 _ _ Hm'); auto.
Qed.

(** The workers alone report nothing. *)
Lemma drained_worked c p1 : worked (thread_pool c) p1 → drained c [] (set_thread_pool (λ _, p1) c).
Proof.
  intros Hw. split; cbn; try done.
  - by rewrite (wd_reported _ _ Hw), app_nil_r.
  - apply Hw.
  - apply Hw.
  - by apply worked_length.
  - by rewrite (wd_msgs _ _ Hw).
  - intros m Hm. by apply not_elem_of_nil in Hm.
  - intros i m (w & Hi & Hm). right. destruct (wd_requests _ _ Hw _ _ Hi) as (w' & Hi' & _ & [k Hk] & _).
    exists w'. split; [done|]. rewrite Hk. set_solver.
Qed.

(** One job is reported: the response is taken, its signal is raised, the job is counted
    off. *)
Lemma drained_one c i msg l w p1 c2 x :
  worked (thread_pool c) p1 → pl_workers p1 !! i = Some w → wk_responses w = msg :: l →
  pl_msgs p1 !! msg = Some x → live (htab c2) ⊆ live (htab c) → signal_raised c2 (wm_signal x) →
  thread_pool c2 = taken i msg l w p1 →
  drained c [msg] (set_thread_pool (λ _, reported i msg
    (set_wk_taken (wk_taken w ++ [msg]) (set_wk_responses l w)) (thread_pool c2)) c2).
Proof.
  intros Hw Hi Hl Hx Hlive Hsig Hp. destruct (drained_worked c p1 Hw) as [_ H2 H3 H4 H5 H6 _ H8]. cbn in *.
  rewrite app_nil_r in H2. split; rewrite ?Hp; cbn.
  - done.
  - by rewrite H2.
  - done.
  - done.
  - unfold num_workers in *. cbn in *. by rewrite !length_insert.
  - etrans; [apply delete_subseteq|done].
  - intros m ->%list_elem_of_singleton. exists x. split; [|done]. by eapply lookup_weaken.
  - intros j m Hm. destruct (H8 _ _ Hm) as [[]%not_elem_of_nil|(w' & Hj & Hm')].
    rewrite list_elem_of_singleton. destruct (decide (j = i)) as [->|Hne].
    + simplify_eq. rewrite Hl in Hm'. apply elem_of_cons in Hm' as [->|Hm']; [by left|right].
      unfold responded. cbn. rewrite list_lookup_insert_eq by (rewrite length_insert; by eapply lookup_lt_Some).
      eexists. split; [reflexivity|exact Hm'].
    + right. exists w'. split; [|done]. cbn. by rewrite !list_lookup_insert_ne.
Qed.

(** The main thread reports a job that it has taken from the queue. *)
Lemma report_spec i msg w x c :
  wf strict todo cur c → runs c → pl_workers (thread_pool c) !! i = Some w → msg ∈ wk_taken w →
  pl_msgs (thread_pool c) !! msg = Some x →
  wp (_ ← (_ ← bio_raise_signal (wm_signal x); on_pool (count_down i msg)); on_pool (free_msg i msg))
    (λ _ c', wf strict todo cur c' ∧ frame c c' ∧ ∃ c2, thread_pool c2 = thread_pool c ∧
      live (htab c2) ⊆ live (htab c) ∧ signal_raised c2 (wm_signal x) ∧
      c' = set_thread_pool (λ _, reported i msg w (thread_pool c2)) c2) c.
Proof.
  intros Hwf Hok Hi Hmsg Hx. destruct (pk_jobs _ _ Hok _ _ Hx) as (_ & _ & Hk). do 2 apply wp_bind.
  eapply wp_mono; [by apply raise_keeps_pool|]. intros b c2 (Hwf2 & Hf2 & Hp2 & Hl2 & Hs2).
  assert (Hn : (0 < num_workers c)%nat) by (apply lookup_lt_Some in Hi; unfold num_workers; lia).
  assert (Hok2 : runs c2) by (apply wf_pool; [done|unfold num_workers in *; by rewrite Hp2]).
  rewrite <- Hp2 in Hi. destruct (reported_runs _ _ _ _ _ Hok2 Hi Hmsg) as [Hok3 _].
  apply wp_on_pool. eapply wp_mono; [by eapply wp_bind_inv, finish_response_spec|]. intros [] p Hfree.
  apply wp_on_pool. eapply wp_mono; [exact Hfree|]. intros [] p' ->.
  replace (set_thread_pool _ (set_thread_pool _ c2))
    with (set_thread_pool (λ _, reported i msg w (thread_pool c2)) c2) by ctx_eq.
  split_and!.
  - apply set_pool_wf; [done|by right].
  - etrans; [exact Hf2|]. apply set_pool_frame. cbn. by rewrite length_insert.
  - by exists c2.
Qed.

(** The load of a worker is what it has not reported. *)
Definition load_of c (i : nat) : option Z := wk_load <$> pl_workers (thread_pool c) !! i.

(** What is left to do for a worker decides the fuel. *)
Lemma drain_responses_spec fuel i w c :
  wf strict todo cur c → (0 < num_workers c)%nat → pl_workers (thread_pool c) !! i = Some w →
  wk_load w < Z.of_nat fuel →
  wp (drain_responses schedule fuel i) (kept strict todo cur c (λ _ c', (∃ l, drained c l c' ∧
    ∀ m, responded (thread_pool c) i m → m ∈ l) ∧ ∀ j, j ≠ i → load_of c' j = load_of c j)) c.
Proof.
  revert w c. induction fuel as [|fuel IH]; intros w c Hwf Hn Hi Hf.
  { pose proof (wf_pool _ Hwf Hn) as Hok.
    rewrite (wo_load _ _ (in_workers _ _ _ _ Hok Hi)) in Hf. pose proof (zlen_nonneg (inflight w)). lia. }
  pose proof (wf_pool _ Hwf Hn) as Hok. cbn [drain_responses]. wp_step. apply wp_on_pool.
  eapply wp_mono; [apply consume_response_spec; [exact Hok|by eapply lookup_lt_Some]|].
  intros r p [Hok' (p1 & w1 & Hw1 & Hok1 & Hi1 & Hr)].
  destruct (worked_lookup _ _ _ _ Hw1 Hi) as (w1' & E & Hload). simplify_eq.
  destruct r as [msg|]; cycle 1.
  { destruct Hr as [Hr ->]. wp_steps. split_and!.
    - apply set_pool_wf; [done|by right].
    - apply set_pool_frame. by rewrite (worked_length _ _ Hw1).
    - exists []. split; [by apply drained_worked|]. intros m (w' & Hi' & Hm). simplify_eq.
      destruct (wd_requests _ _ Hw1 _ _ Hi) as (w2 & E2 & _ & [k Hk] & _). simplify_eq.
      rewrite Hr in Hk. destruct (wk_responses w); [by apply not_elem_of_nil in Hm|done].
    - intros j _. unfold load_of. cbn. by rewrite <- !list_lookup_fmap, (wd_load _ _ Hw1). }
  destruct Hr as (l & Hl & ->). set (w2 := set_wk_taken (wk_taken w1 ++ [msg]) (set_wk_responses l w1)).
  assert (Hi2 : pl_workers (taken i msg l w1 p1) !! i = Some w2).
  { cbn. apply list_lookup_insert_eq. by eapply lookup_lt_Some. }
  assert (Hmsg : msg ∈ wk_taken w2) by (cbn; set_solver).
  destruct (held_msg _ _ _ _ msg Hok' Hi2) as (x & Hx & Ht).
  { unfold inflight, finished. set_solver. }
  destruct (pk_jobs _ _ Hok' _ _ Hx) as (_ & _ & Hk). set (p2 := taken i msg l w1 p1) in *.
  set (c1 := set_thread_pool (λ _, p2) c).
  assert (Hwf1 : wf strict todo cur c1) by (apply set_pool_wf; [done|by right]).
  assert (Hf1 : frame c c1).
  { apply set_pool_frame. unfold p2, taken. cbn. by rewrite length_insert, (worked_length _ _ Hw1). }
  wp_step. apply wp_on_pool. eapply deref_msg_spec; [done|]. rewrite Ht.
  replace (set_thread_pool _ c1) with c1 by (unfold c1; ctx_eq).
  assert (Hok1' : runs c1) by exact Hok'.
  pose proof (report_spec i msg w2 x c1 Hwf1 Hok1' Hi2 Hmsg Hx) as Hrep.
  apply wp_bind_inv in Hrep. apply wp_bind. eapply wp_mono; [exact Hrep|]. cbn beta.
  intros [] c2 Hrep'. apply wp_bind. eapply wp_mono; [exact Hrep'|]. cbn beta. clear Hrep Hrep'.
  intros [] c3 (Hwf3 & Hf3 & c2' & Hp2 & Hl2 & Hs2 & ->). cbn in Hl2.
  assert (Hdr : drained c [msg] (set_thread_pool (λ _, reported i msg w2 (thread_pool c2')) c2')).
  { by eapply drained_one. }
  set (c4 := set_thread_pool _ c2') in *.
  assert (Hf4 : frame c c4) by by etrans.
  eapply wp_mono; [apply (IH (set_wk_taken (filter (λ m, m ≠ msg) (wk_taken w2)) (set_wk_load (wk_load w2 - 1) w2)));
    [done| | |]|].
  - by rewrite (dr_workers _ _ _ Hdr).
  - unfold c4. cbn. rewrite Hp2. apply list_lookup_insert_eq. by eapply lookup_lt_Some.
  - cbn. lia.
  - intros [] c5 (Hwf5 & Hf5 & (l' & Hd5 & Hall) & Hloads). split_and!; [done|by etrans| |].
    { exists (msg :: l'). split; [by eapply (drained_trans c [msg])|]. intros m Hm.
      destruct (dr_responses _ _ _ Hdr _ _ Hm) as [->%list_elem_of_singleton|Hm']; [by left|right; auto]. }
    intros j Hj. rewrite Hloads by done. unfold load_of, c4. cbn. rewrite Hp2. cbn.
    rewrite !list_lookup_insert_ne by done. by rewrite <- !list_lookup_fmap, (wd_load _ _ Hw1).
Qed.
Lemma thread_drain_spec i c :
  wf strict todo cur c → (i < num_workers c)%nat →
  wp (bio_thread_drain_responses schedule i) (kept strict todo cur c (λ _ c', (∃ l, drained c l c' ∧
    ∀ m, responded (thread_pool c) i m → m ∈ l) ∧ ∀ j, j ≠ i → load_of c' j = load_of c j)) c.
Proof.
  intros Hwf Hi. assert (Hn : (0 < num_workers c)%nat) by lia. apply lookup_lt_is_Some in Hi as [w Hi].
  unfold bio_thread_drain_responses. wp_step. apply wp_on_pool. eapply get_worker_spec; [done|].
  replace (set_thread_pool _ c) with c by ctx_eq. eapply drain_responses_spec; [done..|].
  rewrite (wo_load _ _ (in_workers _ _ _ _ (wf_pool _ Hwf Hn) Hi)). unfold zlen. lia.
Qed.

Lemma drained_refl c : drained c [] c.
Proof. replace c with (set_thread_pool (λ _, thread_pool c) c) at 2 by ctx_eq. by apply drained_worked. Qed.

(** *** Updating all workers *)

Lemma update_workers_spec n i c :
  wf strict todo cur c → (i + n ≤ num_workers c)%nat →
  wp (update_workers schedule n i) (kept strict todo cur c (λ _ c', ∃ l, drained c l c' ∧
    ∀ j m, (i ≤ j < i + n)%nat → responded (thread_pool c) j m → m ∈ l)) c.
Proof.
  revert i c. induction n as [|n IH]; intros i c Hwf Hn; cbn [update_workers].
  { wp_steps. apply kept_same; [done|]. exists []. split; [apply drained_refl|]. lia. }
  wp_use thread_drain_spec; [done|lia|]. intros [] c1 (Hwf1 & Hf1 & (l1 & Hd1 & H1) & _).
  eapply wp_mono; [apply IH; [done|rewrite (dr_workers _ _ _ Hd1); lia]|].
  intros [] c2 (Hwf2 & Hf2 & l2 & Hd2 & H2). split_and!; [done|by etrans|].
  exists (l1 ++ l2). split; [by eapply drained_trans|]. intros j m Hj Hm. apply elem_of_app.
  destruct (decide (j = i)) as [->|Hne]; [left; auto|].
  destruct (dr_responses _ _ _ Hd1 _ _ Hm) as [?|Hm']; [by left|right]. apply (H2 j); [lia|done].
Qed.

Lemma thread_update_spec c :
  wf strict todo cur c →
  wp (bio_thread_update schedule) (kept strict todo cur c (λ _ c', ∃ l, drained c l c' ∧
    ∀ j m, responded (thread_pool c) j m → m ∈ l)) c.
Proof.
  intros Hwf. unfold bio_thread_update. wp_steps. eapply wp_mono; [apply update_workers_spec; [done|done]|].
  intros [] c' (Hwf' & Hf & l & Hd & Hl). split_and!; [done..|]. exists l. split; [done|].
  intros j m Hm. apply (Hl j); [|done]. destruct Hm as (w & Hj%lookup_lt_Some & _). lia.
Qed.

(** *** Sending a job *)

Lemma load_bound c i x : wf strict todo cur c → load_of c i = Some x → 0 ≤ x < UINT_MAX.
Proof.
  unfold load_of. intros Hwf (w & Hw & ->)%fmap_Some.
  assert (Hok : runs c) by (apply wf_pool; [done|apply lookup_lt_Some in Hw; unfold num_workers; lia]).
  pose proof (inflight_bound _ _ _ _ Hok Hw) as Hb. pose proof (pk_int _ _ Hok) as Hm.
  rewrite (wo_load _ _ (in_workers _ _ _ _ Hok Hw)). pose proof (zlen_nonneg (inflight w)).
  unfold UINT_MAX, INT_MAX in *. lia.
Qed.
(** The least busy of the workers from [i] on, and of the one chosen before. *)
Definition least c (min chosen : Z) (n : nat) : Prop :=
  (chosen = -1 ∧ min = UINT_MAX ∧ n = O ∨ 0 ≤ chosen < Z.of_nat n ∧ load_of c (Z.to_nat chosen) = Some min) ∧
  ∀ j x, (j < n)%nat → load_of c j = Some x → min ≤ x.

Lemma choose_worker_spec n i min chosen c :
  wf strict todo cur c → (i + n = num_workers c)%nat → least c min chosen i →
  wp (choose_worker schedule n i min chosen) (kept strict todo cur c (λ r c', (∃ l, drained c l c') ∧
    ∃ m, least c' m r (num_workers c'))) c.
Proof.
  revert i min chosen c. induction n as [|n IH]; intros i min chosen c Hwf Hn Hle; cbn [choose_worker].
  { wp_steps. apply kept_same; [done|]. split; [exists []; apply drained_refl|]. exists min.
    by replace (num_workers c) with i by lia. }
  wp_use thread_drain_spec; [done|lia|]. intros [] c1 (Hwf1 & Hf1 & (l1 & Hd1 & _) & Hloads).
  pose proof (dr_workers _ _ _ Hd1) as Hn1.
  assert (Hi : (i < num_workers c1)%nat) by lia. apply lookup_lt_is_Some in Hi as [w Hi].
  assert (Hw : load_of c1 i = Some (wk_load w)) by (unfold load_of; by rewrite Hi).
  pose proof (load_bound _ _ _ Hwf1 Hw) as Hb.
  wp_step. apply wp_on_pool. eapply get_worker_spec; [done|]. replace (set_thread_pool _ c1) with c1 by ctx_eq.
  assert (Hrest : ∀ m k, least c1 m k (S i) →
    wp (choose_worker schedule n (S i) m k) (kept strict todo cur c (λ r c', (∃ l, drained c l c') ∧
      ∃ m, least c' m r (num_workers c'))) c1).
  { intros m k Hmk. eapply wp_mono; [apply IH; [done|lia|done]|].
    intros r c2 (Hwf2 & Hf2 & (l2 & Hd2) & Hres). split_and!; [done|by etrans|..|done].
    exists (l1 ++ l2). by eapply drained_trans. }
  destruct Hle as [Hc Hmin].
  destruct (Z.ltb_spec (wk_load w) min) as [Hlt|Hge]; apply Hrest; split.
  - right. rewrite Nat2Z.id. split; [lia|done].
  - intros j x Hj Hx. destruct (decide (j = i)) as [->|Hne]; [rewrite Hw in Hx; injection Hx; lia|].
    rewrite Hloads in Hx by done. specialize (Hmin j x ltac:(lia) Hx). lia.
  - destruct Hc as [(-> & -> & ->)|[Hc1 Hc2]]; [lia|right]. split; [lia|]. rewrite Hloads by lia. done.
  - intros j x Hj Hx. destruct (decide (j = i)) as [->|Hne]; [rewrite Hw in Hx; injection Hx; lia|].
    rewrite Hloads in Hx by done. apply (Hmin j x ltac:(lia) Hx).
Qed.

(** One round of [bio_run_async]: some jobs are reported, then the message goes to a
    worker with the least load, unless its queue is full. *)
Definition submitted (msg : bio_worker_msg_t) c (sent_it : bool) c' : Prop :=
  ∃ l c1 i w p, drained c l c1 ∧ (∃ m, load_of c1 i = Some m ∧ ∀ j x, load_of c1 j = Some x → m ≤ x) ∧
    worked (thread_pool c1) p ∧ pl_workers p !! i = Some w ∧
    if sent_it then thread_pool c' = sent i msg w p ∧ zlen (wk_requests w) < pl_queue_size p
    else thread_pool c' = p ∧ zlen (wk_requests w) = pl_queue_size p.

Lemma try_run_async_spec msg c :
  wf strict todo cur c → (0 < num_workers c)%nat → wm_type msg = BIO_WORKER_MSG_RUN → hk c (wm_signal msg) →
  wp (try_run_async schedule msg) (kept strict todo cur c (submitted msg c)) c.
Proof.
  intros Hwf Hn Hm Hk. unfold try_run_async. wp_steps.
  wp_use choose_worker_spec; [done|done|split; [by left|lia]|].
  intros r c1 (Hwf1 & Hf1 & (l & Hd) & m & [Hr Hmin]). pose proof (dr_workers _ _ _ Hd) as Hn1.
  destruct Hr as [(_ & _ & E)|[Hr1 Hr2]]; [lia|]. rewrite (proj2 (Z.ltb_ge _ _)) by lia.
  set (i := Z.to_nat r) in *. assert (Hi : (i < num_workers c1)%nat) by lia.
  assert (Hok : runs c1) by (apply wf_pool; [done|lia]).
  apply wp_on_pool. eapply wp_mono; [apply send_request_spec; [exact Hok|done|done|]|].
  { apply (hk_le c); [done|apply Hf1]. }
  intros b p (Hok' & p1 & w & Hw1 & Hok1 & Hi1 & Hb). split_and!.
  - apply set_pool_wf; [done|by right].
  - etrans; [exact Hf1|]. apply set_pool_frame.
    destruct b; destruct Hb as [-> _]; cbn; rewrite ?length_insert; by rewrite (worked_length _ _ Hw1).
  - exists l, c1, i, w, p1. split_and!; try done.
    + exists m. split; [done|]. intros j x Hj. apply (Hmin j); [|done].
      unfold load_of in Hj. apply fmap_Some in Hj as (w' & Hj%lookup_lt_Some & _). done.
    + destruct b; destruct Hb as [-> Hb]; (split; [done|]); by rewrite (wd_size _ _ Hw1).
Qed.
(** *** Initialization *)

Lemma new_workers_inflight n (f : bio_worker_thread_t → list positive) :
  f new_worker = [] → replicate n new_worker ≫= f = [].
Proof. intros Hf. induction n as [|n IH]; [done|]. cbn. by rewrite Hf, IH. Qed.

Lemma thread_init_spec num_threads queue_size c :
  wf strict todo cur c → fresh_pool (thread_pool c) → queue_size ≤ INT_MAX →
  wp (bio_thread_init num_threads queue_size) (kept strict todo cur c (λ _ c',
    num_workers c' = Z.to_nat (if num_threads <=? 0 then BIO_DEFAULT_THREAD_POOL_SIZE else num_threads))) c.
Proof.
  intros Hwf (Hn & Hmsgs & Hsub & Hran & Hrep) Hq. unfold bio_thread_init.
  set (threads := if num_threads <=? 0 then _ else _).
  set (qs := if queue_size <=? 0 then _ else _).
  assert (Hqs : 1 ≤ qs ≤ INT_MAX).
  { unfold qs, BIO_DEFAULT_THREAD_POOL_QUEUE_SIZE, INT_MAX in *. destruct (Z.leb_spec queue_size 0); lia. }
  unfold INT_MAX in Hqs. rewrite u32_small by lia.
  destruct (bio_next_pow2_pow2 qs) as [Hp Hle]; [lia|]. set (size := bio_next_pow2 qs) in *.
  pose proof (pow2_pos _ Hp) as Hpos. unfold INT_MAX in *.
  apply wp_bind, wp_int_of. intros Hint. unfold in_int, INT_MIN, INT_MAX in Hint.
  assert (Hsize : 0 < to_int size ≤ 2 ^ 30).
  { destruct (decide (size = 2 ^ 31)) as [E|]; [rewrite E in Hint; vm_compute in Hint; discriminate|].
    rewrite to_int_small in Hint |- * by (unfold INT_MIN, INT_MAX; lia). split; [lia|].
    destruct Hp as (k & Hk & ->). apply Z.pow_le_mono_r; [lia|].
    destruct (decide (31 ≤ k)); [|lia]. assert (2 ^ 31 ≤ 2 ^ k) by (apply Z.pow_le_mono_r; lia). lia. }
  do 2 (wp_step; apply wp_on_pool; wp_step). apply wp_on_pool. wp_step.
  match goal with |- kept _ _ _ _ _ _ ?c' => set (c2 := c') end.
  assert (Hc2 : c2 = set_thread_pool (λ _, thread_pool c2) c) by (unfold c2; ctx_eq).
  assert (Hall : ∀ f : bio_worker_thread_t → list positive, f new_worker = [] → pl_workers (thread_pool c2) ≫= f = []).
  { intros f Hf. by apply new_workers_inflight. }
  assert (Hin : all_inflight (thread_pool c2) = []) by (unfold all_inflight, all_pending, all_finished; rewrite !Hall by done; done).
  split_and!.
  - rewrite Hc2. apply set_pool_wf; [done|right]. split; rewrite ?Hin; try done.
    + apply Forall_replicate. split; cbn; [|by unfold zlen; cbn; lia|done|done]. unfold zlen. cbn. lia.
    + intros m Hm. by apply not_elem_of_nil in Hm.
    + cbn. rewrite Hmsgs. apply map_Forall_empty.
    + cbn. rewrite Hsub. intros m Hm. by apply not_elem_of_nil in Hm.
    + cbn. rewrite Hsub. constructor.
    + cbn. by rewrite Hsub, Hrep.
    + unfold all_finished. rewrite Hall by done. cbn. by rewrite Hran, Hrep.
  - rewrite Hc2. apply set_pool_frame. unfold num_workers. rewrite Hn. cbn. lia.
  - unfold num_workers, c2. cbn. by rewrite length_replicate.
Qed.
End thread.

(** ** In coroutines *)

Section protocol.
Context (strict : Prop) (upre : positive → option loc → bio_ctx_t → Prop) `{!StablePre upre}.

(** [bio_run_async], when the thread pool was started. *)
Lemma safe_run_async schedule q task userdata signal (Q : unit → bio_ctx_t → Prop) c :
  hk c signal → (0 < num_workers c)%nat → (∀ c', rely q c c' → Q tt c') →
  safe strict upre q (bio_run_async schedule task userdata signal) Q c.
Proof.
  intros Hk Hn HQ. eapply safe_loop with (Inv := λ _ c', rely q c c'); [reflexivity|by intros; etrans|].
  intros _ c1 Hr1. apply safe_bind. eapply safe_act with (P := λ _ _, True).
  - intros todo c' Hr Hwf _. assert (Hr' : rely q c c') by by etrans. eapply wp_mono.
    + apply try_run_async_spec; [done| |done|by eapply rely_hk].
      eapply Nat.lt_le_trans; [exact Hn|]. apply Hr'.
    + intros b c'' H. eapply kept_impl; [exact H|done].
  - intros b c2 c3 Hr2 _ Hr3. assert (Hr4 : rely q c c3) by by do 2 (etrans; [done|]).
    destruct b.
    + apply safe_ret. intros c4 Hr5 c5 Hr6. apply HQ. etrans; [exact Hr4|]. by etrans.
    + apply safe_bind, safe_yield; [done|]. intros c4 Hr5. apply safe_ret. intros c5 Hr6.
      etrans; [exact Hr4|]. by etrans.
Qed.
End protocol.

(** ** The thread pool, from the point of view of its users *)

Section correct.
Context (schedule : nat → list nat) (strict : Prop) (todo : list loc) (cur : option loc).

(** C8: An update of the thread pool reports every job whose response is there: the job
    was run, it had not been reported before, and the signal that was given with it is
    raised. *)
Theorem update_reports_responses c :
  wf strict todo cur c → (0 < num_workers c)%nat →
  wp (bio_thread_update schedule) (λ _ c', wf strict todo cur c' ∧ ∃ l,
    pl_reported (thread_pool c') = pl_reported (thread_pool c) ++ l ∧
    (∀ i m, responded (thread_pool c) i m → m ∈ l) ∧
    ∀ m, m ∈ l → m ∈ pl_ran (thread_pool c') ∧ m ∉ pl_reported (thread_pool c) ∧
      ∃ x, pl_msgs (thread_pool c) !! m = Some x ∧ signal_raised c' (wm_signal x)) c.
Proof.
  intros Hwf Hn. eapply wp_mono; [by apply thread_update_spec|].
  intros [] c' (Hwf' & _ & l & Hd & Hl). split; [done|]. exists l.
  split_and!; [apply Hd|done|]. intros m Hm.
  assert (Hok : pool_runs (known (htab c')) (thread_pool c')).
  { eapply wf_pool; [done|]. by rewrite (dr_workers _ _ _ Hd). }
  destruct (runs_accounted _ _ Hok) as [_ _ [Hnd Hsub] _ _]. rewrite (dr_reported _ _ _ Hd) in Hnd, Hsub.
  apply NoDup_app in Hnd as (_ & Hdisj & _). split_and!.
  - apply Hsub. set_solver.
  - intros Hin. by eapply Hdisj.
  - by apply (dr_signals _ _ _ Hd).
Qed.

(** A job goes to a worker with the least load, the jobs that it has not reported,
    after the responses that were there are reported; it is refused only if the queue of
    that worker is full. *)
Theorem job_goes_to_least_busy msg c :
  wf strict todo cur c → (0 < num_workers c)%nat → wm_type msg = BIO_WORKER_MSG_RUN →
  hk c (wm_signal msg) →
  wp (try_run_async schedule msg) (λ sent_it c', wf strict todo cur c' ∧ submitted msg c sent_it c') c.
Proof.
  intros Hwf Hn Hm Hk. eapply wp_mono; [by apply try_run_async_spec|].
  intros b c' (Hwf' & _ & H). by split.
Qed.
End correct.
