(* ===== verification/Service.v ===== *)
(** Services ([src/service.c], [include/bio/service.h]): coroutines that serve
    the messages of a mailbox, synchronous calls and their cancellation. *)
From S2P Require Import Prelude Bits HandleTable TimerHeap Ctx Prog Store Ring Invariant Signal.
From S2P Require Import Timer Coro Mailbox Protocol Client.

(** ** The code *)

(** [bio_call_status_t]. *)
Inductive bio_call_status_t :=
  | BIO_CALL_OK
  | BIO_CALL_CANCELLED
  | BIO_CALL_TARGET_DEAD.

(** [bio_service_options_t]. *)
Record bio_service_options_t := mk_service_options {
  so_coro_options : bio_coro_options_t;
  so_mailbox_capacity : Z;
}.

(** [bio_service_msg_base_t]: the signals that a message of a call starts with. *)
Record bio_service_msg_base_t := mk_msg_base {
  bio__ack_signal : bio_handle_t;
  bio__cancel_signal : bio_handle_t;
}.

(** The base is written to the message before it is sent, and read from it by
    the service. *)
Definition with_base (base : bio_service_msg_base_t) (msg : message) : message :=
  mk_message (bio__ack_signal base :: bio__cancel_signal base :: msg_handles msg) (msg_data msg).

Definition msg_base (msg : message) : bio_service_msg_base_t :=
  match msg_handles msg with
  | ack :: cancel :: _ => mk_msg_base ack cancel
  | _ => mk_msg_base BIO_INVALID_HANDLE BIO_INVALID_HANDLE
  end.

Definition deref_service_data : loc → M bio_service_data_t := deref service_datas.

Section code.
Context (clock : nat → Z) (user : positive → option loc → prog unit).

(** [bio_service_wrapper]: first what it does before the actual entry. *)
Definition service_ready (service_data : loc) : M (bio_handle_t * positive) :=
  d ← deref_service_data service_data;
  let mailbox := sd_mailbox d in
  _ ← bio_raise_signal (sd_ready_signal d);
  d ← deref_service_data service_data;
  mret (mailbox, sd_entry d).

Definition bio_service_wrapper (service_data : loc) : prog unit :=
  let! r := Act (service_ready service_data) in
  user r.2 (Some service_data) ;;;
  Act (bio__mailbox_close r.1).

(** [bio__service_start] up to its wait: the coroutine, the mailbox and the
    signal to wait for. The data of the service is on the stack. *)
Definition service_spawn (service_options : option bio_service_options_t) (entry : positive)
    (args : list Z) : M (bio_handle_t * bio_handle_t * bio_handle_t) :=
  let service_options := default (mk_service_options (mk_coro_options false) 0) service_options in
  let mailbox_capacity :=
    if so_mailbox_capacity service_options >? 0 then so_mailbox_capacity service_options else 4 in
  mailbox ← bio__mailbox_open mailbox_capacity;
  ready_signal ← bio_make_signal;
  service_data ← bio_malloc;
  _ ← modify (set_service_datas
        <[service_data := mk_service_data mailbox ready_signal entry args]>);
  coro ← bio_spawn_ex clock bio_service_wrapper_fn (Some service_data)
           (Some (so_coro_options service_options));
  mret (coro, mailbox, ready_signal).

(** [bio__service_start]. *)
Definition bio__service_start (service_options : option bio_service_options_t) (entry : positive)
    (args : list Z) : prog (bio_handle_t * bio_handle_t) :=
  let! r := Act (service_spawn service_options entry args) in
  bio_wait_for_one_signal r.2 ;;;
  Ret r.1.
End code.

(** [bio__service_get_info]. *)
Definition bio__service_get_info (userdata : loc) : M (bio_handle_t * list Z) :=
  d ← deref_service_data userdata;
  mret (sd_mailbox d, sd_args d).

(** [bio__service_stop]. *)
Definition bio__service_stop (coro mailbox : bio_handle_t) : prog unit :=
  Act (bio__mailbox_close mailbox) ;;;
  let! state := Act (bio_coro_state coro) in
  if decide (state ≠ BIO_CORO_DEAD) then bio_join coro else Ret tt.

(** [cancellable && bio_check_signal(cancel_signal)]. *)
Definition cancelled (cancel_signal : bio_handle_t) : M bool :=
  if negb (bio_handle_compare cancel_signal BIO_INVALID_HANDLE =? 0)
  then bio_check_signal cancel_signal else mret false.

(** The condition of the sending loop of [bio__service_call]. *)
Definition call_pending (mailbox monitor_signal cancel_signal : bio_handle_t) (msg : message) : M bool :=
  stop ← cancelled cancel_signal;
  if stop : bool then mret false
  else
    dead ← bio_check_signal monitor_signal;
    if dead : bool then mret false
    else
      sent ← bio__mailbox_send mailbox msg;
      mret (negb sent).

(** The outcome of a call. *)
Definition call_status (ack_signal cancel_signal : bio_handle_t) : M bio_call_status_t :=
  ack ← bio_check_signal ack_signal;
  if ack : bool then mret BIO_CALL_OK
  else
    stop ← cancelled cancel_signal;
    mret (if stop : bool then BIO_CALL_CANCELLED else BIO_CALL_TARGET_DEAD).

(** [bio__service_call]. *)
Definition bio__service_call (coro mailbox : bio_handle_t) (msg : message)
    (cancel_signal : bio_handle_t) : prog bio_call_status_t :=
  let! state := Act (bio_coro_state coro) in
  if decide (state = BIO_CORO_DEAD) then Ret BIO_CALL_TARGET_DEAD
  else
    let! ack_signal := Act bio_make_signal in
    let! monitor_signal := Act bio_make_signal in
    let! monitor := Act (bio_monitor coro monitor_signal) in
    Loop (λ _ : unit,
      let! pending := Act (call_pending mailbox monitor_signal cancel_signal
                             (with_base (mk_msg_base ack_signal cancel_signal) msg)) in
      if pending : bool then bio_yield ;;; Ret (inl tt) else Ret (inr tt)) tt ;;;
    bio_wait_for_signals [ack_signal; monitor_signal; cancel_signal] false ;;;
    let! status := Act (call_status ack_signal cancel_signal) in
    Act (bio_unmonitor monitor) ;;;
    Act (bio_raise_signal monitor_signal) ;;;
    Act (bio_raise_signal ack_signal) ;;;
    Ret status.

(** [bio__service_is_call_cancelled]. *)
Definition bio__service_is_call_cancelled (base : bio_service_msg_base_t) : M bool :=
  cancelled (bio__cancel_signal base).

(** [bio__service_begin_response]. *)
Definition bio__service_begin_response (base : bio_service_msg_base_t) : M bool :=
  if negb (bio_handle_compare (bio__ack_signal base) BIO_INVALID_HANDLE =? 0) then
    stop ← bio__service_is_call_cancelled base;
    mret (negb stop)
  else mret false.

(** [bio_respond] ([service.h]) around the block that writes the response. *)
Definition bio_respond (msg : message) (body : prog unit) : prog unit :=
  let! should_respond := Act (bio__service_begin_response (msg_base msg)) in
  if should_respond : bool then
    body ;;;
    Act (bio_raise_signal (bio__ack_signal (msg_base msg))) ;;;
    Ret tt
  else Ret tt.

(** [bio_service_loop] ([service.h]): messages whose call was cancelled are
    dropped. The body is inside a second loop, so that it cannot break out of
    the first one. *)
Definition bio_service_loop (mailbox : bio_handle_t) (body : message → prog unit) : prog unit :=
  bio_foreach_message mailbox (λ msg,
    let! stop := Act (bio__service_is_call_cancelled (msg_base msg)) in
    if stop : bool then Ret false else body msg ;;; Ret false).

(** [bio_notify_service] ([service.h]). *)
Definition bio_notify_service (coro mailbox : bio_handle_t) (msg : message)
    (retry_condition : M bool) : prog unit :=
  bio_wait_and_send_message
    (state ← bio_coro_state coro;
     if decide (state ≠ BIO_CORO_DEAD) then retry_condition else mret false)
    mailbox msg.

(** ** Behaviour *)

Section service.
Context (strict : Prop) (todo : list loc) (cur : option loc).
Implicit Types (c : bio_ctx_t).

Lemma msg_base_with_base base msg : msg_base (with_base base msg) = base.
Proof. by destruct base. Qed.

(** A signal is raised when its handle is dead, a cancel signal only when it is
    not the invalid handle. *)
Definition raised_in (c : bio_ctx_t) (h : bio_handle_t) : bool :=
  bool_decide (lookup_tagged (live (htab c)) h BIO_SIGNAL_HANDLE = None).

Definition cancelled_in (c : bio_ctx_t) (h : bio_handle_t) : bool :=
  negb (bool_decide (h = BIO_INVALID_HANDLE)) && raised_in c h.

Lemma cancelled_spec c h :
  wf strict todo cur c → hk c h →
  wp (cancelled h) (λ r c', c' = c ∧ r = cancelled_in c h) c.
Proof.
  intros Hwf Hk. unfold cancelled, cancelled_in. rewrite bio_handle_compare_bool.
  destruct (bool_decide _); cbn [negb andb]; [by wp_steps|].
  eapply wp_mono; [by apply (check_signal_spec strict todo cur)|]. done.
Qed.

(** The outcome of a call: the response wins over the cancellation. *)
Lemma call_status_spec c ack cancel :
  wf strict todo cur c → hk c ack → hk c cancel →
  wp (call_status ack cancel) (λ r c', c' = c ∧
    r = if raised_in c ack then BIO_CALL_OK
        else if cancelled_in c cancel then BIO_CALL_CANCELLED else BIO_CALL_TARGET_DEAD) c.
Proof.
  intros Hwf Hk1 Hk2. unfold call_status.
  wp_use (check_signal_spec strict todo cur); [done..|]. intros a c' [-> ->].
  fold (raised_in c ack). destruct (raised_in c ack); [by wp_steps|].
  wp_use cancelled_spec; [done..|]. intros b c' [-> ->]. by wp_steps.
Qed.

(** A response is written only to a call that waits for one and was not
    cancelled. *)
Lemma begin_response_spec c base :
  wf strict todo cur c → hk c (bio__ack_signal base) → hk c (bio__cancel_signal base) →
  wp (bio__service_begin_response base) (λ r c', c' = c ∧
    r = negb (bool_decide (bio__ack_signal base = BIO_INVALID_HANDLE)) &&
        negb (cancelled_in c (bio__cancel_signal base))) c.
Proof.
  intros Hwf Hk1 Hk2. unfold bio__service_begin_response. rewrite bio_handle_compare_bool.
  destruct (bool_decide _); cbn [negb andb]; [by wp_steps|].
  unfold bio__service_is_call_cancelled.
  wp_use cancelled_spec; [done..|]. intros b c' [-> ->]. by wp_steps.
Qed.

(** One attempt to deliver the message of a call. *)
Lemma call_pending_spec c mailbox mon cancel msg :
  wf strict todo cur c → hk c mailbox → hk c mon → hk c cancel →
  Forall (hk c) (msg_handles msg) →
  wp (call_pending mailbox mon cancel msg) (kept strict todo cur c (λ r c',
    if cancelled_in c cancel || raised_in c mon then r = false ∧ c' = c
    else match mailbox_at c mailbox with
         | Some p => ∃ b q, mailboxes c !! p = Some b ∧ mb_repr b q ∧
             if zlen q <? mb_capacity b then r = false ∧ holds c' p (mb_capacity b) (q ++ [msg])
             else r = true ∧ c' = c
         | None => r = true ∧ c' = c
         end)) c.
Proof.
  intros Hwf Hmb Hmon Hcan Hmsg. unfold call_pending.
  wp_use cancelled_spec; [done..|]. intros a c' [-> ->].
  destruct (cancelled_in c cancel); [wp_steps; by apply kept_same|]. cbn [orb].
  wp_use (check_signal_spec strict todo cur); [done..|]. intros a c' [-> ->].
  fold (raised_in c mon). destruct (raised_in c mon); [wp_steps; by apply kept_same|].
  wp_use send_spec; [done..|]. intros r c' (Hwf' & Hf & Hr). wp_steps.
  split; [done|]. split; [done|]. destruct (mailbox_at c mailbox) as [p|].
  - destruct Hr as (b & q & Hb & Hq & Hr). exists b, q. split; [done|]. split; [done|].
    destruct (_ <? _); [destruct Hr as (-> & Hh & _)|destruct Hr as [-> ->]]; done.
  - by destruct Hr as [-> ->].
Qed.
End service.

(** ** Services in the protocol *)

Section protocol.
Context (strict : Prop) (upre : positive → option loc → bio_ctx_t → Prop) `{!StablePre upre}.
Context (clock : nat → Z) (user : positive → option loc → prog unit).

Abbreviation safe := (safe strict upre).

(** The data of a service is put on the stack. *)
Lemma push_service_data_wf todo cur c d :
  wf strict todo cur c → hk c (sd_mailbox d) → hk c (sd_ready_signal d) →
  let c' := set_service_datas <[next_loc c := d]> (set_next_loc Pos.succ c) in
  wf strict todo cur c' ∧ frame c c'.
Proof.
  intros Hwf Hm Hr c'. split.
  - destruct Hwf. split; cbn; try done; eauto with store.
    + destruct wf_objects. split; cbn; eauto with store.
    + destruct wf_refs. split; try done. by apply map_Forall_insert_2.
    + apply stack_ok_succ in wf_stack as [H1 H2]. split; [|done].
      intros p. cbn. rewrite lookup_insert_is_Some. intros [<-|[_ ?]]; [lia|auto].
  - split; [split; try done|done|eauto|done]. split; [reflexivity| |reflexivity|done|reflexivity|by intros|reflexivity]. cbn.
    apply insert_subseteq, eq_None_not_Some.
    intros Hs%(st_services _ _ _ (wf_stack _ _ _ _ Hwf)). lia.
Qed.

(** [service_args entry args]: the function [entry] of the program may be
    called on the data of a service that was started with [args]. *)
Definition service_args (entry : positive) (args : list Z) (c : bio_ctx_t) : Prop :=
  ∀ p d c', ctx_le c c' → service_datas c' !! p = Some d → sd_entry d = entry →
    sd_args d = args → upre entry (Some p) c'.

Lemma service_spawn_spec q todo c options entry args :
  wf strict todo (Some q) c → service_args entry args c →
  match options with Some o => so_mailbox_capacity o < 2 ^ 32 | None => True end →
  wp (service_spawn clock options entry args) (λ r c',
    grown strict upre true q todo c c' ∧ hk c' r.1.1 ∧ hk c' r.1.2 ∧ hk c' r.2) c.
Proof.
  intros Hwf Hargs Hcap. unfold service_spawn. set (o := default _ options).
  wp_use (open_spec strict todo (Some q)); [done| |].
  { destruct options as [o'|]; cbn in *; [|lia]. destruct (_ >? _) eqn:E; lia. }
  intros mb c1 (Hwf1 & Hf1 & Hmb & _).
  wp_use make_signal_spec; [done|]. intros s c2 (Hwf2 & Hf2 & Hs & _).
  assert (Hmb2 : hk c2 mb) by (eapply hk_le; [exact Hmb|apply Hf2]).
  ctx_steps. set (d := mk_service_data mb s entry args).
  destruct (push_service_data_wf todo (Some q) c2 d) as [Hwf3 Hf3]; [done..|].
  set (c3 := set_service_datas _ _) in *.
  wp_use (spawn_ex_spec strict todo (Some q)); [done|done|].
  intros co c4 (Hwf4 & Hsp & Hdebt & Hco). wp_steps.
  assert (Hf : frame c c3) by (etrans; [exact Hf1|]; by etrans).
  assert (Hle : ctx_le c3 c4) by apply Hsp. split_and!.
  - split; [done| | | |].
    + etrans; [apply calm_guar, Hf|]. eapply spawned_guar; [exact Hsp|].
      intros q' _ _ _. exists (next_loc c2), d.
      assert (Hd : service_datas c4 !! next_loc c2 = Some d).
      { eapply lookup_weaken; [|apply Hle]. apply lookup_insert_eq. }
      split_and!; [done|done|]. eapply Hargs; [|exact Hd|done|done]. etrans; [apply Hf|apply Hsp].
    + rewrite (sp_mco _ _ _ _ Hsp). apply Hf.
    + intros q' co' Hq' Hr. destruct (sp_running _ _ _ _ Hsp _ _ Hq' Hr) as (co3 & Hq3 & Hr3 & ->).
      by apply (frame_running _ _ Hf).
    + rewrite Hdebt. apply (calm_daemons _ _ (frame_calm _ _ Hf)).
  - done.
  - eapply hk_le; [|exact Hle]. eapply hk_le; [exact Hmb2|apply Hf3].
  - eapply hk_le; [|exact Hle]. eapply hk_le; [exact Hs|apply Hf3].
Qed.

(** [bio__service_start]. *)
Lemma safe_service_start q options entry args (Q : bio_handle_t * bio_handle_t → bio_ctx_t → Prop) c :
  service_args entry args c →
  match options with Some o => so_mailbox_capacity o < 2 ^ 32 | None => True end →
  (∀ r c', ctx_le c c' → hk c' r.1 → hk c' r.2 → Q r c') →
  safe q (bio__service_start clock options entry args) Q c.
Proof.
  intros Hargs Hcap HQ. apply safe_bind.
  eapply safe_grow with (P := λ r c', hk c' r.1.1 ∧ hk c' r.1.2 ∧ hk c' r.2).
  - intros todo c' Hr Hwf _. apply service_spawn_spec; [done| |done].
    intros p d c'' Hle. apply Hargs. etrans; [apply Hr|done].
  - intros [[co mb] s] c1 c2 Hle (H1 & H2 & H3) Hr. cbn [fst snd] in *.
    apply safe_bind, safe_wait_one; [by eapply rely_hk|]. intros c3 Hr3.
    apply safe_ret. intros c4 Hr4. assert (Hr5 : rely q c1 c4) by (etrans; [exact Hr|]; by etrans).
    apply HQ; [etrans; [exact Hle|apply Hr5]|by eapply rely_hk|by eapply rely_hk].
Qed.

(** The coroutine of a service. *)
Lemma safe_service_wrapper q p c :
  (∀ n u c, upre n u c → safe q (user n u) (λ _ _, True) c) →
  start_ok upre c q (bio_service_wrapper_fn, Some p) →
  safe q (bio_service_wrapper user p) (λ _ _, True) c.
Proof.
  intros Huser Hs. apply safe_bind.
  eapply safe_act with (P := λ r c', hk c' r.1 ∧ upre r.2 (Some p) c').
  - intros todo c' Hr Hwf _. destruct (start_ok_rely _ _ _ _ _ Hs Hr) as (p' & d & [= <-] & Hd & Hu).
    destruct (rf_services _ _ _ _ _ _ _ (wf_refs _ _ _ _ Hwf) _ _ Hd) as [Hm Hrs].
    unfold service_ready, deref_service_data. ctx_steps.
    wp_use raise_signal_spec; [done..|]. intros b c1 (Hwf1 & Hf1 & _).
    assert (Hle : ctx_le c' c1) by apply Hf1.
    assert (Hd1 : service_datas c1 !! p = Some d) by (eapply lookup_weaken; [done|apply Hle]).
    ctx_steps. split_and!; [done|done|by eapply hk_le|by eapply upre_le].
  - intros [mb n] c1 c2 _ [Hm Hu] Hr. cbn [fst snd] in *. apply safe_bind.
    eapply safe_mono; [apply Huser; eapply upre_le; [exact Hu|apply Hr]|].
    intros [] c3 Hr3 _. apply safe_close_mailbox; [|done].
    eapply rely_hk; [|exact Hr3]. by eapply rely_hk.
Qed.

(** [bio__service_get_info]. *)
Lemma safe_get_info q p d (Q : bio_handle_t * list Z → bio_ctx_t → Prop) c :
  service_datas c !! p = Some d →
  (∀ c', rely q c c' → hk c' (sd_mailbox d) → Q (sd_mailbox d, sd_args d) c') →
  safe q (Act (bio__service_get_info p)) Q c.
Proof.
  intros Hd HQ. eapply safe_read with (P := λ r c', r = (sd_mailbox d, sd_args d) ∧ hk c' (sd_mailbox d)).
  - intros todo c' Hr Hwf. assert (Hd' : service_datas c' !! p = Some d).
    { eapply lookup_weaken; [done|]. apply (rely_le _ _ _ Hr). }
    unfold bio__service_get_info, deref_service_data. ctx_steps. split_and!; [done..|].
    apply (rf_services _ _ _ _ _ _ _ (wf_refs _ _ _ _ Hwf) _ _ Hd').
  - intros r c' c'' Hr [-> Hm] Hr'. apply HQ; [by etrans|by eapply rely_hk].
Qed.

(** [bio__service_stop]. *)
Lemma safe_service_stop q co mb (Q : unit → bio_ctx_t → Prop) c :
  hk c co → hk c mb → (∀ c', rely q c c' → Q tt c') → safe q (bio__service_stop co mb) Q c.
Proof.
  intros Hco Hmb HQ. apply safe_bind, safe_close_mailbox; [done|]. intros c1 Hr1.
  apply safe_bind, safe_coro_state; [by eapply rely_hk|]. intros s c2 Hr2.
  assert (Hr3 : rely q c c2) by by etrans. case_decide.
  - apply safe_join; [by eapply rely_hk|]. intros c3 Hr4. apply HQ. by etrans.
  - apply safe_ret. intros c3 Hr4. apply HQ. by etrans.
Qed.

(** [bio__service_call]: in particular it waits without waiting twice for the
    same signal. *)
Lemma safe_service_call q co mb msg cancel (Q : bio_call_status_t → bio_ctx_t → Prop) c :
  hk c co → hk c mb → hk c cancel → Forall (hk c) (msg_handles msg) →
  (∀ s c', rely q c c' → Q s c') →
  safe q (bio__service_call co mb msg cancel) Q c.
Proof.
  intros Hco Hmb Hcan Hmsg HQ. apply safe_bind, safe_coro_state; [done|]. intros st c1 Hr1.
  case_decide. { apply safe_ret. intros c2 Hr2. apply HQ. by etrans. }
  apply safe_bind, safe_make_signal. intros ack c2 Hr2 Hack.
  apply safe_bind, safe_make_signal. intros mon c3 Hr3 Hmon.
  assert (R3 : rely q c c3) by eauto using rely_trans.
  apply safe_bind, safe_monitor; [by eauto using rely_hk|done|]. intros m c4 Hr4 Hm.
  assert (R4 : rely q c c4) by eauto using rely_trans.
  assert (Hack4 : hk c4 ack) by (eapply rely_hk; [|exact Hr4]; by eauto using rely_hk).
  assert (Hmon4 : hk c4 mon) by by eauto using rely_hk.
  apply safe_bind.
  eapply safe_loop with (Inv := λ _ c', rely q c4 c'); [reflexivity|by intros; etrans|].
  intros _ c5 Hr5. assert (R5 : rely q c c5) by eauto using rely_trans.
  apply safe_bind. eapply safe_act with (P := λ _ _, True).
  { intros todo c' Hr Hwf _. assert (R : rely q c4 c') by eauto using rely_trans.
    assert (R' : rely q c c') by eauto using rely_trans.
    eapply wp_mono; [apply call_pending_spec; [done|by eauto using rely_hk..|]|].
    - cbn. constructor; [by eauto using rely_hk|]. constructor; [by eauto using rely_hk|by eauto using rely_hks].
    - intros b c'' Hk. eapply kept_impl; [exact Hk|done]. }
  intros b c6 c7 Hr6 _ Hr7. assert (R7 : rely q c4 c7) by eauto using rely_trans.
  destruct b.
  { apply safe_bind, safe_yield; [done|]. intros c8 Hr8. apply safe_ret. intros c9 Hr9.
    etrans; [exact R7|]. by etrans. }
  apply safe_ret. intros c8 Hr8 c9 Hr9.
  assert (R9 : rely q c4 c9) by eauto using rely_trans.
  assert (R9' : rely q c c9) by eauto using rely_trans.
  apply safe_bind. apply safe_wait; [|intros _ [=]|].
  { rewrite !Forall_cons. split_and!; [by eauto using rely_hk..|constructor]. }
  intros c10 Hr10. assert (R10 : rely q c4 c10) by eauto using rely_trans.
  assert (R10' : rely q c c10) by eauto using rely_trans.
  apply safe_bind. eapply safe_read with (P := λ _ _, True).
  { intros todo c' Hr Hwf. eapply wp_mono;
      [eapply call_status_spec; [exact Hwf|eapply rely_hk; [|exact Hr]; by eauto using rely_hk..]|].
    by intros a c'' [-> _]. }
  intros s c11 c12 Hr11 _ Hr12. assert (R12 : rely q c10 c12) by eauto using rely_trans.
  assert (R12' : rely q c4 c12) by eauto using rely_trans. assert (R12'' : rely q c c12) by eauto using rely_trans.
  apply safe_bind, safe_unmonitor; [by eauto using rely_hk|]. intros c13 Hr13.
  assert (R13 : rely q c4 c13) by eauto using rely_trans. assert (R13' : rely q c c13) by eauto using rely_trans.
  apply safe_bind, safe_raise_signal; [by eauto using rely_hk|]. intros b c14 Hr14.
  assert (R14 : rely q c4 c14) by eauto using rely_trans. assert (R14' : rely q c c14) by eauto using rely_trans.
  apply safe_bind, safe_raise_signal; [by eauto using rely_hk|]. intros b' c15 Hr15.
  apply safe_ret. intros c16 Hr16. apply HQ. etrans; [exact R14'|]. by etrans.
Qed.
End protocol.

(** ** Calls *)

Section correct.
Context (strict : Prop) (todo : list loc) (cur : option loc).

(** The result of a call tells what happened, and the response has priority: the
    call succeeded if and only if it was acknowledged; otherwise it was cancelled
    if its cancel signal is raised; otherwise the service died. *)
Theorem call_status_correct c ack cancel :
  wf strict todo cur c → hk c ack → hk c cancel →
  wp (call_status ack cancel) (λ r c', c' = c ∧
    (r = BIO_CALL_OK ↔ lookup_tagged (live (htab c)) ack BIO_SIGNAL_HANDLE = None) ∧
    (r = BIO_CALL_CANCELLED → cancel ≠ BIO_INVALID_HANDLE ∧
      lookup_tagged (live (htab c)) cancel BIO_SIGNAL_HANDLE = None) ∧
    (r = BIO_CALL_TARGET_DEAD → cancel = BIO_INVALID_HANDLE ∨
      lookup_tagged (live (htab c)) cancel BIO_SIGNAL_HANDLE ≠ None)) c.
Proof.
  intros Hwf Hk1 Hk2. eapply wp_mono; [by apply (call_status_spec strict todo cur)|].
  intros r c' [-> ->]. split; [done|]. unfold cancelled_in, raised_in.
  repeat case_bool_decide; cbn; split_and!; try (intros; discriminate); try (intros; tauto);
    (split; [discriminate|intros; by contradiction]).
Qed.

(** One attempt to deliver the message of a call is repeated only if the call was
    not cancelled, the service lives and its mailbox had no room; if the attempt
    was the last one, the message is in the mailbox, or the call is off. *)
Theorem call_delivers_or_gives_up c mailbox mon cancel msg :
  wf strict todo cur c → hk c mailbox → hk c mon → hk c cancel →
  Forall (hk c) (msg_handles msg) →
  wp (call_pending mailbox mon cancel msg) (λ again c', wf strict todo cur c' ∧
    (again = true → c' = c ∧ cancelled_in c cancel = false ∧ raised_in c mon = false ∧
      ¬ ∃ p cap q, mailbox_at c mailbox = Some p ∧ holds c p cap q ∧ zlen q < cap) ∧
    (again = false → cancelled_in c cancel = true ∨ raised_in c mon = true ∨
      ∃ p cap q, mailbox_at c mailbox = Some p ∧ holds c p cap q ∧ holds c' p cap (q ++ [msg]))) c.
Proof.
  intros Hwf H1 H2 H3 H4. eapply wp_mono; [by apply call_pending_spec|].
  intros again c' (Hwf' & _ & Hc). split; [done|].
  destruct (cancelled_in c cancel); [destruct Hc as [-> ->]; split; [done|]; by left|].
  destruct (raised_in c mon); [destruct Hc as [-> ->]; split; [done|]; right; by left|]. cbn in Hc.
  destruct (mailbox_at c mailbox) as [p|]; cycle 1.
  { destruct Hc as [-> ->]. split; [|done]. intros _. split_and!; [done..|].
    by intros (? & ? & ? & [=] & _). }
  destruct Hc as (b & q & Hb & Hq & Hc). destruct (zlen q <? mb_capacity b) eqn:E.
  - destruct Hc as [-> Hh]. split; [done|]. intros _. right. right.
    exists p, (mb_capacity b), q. split_and!; [done|by exists b|done].
  - destruct Hc as [-> ->]. split; [|done]. intros _. split_and!; [done..|].
    intros (p' & cap & q' & [= <-] & Hh & Hlt).
    destruct (holds_det _ _ _ _ _ _ Hb Hq Hh) as [-> <-]. lia.
Qed.

End correct.
