(* ===== verification/Exit.v ===== *)
(** Termination ([src/bio.c]): exit handlers,
    [bio_wait_for_exit]. *)
From stdpp Require Import strings.
From S2P Require Import Prelude Bits HandleTable TimerHeap Ctx Prog Store Ring Invariant Signal.
From S2P Require Import Timer Coro Protocol Client.

(** ** Exit handlers *)

Definition deref_exit_info : loc → M bio_exit_info_t := deref exit_infos.
Definition update_exit_info : loc → (bio_exit_info_t → bio_exit_info_t) → M unit :=
  update exit_infos set_exit_infos.

(** [bio_is_terminating]. *)
Definition bio_is_terminating : M bool := gets is_terminating.

Section code.
(** How the platform starts and stops to watch for exit signals of the
    operating system. *)
Context (bio_platform_block_exit_signal bio_platform_unblock_exit_signal : M unit).

(** The loop of [bio_dispatch_exit_signal]. *)
Fixpoint dispatch_exit_handlers (reason : bio_exit_reason_t) (handlers : list loc) : M unit :=
  match handlers with
  | [] => mret tt
  | handler :: handlers =>
      _ ← update_exit_info handler (set_ei_reason (λ _, reason));
      info ← deref_exit_info handler;
      _ ← bio_raise_signal (ei_signal info);
      dispatch_exit_handlers reason handlers
  end.

(** [bio_dispatch_exit_signal]. *)
Definition bio_dispatch_exit_signal (reason : bio_exit_reason_t) : M unit :=
  handlers ← gets exit_handlers;
  _ ← dispatch_exit_handlers reason handlers;
  _ ← modify (set_exit_handlers (λ _, []));
  if zlen handlers >? 0 then bio_platform_unblock_exit_signal else mret tt.

(** [bio_handle_exit_signal]. *)
Definition bio_handle_exit_signal : M unit := bio_dispatch_exit_signal BIO_EXIT_OS_REQUEST.

(** Turning the caller into a daemon. *)
Definition daemonize (coro : loc) : M unit :=
  co ← deref_coro coro;
  if co_daemon co then mret tt
  else
    _ ← update_coro coro (set_co_daemon (λ _, true));
    n ← gets num_daemons;
    n ← int_of (n + 1);
    modify (set_num_daemons (λ _, n)).

(** [bio_wait_for_exit] up to its wait: the handler, on the stack, and the
    signal to wait for. *)
Definition add_exit_handler : M (option (loc * bio_handle_t)) :=
  impl ← running;
  terminating ← gets is_terminating;
  match impl, terminating with
  | Some coro, false =>
      handlers ← gets exit_handlers;
      _ ← (if zlen handlers =? 0 then bio_platform_block_exit_signal else mret tt);
      signal ← bio_make_signal;
      exit_info ← bio_malloc;
      _ ← modify (set_exit_infos <[exit_info := mk_exit_info signal BIO_EXIT_OS_REQUEST]>);
      _ ← modify (set_exit_handlers (λ l, l ++ [exit_info]));
      _ ← daemonize coro;
      mret (Some (exit_info, signal))
  | _, _ => mret None
  end.

(** [bio_wait_for_exit]. *)
Definition bio_wait_for_exit : prog bio_exit_reason_t :=
  let! r := Act add_exit_handler in
  match r with
  | Some (exit_info, signal) =>
      bio_wait_for_one_signal signal ;;;
      Act (info ← deref_exit_info exit_info; mret (ei_reason info))
  | None => Ret BIO_EXIT_TERMINATE
  end.
End code.

(** ** Specifications *)

Section exit.
Context (strict : Prop).
Implicit Types (c : bio_ctx_t).

(** Watching for signals of the operating system leaves the exit handlers and
    the handles alone. *)
Definition watches (m : M unit) : Prop := ∀ todo cur c, wf strict todo cur c →
  wp m (kept strict todo cur c (λ _ c', exit_handlers c' = exit_handlers c ∧
    exit_infos c' = exit_infos c ∧ htab c' = htab c)) c.

(** Starting to watch may serve completed requests first. *)
Definition blocks (m : M unit) : Prop := ∀ todo cur c, wf strict todo cur c → io_idle c →
  wp m (kept strict todo cur c (λ _ _, True)) c.

Section spec.
Context (todo : list loc) (cur : option loc).

Lemma set_exit_wf c infos handlers n :
  wf strict todo cur c → map_Forall (λ _ x, hk c (ei_signal x)) infos →
  (∀ p, p ∈ handlers → is_Some (infos !! p)) → (∀ p, is_Some (infos !! p) → (p < n)%positive) →
  (next_loc c ≤ n)%positive →
  wf strict todo cur (set_next_loc (λ _, n) (set_exit_handlers (λ _, handlers)
    (set_exit_infos (λ _, infos) c))).
Proof.
  intros Hwf Hk Hin Hfr Hn. destruct Hwf as [? ? [] ? ? ? [] ? ? ? ? ? ? [] []].
  split; cbn; try done; eauto with store.
  - split; cbn; eauto using store_ok_next.
  - split; [|done]. intros p Hp%st_services. lia.
  - split; [done|]. intros q p Hp%ow_fresh. lia.
Qed.

(** The reason of a handler is set. *)
Lemma set_reason_wf c p x reason :
  wf strict todo cur c → exit_infos c !! p = Some x →
  let c' := set_exit_infos <[p := set_ei_reason (λ _, reason) x]> c in
  wf strict todo cur c' ∧ frame c c'.
Proof.
  intros Hwf Hp c'. split.
  - replace c' with (set_next_loc (λ _, next_loc c) (set_exit_handlers (λ _, exit_handlers c)
      (set_exit_infos (λ _, <[p := set_ei_reason (λ _, reason) x]> (exit_infos c)) c))) by done.
    pose proof (rf_exits _ _ _ _ _ _ _ (wf_refs _ _ _ _ Hwf)) as Hk.
    apply set_exit_wf; [done| | | |reflexivity].
    + apply map_Forall_insert_2; [by apply (Hk p x)|exact Hk].
    + intros p' Hin. apply lookup_insert_is_Some'. right. by apply (wf_exits _ _ _ _ Hwf).
    + intros p' [<-|Hs]%lookup_insert_is_Some';
        (apply (st_exits _ _ _ (wf_stack _ _ _ _ Hwf)); eauto).
  - split; [split|done|eauto|done]; try done. split; [reflexivity|reflexivity| |done|reflexivity|by intros|reflexivity]. cbn.
    rewrite dom_insert. set_solver.
Qed.

Lemma clear_handlers_wf c :
  wf strict todo cur c → wf strict todo cur (set_exit_handlers (λ _, []) c).
Proof.
  intros [? ? []]. split; try done. by intros p ?%not_elem_of_nil.
Qed.

(** What dispatching establishes for a handler. *)
Definition dispatched (reason : bio_exit_reason_t) (c c' : bio_ctx_t) (p : loc) : Prop :=
  ∃ x, exit_infos c !! p = Some x ∧
    exit_infos c' !! p = Some (set_ei_reason (λ _, reason) x) ∧
    lookup_tagged (live (htab c')) (ei_signal x) BIO_SIGNAL_HANDLE = None.

Lemma dispatch_handlers_spec reason handlers c :
  wf strict todo cur c → (∀ p, p ∈ handlers → is_Some (exit_infos c !! p)) →
  wp (dispatch_exit_handlers reason handlers) (kept strict todo cur c (λ _ c',
    exit_handlers c' = exit_handlers c ∧ live (htab c') ⊆ live (htab c) ∧
    (∀ p, p ∉ handlers → exit_infos c' !! p = exit_infos c !! p) ∧
    (∀ p, p ∈ handlers → dispatched reason c c' p))) c.
Proof.
  revert c. induction handlers as [|p handlers IH]; intros c Hwf Hin; cbn [dispatch_exit_handlers].
  { wp_steps. apply kept_same; [done|]. split_and!; try done. by intros p ?%not_elem_of_nil. }
  destruct (Hin p) as [x Hx]; [by left|]. unfold update_exit_info, deref_exit_info. ctx_steps.
  destruct (set_reason_wf c p x reason) as [Hwf1 Hf1]; [done..|]. set (c1 := set_exit_infos _ _) in *.
  assert (Hk : hk c1 (ei_signal x)) by apply (rf_exits _ _ _ _ _ _ _ (wf_refs _ _ _ _ Hwf) _ _ Hx).
  wp_use raise_signal_full; [exact Hwf1|exact Hk|].
  intros b c2 (Hwf2 & Hf2 & Hr2 & _ & _ & _ & _ & _ & He2 & Hh2). cbn in He2, Hh2.
  eapply wp_mono; [apply IH; [exact Hwf2|]|].
  { intros p' Hp'. rewrite He2. apply lookup_insert_is_Some'. right. apply Hin. by right. }
  intros [] c3 (Hwf3 & Hf3 & Hh3 & Hsub3 & Hold3 & Hnew3).
  assert (Hdead : lookup_tagged (live (htab c3)) (ei_signal x) BIO_SIGNAL_HANDLE = None).
  { eapply lookup_tagged_sub; [exact Hsub3|].
    eapply only_raises_dead; [exact Hr2|by left]. }
  split; [done|]. split; [by do 2 (etrans; [done|])|].
  split_and!; [congruence|etrans; [done|by eapply only_raises_sub]| |].
  - intros p' [Hne Hni]%not_elem_of_cons. rewrite Hold3, He2 by done. by rewrite lookup_insert_ne.
  - intros p' Hp'. destruct (decide (p' = p)) as [->|Hne].
    + exists x. split_and!; [done| |done]. destruct (decide (p ∈ handlers)) as [Hi|Hi].
      * destruct (Hnew3 _ Hi) as (x' & Hx' & Hx3 & _). rewrite He2, lookup_insert_eq in Hx'.
        by injection Hx' as <-.
      * by rewrite Hold3, He2, lookup_insert_eq.
    + apply elem_of_cons in Hp' as [->|Hp']; [done|].
      destruct (Hnew3 _ Hp') as (x' & Hx' & Hx3 & Hd3). exists x'. split_and!; [|done..].
      by rewrite He2, lookup_insert_ne in Hx'.
Qed.

Lemma dispatch_spec unblock reason c :
  watches unblock →
  wf strict todo cur c →
  wp (bio_dispatch_exit_signal unblock reason) (kept strict todo cur c (λ _ c',
    exit_handlers c' = [] ∧ live (htab c') ⊆ live (htab c) ∧
    ∀ p, p ∈ exit_handlers c → dispatched reason c c' p)) c.
Proof.
  intros unblock_ok Hwf. unfold bio_dispatch_exit_signal. wp_steps.
  eapply wp_mono; [apply dispatch_handlers_spec; [done|apply (wf_exits _ _ _ _ Hwf)]|].
  intros [] c1 (Hwf1 & Hf1 & Hh1 & Hsub & _ & Hd). wp_steps.
  pose proof (clear_handlers_wf _ Hwf1) as Hwf2. set (c2 := set_exit_handlers _ c1) in *.
  assert (Hf2 : frame c c2) by (etrans; [exact Hf1|]; split; [solve_calm|done|eauto|done]).
  destruct (zlen _ >? 0).
  - eapply wp_mono; [by apply unblock_ok|]. intros [] c3 (Hwf3 & Hf3 & Hh3 & He3 & Ht3).
    split_and!; [done|by etrans|done|by rewrite Ht3|]. intros p Hp.
    destruct (Hd _ Hp) as (x & Hx & Hx1 & Hl). exists x. by rewrite He3, Ht3.
  - wp_steps. by split_and!.
Qed.

Lemma daemonize_spec c q co :
  wf strict todo cur c → coros c !! q = Some co →
  wp (daemonize q) (kept strict todo cur c (λ _ c',
    exit_infos c' = exit_infos c ∧ htab c' = htab c ∧
    co_daemon <$> coros c' !! q = Some true)) c.
Proof.
  intros Hwf Hq. unfold daemonize. ctx_steps. destruct (co_daemon co) eqn:Ed.
  { wp_steps. apply kept_same; [done|]. rewrite Hq. cbn. by rewrite Ed. }
  ctx_steps. set (co' := set_co_daemon _ co).
  split; [apply set_num_daemons_wf|split].
  - destruct Hwf as [? ? [] ? ? ? ? ? ? ? ? ? ? ? ?].
    split; cbn; try done; eauto with store.
    + split; cbn; eauto with store.
    + by eapply sched_ok_update.
    + by eapply wait_ok_update.
  - split; cbn; [split; cbn; eauto with store| | |done].
    + unfold daemon_debt. cbn. rewrite (count_update _ _ _ _ _ Hq), Ed. cbn. lia.
    + intros q'. destruct (decide (q = q')) as [<-|].
      * by rewrite lookup_insert_eq.
      * by rewrite lookup_insert_ne.
    + done.
    + by apply (frame_running_update _ _ co).
  - cbn. by rewrite lookup_insert_eq.
Qed.

End spec.

Section wait.
Context (block : M unit) (block_ok : blocks block).

(** The handler is on the list when the caller waits for its signal. *)
Lemma add_exit_handler_spec todo cur c :
  wf strict todo cur c → io_idle c →
  wp (add_exit_handler block) (kept strict todo cur c (λ r c',
    match r with
    | Some (p, h) => ∃ q, mco_running c = Some q ∧ is_terminating c = false ∧
        exit_infos c' !! p = Some (mk_exit_info h BIO_EXIT_OS_REQUEST) ∧
        hk c' h ∧ co_daemon <$> coros c' !! q = Some true
    | None => c' = c ∧ (mco_running c = None ∨ is_terminating c = true)
    end)) c.
Proof.
  intros Hwf Hid. unfold add_exit_handler. ctx_steps.
  destruct (mco_running c) as [q|] eqn:Hq; [|wp_steps; apply kept_same; auto].
  destruct (is_terminating c) eqn:Ht; [wp_steps; apply kept_same; auto|]. wp_steps.
  eapply (wp_mono _ (kept strict todo cur c (λ _ _, True))).
  { destruct (_ =? 0); [|wp_steps; by apply kept_same].
    by apply block_ok. }
  intros [] c1 (Hwf1 & Hf1 & _). wp_use make_signal_spec; [done|].
  intros s c2 (Hwf2 & Hf2 & Hs & _). ctx_steps.
  set (c3 := set_exit_handlers _ _).
  assert (Hfresh : exit_infos c2 !! next_loc c2 = None).
  { apply eq_None_not_Some. intros Hp%(st_exits _ _ _ (wf_stack _ _ _ _ Hwf2)). lia. }
  assert (Hwf3 : wf strict todo cur c3).
  { replace c3 with (set_next_loc (λ _, Pos.succ (next_loc c2)) (set_exit_handlers
      (λ _, exit_handlers c2 ++ [next_loc c2]) (set_exit_infos
      (λ _, <[next_loc c2 := mk_exit_info s BIO_EXIT_OS_REQUEST]> (exit_infos c2)) c2)))
      by (unfold c3; ctx_eq).
    pose proof (wf_stack _ _ _ _ Hwf2) as Hst. apply set_exit_wf; [done| | | |lia].
    - apply map_Forall_insert_2; [done|]. apply (wf_refs _ _ _ _ Hwf2).
    - intros p. rewrite elem_of_app, list_elem_of_singleton, lookup_insert_is_Some'.
      intros [Hp| ->]; [right; by apply (wf_exits _ _ _ _ Hwf2)|by left].
    - intros p [<-|Hp%(st_exits _ _ _ Hst)]%lookup_insert_is_Some'; lia. }
  assert (Hf3 : frame c2 c3).
  { split; [split|done|eauto|done]; try done. split; [reflexivity|reflexivity| |done|reflexivity|by intros|reflexivity]. cbn.
    rewrite dom_insert. set_solver. }
  assert (Hq3 : mco_running c3 = Some q).
  { rewrite (frame_mco _ _ Hf3), (frame_mco _ _ Hf2), (frame_mco _ _ Hf1). done. }
  destruct (wf_caller _ _ _ _ _ Hwf3 Hq3) as (co & Hco & _).
  wp_use daemonize_spec; [done..|]. intros [] c4 (Hwf4 & Hf4 & He4 & Ht4 & Hd4). wp_steps.
  split; [done|]. split; [by do 3 (etrans; [done|])|].
  exists q. split_and!; [done..| | |done].
  - rewrite He4. cbn. apply lookup_insert_eq.
  - unfold hk. by rewrite Ht4.
Qed.

Lemma safe_wait_for_exit upre `{!StablePre upre} q (Q : bio_exit_reason_t → bio_ctx_t → Prop) c :
  (∀ r c', rely q c c' → Q r c') → safe strict upre q (bio_wait_for_exit block) Q c.
Proof.
  intros HQ. apply safe_bind. eapply safe_step with
    (P := λ r c', match r with Some (p, h) => hk c' h ∧ is_Some (exit_infos c' !! p) | None => True end).
  - intros todo c' Hr Hinv. eapply wp_mono; [apply add_exit_handler_spec; apply Hinv|].
    intros [[p h]|] c'' Hk; (eapply kept_impl; [exact Hk|]); [|done].
    intros _ (q' & _ & _ & He & Hh & _). by eauto.
  - intros [[p h]|] c1 c2 Hr1 HP Hr2; cycle 1.
    { apply safe_ret. intros c3 Hr3. apply HQ. do 2 (etrans; [done|]). done. }
    destruct HP as [Hh Hp]. apply safe_bind, safe_wait_one; [by eapply rely_hk|].
    intros c3 Hr3. eapply safe_read with (P := λ _ _, True).
    + intros todo c' Hr4 _. assert (Hr : rely q c1 c') by (do 2 (etrans; [done|]); done).
      assert (Hi : p ∈ dom (exit_infos c')) by (apply Hr, elem_of_dom; exact Hp).
      apply elem_of_dom in Hi as [x Hx]. unfold deref_exit_info. ctx_steps. done.
    + intros r c4 c5 Hr4 _ Hr5. apply HQ. do 4 (etrans; [done|]). done.
Qed.
End wait.
End exit.

(** ** Exit handlers, from the point of view of a waiting coroutine *)

Section correct.
Context (strict : Prop) (unblock : M unit).
Context (unblock_ok : watches strict unblock).

(** C16: A request to exit reaches every coroutine that waits for one: each handler gets
    the reason, its signal is raised, and no handler is left behind. *)
Theorem exit_reaches_all_handlers todo cur reason c :
  wf strict todo cur c →
  wp (bio_dispatch_exit_signal unblock reason) (λ _ c', wf strict todo cur c' ∧
    exit_handlers c' = [] ∧
    ∀ p, p ∈ exit_handlers c → ∃ x, exit_infos c !! p = Some x ∧
      ei_reason <$> exit_infos c' !! p = Some reason ∧
      lookup_tagged (live (htab c')) (ei_signal x) BIO_SIGNAL_HANDLE = None) c.
Proof.
  intros Hwf. eapply wp_mono; [by apply dispatch_spec|].
  intros [] c' (Hwf' & _ & Hn & _ & Hd). split_and!; [done..|].
  intros p (x & Hx & Hx' & Hs)%Hd. exists x. split_and!; [done| |done]. by rewrite Hx'.
Qed.
End correct.
