(* ===== verification/LinuxPlatform.v ===== *)
(** The platform layer of Linux ([src/linux/platform.c]): requests to the kernel through
    io_uring, their completions, exit signals, and waiting for any of them. *)
From S2P Require Import Prelude Bits HandleTable Pool Uring TimerHeap Ctx Prog Store Ring Invariant.
From S2P Require Import Signal Timer Coro Mailbox Protocol Client Thread Exit.

(** ** The code *)

Definition BIO_LINUX_DEFAULT_QUEUE_SIZE : Z := 64.
(** Sizes of [struct signalfd_siginfo] and of the counter of an eventfd. *)
Definition siginfo_size : Z := 128.
Definition counter_size : Z := 8.

(** A computation on the platform data. *)
Definition on_ring {A} (m : st bio_platform_t A) : M A :=
  zoom bio_platform (λ s, set_bio_platform (λ _, s)) m.

(** [bio_platform_unblock_exit_signal]: only the signal mask of the thread changes. *)
Definition bio_platform_unblock_exit_signal : M unit := mret tt.

Section code.
(** What the kernel does when it is entered; which steps the workers take before the main
    thread reads the counter of notifications. *)
Context (kernel : nat → ring_wait → kernel_step) (schedule : nat → list nat).

(** [bio_platform_poll_signal]; [acquire] is [bio_acquire_io_req]. *)
Definition poll_signal (acquire : M nat) : M unit :=
  s ← gets bio_platform;
  if signal_polled s then mret tt
  else
    sqe ← acquire;
    _ ← on_ring (prep sqe (OpRead (signalfd s) siginfo_size));
    _ ← on_ring (io_uring_sqe_set_data sqe PollData);
    on_ring (modify (set_signal_polled (λ _, true))).

(** The body of [io_uring_for_each_cqe] in [bio_drain_io_completions]. *)
Definition handle_completion (poll : M unit) (cqe : io_uring_cqe) : M unit :=
  match cqe_data cqe with
  | PollData =>
      _ ← on_ring (modify (set_signal_polled (λ _, false)));
      _ ← poll;
      bio_handle_exit_signal bio_platform_unblock_exit_signal
  | ReqData request =>
      s ← gets bio_platform;
      r ← need Dangling (io_reqs s !! request);
      _ ← on_ring (modify (set_io_reqs <[request := mk_io_req (rq_signal r) (cqe_res cqe) (cqe_flags cqe)]>));
      _ ← bio_raise_signal (rq_signal r);
      mret tt
  | NoData => mret tt
  end.

(** The loop from [head] on, after [i] completions. *)
Fixpoint drain_completions (poll : M unit) (fuel head i : nat) : M nat :=
  match fuel with
  | O => fail OutOfFuel
  | S fuel =>
      s ← gets bio_platform;
      if decide (head = length (ring_cq s)) then mret i
      else
        cqe ← need OutOfBounds (io_uring_peek_cqe s head);
        _ ← on_ring (modify (set_cq_seen (λ _, S head)));
        _ ← handle_completion poll cqe;
        drain_completions poll fuel (S head) (S i)
  end.

(** [bio_drain_io_completions]. There are no more completions than are there already or
    under way. *)
Definition drain_io_completions (poll : M unit) : M unit :=
  s ← gets bio_platform;
  i ← drain_completions poll (S (length (ring_cq s))) (cq_head s) 0;
  on_ring (io_uring_cq_advance i).

(** [bio_acquire_io_req]: the kernel is entered until there is a free entry. *)
Fixpoint acquire_io_req (fuel : nat) : M nat :=
  match fuel with
  | O => fail OutOfFuel
  | S fuel =>
      sqe ← on_ring io_uring_get_sqe;
      match sqe with
      | Some sqe => mret sqe
      | None =>
          _ ← on_ring (io_uring_enter kernel GetEvents);
          _ ← drain_io_completions (poll_signal (acquire_io_req fuel));
          acquire_io_req fuel
      end
  end.

(** Two rounds are enough: after one the submission queue is empty, and at most one of its
    entries is used for the next poll. *)
Definition bio_acquire_io_req : M nat := acquire_io_req 2.

Definition bio_platform_poll_signal : M unit := poll_signal bio_acquire_io_req.

Definition bio_drain_io_completions : M unit := drain_io_completions bio_platform_poll_signal.

(** [bio_platform_block_exit_signal]: signals are read from the file descriptor. *)
Definition bio_platform_block_exit_signal : M unit := bio_platform_poll_signal.

(** [struct __kernel_timespec] of a number of milliseconds. *)
Definition timespec_of_ms (ms : Z) : Z * Z := (ms ÷ 1000, Z.rem ms 1000 * 1000000).

(** [bio_platform_update_no_wait]. *)
Definition bio_platform_update_no_wait : M unit :=
  _ ← on_ring (io_uring_enter kernel GetEvents);
  bio_drain_io_completions.

(** [bio_platform_update_wait]. *)
Definition bio_platform_update_wait (wait_timeout_ms : Z) : M unit :=
  if wait_timeout_ms >? 0 then
    let timespec := timespec_of_ms wait_timeout_ms in
    num_submitted ← on_ring (io_uring_enter kernel (WaitTimeout timespec.1 timespec.2));
    s ← gets bio_platform;
    _ ← match io_uring_peek_cqe s (cq_head s) with
        | Some _ => bio_drain_io_completions
        | None => mret tt
        end;
    if num_submitted <=? 0 then
      _ ← on_ring (io_uring_enter kernel GetEvents);
      bio_drain_io_completions
    else mret tt
  else
    _ ← on_ring (io_uring_enter kernel WaitForOne);
    bio_drain_io_completions.

(** [atomic_load(&notification_counter)]. *)
Definition load_notification_counter : M Z :=
  on_pool (_ ← look schedule; p ← get; mret (notification_counter (pl_notifier p))).

(** An entry without user data. *)
Definition submit_silent (op : io_op) : M unit :=
  sqe ← bio_acquire_io_req;
  _ ← on_ring (prep sqe op);
  on_ring (io_uring_sqe_set_data sqe NoData).

(** [bio_platform_update]. *)
Definition bio_platform_update (wait_timeout_ms : Z) (notifiable : bool) : M unit :=
  if wait_timeout_ms =? 0 then bio_platform_update_no_wait
  else
    c ← get;
    if has_op_futex_wait (pl_notifier (thread_pool c)) then
      counter ← load_notification_counter;
      s ← gets bio_platform;
      if negb (ack_counter s =? counter) then
        _ ← bio_platform_update_no_wait;
        on_ring (modify (set_ack_counter (λ _, counter)))
      else
        _ ← (if notifiable then submit_silent (OpFutexWait (ack_counter s)) else mret tt);
        _ ← bio_platform_update_wait wait_timeout_ms;
        counter ← load_notification_counter;
        on_ring (modify (set_ack_counter (λ _, counter)))
    else
      _ ← (if notifiable then submit_silent (OpRead (eventfd (bio_platform c)) counter_size) else mret tt);
      bio_platform_update_wait wait_timeout_ms.

(** *** Requests of coroutines *)

(** [bio_submit_io_req] up to its wait; [sqe] was prepared by the caller. *)
Definition submit_begin (sqe : nat) : M (bio_handle_t * positive) :=
  signal ← bio_make_signal;
  req ← on_ring (begin_req sqe signal);
  mret (signal, req).

Definition submit_end (req : positive) : M (Z * Z) :=
  s ← gets bio_platform;
  r ← need Dangling (io_reqs s !! req);
  mret (rq_res r, rq_flags r).

(** [bio_acquire_io_req], [io_uring_prep_...] and [bio_submit_io_req]: the result and the
    flags. *)
Definition bio_submit_io_req (op : io_op) : prog (Z * Z) :=
  let! r := Act (sqe ← bio_acquire_io_req; _ ← on_ring (prep sqe op); submit_begin sqe) in
  bio_wait_for_one_signal r.1 ;;;
  Act (submit_end r.2).

(** [bio_io_close]. *)
Definition bio_io_close (fd : Z) : prog Z :=
  let! r := bio_submit_io_req (OpClose fd) in
  Ret r.1.

(** [bio_platform_init] with the size of the queue of its options, after the calls that
    make the file descriptors and ask the kernel for its operations. *)
Definition bio_platform_init (queue_size : Z) (fds : Z * Z) (has_bind has_listen has_futex : bool) : M unit :=
  let queue_size := if queue_size =? 0 then BIO_LINUX_DEFAULT_QUEUE_SIZE else queue_size in
  let queue_size := bio_next_pow2 queue_size in
  _ ← on_ring (modify (λ _, mk_platform_t queue_size [] [] [] 0 0 0 ∅ 1 false fds.1
                 (if has_futex then 0 else fds.2) 0 has_bind has_listen));
  on_pool (modify (set_pl_notifier (λ _, mk_notifier has_futex 0 0))).

(** [bio_platform_cleanup]. *)
Definition bio_platform_cleanup : M unit := on_ring (modify (λ _, no_platform)).
End code.

(** ** What leaves the jobs and the requests alone *)

Definition keeps {A} (m : M A) : Prop :=
  ∀ c, match m c with
       | Ok (_, c') => thread_pool c' = thread_pool c ∧ bio_platform c' = bio_platform c
       | Err _ => True
       end.

Lemma keeps_bind {A B} (m : M A) (k : A → M B) : keeps m → (∀ a, keeps (k a)) → keeps (m ≫= k).
Proof.
  intros Hm Hk c. unfold mbind, st_bind. specialize (Hm c). destruct (m c) as [[a c1]|]; [|done].
  specialize (Hk a c1). destruct (k a c1) as [[b c2]|]; [|done]. destruct Hm, Hk. split; congruence.
Qed.

Lemma keeps_ret {A} (a : A) : keeps (mret a).
Proof. done. Qed.

Lemma keeps_gets {A} (f : bio_ctx_t → A) : keeps (gets f).
Proof. done. Qed.

Lemma keeps_modify (f : bio_ctx_t → bio_ctx_t) :
  (∀ c, thread_pool (f c) = thread_pool c ∧ bio_platform (f c) = bio_platform c) → keeps (modify f).
Proof. intros Hf c. apply Hf. Qed.

Lemma keeps_need {A} e (o : option A) : keeps (need e o).
Proof. intros c. by destruct o. Qed.

Lemma keeps_deref {X} (store : bio_ctx_t → gmap loc X) p : keeps (deref store p).
Proof. apply keeps_bind; [done|]. intros c. apply keeps_need. Qed.

Lemma keeps_update {X} (store : bio_ctx_t → gmap loc X) set p f :
  (∀ g c, thread_pool (set g c) = thread_pool c ∧ bio_platform (set g c) = bio_platform c) →
  keeps (update store set p f).
Proof. intros Hs. apply keeps_bind; [apply keeps_deref|]. intros x. apply keeps_modify, Hs. Qed.

Lemma keeps_free {X} (store : bio_ctx_t → gmap loc X) set p :
  (∀ g c, thread_pool (set g c) = thread_pool c ∧ bio_platform (set g c) = bio_platform c) →
  keeps (free store set p).
Proof. intros Hs. apply keeps_bind; [apply keeps_deref|]. intros x. apply keeps_modify, Hs. Qed.

Lemma keeps_htab {A} (m : st (table bio_tag_t loc) A) : keeps (on_htab m).
Proof. intros c. unfold on_htab, zoom. by destruct (m (htab c)) as [[a t]|]. Qed.

Lemma keeps_int_of z : keeps (int_of z).
Proof. intros c. unfold int_of. by destruct (in_int z). Qed.

Lemma keeps_wp {A} (m : M A) (P : A → bio_ctx_t → Prop) c :
  keeps m → wp m P c →
  wp m (λ a c', P a c' ∧ thread_pool c' = thread_pool c ∧ bio_platform c' = bio_platform c) c.
Proof. intros Hk. unfold wp. specialize (Hk c). destruct (m c) as [[a c']|]; [auto|done]. Qed.

Ltac solve_keeps :=
  repeat first
    [ assumption
    | apply keeps_ret | apply keeps_gets | apply keeps_need | apply keeps_deref | apply keeps_htab
    | apply keeps_int_of
    | apply keeps_update; intros; by split
    | apply keeps_free; intros; by split
    | apply keeps_modify; intros; by split
    | apply keeps_bind; [|intros ?]
    | case_match ].

Lemma keeps_raise h : keeps (bio_raise_signal h).
Proof. unfold bio_raise_signal, wake_owner, unlink_signal, push_ready, close_handle. solve_keeps. Qed.

Lemma keeps_make_signal : keeps bio_make_signal.
Proof. unfold bio_make_signal, make_handle, bio_malloc. solve_keeps. Qed.

Lemma keeps_dispatch reason : keeps (bio_dispatch_exit_signal bio_platform_unblock_exit_signal reason).
Proof.
  unfold bio_dispatch_exit_signal, bio_platform_unblock_exit_signal.
  apply keeps_bind; [solve_keeps|]. intros handlers. apply keeps_bind; [|solve_keeps].
  induction handlers as [|x l IH]; cbn [dispatch_exit_handlers]; [solve_keeps|].
  unfold update_exit_info, deref_exit_info. solve_keeps.
Qed.

(** ** Behaviour *)

(** The state as it is when the completions that were looked at are consumed. *)
Definition rest (c : bio_ctx_t) : bio_ctx_t :=
  set_bio_platform (set_cq_head (λ _, cq_seen (bio_platform c))) c.

Section spec.
Context (kernel : nat → ring_wait → kernel_step).
Context (accepts : kernel_accepts kernel).
Context (strict : Prop) (todo : list loc) (cur : option loc).
Implicit Types (c : bio_ctx_t) (s : bio_platform_t).

Abbreviation wf c := (wf strict todo cur c).
Abbreviation ring c := (bio_platform c).
Abbreviation K c := (known (htab c)).

Lemma wp_on_ring {A} (m : st bio_platform_t A) (Q : A → bio_ctx_t → Prop) c :
  wp m (λ a s, Q a (set_bio_platform (λ _, s) c)) (ring c) → wp (on_ring m) Q c.
Proof. apply (wp_zoom bio_platform (λ s, set_bio_platform (λ _, s))). Qed.

Lemma wf_ring c : wf c → ring_ok (K c) (ring c).
Proof. intros Hwf. apply (ex_ring _ _ _ (wf_ext _ _ _ _ Hwf)). Qed.

Lemma set_ring_wf c s : wf c → ring_ok (K c) s → wf (set_bio_platform (λ _, s) c).
Proof. intros [] Hs. split; try done; [by destruct wf_objects|]. split; [apply wf_ext|exact Hs]. Qed.

(** Changes of the ring alone. *)
Lemma set_ring_frame c s :
  (io_idle c → cq_seen s = cq_head s) → dom (io_reqs (ring c)) ⊆ dom (io_reqs s) →
  frame c (set_bio_platform (λ _, s) c).
Proof. intros Hs Hr. split; [split; try done; by split|done|eauto|done]. Qed.

Lemma rest_frame c c' : frame c c' → frame (rest c) (rest c').
Proof.
  intros [[[] ? ? ? ?] ? ? ?]. split; [split; try done; by split|done|done|done].
Qed.

Lemma rest_set c s :
  dom (io_reqs (ring c)) ⊆ dom (io_reqs s) → frame c (rest (set_bio_platform (λ _, s) c)).
Proof. intros Hr. split; [split; try done; by split|done|eauto|done]. Qed.

Lemma rest_idle c : io_idle c → rest c = c.
Proof.
  intros Hi. unfold rest. destruct c. unfold io_idle in Hi. cbn in *.
  unfold set_bio_platform. cbn. f_equal. rewrite Hi. by destruct bio_platform.
Qed.

(** *** Free entries *)

(** All entries that wait to be submitted are polls for exit signals: there is one at
    most. *)
Definition only_polls s : Prop := Forall (λ e, sqe_data e = PollData) (ring_sq s).

Definition has_room s : Prop := zlen (ring_sq s) < ring_entries s.

Lemma only_polls_room c : wf c → only_polls (ring c) → has_room (ring c).
Proof.
  intros Hwf Hp. pose proof (wf_ring _ Hwf) as Hok. pose proof (rg_entries _ _ Hok) as He.
  pose proof (rg_poll _ _ Hok) as Hz. unfold has_room. cut (zlen (ring_sq (ring c)) ≤ 1); [lia|].
  unfold outstanding in Hz. rewrite !fmap_app, !filter_app, !zlen_app in Hz.
  rewrite (list_filter_all _ (sqe_data <$> ring_sq (ring c))), zlen_fmap in Hz.
  - pose proof (zlen_nonneg (filter (λ d, is_poll d = true) (sqe_data <$> ring_inflight (ring c)))).
    pose proof (zlen_nonneg (filter (λ d, is_poll d = true) (cqe_data <$> drop (cq_seen (ring c)) (ring_cq (ring c))))).
    destruct (signal_polled (ring c)); lia.
  - apply Forall_fmap. eapply Forall_impl; [exact Hp|]. intros e He'. cbn. by rewrite He'.
Qed.

(** The ring alone changed, and no completion was looked at. *)
Definition ring_step c c' : Prop :=
  wf c' ∧ quiet (ring c) (ring c') ∧ c' = set_bio_platform (λ _, ring c') c.

Lemma ring_step_set c s :
  wf c → ring_ok (K c) s → quiet (ring c) s → ring_step c (set_bio_platform (λ _, s) c).
Proof. intros. split_and!; [by apply set_ring_wf|done|done]. Qed.

Lemma ring_step_refl c : wf c → ring_step c c.
Proof. intros. split_and!; [done|done|ctx_eq]. Qed.

Lemma ring_step_trans c1 c2 c3 : ring_step c1 c2 → ring_step c2 c3 → ring_step c1 c3.
Proof.
  intros (_ & Hq1 & E1) (Hwf & Hq2 & E2). split_and!; [done|by etrans|]. rewrite E2, E1. ctx_eq.
Qed.

Lemma ring_step_frame c c' : ring_step c c' → frame c c'.
Proof.
  intros (_ & Hq & E). rewrite E. apply set_ring_frame; [|by rewrite (qt_reqs _ _ Hq)].
  unfold io_idle. by rewrite (qt_seen _ _ Hq), (qt_head _ _ Hq).
Qed.

(** A new entry is at position [i]. *)
Definition new_entry c (i : nat) : Prop := ring_sq (ring c) !! i = Some (mk_sqe None NoData).

(** With a free entry, the kernel is not entered. *)
Lemma acquire_room n c :
  wf c → has_room (ring c) →
  wp (acquire_io_req kernel (S n)) (λ i c', ring_step c c' ∧ new_entry c' i ∧
    i = length (ring_sq (ring c)) ∧ ring_sq (ring c') = ring_sq (ring c) ++ [mk_sqe None NoData] ∧
    signal_polled (ring c') = signal_polled (ring c)) c.
Proof.
  intros Hwf Hr. cbn [acquire_io_req]. wp_step. apply wp_on_ring.
  apply (get_sqe_spec (K c)); [by apply wf_ring| |].
  - intros i s' -> -> _ Hok Hq. wp_steps. split_and!; [|by apply list_lookup_middle|done..].
    by apply ring_step_set.
  - intros E. unfold has_room in Hr. lia.
Qed.

(** An entry is prepared. *)
Lemma prep_step c i op :
  wf c → new_entry c i →
  wp (on_ring (prep i op)) (λ _ c', ring_step c c' ∧
    ring_sq (ring c') = <[i := mk_sqe (Some op) NoData]> (ring_sq (ring c)) ∧
    signal_polled (ring c') = signal_polled (ring c)) c.
Proof.
  intros Hwf Hi. apply wp_on_ring. eapply prep_spec; [by apply wf_ring|exact Hi|].
  intros s' Hok Hq. split_and!; [|done|done]. apply ring_step_set; [done|done|].
  split; try done. by rewrite <- Hq.
Qed.

(** Polling for exit signals. *)
Lemma poll_with (acquire : M nat) (Q : bio_ctx_t → Prop) c :
  (signal_polled (ring c) = true → Q c) →
  (signal_polled (ring c) = false → wp acquire (λ i c1, wf c1 ∧ new_entry c1 i ∧
    signal_polled (ring c1) = false ∧
    ∀ c' e, ring_step c1 c' → sqe_data e = PollData → ring_sq (ring c') = <[i := e]> (ring_sq (ring c1)) → Q c') c) →
  wp (poll_signal acquire) (λ _ c', Q c') c.
Proof.
  intros HQ Ha. unfold poll_signal. wp_steps. destruct (signal_polled (ring c)) eqn:Ep; [wp_steps; auto|].
  wp_use Ha; [done|]. intros i c1 (Hwf1 & Hi & Hp1 & Hk). wp_use prep_step; [done|exact Hi|].
  intros [] c2 (Hs2 & Hsq2 & Hp2).
  assert (Hi2 : ring_sq (ring c2) !! i = Some (mk_sqe (Some (OpRead (signalfd (ring c)) siginfo_size)) NoData)).
  { rewrite Hsq2. apply list_lookup_insert_eq. by eapply lookup_lt_Some. }
  wp_step. apply wp_on_ring. eapply set_data_spec; [exact Hi2|]. apply wp_on_ring. wp_steps.
  set (e := mk_sqe _ PollData). set (s3 := set_signal_polled (λ _, true) (set_ring_sq <[i := e]> (ring c2))).
  assert (Hok : ring_ok (K c2) s3).
  { eapply set_poll_ok; [apply wf_ring, Hs2|exact Hi2|done|congruence]. }
  apply (Hk _ e); [|done|].
  - apply (ring_step_trans _ c2); [done|]. apply (ring_step_set c2 s3); [apply Hs2|done|].
    split; try done. by apply (set_data_requests _ _ _ PollData Hi2).
  - cbn. by rewrite Hsq2, list_insert_insert_eq.
Qed.

Lemma poll_room n c :
  wf c → only_polls (ring c) →
  wp (poll_signal (acquire_io_req kernel (S n))) (λ _ c', ring_step c c' ∧ only_polls (ring c')) c.
Proof.
  intros Hwf Hp. apply (poll_with _ (λ c', ring_step c c' ∧ only_polls (ring c'))).
  - intros _. split; [by apply ring_step_refl|done].
  - intros Ep. eapply wp_mono; [by apply acquire_room, only_polls_room|].
    intros i c1 (Hs1 & Hi & -> & Hsq1 & Hp1). split_and!; [apply Hs1|done|congruence|].
    intros c2 e Hs2 He Hsq2. split; [by eapply ring_step_trans|].
    unfold only_polls. rewrite Hsq2, Hsq1, insert_app_r_alt, Nat.sub_diag by done.
    apply Forall_app. split; [done|]. by constructor.
Qed.

(** *** Completions *)

(** The completions [l] were looked at: the requests have their results, and the signals
    that their coroutines wait for were raised. *)
Record handled c (l : list io_uring_cqe) c' : Prop := {
  hd_ring : completed (ring c) l (ring c');
  hd_frame : frame c (rest c');
  hd_live : live (htab c') ⊆ live (htab c);
  hd_signals : ∀ p r, p ∈ addressees l → io_reqs (ring c) !! p = Some r → signal_raised c' (rq_signal r);
}.

Lemma handled_trans c1 l1 c2 l2 c3 : handled c1 l1 c2 → handled c2 l2 c3 → handled c1 (l1 ++ l2) c3.
Proof.
  intros [R1 F1 L1 S1] [R2 F2 L2 S2]. split; [by eapply completed_trans| |by etrans|].
  - etrans; [exact F1|]. apply (rest_frame _ _ F2).
  - intros p r Hp Hr. unfold addressees in Hp. rewrite fmap_app, omap_app, elem_of_app in Hp.
    destruct Hp as [Hp|Hp]; [by eapply signal_raised_live; [eapply S1|]|].
    pose proof (deliver_signal l1 (io_reqs (ring c1)) p) as E. rewrite <- (cp_reqs _ _ _ R1), Hr in E.
    destruct (io_reqs (ring c2) !! p) as [r2|] eqn:E2; [|done]. injection E as <-. by eapply S2.
Qed.

Lemma ring_step_handled c c' : ring_step c c' → handled c [] c'.
Proof.
  intros Hs. pose proof (ring_step_frame _ _ Hs) as Hf. destruct Hs as (Hwf & Hq & E). split.
  - by apply quiet_completed.
  - rewrite E. apply rest_set. by rewrite (qt_reqs _ _ Hq).
  - by rewrite E.
  - intros p r Hp. by apply not_elem_of_nil in Hp.
Qed.

(** No poll is made up. *)
Definition polls_less c c' : Prop := signal_polled (ring c) = false → signal_polled (ring c') = false.

(** One completion is handled. *)
Record one_handled c (cqe : io_uring_cqe) c' : Prop := {
  oh_wf : wf c';
  oh_polls : only_polls (ring c');
  oh_handled : handled c [cqe] c';
  oh_cq : ring_cq (ring c') = ring_cq (ring c);
  oh_head : cq_head (ring c') = cq_head (ring c);
  oh_seen : cq_seen (ring c') = S (cq_seen (ring c));
  oh_polled : polls_less c c';
}.

Definition poll_spec (poll : M unit) : Prop :=
  ∀ c, wf c → only_polls (ring c) → wp poll (λ _ c', ring_step c c' ∧ only_polls (ring c')) c.

Lemma unblock_watches : watches strict bio_platform_unblock_exit_signal.
Proof. intros todo' cur' c Hwf. apply wp_ret. by apply kept_same. Qed.

(** Where the ring alone changed: the conditions of [one_handled]. *)
Lemma handled_set c s cqe c' :
  ring_cq (ring c) !! cq_seen (ring c) = Some cqe → completed (ring c) [cqe] s →
  dom (io_reqs (ring c)) ⊆ dom (io_reqs s) →
  frame (set_bio_platform (λ _, s) c) c' → live (htab c') ⊆ live (htab c) → ring c' = s →
  (∀ p r, p ∈ addressees [cqe] → io_reqs (ring c) !! p = Some r → signal_raised c' (rq_signal r)) →
  handled c [cqe] c'.
Proof.
  intros He Hc Hd Hf Hl Hr Hs. split; [by rewrite Hr| |done..].
  etrans; [by apply (rest_set c s)|]. by apply rest_frame.
Qed.

(** The completion of the poll for exit signals: it is polled for again before the handlers
    are told. *)
Lemma handle_poll poll c cqe :
  poll_spec poll → wf c → only_polls (ring c) → ring_cq (ring c) !! cq_seen (ring c) = Some cqe →
  cqe_data cqe = PollData →
  wp (handle_completion poll cqe) (λ _ c', one_handled c cqe c') (set_bio_platform (set_cq_seen S) c).
Proof.
  intros Hpoll Hwf Hp He Hd. pose proof (see_ok _ _ _ (wf_ring _ Hwf) He) as Hok. rewrite Hd in Hok.
  destruct Hok as [Hpol Hok]. unfold handle_completion. rewrite Hd. wp_step. apply wp_on_ring. wp_step.
  set (s1 := set_signal_polled _ _). set (c1 := set_bio_platform _ _).
  assert (Ec : c1 = set_bio_platform (λ _, s1) c) by (unfold c1; ctx_eq).
  assert (Hwf1 : wf c1) by (rewrite Ec; by apply set_ring_wf).
  wp_use Hpoll; [done|done|]. intros [] c2 [Hs2 Hp2].
  unfold bio_handle_exit_signal. pose proof Hs2 as (Hwf2 & Hq2 & E2).
  eapply wp_mono; [eapply keeps_wp; [apply keeps_dispatch|apply dispatch_spec; [apply unblock_watches|exact Hwf2]]|].
  intros [] c3 ((Hwf3 & Hf3 & _ & Hl3 & _) & _ & Hring). cbn beta in *.
  assert (Hring2 : quiet s1 (ring c3)) by (rewrite Hring; exact Hq2).
  assert (Ec2 : c2 = set_bio_platform (λ _, ring c3) c) by (rewrite Hring, E2, Ec; ctx_eq).
  split; [done|by rewrite Hring| |apply Hring2..|by intros E; rewrite E in Hpol].
  apply (handled_set c (ring c3)); try done.
  - apply see_completed; try apply Hring2; [done|]. rewrite (qt_reqs _ _ Hring2). unfold deliver. by rewrite Hd.
  - by rewrite (qt_reqs _ _ Hring2).
  - by rewrite <- Ec2.
  - rewrite E2 in Hl3. exact Hl3.
  - intros p r Hr. unfold addressees in Hr. cbn in Hr. rewrite Hd in Hr. by apply not_elem_of_nil in Hr.
Qed.

(** The completion of a request. *)
Lemma handle_req poll c cqe p :
  wf c → only_polls (ring c) → ring_cq (ring c) !! cq_seen (ring c) = Some cqe →
  cqe_data cqe = ReqData p →
  wp (handle_completion poll cqe) (λ _ c', one_handled c cqe c') (set_bio_platform (set_cq_seen S) c).
Proof.
  intros Hwf Hp He Hd. pose proof (see_ok _ _ _ (wf_ring _ Hwf) He) as Hok. rewrite Hd in Hok.
  destruct Hok as ((r & Hr & Hk) & Hreq & Hok). unfold handle_completion. rewrite Hd. wp_steps. apply wp_on_ring. wp_step.
  set (s1 := set_io_reqs _ _). set (c1 := set_bio_platform _ _).
  assert (Ec : c1 = set_bio_platform (λ _, s1) c) by (unfold c1; ctx_eq).
  assert (Hok1 : ring_ok (K c) s1) by (apply set_req_ok; [exact Hok|by eexists|done]).
  assert (Hwf1 : wf c1) by (rewrite Ec; by apply set_ring_wf).
  wp_step. eapply wp_mono; [eapply keeps_wp; [apply keeps_raise|apply raise_keeps_pool; [exact Hwf1|by rewrite Ec]]|].
  intros b c3 ((Hwf3 & Hf3 & _ & Hl3 & Hs3) & _ & Hring). wp_steps. cbn beta in *.
  assert (Er : ring c3 = s1) by exact Hring.
  assert (Hc : completed (ring c) [cqe] s1).
  { apply see_completed; try done. unfold deliver. rewrite Hd. apply map_eq. intros p'. cbn.
    destruct (decide (p' = p)) as [->|Hne].
    - rewrite lookup_insert_eq, lookup_alter_eq. by rewrite Hr.
    - by rewrite lookup_insert_ne, lookup_alter_ne. }
  split; rewrite ?Er; try done; [|by unfold polls_less; rewrite Er].
  apply (handled_set c s1); try done.
  - cbn. rewrite dom_insert. set_solver.
  - intros p' r' Hp' Hr'. unfold addressees in Hp'. cbn in Hp'. rewrite Hd in Hp'.
    apply list_elem_of_singleton in Hp' as ->. by simplify_eq.
Qed.

Lemma handle_spec poll c cqe :
  poll_spec poll → wf c → only_polls (ring c) → ring_cq (ring c) !! cq_seen (ring c) = Some cqe →
  wp (handle_completion poll cqe) (λ _ c', one_handled c cqe c') (set_bio_platform (set_cq_seen S) c).
Proof.
  intros Hpoll Hwf Hp He. destruct (cqe_data cqe) as [| |p] eqn:Hd.
  - pose proof (see_ok _ _ _ (wf_ring _ Hwf) He) as Hok. rewrite Hd in Hok.
    unfold handle_completion. rewrite Hd. wp_steps. set (c1 := set_bio_platform _ c).
    assert (Hwf1 : wf c1) by by apply (set_ring_wf c (set_cq_seen S (ring c))).
    split; [done|exact Hp| |done..|by intros ?].
    apply (handled_set c (set_cq_seen S (ring c))); try done.
    + apply see_completed; try done. unfold deliver. by rewrite Hd.
    + intros p r Hr. unfold addressees in Hr. cbn in Hr. rewrite Hd in Hr. by apply not_elem_of_nil in Hr.
  - by apply handle_poll.
  - by eapply handle_req.
Qed.

(** The completions from the first one that was not looked at to the last one. *)
Definition unseen c : list io_uring_cqe := drop (cq_seen (ring c)) (ring_cq (ring c)).

Record drained_from c c' : Prop := {
  df_wf : wf c';
  df_polls : only_polls (ring c');
  df_handled : handled c (unseen c) c';
  df_head : cq_head (ring c') = cq_head (ring c);
  df_seen : cq_seen (ring c') = length (ring_cq (ring c'));
  df_cq : ring_cq (ring c') = ring_cq (ring c);
  df_polled : polls_less c c';
}.

Lemma drain_completions_spec poll fuel i c :
  poll_spec poll → wf c → only_polls (ring c) → (length (unseen c) < fuel)%nat →
  wp (drain_completions poll fuel (cq_seen (ring c)) i) (λ n c', drained_from c c' ∧
    n = (i + length (unseen c))%nat) c.
Proof.
  intros Hpoll. revert i c. induction fuel as [|fuel IH]; intros i c Hwf Hp Hf; [lia|].
  cbn [drain_completions]. wp_step. wp_step. pose proof (rg_head _ _ (wf_ring _ Hwf)) as Hh.
  case_decide as Hd.
  { wp_steps. unfold unseen. rewrite Hd, drop_all. cbn. split; [|lia].
    split; try done; unfold unseen; rewrite ?Hd, ?drop_all; [|by intros ?].
    by apply ring_step_handled, ring_step_refl. }
  destruct (lookup_lt_is_Some_2 (ring_cq (ring c)) (cq_seen (ring c))) as [cqe He]; [lia|].
  assert (Hu : unseen c = cqe :: drop (S (cq_seen (ring c))) (ring_cq (ring c))) by by apply drop_S.
  wp_step. eapply wp_need; [exact He|]. wp_step. apply wp_on_ring. wp_step.
  replace (set_bio_platform _ c) with (set_bio_platform (set_cq_seen S) c) by ctx_eq.
  wp_use handle_spec; [done..|]. intros [] c1 H1.
  assert (Hu1 : unseen c = cqe :: unseen c1) by (unfold unseen at 2; by rewrite (oh_cq _ _ _ H1), (oh_seen _ _ _ H1)).
  rewrite <- (oh_seen _ _ _ H1). eapply wp_mono; [apply IH; [apply H1|apply H1|]|].
  { rewrite Hu1 in Hf. cbn in Hf. lia. }
  intros n c2 [H2 ->]. rewrite Hu1. split; [|cbn; lia]. split.
  - apply H2.
  - apply H2.
  - rewrite Hu1. apply (handled_trans _ [cqe] c1); [apply H1|apply H2].
  - rewrite (df_head _ _ H2). apply H1.
  - apply H2.
  - rewrite (df_cq _ _ H2). apply H1.
  - intros Hs%(oh_polled _ _ _ H1). by apply (df_polled _ _ H2).
Qed.

(** All completions are consumed. *)
Record swept c (l : list io_uring_cqe) c' : Prop := {
  sw_wf : wf c';
  sw_polls : only_polls (ring c');
  sw_handled : handled c l c';
  sw_idle : io_idle c';
  sw_all : cq_head (ring c') = length (ring_cq (ring c'));
  sw_polled : polls_less c c';
}.

Lemma drain_spec poll c :
  poll_spec poll → wf c → only_polls (ring c) → io_idle c →
  wp (drain_io_completions poll) (λ _ c', swept c (unseen c) c') c.
Proof.
  intros Hpoll Hwf Hp Hid. unfold drain_io_completions. wp_steps. unfold io_idle in Hid. rewrite <- Hid.
  eapply wp_mono; [apply drain_completions_spec; [done..|]|].
  { unfold unseen. rewrite length_drop. lia. }
  intros n c1 [H1 ->]. apply wp_on_ring. unfold io_uring_cq_advance. wp_step.
  pose proof (rg_head _ _ (wf_ring _ Hwf)) as Hh.
  replace (set_bio_platform _ c1) with (rest c1); cycle 1.
  { unfold rest. destruct c1, bio_platform. pose proof (df_head _ _ H1) as E1. pose proof (df_seen _ _ H1) as E2.
    pose proof (df_cq _ _ H1) as E3. cbn in *. unfold set_bio_platform, set_cq_head. cbn. do 2 f_equal.
    subst. unfold unseen. rewrite length_drop. lia. }
  split.
  - apply (set_ring_wf c1 (set_cq_head (λ _, cq_seen (ring c1)) (ring c1))); [apply H1|].
    pose proof (wf_ring _ (df_wf _ _ H1)) as Hok.
    apply (ring_ok_perm _ (ring c1)); try done; [apply Hok|]. cbn. pose proof (rg_head _ _ Hok). lia.
  - apply H1.
  - destruct (df_handled _ _ H1) as [[] ? ? ?]. by split; [split| | |].
  - done.
  - apply H1.
  - apply H1.
Qed.

(** *** Entering the kernel *)

Lemma enter_step wait c (Q : Z → bio_ctx_t → Prop) :
  wf c → io_idle c →
  (∀ r c', wf c' → io_idle c' → handled c [] c' → ring_sq (ring c') = [] →
    signal_polled (ring c') = signal_polled (ring c) → Q r c') →
  wp (on_ring (io_uring_enter kernel wait)) Q c.
Proof.
  intros Hwf Hid HQ. apply wp_on_ring. pose proof (wf_ring _ Hwf) as Hok.
  eapply enter_spec; [exact accepts|exact Hok|]. intros r s Hs Hran. apply HQ.
  - by apply set_ring_wf.
  - unfold io_idle in *. cbn. by rewrite (kr_seen _ _ Hran), (kr_head _ _ Hran).
  - split.
    + by eapply kernel_ran_completed.
    + apply rest_set. by rewrite (kr_reqs _ _ Hran).
    + done.
    + intros p r' Hp. by apply not_elem_of_nil in Hp.
  - apply Hran.
  - apply Hran.
Qed.

(** Entering the kernel and serving what is completed. *)
Lemma enter_drain_spec wait poll c :
  poll_spec poll → wf c → io_idle c →
  wp (_ ← on_ring (io_uring_enter kernel wait); drain_io_completions poll) (λ _ c', ∃ l, swept c l c') c.
Proof.
  intros Hpoll Hwf Hid. apply wp_bind, enter_step; [done..|]. intros _ c1 Hwf1 Hid1 H1 Hsq Hp.
  eapply wp_mono; [apply drain_spec; [done..|unfold only_polls; rewrite Hsq; constructor|done]|].
  intros [] c2 H2. exists (unseen c1). split; try apply H2.
  - apply (handled_trans _ [] c1); [done|apply H2].
  - intros Hs. apply (sw_polled _ _ _ H2). by rewrite Hp.
Qed.

(** *** [bio_acquire_io_req] *)

Definition acquired c (i : nat) c' : Prop :=
  wf c' ∧ io_idle c' ∧ new_entry c' i ∧ polls_less c c' ∧ ∃ l, handled c l c'.

Lemma acquire_spec c :
  wf c → io_idle c → wp (bio_acquire_io_req kernel) (acquired c) c.
Proof.
  intros Hwf Hid. destruct (decide (has_room (ring c))) as [Hr|Hr].
  { eapply wp_mono; [by apply (acquire_room 1)|]. intros i c1 (Hs & Hi & _ & _ & Hp).
    split_and!; [apply Hs| |done| |exists []; by apply ring_step_handled].
    - by apply (le_idle _ _ (calm_le _ _ (frame_calm _ _ (ring_step_frame _ _ Hs)))).
    - unfold polls_less. by rewrite Hp. }
  unfold bio_acquire_io_req. change 2%nat with (S 1). remember 1%nat as n eqn:En. cbn [acquire_io_req].
  wp_step. apply wp_on_ring. apply (get_sqe_spec (K c)); [by apply wf_ring| |].
  { intros i s' _ _ Hlt. by unfold has_room in Hr. }
  intros _. replace (set_bio_platform _ c) with c by ctx_eq. subst n.
  assert (Hpoll : poll_spec (poll_signal (acquire_io_req kernel 1))) by (intros c1 ? ?; by apply (poll_room 0)).
  pose proof (enter_drain_spec GetEvents _ c Hpoll Hwf Hid) as He. apply wp_bind_inv in He.
  apply wp_bind. eapply wp_mono; [exact He|]. cbn beta. clear He.
  intros r c1 Hd. apply wp_bind. eapply wp_mono; [exact Hd|]. clear c1 Hd. intros [] c1 [l H1].
  eapply wp_mono; [apply (acquire_room 0); [apply H1|apply only_polls_room; apply H1]|].
  intros i c2 (Hs & Hi & _ & _ & Hp). split_and!; [apply Hs| |done| |].
  - apply (le_idle _ _ (calm_le _ _ (frame_calm _ _ (ring_step_frame _ _ Hs)))), H1.
  - intros Ep. rewrite Hp. by apply (sw_polled _ _ _ H1).
  - exists (l ++ []). eapply handled_trans; [apply H1|by apply ring_step_handled].
Qed.

Lemma handled_frame c l c' : handled c l c' → io_idle c' → frame c c'.
Proof. intros H Hid. pose proof (hd_frame _ _ _ H) as Hf. by rewrite (rest_idle _ Hid) in Hf. Qed.

(** Anything that is done to the ring between two points of rest. *)
Definition served c c' : Prop := wf c' ∧ io_idle c' ∧ ∃ l, handled c l c'.

Lemma served_trans c1 c2 c3 : served c1 c2 → served c2 c3 → served c1 c3.
Proof. intros (_ & _ & l1 & H1) (? & ? & l2 & H2). split_and!; [done|done|]. exists (l1 ++ l2). by eapply handled_trans. Qed.

Lemma ring_step_served c c' : io_idle c → ring_step c c' → served c c'.
Proof.
  intros Hid Hs. split_and!; [apply Hs| |exists []; by apply ring_step_handled].
  by apply (le_idle _ _ (calm_le _ _ (frame_calm _ _ (ring_step_frame _ _ Hs)))).
Qed.

Lemma swept_served c l c' : swept c l c' → served c c'.
Proof. intros H. split_and!; [apply H|apply H|exists l; apply H]. Qed.

(** [bio_platform_poll_signal], whatever the queues hold. *)
Lemma platform_poll_spec c :
  wf c → io_idle c → wp (bio_platform_poll_signal kernel) (λ _ c', served c c') c.
Proof.
  intros Hwf Hid. apply (poll_with _ (served c)).
  - intros _. apply ring_step_served; [done|by apply ring_step_refl].
  - intros Ep. eapply wp_mono; [by apply acquire_spec|]. intros i c1 (Hwf1 & Hid1 & Hi & Hp & l & Hl).
    split_and!; [done|done|by apply Hp|]. intros c2 e Hs _ _.
    apply (served_trans _ c1); [split_and!; [done|done|by exists l]|by apply ring_step_served].
Qed.

(** *** Requests of coroutines *)

Lemma served_kept {A} (P : A → bio_ctx_t → Prop) a c c' :
  served c c' → P a c' → kept strict todo cur c P a c'.
Proof. intros (Hwf & Hid & l & Hl) HP. split_and!; [done|by eapply handled_frame|done]. Qed.

(** The request is on its way when the coroutine waits for its signal. *)
Lemma submit_start_spec op c :
  wf c → io_idle c →
  wp (sqe ← bio_acquire_io_req kernel; _ ← on_ring (prep sqe op); submit_begin sqe)
    (kept strict todo cur c (λ r c', hk c' r.1 ∧ io_reqs (ring c') !! r.2 = Some (mk_io_req r.1 0 0) ∧
      r.2 ∈ requests (ring c'))) c.
Proof.
  intros Hwf Hid. wp_use acquire_spec; [done..|]. intros i c1 (Hwf1 & Hid1 & Hi & _ & Hl).
  wp_use prep_step; [done|exact Hi|]. intros [] c2 (Hs2 & Hsq2 & _). pose proof Hs2 as (Hwf2 & _).
  assert (Hi2 : ring_sq (ring c2) !! i = Some (mk_sqe (Some op) NoData)).
  { rewrite Hsq2. apply list_lookup_insert_eq. by eapply lookup_lt_Some. }
  assert (H2 : served c c2).
  { apply (served_trans _ c1); [by split_and!|by apply ring_step_served]. }
  unfold submit_begin. apply wp_bind.
  eapply wp_mono; [eapply keeps_wp; [apply keeps_make_signal|by apply make_signal_spec]|].
  intros h c3 ((Hwf3 & Hf3 & Hk & _) & _ & Hring). cbn beta in *. rewrite <- Hring in Hi2.
  wp_step. apply wp_on_ring. eapply begin_req_spec; [by apply wf_ring|exact Hi2|done|exact Hk|].
  intros s Hok Hq Hhead Hseen Hreqs. wp_steps. set (c4 := set_bio_platform _ c3).
  assert (Hf4 : frame c3 c4).
  { apply set_ring_frame; [unfold io_idle; congruence|]. rewrite Hreqs, dom_insert. set_solver. }
  split_and!.
  - by apply set_ring_wf.
  - etrans; [|exact Hf4]. etrans; [|exact Hf3]. destruct H2 as (_ & ? & l & ?). by eapply handled_frame.
  - done.
  - cbn. rewrite Hreqs. apply lookup_insert_eq.
  - cbn. rewrite Hq. by left.
Qed.

(** What the platform promises to the event loop and to the exit handlers. *)
Lemma block_spec c :
  wf c → io_idle c → wp (bio_platform_block_exit_signal kernel) (kept strict todo cur c (λ _ _, True)) c.
Proof. intros Hwf Hid. eapply wp_mono; [by apply platform_poll_spec|]. intros [] c' H. by apply served_kept. Qed.

(** *** [bio_platform_update] *)

Context (schedule : nat → list nat).

Lemma bio_poll_ok : poll_spec (bio_platform_poll_signal kernel).
Proof. intros c Hwf Hp. by apply (poll_room 1). Qed.

(** All completions that there are were served. *)
Definition updated c c' : Prop := served c c' ∧ cq_head (ring c') = length (ring_cq (ring c')).

Lemma updated_trans c1 c2 c3 : served c1 c2 → updated c2 c3 → updated c1 c3.
Proof. intros H1 [H2 E]. split; [by eapply served_trans|done]. Qed.

Lemma update_no_wait_spec c :
  wf c → io_idle c → wp (bio_platform_update_no_wait kernel) (λ _ c', updated c c') c.
Proof.
  intros Hwf Hid. eapply wp_mono; [by apply enter_drain_spec; [apply bio_poll_ok|..]|].
  intros [] c' [l H]. split; [by eapply swept_served|apply H].
Qed.

Lemma update_wait_spec timeout c :
  wf c → io_idle c → wp (bio_platform_update_wait kernel timeout) (λ _ c', updated c c') c.
Proof.
  intros Hwf Hid. unfold bio_platform_update_wait. destruct (timeout >? 0); cycle 1.
  { eapply wp_mono; [by apply enter_drain_spec; [apply bio_poll_ok|..]|].
    intros [] c' [l H]. split; [by eapply swept_served|apply H]. }
  wp_step. apply enter_step; [done..|]. intros n c1 Hwf1 Hid1 H1 Hsq _. cbn beta.
  assert (Hs1 : served c c1) by (split_and!; [done|done|by exists []]). wp_step. wp_step.
  wp_step. apply (wp_mono _ (λ _ c2, updated c1 c2)).
  { unfold io_uring_peek_cqe. destruct (_ !! _) as [cqe|] eqn:He.
    - eapply wp_mono; [apply drain_spec; [apply bio_poll_ok|done|unfold only_polls; rewrite Hsq; constructor|done]|].
      intros [] c2 H2. split; [by eapply swept_served|apply H2].
    - wp_steps. split; [apply ring_step_served; [done|by apply ring_step_refl]|].
      apply lookup_ge_None in He. pose proof (rg_head _ _ (wf_ring _ Hwf1)). lia. }
  intros [] c2 H2. pose proof (updated_trans _ _ _ Hs1 H2) as H2'. case_match.
  - eapply wp_mono; [apply update_no_wait_spec; apply H2|]. intros [] c3 H3.
    eapply updated_trans; [apply H2'|done].
  - by wp_steps.
Qed.

(** Steps of the workers. *)
Lemma load_counter_spec c :
  wf c → io_idle c → wp (load_notification_counter schedule) (λ _ c', served c c' ∧ ring c' = ring c) c.
Proof.
  intros Hwf Hid. unfold load_notification_counter. apply wp_on_pool. wp_step.
  apply (wp_mono _ (λ _ p, pool_ok (K c) p ∧ length (pl_workers p) = num_workers c)).
  - destruct (ex_pool _ _ _ (wf_ext _ _ _ _ Hwf)) as [E|Hok].
    + unfold look. wp_steps. unfold wp. rewrite run_workers_none by done. split; [by left|done].
    + eapply wp_mono; [by apply look_spec|]. intros [] p [Hok' Hw]. split; [by right|by apply worked_length].
  - intros [] p [Hok Hl]. wp_steps. split; [|done]. split_and!; [by apply set_pool_wf|done|]. exists []. split.
    + by apply quiet_completed.
    + rewrite rest_idle by done. apply set_pool_frame. lia.
    + done.
    + intros p' r Hp. by apply not_elem_of_nil in Hp.
Qed.

Lemma submit_silent_spec op c :
  wf c → io_idle c → wp (submit_silent kernel op) (λ _ c', served c c') c.
Proof.
  intros Hwf Hid. unfold submit_silent. wp_use acquire_spec; [done..|].
  intros i c1 (Hwf1 & Hid1 & Hi & _ & Hl). wp_use prep_step; [done|exact Hi|].
  intros [] c2 (Hs2 & Hsq2 & _). pose proof Hs2 as (Hwf2 & _).
  assert (Hi2 : ring_sq (ring c2) !! i = Some (mk_sqe (Some op) NoData)).
  { rewrite Hsq2. apply list_lookup_insert_eq. by eapply lookup_lt_Some. }
  apply wp_on_ring. eapply set_data_spec; [exact Hi2|].
  apply (served_trans _ c1); [by split_and!|].
  apply (served_trans _ c2); [by apply ring_step_served|].
  replace (set_ring_sq _ (ring c2)) with (ring c2); cycle 1.
  { destruct c2, bio_platform. cbn in *. unfold set_ring_sq. cbn. f_equal. symmetry. by apply list_insert_id. }
  apply ring_step_served; [|by apply ring_step_set; [|apply wf_ring|]].
  by apply (le_idle _ _ (calm_le _ _ (frame_calm _ _ (ring_step_frame _ _ Hs2)))).
Qed.

(** A change of the counters of the platform. *)
Lemma set_ack_updated n c0 c :
  updated c0 c → wp (on_ring (modify (set_ack_counter n))) (λ _ c', updated c0 c') c.
Proof.
  intros [Hs E]. pose proof Hs as (Hwf & Hid & _). apply wp_on_ring. wp_step. split; [|done].
  apply (served_trans _ c); [done|]. apply ring_step_served; [done|]. apply ring_step_set; [done| |done].
  by destruct (wf_ring _ Hwf).
Qed.

Lemma platform_update_spec timeout notifiable c :
  wf c → io_idle c →
  wp (bio_platform_update kernel schedule timeout notifiable) (λ _ c', updated c c') c.
Proof.
  intros Hwf Hid. unfold bio_platform_update. destruct (timeout =? 0); [by apply update_no_wait_spec|].
  assert (Hsilent : ∀ op c1, served c c1 → wp (if notifiable then submit_silent kernel op else mret tt)
    (λ _ c', served c c') c1).
  { intros op c1 Hs. destruct notifiable; [|by apply wp_ret]. eapply wp_mono; [apply submit_silent_spec; apply Hs|].
    intros [] c2 Hs2. by eapply served_trans. }
  wp_step. wp_step. destruct (has_op_futex_wait _).
  - wp_use load_counter_spec; [done..|]. intros counter c1 [H1 _]. wp_steps. destruct (negb _).
    + wp_use update_no_wait_spec; [apply H1|apply H1|]. intros [] c2 H2.
      apply set_ack_updated. by eapply updated_trans.
    + wp_use Hsilent; [done|]. intros [] c2 H2. wp_use update_wait_spec; [apply H2..|].
      intros [] c3 H3. wp_use load_counter_spec; [apply H3..|].
      intros counter' c4 [H4 E]. apply set_ack_updated. pose proof (updated_trans _ _ _ H2 H3) as [H3' E'].
      split; [by eapply served_trans|by rewrite E].
  - wp_use Hsilent; [split_and!; [done|done|]; exists []; by apply ring_step_handled, ring_step_refl|].
    intros [] c2 H2. eapply wp_mono; [apply update_wait_spec; apply H2|]. intros [] c3. by apply updated_trans.
Qed.
End spec.

(** ** The platform, from the point of view of a waiting coroutine *)

Section correct.
Context (kernel : nat → ring_wait → kernel_step) (schedule : nat → list nat).

(** What an update has done with the completions [l]: all that there are now were consumed;
    each belongs to one request, which has its result and whose signal was raised; the other
    requests are as they were. *)
Record completions_served (c : bio_ctx_t) (l : list io_uring_cqe) (c' : bio_ctx_t) : Prop := {
  cs_all : ring_cq (bio_platform c') = take (cq_head (bio_platform c)) (ring_cq (bio_platform c)) ++ l;
  cs_head : cq_head (bio_platform c') = length (ring_cq (bio_platform c'));
  cs_once : NoDup (addressees l);
  cs_results : ∀ cqe p, cqe ∈ l → cqe_data cqe = ReqData p → ∃ r,
    io_reqs (bio_platform c) !! p = Some r ∧
    io_reqs (bio_platform c') !! p = Some (mk_io_req (rq_signal r) (cqe_res cqe) (cqe_flags cqe)) ∧
    signal_raised c' (rq_signal r);
  cs_others : ∀ p, p ∉ addressees l → io_reqs (bio_platform c') !! p = io_reqs (bio_platform c) !! p;
  cs_pending : requests (bio_platform c) ≡ₚ addressees l ++ requests (bio_platform c');
}.

Lemma updated_served strict todo cur c c' :
  wf strict todo cur c → io_idle c → updated strict todo cur c c' → ∃ l, completions_served c l c'.
Proof.
  intros Hwf Hid [(Hwf' & Hid' & l & [[H1 H2 H3 H4] _ _ H5]) Hall]. exists l.
  pose proof (ex_ring _ _ _ (wf_ext _ _ _ _ Hwf)) as Hok.
  assert (Hnd : NoDup (addressees l)).
  { pose proof (rg_once _ _ Hok) as Hnd. rewrite H4 in Hnd. by apply NoDup_app in Hnd as []. }
  assert (Hin : ∀ cqe p, cqe ∈ l → cqe_data cqe = ReqData p → p ∈ addressees l).
  { intros cqe p Hl Hd. apply list_elem_of_omap. exists (cqe_data cqe). split; [|by rewrite Hd].
    by apply list_elem_of_fmap_2. }
  split; [|done|done| | |done].
  - unfold looked_at, io_idle in *. rewrite Hid', Hall, firstn_all, Hid in H2. done.
  - intros cqe p Hl Hd. destruct (rg_reqs _ _ Hok p) as [r Hr].
    { rewrite H4. apply elem_of_app. left. by eapply Hin. }
    exists r. split_and!; [done| |by eapply H5; [eapply Hin|]]. rewrite H3. by apply deliver_once.
  - intros p Hp. rewrite H3. by apply deliver_other.
Qed.

(** C6: Every completion that the kernel has posted is delivered once, to the request that
    it is for: the request gets its result and its flags, and the signal of the coroutine
    that waits for it is raised. No completion is left behind and no request is touched
    that was not completed, whatever the kernel does meanwhile. *)
Theorem completions_delivered_once strict todo timeout notifiable c :
  kernel_accepts kernel → wf strict todo None c → io_idle c →
  wp (bio_platform_update kernel schedule timeout notifiable) (λ _ c',
    wf strict todo None c' ∧ ∃ l, completions_served c l c') c.
Proof.
  intros Hk Hwf Hid. eapply wp_mono; [by apply platform_update_spec|]. intros [] c' Hu.
  split; [apply Hu|]. by eapply updated_served.
Qed.
End correct.

(** ** In coroutines *)

Section protocol.
Context (kernel : nat → ring_wait → kernel_step) (accepts : kernel_accepts kernel).
Context (strict : Prop) (upre : positive → option loc → bio_ctx_t → Prop) `{!StablePre upre}.

(** [bio_submit_io_req], with the preparation of the entry: the request outlives the wait
    for its completion. *)
Lemma safe_submit_io_req q op (Q : Z * Z → bio_ctx_t → Prop) c :
  (∀ r c', rely q c c' → Q r c') → safe strict upre q (bio_submit_io_req kernel op) Q c.
Proof.
  intros HQ. apply safe_bind. eapply safe_step with
    (P := λ r c', hk c' r.1 ∧ r.2 ∈ dom (io_reqs (bio_platform c'))).
  - intros todo c' Hr Hinv. eapply wp_mono; [apply (submit_start_spec _ accepts); apply Hinv|].
    intros r c'' Hk. eapply kept_impl; [exact Hk|]. intros _ (? & Hp & _). split; [done|].
    by eapply elem_of_dom_2.
  - intros r c1 c2 Hr1 [Hh Hp] Hr2. apply safe_bind, safe_wait_one; [by eapply rely_hk|].
    intros c3 Hr3. eapply safe_read with (P := λ _ _, True).
    + intros todo c' Hr4 _. assert (Hr : rely q c1 c') by (do 2 (etrans; [done|]); done).
      assert (Hi : r.2 ∈ dom (io_reqs (bio_platform c'))) by (apply Hr; exact Hp).
      apply elem_of_dom in Hi as [x Hx]. unfold submit_end. wp_steps. done.
    + intros x c4 c5 Hr4 _ Hr5. apply HQ. do 4 (etrans; [done|]). done.
Qed.

Lemma safe_io_close q fd (Q : Z → bio_ctx_t → Prop) c :
  (∀ r c', rely q c c' → Q r c') → safe strict upre q (bio_io_close kernel fd) Q c.
Proof.
  intros HQ. apply safe_bind, safe_submit_io_req. intros r c' Hr. apply safe_ret.
  intros c2 Hr2. apply HQ. by etrans.
Qed.
End protocol.
