(* ===== verification/Loop.v ===== *)
(** The event loop ([bio_loop] in [src/scheduler.c]): running coroutines, their
    end, and the theorem that programs which respect the protocol run without
    memory errors. *)
From S2P Require Import Prelude Bits HandleTable TimerHeap Ctx Prog Store Ring Invariant Signal.
From S2P Require Import Timer Coro Finish Mailbox Protocol TimerCoro Client Service.

(** ** The code *)

(** The library with the stacks of its coroutines: what is left to run of each
    coroutine that was started. *)
Record machine := mk_machine {
  mc_ctx : bio_ctx_t;
  mc_stacks : gmap loc (prog unit);
}.

Definition set_mc_ctx (c : bio_ctx_t) (m : machine) : machine := mk_machine c (mc_stacks m).
Definition set_mc_stacks (f : gmap loc (prog unit) → gmap loc (prog unit)) (m : machine) : machine :=
  mk_machine (mc_ctx m) (f (mc_stacks m)).

(** Steps of the event loop. *)
Definition LM : Type → Type := st machine.
#[export] Instance LM_ret : MRet LM := st_ret machine.
#[export] Instance LM_bind : MBind LM := st_bind machine.

Definition lift {A} : M A → LM A := zoom mc_ctx set_mc_ctx.

(** What the event loop uses of the platform ([bio_platform_update]) and of the
    asynchronous jobs ([bio_thread_update], [bio_num_running_async_jobs]). *)
Record platform := mk_platform {
  pf_update : Z → bool → M unit;
  pf_thread_update : M unit;
  pf_num_running_async_jobs : M Z;
}.

Section code.
Context (clock : nat → Z) (user : positive → option loc → prog unit).
(** [cls->cleanup], for every specification [cls]. *)
Context (cls_cleanup : loc → loc → M unit).
Context (P : platform).

(** [bio_coro_entry_wrapper]: calls the entry point. *)
Definition bio_coro_entry_wrapper (args : bio_coro_impl_t) : prog unit :=
  match co_entrypoint args, co_userdata args with
  | bio_timer_entry_fn, Some impl => bio_timer_entry clock user impl
  | bio_service_wrapper_fn, Some service_data => bio_service_wrapper user service_data
  | user_fn n, userdata => user n userdata
  | _, None => Act (fail NullDeref)
  end.

(** [mco_resume(coro->impl)]: starts the coroutine, or continues it. *)
Definition mco_resume (fuel : nat) (coro : loc) : LM (outcome unit) :=
  args ← lift (deref_coro coro);
  stacks ← gets mc_stacks;
  _ ← lift (modify (set_mco_running (λ _, Some coro)));
  o ← lift (resume fuel (default (bio_coro_entry_wrapper args) (stacks !! coro)));
  _ ← lift (modify (set_mco_running (λ _, None)));
  _ ← match o with
      | Suspended p => modify (set_mc_stacks <[coro := p]>)
      | _ => mret tt
      end;
  mret o.

(** After the coroutine yielded: it waits, or it is scheduled again. *)
Definition reschedule (coro : loc) : M unit :=
  co ← deref_coro coro;
  let waiting := co_num_blocking_signals co >? 0 in
  _ ← update_coro coro (set_co_state (λ _, if waiting then BIO_CORO_WAITING else BIO_CORO_READY));
  if waiting then mret tt else push_ready coro.

(** One round of the inner loop of [bio_loop]: whether the coroutine gave up
    control within [fuel]. *)
Definition run_coro (fuel : nat) (coro : loc) : LM bool :=
  _ ← lift (update_coro coro (set_co_state (λ _, BIO_CORO_RUNNING)));
  _ ← lift (update_coro coro (set_co_num_blocking_signals (λ _, 0)));
  o ← mco_resume fuel coro;
  match o with
  | Suspended _ => _ ← lift (reschedule coro); mret true
  | Finished _ =>
      _ ← lift (finish_coro cls_cleanup coro);
      _ ← modify (set_mc_stacks (delete coro));  (* mco_destroy *)
      mret true
  | Spinning => mret false
  end.

(** The inner loop of [bio_loop], over [current_ready_coros], to which nothing
    is added meanwhile. *)
Fixpoint run_coros (fuel : nat) (coros : list loc) : LM bool :=
  match coros with
  | [] => mret true
  | coro :: coros =>
      ok ← run_coro fuel coro;
      if ok : bool then run_coros fuel coros else mret false
  end.

(** Whether [bio_loop] ends. *)
Definition should_terminate (c : bio_ctx_t) : bool :=
  if is_terminating c then num_coros c =? 0 else num_coros c =? num_daemons c.

(** Polling jobs, timers and I/O. *)
Definition poll : M unit :=
  _ ← pf_thread_update P;
  _ ← bio_timer_update clock;
  ready ← gets next_ready_coros;
  let should_wait_for_io := zlen ready =? 0 in
  timeout ← (if should_wait_for_io then bio_time_until_next_timer clock else mret 0);
  jobs ← pf_num_running_async_jobs P;
  _ ← pf_update P timeout (jobs >? 0);
  if should_wait_for_io then
    _ ← pf_thread_update P;
    bio_timer_update clock
  else mret tt.

Definition swap_ready : M unit :=
  tmp ← gets next_ready_coros;
  current ← gets current_ready_coros;
  _ ← modify (set_next_ready_coros (λ _, current));
  modify (set_current_ready_coros (λ _, tmp)).

(** How [bio_loop] got on: it ended; a coroutine did not give up control; it
    was still running when it was cut off. *)
Inductive loop_result := LoopDone | LoopSpinning | LoopRunning.

(** One round of the outer loop of [bio_loop]. *)
Definition bio_loop_round (fuel : nat) : LM loop_result :=
  current ← lift (gets current_ready_coros);
  ok ← run_coros fuel current;
  if ok : bool then
    _ ← lift (modify (set_current_ready_coros (λ _, [])));
    c ← gets mc_ctx;
    if should_terminate c then mret LoopDone
    else
      _ ← lift poll;
      _ ← lift swap_ready;
      mret LoopRunning
  else mret LoopSpinning.

(** [bio_loop], for [rounds] rounds. *)
Fixpoint bio_loop (fuel rounds : nat) : LM loop_result :=
  match rounds with
  | O => mret LoopRunning
  | S rounds =>
      r ← bio_loop_round fuel;
      match r with
      | LoopRunning => bio_loop fuel rounds
      | _ => mret r
      end
  end.
End code.

(** ** Safety *)

Lemma wp_lift {A} (m : M A) (Q : A → machine → Prop) s :
  wp m (λ a c, Q a (set_mc_ctx c s)) (mc_ctx s) → wp (lift m) Q s.
Proof. apply (wp_zoom mc_ctx set_mc_ctx). Qed.

Ltac lm_steps := repeat first [ctx_step | apply wp_lift; cbn beta; cbn [mc_stacks mc_ctx set_mc_ctx]].

(** What the event loop counts on: the platform and the jobs may raise signals
    and send messages, between the runs of the coroutines. *)
Record platform_ok (strict : Prop) (P : platform) : Prop := {
  pf_update_ok : ∀ todo c timeout notifiable, wf strict todo None c →
    mco_running c = None → io_idle c →
    wp (pf_update P timeout notifiable) (kept strict todo None c (λ _ _, True)) c;
  pf_thread_ok : ∀ todo c, wf strict todo None c → mco_running c = None →
    wp (pf_thread_update P) (kept strict todo None c (λ _ _, True)) c;
  pf_jobs_ok : ∀ c, wp (pf_num_running_async_jobs P) (λ _ c', c' = c) c;
}.

(** The cleanup functions of coroutine-local storage likewise. *)
Definition cleanups_ok (strict : Prop) (cls_cleanup : loc → loc → M unit) : Prop :=
  ∀ todo q spec d c, wf strict todo (Some q) c → mco_running c = None →
    wp (cls_cleanup spec d) (kept strict todo (Some q) c (λ _ _, True)) c.

Section loop.
Context (strict : Prop) (upre : positive → option loc → bio_ctx_t → Prop) `{!StablePre upre}.
Context (clock : nat → Z) (user : positive → option loc → prog unit).
Context (cls_cleanup : loc → loc → M unit) (P : platform).
Context (user_ok : ∀ q n u c, upre n u c → safe strict upre q (user n u) (λ _ _, True) c).
Context (cleanup_ok : cleanups_ok strict cls_cleanup) (P_ok : platform_ok strict P).

Abbreviation safe_stack q p c := (safe_own strict upre false q p (λ _ _, True) c).

(** A coroutine that was started may be continued, a new one may be started. *)
Definition stack_ok (c : bio_ctx_t) (stacks : gmap loc (prog unit)) (q : loc) (co : bio_coro_impl_t) : Prop :=
  match stacks !! q with
  | Some p => safe_stack q p c
  | None => start_ok upre c q (co_code co)
  end.

Record stacks_ok (cur : option loc) (c : bio_ctx_t) (stacks : gmap loc (prog unit)) : Prop := {
  sk_dom : ∀ q, is_Some (stacks !! q) → is_Some (coros c !! q);
  sk_ok : ∀ q co, cur ≠ Some q → coros c !! q = Some co → stack_ok c stacks q co;
}.

(** The invariant of the event loop; [todo] is what is left to run of
    [current_ready_coros]. *)
Record machine_ok (todo : list loc) (m : machine) : Prop := {
  mk_wf : wf strict todo None (mc_ctx m);
  mk_mco : mco_running (mc_ctx m) = None;
  mk_debt : daemon_debt (mc_ctx m) = 0;
  mk_rest : io_idle (mc_ctx m);
  mk_stacks : stacks_ok None (mc_ctx m) (mc_stacks m);
}.

(** *** Stacks *)

Lemma stack_ok_rely c c' stacks q co co' :
  stack_ok c stacks q co → rely q c c' → co_code co' = co_code co → stack_ok c' stacks q co'.
Proof.
  unfold stack_ok. intros H Hr Hc. destruct (stacks !! q); [by eapply safe_rely|].
  rewrite Hc. by eapply start_ok_rely.
Qed.

Lemma stacks_ok_calm cur c c' stacks :
  stacks_ok cur c stacks → calm c c' → stacks_ok cur c' stacks.
Proof.
  intros [H1 H2] Hc. pose proof (calm_code _ _ Hc) as Hcode. split.
  - intros q Hq%H1. specialize (Hcode q). destruct (coros c !! q); [|by destruct Hq].
    destruct (coros c' !! q); [eauto|done].
  - intros q co' Hne Hq. specialize (Hcode q). rewrite Hq in Hcode.
    destruct (coros c !! q) as [co|] eqn:E; [|done]. injection Hcode as Hcode1 Hcode2.
    eapply stack_ok_rely; [by apply H2|by apply calm_rely|]. unfold co_code. congruence.
Qed.

Lemma stacks_ok_guar own q c c' stacks :
  stacks_ok (Some q) c stacks → guar upre own q c c' → is_Some (coros c' !! q) →
  stacks_ok (Some q) c' stacks.
Proof.
  intros [H1 H2] Hg Hq. pose proof (guar_code _ _ _ _ _ Hg) as Hcode. split.
  - intros q' Hs. destruct (decide (q' = q)) as [->|Hne]; [done|].
    specialize (Hcode _ Hne). destruct (H1 _ Hs) as [co Hco]. rewrite Hco in Hcode.
    destruct (coros c' !! q'); [eauto|done].
  - intros q' co' Hne Hq'. assert (q' ≠ q) as Hne' by congruence. specialize (Hcode _ Hne').
    destruct (coros c !! q') as [co|] eqn:E.
    + rewrite Hq' in Hcode. injection Hcode as Hc1 Hc2.
      eapply stack_ok_rely; [by apply H2|eapply guar_rely; [exact Hg|by right]|].
      unfold co_code. congruence.
    + unfold stack_ok. destruct (stacks !! q') as [p|] eqn:Es; [|by apply Hcode].
      destruct (H1 q') as [? ?]; [eauto|congruence].
Qed.

Lemma stacks_ok_finished q c c' stacks :
  stacks_ok (Some q) c stacks → finished q c c' → stacks_ok None c' (delete q stacks).
Proof.
  intros [H1 H2] Hf. pose proof (fi_code _ _ _ Hf) as Hcode. split.
  - intros q' [Hne Hs]%lookup_delete_is_Some. destruct (H1 _ Hs) as [co Hco].
    specialize (Hcode q' ltac:(done)). rewrite Hco in Hcode. destruct (coros c' !! q'); [eauto|done].
  - intros q' co' _ Hq'. destruct (decide (q' = q)) as [->|Hne].
    { by rewrite (fi_gone _ _ _ Hf) in Hq'. }
    pose proof (Hcode _ Hne) as Hc. rewrite Hq' in Hc. unfold stack_ok. rewrite lookup_delete_ne by done.
    destruct (coros c !! q') as [co|] eqn:E; [|done]. injection Hc as Hc1 Hc2.
    eapply (stack_ok_rely c _ _ _ co); [apply H2; [congruence|done]| |unfold co_code; congruence].
    split; [apply Hf|]. intros p [Ho Hp]. unfold owns_in, owns, timer_at.
    rewrite (timer_impl_code (coros c) (coros c')) by by apply Hcode.
    split; [|apply (fi_timers _ _ _ Hf)]. split; [done|].
    by rewrite <- (fmap_is_Some tm_code), (fi_timers _ _ _ Hf), fmap_is_Some.
Qed.

Lemma stacks_ok_suspend q c stacks p :
  stacks_ok (Some q) c stacks → is_Some (coros c !! q) → safe_stack q p c →
  stacks_ok None c (<[q := p]> stacks).
Proof.
  intros [H1 H2] Hq Hp. split.
  - intros q' [<-|Hs]%lookup_insert_is_Some'; auto.
  - intros q' co _ Hq'. unfold stack_ok. destruct (decide (q' = q)) as [->|Hne].
    + by rewrite lookup_insert_eq.
    + rewrite lookup_insert_ne by done. apply H2; [congruence|done].
Qed.

(** The first slice of a coroutine. *)
Lemma safe_start q co c :
  start_ok upre c q (co_code co) → safe_stack q (bio_coro_entry_wrapper clock user co) c.
Proof.
  unfold co_code, bio_coro_entry_wrapper.
  destruct (co_entrypoint co) as [| |n]; [destruct (co_userdata co) as [p|]..|]; intros Hs.
  - apply safe_timer_entry; [exact _|by apply user_ok|exact Hs].
  - by destruct Hs as (p & n & v & [=] & _).
  - eapply safe_weaken; [|done]. apply safe_service_wrapper; [exact _|by apply user_ok|exact Hs].
  - by destruct Hs as (p & d & [=] & _).
  - eapply safe_weaken; [by apply user_ok|done].
Qed.

(** *** One slice *)

(** A coroutine is resumed. *)
Definition resumed (q : loc) (co : bio_coro_impl_t) (c : bio_ctx_t) : bio_ctx_t :=
  set_mco_running (λ _, Some q)
    (set_coros <[q := set_co_num_blocking_signals (λ _, 0)
      (set_co_state (λ _, BIO_CORO_RUNNING) co)]> c).

Lemma ready_coro todo q c :
  wf strict (q :: todo) None c → ∃ co, coros c !! q = Some co ∧ co_state co = BIO_CORO_READY.
Proof. intros Hwf. apply (sc_ready _ _ _ _ (wf_sched _ _ _ _ Hwf)). left. Qed.

Lemma resumed_wf todo q co c :
  wf strict (q :: todo) None c → coros c !! q = Some co →
  wf strict todo (Some q) (resumed q co c).
Proof.
  intros Hwf Hq. destruct Hwf as [? ? [] ? ? ? ? ? ? ? Hs ? ? ? ?].
  pose proof (sc_nodup _ _ _ _ Hs) as Hnd. cbn in Hnd. apply NoDup_cons in Hnd as [Hni Hnd].
  split; cbn; try done; eauto with store.
  - split; cbn; eauto with store.
  - eapply sched_ok_state; [exact Hs|done|done|done| | | |]; cbn.
    + intros q' Hne. rewrite elem_of_cons. naive_solver.
    + done.
    + intros q' Hne. split; congruence.
    + done.
  - by apply wait_ok_awake.
Qed.

Lemma resumed_calm q co c : coros c !! q = Some co → calm c (resumed q co c).
Proof. intros Hq. solve_calm. Qed.

Lemma resumed_inv todo q co c :
  wf strict (q :: todo) None c → coros c !! q = Some co → daemon_debt c = 0 → io_idle c →
  inv strict (Some q) todo (resumed q co c).
Proof.
  intros Hwf Hq Hd Hi. split.
  - by apply resumed_wf.
  - done.
  - by rewrite (calm_daemons _ _ (resumed_calm _ _ _ Hq)).
  - done.
  - intros q' co' [= <-]. cbn. rewrite lookup_insert_eq. by intros [= <-].
Qed.

(** A coroutine that yielded is scheduled. *)
Lemma reschedule_spec todo q c :
  yielding strict q todo c →
  wp (reschedule q) (λ _ c', wf strict todo None c' ∧ calm (set_mco_running (λ _, None) c) c' ∧
    mco_running c' = None) (set_mco_running (λ _, None) c).
Proof.
  intros [Hwf Hm Hd Hid Hy]. destruct (wf_running _ _ _ _ Hwf) as (co & Hq & Hr).
  destruct (Hy co Hq) as [Hn Hb]. unfold reschedule. ctx_steps.
  set (b := co_num_blocking_signals co >? 0).
  assert (Hpos : b = true → 0 < co_num_blocking_signals co) by (unfold b; lia).
  set (co' := set_co_state _ co).
  assert (Hcalm : ∀ f, calm (set_mco_running (λ _, None) c)
    (set_next_ready_coros f (set_coros <[q := co']> (set_mco_running (λ _, None) c)))).
  { intros f. solve_calm. }
  assert (Hwf' : wf strict todo None (set_next_ready_coros (λ l, if b then l else l ++ [q])
    (set_coros <[q := co']> (set_mco_running (λ _, None) c)))).
  { destruct Hwf as [? ? [] ? ? ? ? ? ? ? Hs ? Hw ? ?].
    assert (Hni : q ∉ todo ++ next_ready_coros c) by (eapply sched_not_ready; [done..|congruence]).
    pose proof (sc_nodup _ _ _ _ Hs) as Hnd.
    split; cbn; try done; eauto with store.
    - split; cbn; eauto with store.
    - eapply sched_ok_state; [exact Hs|done|by destruct b|..]; cbn.
      + destruct b; [done|]. rewrite app_assoc. by apply NoDup_snoc.
      + intros q' Hne. destruct b; [done|].
        rewrite app_assoc, elem_of_app, list_elem_of_singleton. naive_solver.
      + destruct b; [naive_solver|]. rewrite app_assoc, elem_of_app, list_elem_of_singleton. naive_solver.
      + intros q' Hne. split; congruence.
      + destruct b; done.
    - intros q' x [[<- <-]|[_ ?]]%lookup_insert_Some; [|by apply (Hw q')]. unfold co'. cbn.
      destruct b; [|done]. intros _. split; [by apply Hpos|]. exact Hb. }
  destruct b; ctx_steps; (split_and!; [|by eapply (Hcalm id) || apply Hcalm|done]).
  - exact Hwf'.
  - exact Hwf'.
Qed.

(** The program that a coroutine runs in its next slice is safe. *)
Lemma next_slice_safe todo m q co :
  machine_ok todo m → coros (mc_ctx m) !! q = Some co →
  safe_stack q (default (bio_coro_entry_wrapper clock user co) (mc_stacks m !! q))
    (resumed q co (mc_ctx m)).
Proof.
  intros [_ _ _ _ [_ Hok]] Hq. specialize (Hok q co ltac:(done) Hq). unfold stack_ok in Hok.
  assert (Hr : rely q (mc_ctx m) (resumed q co (mc_ctx m))) by by apply calm_rely, resumed_calm.
  destruct (mc_stacks m !! q); cbn; [by eapply safe_rely|].
  apply safe_start. by eapply start_ok_rely.
Qed.

(** What a slice leaves behind. *)
Definition ran (todo : list loc) (m : machine) (ok : bool) (m' : machine) : Prop :=
  ok = true → machine_ok todo m' ∧ ctx_le (mc_ctx m) (mc_ctx m').

Lemma stacks_ok_cur c stacks q : stacks_ok None c stacks → stacks_ok (Some q) c stacks.
Proof. intros [H1 H2]. split; [done|]. intros q' co _. by apply H2. Qed.

Lemma leave_calm c : calm c (set_mco_running (λ _, None) c).
Proof. solve_calm. Qed.

Lemma leave_wf todo q c : wf strict todo (Some q) c → wf strict todo (Some q) (set_mco_running (λ _, None) c).
Proof. intros []. split; try done; [by left|]. by destruct wf_objects. Qed.

Lemma run_coro_spec fuel todo q m :
  machine_ok (q :: todo) m →
  wp (run_coro clock user cls_cleanup fuel q) (ran todo m) m.
Proof.
  intros Hm. pose proof Hm as [Hwf Hmco Hdebt Hidle Hsk].
  destruct (ready_coro _ _ _ Hwf) as (co & Hq & _).
  unfold run_coro, mco_resume.
  lm_steps.
  match goal with |- wp (resume _ ?p) _ ?c' => set (c1 := c'); set (prog := p) end.
  assert (Ec1 : c1 = resumed q co (mc_ctx m)) by (unfold c1, resumed; cbn; ctx_eq).
  assert (Hprog : safe_stack q prog c1).
  { rewrite Ec1. unfold prog. pose proof (next_slice_safe _ _ _ _ Hm Hq) as Hs.
    destruct (mc_stacks m !! q); [exact Hs|]. exact Hs. }
  assert (Hle1 : ctx_le (mc_ctx m) c1) by (rewrite Ec1; by apply (resumed_calm q co)).
  assert (Hinv : inv strict (Some q) todo c1) by (rewrite Ec1; by apply resumed_inv).
  assert (Hsk1 : stacks_ok (Some q) c1 (mc_stacks m)).
  { rewrite Ec1. eapply stacks_ok_calm; [by apply stacks_ok_cur|by apply resumed_calm]. }
  clearbody c1 prog. clear Ec1.
  eapply wp_mono; [eapply (resume_safe _ _ (rely q) (guar upre false q) ctx_le) with (w := todo); [..|exact Hprog|exact Hinv]|].
  { apply rely_le. }
  { apply guar_le. }
  intros o c2 [Hg Ho]. lm_steps.
  assert (Hcalm : calm c2 (set_mco_running (λ _, None) c2)) by apply leave_calm.
  assert (Hle2 : ctx_le (mc_ctx m) (set_mco_running (λ _, None) c2)).
  { etrans; [exact Hle1|]. etrans; [apply Hg|apply Hcalm]. }
  destruct o as [[]|p|]; lm_steps; [| |done].
  - destruct Ho as [[Hwf2 Hm2 Hd2 Hi2 _] _]. destruct (wf_running _ _ _ _ Hwf2) as (co2 & Hq2 & _).
    pose proof (leave_wf _ _ _ Hwf2) as Hwf3. set (c3 := set_mco_running _ c2) in *.
    eapply wp_mono; [apply (finish_coro_spec strict todo q cls_cleanup) with (co := co2); [|done..]|].
    { intros spec d c. apply cleanup_ok. }
    intros [] c4 (Hwf4 & Hfi & _). lm_steps. intros _.
    split; cbn [mc_ctx mc_stacks set_mc_stacks set_mc_ctx]; [|etrans; [exact Hle2|apply Hfi]].
    split; cbn [mc_ctx mc_stacks set_mc_stacks set_mc_ctx].
    + done.
    + by rewrite (fi_mco _ _ _ Hfi).
    + by rewrite (fi_daemons _ _ _ Hfi), (calm_daemons _ _ Hcalm).
    + apply (fi_le _ _ _ Hfi), Hcalm, Hi2.
    + eapply stacks_ok_finished; [|exact Hfi]. eapply stacks_ok_calm; [|exact Hcalm].
      eapply stacks_ok_guar; [exact Hsk1|exact Hg|eauto].
  - destruct Ho as [Hy Hp]. destruct (wf_running _ _ _ _ (yd_wf _ _ _ _ Hy)) as (co2 & Hq2 & _).
    eapply wp_mono; [by apply reschedule_spec|]. intros [] c4 (Hwf4 & Hcalm4 & Hm4). lm_steps.
    assert (Hcalm' : calm c2 c4) by by etrans.
    intros _. split; cbn [mc_ctx mc_stacks set_mc_stacks set_mc_ctx]; [|etrans; [exact Hle2|apply Hcalm4]].
    split; cbn [mc_ctx mc_stacks set_mc_stacks set_mc_ctx].
    + done.
    + done.
    + rewrite (calm_daemons _ _ Hcalm'). apply Hy.
    + apply (calm_le _ _ Hcalm'), Hy.
    + eapply stacks_ok_calm; [|exact Hcalm'].
      eapply stacks_ok_suspend; [|eauto|exact Hp].
      eapply stacks_ok_guar; [exact Hsk1|exact Hg|eauto].
Qed.

Lemma run_coros_spec fuel l m :
  machine_ok l m →
  wp (run_coros clock user cls_cleanup fuel l) (ran [] m) m.
Proof.
  revert m. induction l as [|q l IH]; intros m Hm; cbn [run_coros]; [by wp_steps|].
  wp_use run_coro_spec; [done|]. intros [] m1 Hm1; [|by wp_steps].
  destruct (Hm1 eq_refl) as [Hm1' Hle]. eapply wp_mono; [by apply IH|].
  intros ok m2 Hm2 Hok. destruct (Hm2 Hok). split; [done|by etrans].
Qed.

(** *** Polling *)

Lemma poll_spec todo c :
  wf strict todo None c → mco_running c = None → io_idle c →
  wp (poll clock P) (kept strict todo None c (λ _ _, True)) c.
Proof.
  intros Hwf Hm Hid. unfold poll.
  assert (Hupd : ∀ c', wf strict todo None c' → mco_running c' = None →
    wp (_ ← pf_thread_update P; bio_timer_update clock) (kept strict todo None c' (λ _ _, True)) c').
  { intros c' Hwf' Hm'. wp_use (pf_thread_ok _ _ P_ok todo); [done..|]. intros [] c1 (Hwf1 & Hf1 & _).
    wp_use timer_update_spec; [done|]. intros [] c2 (Hwf2 & Hf2 & _). split_and!; [done|by etrans|done]. }
  wp_use (pf_thread_ok _ _ P_ok todo); [done..|]. intros [] c1 (Hwf1 & Hf1 & _).
  wp_use timer_update_spec; [done|]. intros [] c2 (Hwf2 & Hf2 & _). wp_steps.
  eapply (wp_mono _ (kept strict todo None c2 (λ _ _, True))).
  { destruct (_ =? 0); [|wp_steps; by apply kept_same].
    eapply wp_mono; [by apply time_until_next_timer_spec|]. intros t c3 Hk.
    eapply kept_impl; [exact Hk|done]. }
  intros timeout c3 (Hwf3 & Hf3 & _).
  wp_use (pf_jobs_ok _ _ P_ok). intros jobs c' ->.
  assert (Hf : frame c c3) by (etrans; [exact Hf1|]; by etrans).
  wp_use (pf_update_ok _ _ P_ok todo); [done|by rewrite (frame_mco _ _ Hf)|by apply Hf|].
  intros [] c4 (Hwf4 & Hf4 & _). assert (Hf' : frame c c4) by by etrans.
  destruct (_ =? 0); [|wp_steps; by split_and!].
  eapply wp_mono; [apply Hupd; [done|by rewrite (frame_mco _ _ Hf')]|].
  intros [] c5. by apply kept_trans.
Qed.

Lemma kept_machine {A} todo m c' (a : A) :
  machine_ok todo m → kept strict todo None (mc_ctx m) (λ _ _, True) a c' →
  machine_ok todo (set_mc_ctx c' m).
Proof.
  intros [H1 H2 H3 H5 H4] (Hwf & Hf & _). split; cbn.
  - done.
  - by rewrite (frame_mco _ _ Hf).
  - by rewrite (calm_daemons _ _ (frame_calm _ _ Hf)).
  - by apply Hf.
  - eapply stacks_ok_calm; [exact H4|apply Hf].
Qed.

(** Changes of the lists of ready coroutines. *)
Lemma set_ready_machine todo todo' l l' m :
  machine_ok todo m → todo ++ next_ready_coros (mc_ctx m) = todo' ++ l →
  machine_ok todo' (set_mc_ctx (set_next_ready_coros (λ _, l)
    (set_current_ready_coros (λ _, l') (mc_ctx m))) m).
Proof.
  intros [Hwf H2 H3 H6 [H4 H5]] E. split; cbn; [|done|done|done|].
  - destruct Hwf. split; cbn; try done; [by destruct wf_objects|by rewrite <- E].
  - split; [done|]. intros q co _ Hq. eapply stack_ok_rely; [by apply H5| |done].
    apply calm_rely. solve_calm.
Qed.

(** *** The event loop *)

Definition loop_inv (m : machine) : Prop := machine_ok (current_ready_coros (mc_ctx m)) m.

(** What [bio_loop] establishes. *)
Definition loop_post (m : machine) (r : loop_result) (m' : machine) : Prop :=
  match r with
  | LoopDone => loop_inv m' ∧ ctx_le (mc_ctx m) (mc_ctx m') ∧
      current_ready_coros (mc_ctx m') = [] ∧ should_terminate (mc_ctx m') = true
  | LoopRunning => loop_inv m' ∧ ctx_le (mc_ctx m) (mc_ctx m')
  | LoopSpinning => True
  end.

Lemma loop_round_spec fuel m :
  loop_inv m → wp (bio_loop_round clock user cls_cleanup P fuel) (loop_post m) m.
Proof.
  intros Hm. unfold bio_loop_round. lm_steps.
  replace (set_mc_ctx (mc_ctx m) m) with m by by destruct m.
  eapply wp_mono; [by apply run_coros_spec|]. intros [] m1 Hm1; [|by wp_steps].
  destruct (Hm1 eq_refl) as [Hm1' Hle1]. lm_steps. set (c1 := set_current_ready_coros (λ _, []) (mc_ctx m1)).
  assert (Hm2 : machine_ok [] (set_mc_ctx c1 m1)).
  { replace c1 with (set_next_ready_coros (λ _, next_ready_coros (mc_ctx m1))
      (set_current_ready_coros (λ _, []) (mc_ctx m1))) by (unfold c1; ctx_eq).
    by apply (set_ready_machine []). }
  assert (Hle2 : ctx_le (mc_ctx m) c1) by (etrans; [exact Hle1|solve_le]).
  destruct (should_terminate _) eqn:Et; lm_steps; [by split_and!|].
  eapply wp_mono; [apply (poll_spec []); apply Hm2|]. intros [] c2 Hk.
  pose proof (kept_machine _ _ _ _ Hm2 Hk) as Hm3. destruct Hk as (_ & Hf & _).
  assert (Hle3 : ctx_le (mc_ctx m) c2) by (etrans; [exact Hle2|apply Hf]).
  pose proof (frame_current _ _ Hf) as Hcur. cbn in Hcur.
  lm_steps. unfold swap_ready. lm_steps. cbn [loop_post]. unfold loop_inv. cbn [mc_ctx set_mc_ctx].
  split; [|etrans; [exact Hle3|solve_le]].
  match goal with |- machine_ok ?l (set_mc_ctx ?d ?m') => replace (set_mc_ctx d m') with
    (set_mc_ctx (set_next_ready_coros (λ _, [])
      (set_current_ready_coros (λ _, next_ready_coros c2) c2)) (set_mc_ctx c2 m1));
    [change l with (next_ready_coros c2)|] end.
  - apply (set_ready_machine [] _ _ _ (set_mc_ctx c2 m1)); [exact Hm3|]. cbn. by rewrite app_nil_r.
  - unfold set_mc_ctx. cbn. f_equal. ctx_eq. done.
Qed.

Lemma loop_spec fuel rounds m :
  loop_inv m → wp (bio_loop clock user cls_cleanup P fuel rounds) (loop_post m) m.
Proof.
  revert m. induction rounds as [|n IH]; intros m Hm; cbn [bio_loop]; [by wp_steps|].
  wp_use loop_round_spec; [done|]. intros [] m1 Hm1; [by wp_steps|by wp_steps|].
  destruct Hm1 as [Hm1 Hle1]. eapply wp_mono; [by apply IH|]. intros [] m2; cbn.
  - intros (H1 & H2 & H3). split_and!; [done|by etrans|apply H3..].
  - done.
  - intros [H1 H2]. split; [done|by etrans].
Qed.
End loop.

(** ** The event loop, from the point of view of a program *)

Section correct.
Context (strict : Prop) (upre : positive → option loc → bio_ctx_t → Prop) `{!StablePre upre}.
Context (clock : nat → Z) (user : positive → option loc → prog unit).
Context (cls_cleanup : loc → loc → M unit) (P : platform).

(** C4: The event loop of a program that respects the protocol never touches an object
    that was freed, an index out of bounds or uninitialized memory, for any number of
    rounds, and it ends only when no coroutine but daemons is left. *)
Theorem event_loop_safe fuel rounds m :
  (∀ q n u c, upre n u c → safe strict upre q (user n u) (λ _ _, True) c) →
  cleanups_ok strict cls_cleanup → platform_ok strict P →
  loop_inv strict upre m →
  match bio_loop clock user cls_cleanup P fuel rounds m with
  | Ok (LoopDone, m') => loop_inv strict upre m' ∧
      map_Forall (λ _ co, co_daemon co = true) (coros (mc_ctx m'))
  | Ok (LoopRunning, m') => loop_inv strict upre m'
  | Ok (LoopSpinning, m') => True
  | Err e => e = Overflow
  end.
Proof.
  intros Huser Hcl HP Hm.
  pose proof (loop_spec strict upre clock user cls_cleanup P Huser Hcl HP fuel rounds m Hm) as H.
  unfold wp in H. destruct (bio_loop _ _ _ _ _ _ m) as [[[] m']|e]; [|done|apply H|by destruct e].
  destruct H as (Hm' & _ & _ & Hst). split; [done|].
  destruct Hm' as [Hwf _ Hd _]. unfold should_terminate, daemon_debt in *.
  apply count_all. pose proof (sc_num_coros _ _ _ _ (wf_sched _ _ _ _ Hwf)) as Hn.
  pose proof (count_le co_daemon (coros (mc_ctx m'))) as Hle.
  pose proof (count_nonneg co_daemon (coros (mc_ctx m'))).
  destruct (is_terminating _); lia.
Qed.

End correct.
