(* ===== verification/Life.v ===== *)
(** The life of the library ([src/bio.c]): [bio_init] and [bio_terminate]. *)
From S2P Require Import Prelude Bits HandleTable Pool Uring TimerHeap Ctx Prog Store Ring Invariant Signal.
From S2P Require Import Timer Coro Finish Mailbox Protocol TimerCoro Client Service Exit Loop.

(** ** The code *)

(** The parts of the library that are initialized with the core, and cleaned up
    with it. *)
Record subsystems := mk_subsystems {
  bio_platform_init : M unit;
  bio_thread_init : M unit;
  bio_fs_init : M unit;
  bio_net_init : M unit;
  bio_logging_init : M unit;
  bio_logging_cleanup : M unit;
  bio_net_cleanup : M unit;
  bio_fs_cleanup : M unit;
  bio_thread_cleanup : M unit;
  bio_platform_cleanup : M unit;
}.

Section code.
Context (clock : nat → Z) (user : positive → option loc → prog unit).
Context (cls_cleanup : loc → loc → M unit) (P : platform).
Context (bio_platform_unblock_exit_signal : M unit) (parts : subsystems).

(** [bio_ctx] after the [memset] and the copy of the options in [bio_init]. *)
Definition zero_ctx (num_buckets : Z) : bio_ctx_t :=
  mk_ctx num_buckets false [] (mk_table [] 0 0 0) (mk_theap [] 0 0) 0 [] [] 0 0 None 0 1
    ∅ ∅ ∅ ∅ ∅ ∅ ∅ no_pool no_platform.

(** [bio_init]. *)
Definition bio_init (num_buckets : Z) : M unit :=
  _ ← modify (λ _, zero_ctx num_buckets);
  _ ← modify (set_is_terminating (λ _, false));
  _ ← bio_platform_init parts;
  _ ← on_htab bio_handle_table_init;
  _ ← bio_timer_init clock;
  _ ← bio_scheduler_init;
  _ ← bio_thread_init parts;
  _ ← bio_fs_init parts;
  _ ← bio_net_init parts;
  bio_logging_init parts.

(** [bio_timer_cleanup], [bio_handle_table_cleanup]: the memory is freed. *)
Definition bio_timer_cleanup : M unit :=
  modify (set_timer_heap (λ h, mk_theap [] (timer_capacity h) (num_timers h))).

Definition bio_handle_table_cleanup : M unit :=
  modify (set_htab (λ t, mk_table [] (handle_capacity t) (next_handle_slot t) (num_handles t))).

(** [bio_terminate] up to its event loop, and to the end of it. *)
Definition announce_termination : M unit :=
  _ ← modify (set_is_terminating (λ _, true));
  _ ← bio_dispatch_exit_signal bio_platform_unblock_exit_signal BIO_EXIT_TERMINATE;
  bio_logging_cleanup parts.

Definition bio_shut_down (fuel rounds : nat) : LM loop_result :=
  _ ← lift announce_termination;
  d ← lift (gets num_daemons);
  if d >? 0 then bio_loop clock user cls_cleanup P fuel rounds else mret LoopDone.

(** [bio_terminate]. *)
Definition bio_terminate (fuel rounds : nat) : LM loop_result :=
  r ← bio_shut_down fuel rounds;
  match r with
  | LoopDone =>
      _ ← lift (bio_net_cleanup parts);
      _ ← lift (bio_fs_cleanup parts);
      _ ← lift (bio_thread_cleanup parts);
      _ ← lift bio_scheduler_cleanup;
      _ ← lift bio_timer_cleanup;
      _ ← lift bio_handle_table_cleanup;
      _ ← lift (bio_platform_cleanup parts);
      _ ← lift (modify (set_exit_handlers (λ _, [])));
      mret r
  | _ => mret r
  end.
End code.

(** ** Initialization *)

(** A part keeps the invariant, outside of coroutines. *)
Definition part_ok (strict : Prop) (m : M unit) : Prop :=
  ∀ todo c, wf strict todo None c → mco_running c = None → io_idle c →
    wp m (kept strict todo None c (λ _ _, True)) c.

(** What the platform sets up: a ring, and a way to notify the main thread. There are no
    threads yet. *)
Definition platform_made (p : bio_pool_t) (s : bio_platform_t) : Prop :=
  fresh_pool p ∧ (∀ K, ring_ok K s) ∧ cq_seen s = cq_head s.

Record subsystems_ok (strict : Prop) (parts : subsystems) : Prop := {
  platform_init_ok : ∀ c, fresh_pool (thread_pool c) →
    wp (bio_platform_init parts) (λ _ c', ∃ p s, platform_made p s ∧
      c' = set_bio_platform (λ _, s) (set_thread_pool (λ _, p) c)) c;
  thread_init_ok : ∀ todo c, wf strict todo None c → mco_running c = None → io_idle c →
    fresh_pool (thread_pool c) →
    wp (bio_thread_init parts) (kept strict todo None c (λ _ c', (0 < num_workers c')%nat)) c;
  fs_init_ok : part_ok strict (bio_fs_init parts);
  net_init_ok : part_ok strict (bio_net_init parts);
  logging_init_ok : part_ok strict (bio_logging_init parts);
  logging_cleanup_ok : part_ok strict (bio_logging_cleanup parts);
  net_cleanup_ok : part_ok strict (bio_net_cleanup parts);
  fs_cleanup_ok : part_ok strict (bio_fs_cleanup parts);
  thread_cleanup_ok : ∀ todo c, wf strict todo None c → mco_running c = None →
    wp (bio_thread_cleanup parts) (λ _ _, True) c;
  platform_cleanup_ok : ∀ c, wp (bio_platform_cleanup parts) (λ _ _, True) c;
}.

(** The number of buckets that [bio_scheduler_init] settles for. *)
Definition settled_buckets (n : Z) : Z :=
  if n =? 0 then BIO_DEFAULT_NUM_CLS_BUCKETS else bio_next_pow2 n.

Lemma settled_buckets_pow2 n : 0 ≤ n ≤ 2 ^ 30 → pow2 (settled_buckets n) ∧ settled_buckets n ≤ 2 ^ 30.
Proof.
  intros Hn. unfold settled_buckets. destruct (Z.eqb_spec n 0) as [->|].
  - split; [|done]. by exists 2.
  - destruct (bio_next_pow2_pow2 n) as [Hp Hle]; [lia|]. split; [done|].
    rewrite bio_next_pow2_spec, decide_True by lia. apply Z.pow_le_mono_r; [lia|].
    replace 30 with (Z.log2_up (2 ^ 30)) by reflexivity. apply Z.log2_up_le_mono. lia.
Qed.

(** The state when the core is initialized. *)
Definition started (clock : nat → Z) (n : Z) (t : table bio_tag_t loc) (p : bio_pool_t)
    (s : bio_platform_t) : bio_ctx_t :=
  mk_ctx (settled_buckets n) false [] t theap_init (clock 0%nat) [] [] 0 0 None 1 1
    ∅ ∅ ∅ ∅ ∅ ∅ ∅ p s.

Lemma live_empty_store {X} tg (t : table bio_tag_t loc) n :
  live t = ∅ → store_ok (X := X) tg ∅ (live t) n.
Proof. intros ->. split; [by intros ??|by intros ???|by intros p [? ?]]. Qed.

Lemma linked_empty {X Own} (link : X → option loc) (lst : Own → list loc) :
  linked link lst ∅ ∅.
Proof. split; intros *; by rewrite lookup_empty. Qed.

Lemma started_wf strict clock n t p s :
  0 ≤ n ≤ 2 ^ 30 → HandleTable.wf t → live t = ∅ → platform_made p s →
  wf strict [] None (started clock n t p s).
Proof.
  intros Hn Ht Hl ([Hp _] & Hs & _). assert (Hc : theap_contents (Sig := bio_handle_t) theap_init = []).
  { apply contents_repr, theap_init_repr. }
  assert (Hno : ∀ q : loc, (∅ : gmap loc bio_coro_impl_t) !! q = None) by (intros; apply lookup_empty).
  split; cbn; try done; try apply linked_empty;
    try match goal with |- map_Forall _ _ => apply map_Forall_empty end.
  - by left.
  - split; cbn; eauto using live_empty_store; done.
  - unfold theap_wf. eexists. split; [apply theap_init_repr|]. intros i Hi. unfold zlen in Hi. cbn in Hi. lia.
  - intros x Hx. by apply not_elem_of_nil in Hx.
  - split; [constructor| | |done|done].
    + intros q. split; [by intros ?%not_elem_of_nil|]. by intros (co & ? & _).
    + intros q. split; [done|]. by intros (co & ? & _).
  - split; [by apply settled_buckets_pow2|]. apply map_Forall_empty.
  - split; by intros x [? ?].
  - split; [intros q q' x []|intros q x]; by rewrite Hno in *.
  - split; [by left|done].
Qed.

Section life.
Context (strict : Prop) (upre : positive → option loc → bio_ctx_t → Prop) `{!StablePre upre}.
Context (clock : nat → Z) (user : positive → option loc → prog unit).
Context (cls_cleanup : loc → loc → M unit) (P : platform).
Context (unblock : M unit) (parts : subsystems).
Context (user_ok : ∀ q n u c, upre n u c → safe strict upre q (user n u) (λ _ _, True) c).
Context (cleanup_ok : cleanups_ok strict cls_cleanup) (P_ok : platform_ok strict P).
Context (unblock_ok : watches strict unblock) (parts_ok : subsystems_ok strict parts).

Abbreviation loop_inv := (loop_inv strict upre).

(** Nothing runs yet. *)
Definition quiet_ctx (c : bio_ctx_t) : Prop :=
  wf strict [] None c ∧ mco_running c = None ∧ daemon_debt c = 0 ∧ io_idle c ∧
  current_ready_coros c = [] ∧ coros c = ∅.

(** The library is ready: it has a thread pool, too. *)
Definition ready_ctx (c : bio_ctx_t) : Prop := quiet_ctx c ∧ (0 < num_workers c)%nat.

Lemma started_ready n t p s :
  0 ≤ n ≤ 2 ^ 30 → HandleTable.wf t → live t = ∅ → platform_made p s →
  quiet_ctx (started clock n t p s).
Proof. intros ? ? ? Hps. split_and!; try done; [by apply started_wf|apply Hps]. Qed.

Lemma kept_quiet (Q : unit → bio_ctx_t → Prop) c c' :
  quiet_ctx c → kept strict [] None c Q tt c' → quiet_ctx c'.
Proof.
  intros (Hwf & Hmco & Hd & Hid & Hcur & Hcs) (Hwf' & Hf & _). split_and!; [done|..].
  - by rewrite (frame_mco _ _ Hf).
  - by rewrite (calm_daemons _ _ (frame_calm _ _ Hf)).
  - by apply Hf.
  - by rewrite (frame_current _ _ Hf).
  - apply map_empty. intros q. pose proof (calm_code _ _ (frame_calm _ _ Hf) q) as Hc.
    rewrite Hcs, lookup_empty in Hc. by destruct (coros c' !! q).
Qed.

Lemma part_ready (m : M unit) c :
  ready_ctx c → part_ok strict m → wp m (λ _ c', ready_ctx c') c.
Proof.
  intros [Hc Hn] Hm. eapply wp_mono; [by apply (Hm [] c); apply Hc|]. intros [] c' Hk.
  split; [by eapply kept_quiet|]. pose proof (le_pool _ _ (calm_le _ _ (frame_calm _ _ (proj1 (proj2 Hk))))). lia.
Qed.

Lemma bio_init_spec n c :
  0 ≤ n ≤ 2 ^ 30 → wp (bio_init clock parts n) (λ _ c', ready_ctx c') c.
Proof.
  intros Hn. unfold bio_init. wp_steps.
  wp_use (platform_init_ok _ _ parts_ok); [done|]. intros [] c' (p & s & Hps & ->).
  apply wp_bind, wp_on_htab. eapply wp_mono; [apply HandleTable.init_spec|].
  intros [] t (Ht & Hl & _). unfold bio_timer_init, bio_platform_current_time_ms, bio_scheduler_init.
  wp_steps.
  eapply (wp_mono _ (λ _ c', c' = started clock n t p s)).
  { destruct (settled_buckets_pow2 n Hn) as [_ Hle]. unfold settled_buckets in Hle.
    cbn [num_cls_buckets set_num_coros set_num_daemons set_current_time_ms set_clock_reads
      set_timer_heap set_htab set_is_terminating set_bio_platform set_thread_pool zero_ctx].
    destruct (n =? 0) eqn:E; wp_steps.
    - unfold started, settled_buckets. rewrite E. by ctx_eq.
    - rewrite u32_small by lia. assert (Hpos : 0 ≤ bio_next_pow2 n).
      { rewrite bio_next_pow2_spec by lia. case_decide; [|done]. apply Z.pow_nonneg. lia. }
      rewrite to_int_small by (unfold INT_MIN, INT_MAX; lia).
      unfold started, settled_buckets. rewrite E. by ctx_eq. }
  intros [] c' ->. pose proof (started_ready n t p s Hn Ht Hl Hps) as H0.
  wp_use (thread_init_ok _ _ parts_ok []); [apply H0..|apply Hps|]. intros [] c1 Hk.
  assert (H1 : ready_ctx c1) by (split; [by eapply kept_quiet|apply Hk]).
  wp_use part_ready; [exact H1|apply parts_ok|]. intros [] c2 H2.
  wp_use part_ready; [exact H2|apply parts_ok|]. intros [] c3 H3.
  apply part_ready; [exact H3|apply parts_ok].
Qed.

Lemma ready_loop_inv c : ready_ctx c → loop_inv (mk_machine c ∅).
Proof.
  intros [(Hwf & Hm & Hd & Hid & Hcur & Hcs) _]. unfold Loop.loop_inv. cbn. rewrite Hcur.
  split; [done..|]. cbn. split.
  - intros q [p Hp]. by rewrite lookup_empty in Hp.
  - intros q co _ Hq. by rewrite Hcs, lookup_empty in Hq.
Qed.

(** *** Creating a coroutine from outside *)

Lemma spawn_loop_inv n u options m :
  loop_inv m → upre n u (mc_ctx m) →
  wp (bio_spawn_ex clock (user_fn n) u options) (λ h c', loop_inv (set_mc_ctx c' m) ∧
    ctx_le (mc_ctx m) c' ∧ hk c' h) (mc_ctx m).
Proof.
  intros [Hwf Hm Hd Hid [Hsk1 Hsk2]] Hu.
  eapply wp_mono; [by apply (spawn_ex_spec strict (current_ready_coros (mc_ctx m)) None)|].
  intros h c' (Hwf' & Hsp & Hd' & Hk). split_and!; [|apply Hsp|done].
  unfold Loop.loop_inv. cbn. rewrite (sp_current _ _ _ _ Hsp).
  assert (Hg : ∀ q, guar upre true q (mc_ctx m) c').
  { intros q. eapply spawned_guar; [done|]. intros q' _ _ _. cbn. eapply upre_le; [exact Hu|apply Hsp]. }
  split; cbn; [done|by rewrite (sp_mco _ _ _ _ Hsp)|congruence|by apply Hsp|]. split.
  - intros q Hs. apply Hsk1 in Hs as [co Hq].
    pose proof (guar_code _ _ _ _ _ (Hg (Pos.succ q)) q ltac:(lia)) as Hc. rewrite Hq in Hc.
    destruct (coros c' !! q); [eauto|done].
  - intros q co' _ Hq'. pose proof (guar_code _ _ _ _ _ (Hg (Pos.succ q)) q ltac:(lia)) as Hc.
    destruct (coros (mc_ctx m) !! q) as [co|] eqn:Hq.
    + rewrite Hq' in Hc. injection Hc as Hc1 Hc2.
      eapply (stack_ok_rely _ _ _ _ _ _ co); [by apply Hsk2|eapply guar_rely; [apply (Hg q)|by left]|].
      unfold co_code. congruence.
    + unfold stack_ok. destruct (mc_stacks m !! q) as [p|] eqn:Es; [|by apply Hc].
      destruct (Hsk1 q) as [? ?]; [eauto|congruence].
Qed.

(** *** Shutting down *)

Lemma all_gone todo cur c :
  wf strict todo cur c → num_coros c = 0 → coros c = ∅ ∧ signals c = ∅ ∧ monitors c = ∅.
Proof.
  intros Hwf Hn. rewrite (sc_num_coros _ _ _ _ (wf_sched _ _ _ _ Hwf)), count_true in Hn.
  assert (Hcs : coros c = ∅) by (apply map_size_empty_inv; lia). split; [done|].
  split; apply map_empty; intros p; apply eq_None_not_Some; intros [x Hx].
  - destruct (lk_item _ _ _ _ (wf_signals _ _ _ _ Hwf) _ _ Hx) as (q & _ & [co Hq]).
    by rewrite Hcs, lookup_empty in Hq.
  - destruct (lk_item _ _ _ _ (wf_monitors _ _ _ _ Hwf) _ _ Hx) as (q & _ & [co Hq]).
    by rewrite Hcs, lookup_empty in Hq.
Qed.

(** Whether only daemons are left. *)
Definition only_daemons (c : bio_ctx_t) : Prop := map_Forall (λ _ co, co_daemon co = true) (coros c).

Lemma only_daemons_iff todo cur c :
  wf strict todo cur c → daemon_debt c = 0 → only_daemons c ↔ num_coros c = num_daemons c.
Proof.
  unfold daemon_debt, only_daemons. intros Hwf Hd. rewrite <- count_all.
  rewrite (sc_num_coros _ _ _ _ (wf_sched _ _ _ _ Hwf)). lia.
Qed.

(** That is the case when the event loop ends. *)
Lemma done_only_daemons m :
  loop_inv m → should_terminate (mc_ctx m) = true →
  num_coros (mc_ctx m) = num_daemons (mc_ctx m).
Proof.
  intros [Hwf _ Hd _ _] Hst. unfold should_terminate in Hst.
  destruct (is_terminating (mc_ctx m)); [|lia]. unfold daemon_debt in Hd.
  pose proof (count_le co_daemon (coros (mc_ctx m))) as H1.
  pose proof (count_nonneg co_daemon (coros (mc_ctx m))).
  rewrite <- (sc_num_coros _ _ _ _ (wf_sched _ _ _ _ Hwf)) in H1. lia.
Qed.

Lemma only_daemons_calm c c' : only_daemons c → calm c c' → only_daemons c'.
Proof.
  intros Ho Hc q co' Hq. pose proof (calm_code _ _ Hc q) as Hcode. rewrite Hq in Hcode.
  destruct (coros c !! q) as [co|] eqn:E; [|done].
  pose proof (calm_flags _ _ Hc q) as Hf. rewrite E, Hq in Hf. cbn in Hf.
  specialize (Hf ltac:(f_equal; by apply (Ho q))). congruence.
Qed.

Lemma set_terminating_calm c : calm c (set_is_terminating (λ _, true) c).
Proof. solve_calm. Qed.

Lemma set_terminating_wf todo c :
  wf strict todo None c → wf strict todo None (set_is_terminating (λ _, true) c).
Proof. intros []. split; try done. by destruct wf_objects. Qed.

(** The state in which [bio_terminate] starts the event loop for the last time. *)
Lemma terminating_spec m :
  loop_inv m →
  let c := mc_ctx m in
  wp (announce_termination unblock parts) (λ _ c', calm c c' ∧ is_terminating c' = true ∧
        loop_inv (set_mc_ctx c' m)) c.
Proof.
  intros [Hwf Hm Hd Hid Hsk] c. unfold announce_termination. wp_steps. apply set_terminating_wf in Hwf.
  set (c0 := set_is_terminating _ c) in *. fold c in Hwf.
  assert (Hc0 : calm c c0) by apply set_terminating_calm.
  wp_use dispatch_spec; [exact unblock_ok|exact Hwf|]. intros [] c1 (Hwf1 & Hf1 & _).
  eapply wp_mono; [apply (logging_cleanup_ok _ _ parts_ok); [exact Hwf1|by rewrite (frame_mco _ _ Hf1)|by apply Hf1]|].
  intros [] c2 (Hwf2 & Hf2 & _). assert (Hf : frame c0 c2) by by etrans.
  assert (Hcalm : calm c c2) by (etrans; [exact Hc0|apply Hf]). split_and!; [done|by apply Hf|].
  unfold Loop.loop_inv. cbn [mc_ctx set_mc_ctx]. rewrite (frame_current _ _ Hf). split; cbn.
  - done.
  - by rewrite (frame_mco _ _ Hf).
  - by rewrite (calm_daemons _ _ Hcalm).
  - by apply Hcalm.
  - by eapply stacks_ok_calm.
Qed.

Lemma shut_down_spec fuel rounds m :
  loop_inv m → num_coros (mc_ctx m) = num_daemons (mc_ctx m) →
  wp (bio_shut_down clock user cls_cleanup P unblock parts fuel rounds) (λ r m',
    r = LoopDone → loop_inv m' ∧ coros (mc_ctx m') = ∅ ∧ signals (mc_ctx m') = ∅ ∧
      monitors (mc_ctx m') = ∅) m.
Proof.
  intros Hm Hn. pose proof Hm as [Hwf _ Hd _ _]. unfold bio_shut_down. lm_steps.
  apply (only_daemons_iff _ _ _ Hwf Hd) in Hn.
  eapply wp_mono; [by apply terminating_spec|]. intros [] c1 (Hcalm & Ht & Hm1). lm_steps.
  replace (set_mc_ctx c1 (set_mc_ctx c1 m)) with (set_mc_ctx c1 m) by done.
  destruct (num_daemons c1 >? 0) eqn:E.
  - eapply wp_mono; [by eapply loop_spec|]. intros r m2 Hm2 ->.
    destruct Hm2 as (Hm2 & Hle & _ & Hst). split; [done|]. eapply all_gone; [apply Hm2|].
    unfold should_terminate in Hst. rewrite (le_terminating _ _ Hle Ht) in Hst. lia.
  - wp_steps. intros _. split; [done|]. cbn. pose proof Hm1 as [Hwf1 _ Hd1 _ _].
    eapply all_gone; [exact Hwf1|]. cbn in *.
    pose proof (only_daemons_calm _ _ Hn Hcalm) as Ho.
    apply (only_daemons_iff _ _ _ Hwf1 Hd1) in Ho. rewrite Ho.
    unfold daemon_debt in Hd1. pose proof (count_nonneg co_daemon (coros c1)). lia.
Qed.

(** [bio_terminate] as a whole. *)
Lemma empty_ready_wf c :
  wf strict [] None c → coros c = ∅ → next_ready_coros c = [].
Proof.
  intros Hwf Hc. destruct (next_ready_coros c) as [|q l] eqn:E; [done|].
  destruct (proj1 (sc_ready _ _ _ _ (wf_sched _ _ _ _ Hwf) q)) as (co & Hq & _).
  - rewrite E. left.
  - by rewrite Hc, lookup_empty in Hq.
Qed.

Lemma terminate_spec fuel rounds m :
  loop_inv m → num_coros (mc_ctx m) = num_daemons (mc_ctx m) →
  wp (bio_terminate clock user cls_cleanup P unblock parts fuel rounds) (λ _ _, True) m.
Proof.
  intros Hm Hn. unfold bio_terminate. wp_use shut_down_spec; [done..|].
  intros r m1 Hm1. destruct r; [|by wp_steps..]. destruct (Hm1 eq_refl) as ([Hwf Hmco _ Hid _] & _).
  lm_steps.
  wp_use (net_cleanup_ok _ _ parts_ok); [exact Hwf|done|done|]. intros [] c1 (Hwf1 & Hf1 & _). lm_steps.
  wp_use (fs_cleanup_ok _ _ parts_ok); [done|by rewrite (frame_mco _ _ Hf1)|by apply Hf1|].
  intros [] c2 (Hwf2 & Hf2 & _). lm_steps.
  wp_use (thread_cleanup_ok _ _ parts_ok); [done|by rewrite (frame_mco _ _ Hf2), (frame_mco _ _ Hf1)|].
  intros [] c3 _.
  unfold bio_scheduler_cleanup, bio_timer_cleanup, bio_handle_table_cleanup. lm_steps.
  wp_use (platform_cleanup_ok _ _ parts_ok). intros [] c4 _. by lm_steps.
Qed.

(** ** The whole life

    A program initializes the library, spawns a coroutine, runs the event loop
    and terminates. *)
Definition bio_main (num_buckets : Z) (n : positive) (u : option loc) (fuel rounds : nat) :
    LM loop_result :=
  _ ← lift (bio_init clock parts num_buckets);
  _ ← lift (bio_spawn clock (user_fn n) u);
  r ← bio_loop clock user cls_cleanup P fuel rounds;
  match r with
  | LoopDone => bio_terminate clock user cls_cleanup P unblock parts fuel rounds
  | _ => mret r
  end.

Lemma main_spec num_buckets n u fuel rounds c :
  0 ≤ num_buckets ≤ 2 ^ 30 → (∀ c, ready_ctx c → upre n u c) →
  wp (bio_main num_buckets n u fuel rounds) (λ _ _, True) (mk_machine c ∅).
Proof.
  intros Hb Hu. unfold bio_main. lm_steps.
  eapply wp_mono; [by apply bio_init_spec|]. intros [] c1 Hr1. lm_steps.
  pose proof (ready_loop_inv _ Hr1) as Hc1.
  eapply wp_mono; [apply (spawn_loop_inv n u None _ Hc1), Hu, Hr1|].
  intros h c2 (Hc2 & _ & _). lm_steps.
  eapply wp_mono; [eapply loop_spec; [done..|exact Hc2]|]. intros r m3 Hm3.
  destruct r; [|by wp_steps..]. destruct Hm3 as (Hm3 & _ & _ & Hst).
  apply terminate_spec; [done|]. by apply done_only_daemons.
Qed.
End life.

(** ** The library as a whole *)

Section correct.
Context (strict : Prop) (upre : positive → option loc → bio_ctx_t → Prop) `{!StablePre upre}.
Context (clock : nat → Z) (user : positive → option loc → prog unit).
Context (cls_cleanup : loc → loc → M unit) (P : platform).
Context (unblock : M unit) (parts : subsystems).

(** C1: A program that initializes the library, spawns a coroutine, runs the event loop
    and terminates has no memory error, in any part of the library and for any
    number of steps, if its functions respect the protocol. *)
Theorem whole_life_safe num_buckets n u fuel rounds c :
  (∀ q n u c, upre n u c → safe strict upre q (user n u) (λ _ _, True) c) →
  cleanups_ok strict cls_cleanup → platform_ok strict P →
  watches strict unblock → subsystems_ok strict parts →
  0 ≤ num_buckets ≤ 2 ^ 30 → (∀ c, ready_ctx strict c → upre n u c) →
  match bio_main clock user cls_cleanup P unblock parts num_buckets n u fuel rounds (mk_machine c ∅) with
  | Ok _ => True
  | Err e => e = Overflow
  end.
Proof.
  intros H1 H2 H3 H4 H5 H6 H7.
  exact (wp_safe _ _ _ (main_spec strict upre clock user cls_cleanup P unblock parts H1 H2 H3 H4 H5
    num_buckets n u fuel rounds c H6 H7)).
Qed.

(** C10: After the event loop came to its end, termination runs what is left, the
    daemons, to the end: then no coroutine, signal or monitor is left. *)
Theorem termination_leaves_nothing fuel rounds m m' :
  (∀ q n u c, upre n u c → safe strict upre q (user n u) (λ _ _, True) c) →
  cleanups_ok strict cls_cleanup → platform_ok strict P →
  watches strict unblock → subsystems_ok strict parts →
  loop_inv strict upre m → should_terminate (mc_ctx m) = true →
  bio_shut_down clock user cls_cleanup P unblock parts fuel rounds m = Ok (LoopDone, m') →
  coros (mc_ctx m') = ∅ ∧ signals (mc_ctx m') = ∅ ∧ monitors (mc_ctx m') = ∅.
Proof.
  intros H1 H2 H3 H4 H5 Hm Hst He.
  pose proof (shut_down_spec strict upre clock user cls_cleanup P unblock parts H1 H2 H3 H4 H5
    fuel rounds m Hm (done_only_daemons strict upre m Hm Hst)) as H.
  destruct (wp_elim _ _ _ _ _ H He eq_refl) as (_ & H'). exact H'.
Qed.
End correct.
