(* ===== verification/Linux.v ===== *)
(** The library on Linux: the event loop and the life of the library with the platform
    layer and the thread pool of [src/linux/platform.c] and [src/thread.c]. *)
From S2P Require Import Prelude Bits HandleTable Pool Uring TimerHeap Ctx Prog Store Ring Invariant.
From S2P Require Import Signal Timer Coro Mailbox Protocol Client Thread Exit LinuxPlatform Loop Life.

(** ** The platform *)

Section code.
Context (kernel : nat → ring_wait → kernel_step) (schedule : nat → list nat).

(** What [bio_loop] uses. *)
Definition linux_platform : platform :=
  mk_platform (bio_platform_update kernel schedule) (bio_thread_update schedule) bio_num_running_async_jobs.

(** The options that the platform and the thread pool look at, and what the operating
    system says when the platform is initialized. *)
Record linux_options := mk_linux_options {
  lo_queue_size : Z;    (* linux.io_uring.queue_size *)
  lo_num_threads : Z;   (* thread_pool.num_threads *)
  lo_thread_queue : Z;  (* thread_pool.queue_size *)
  lo_fds : Z * Z;       (* signalfd, eventfd *)
  lo_has_bind : bool;
  lo_has_listen : bool;
  lo_has_futex : bool;
}.

(** The parts of the library on Linux; [parts] has the others. *)
Definition linux_parts (o : linux_options) (parts : subsystems) : subsystems :=
  mk_subsystems
    (LinuxPlatform.bio_platform_init (lo_queue_size o) (lo_fds o) (lo_has_bind o) (lo_has_listen o) (lo_has_futex o))
    (Thread.bio_thread_init (lo_num_threads o) (lo_thread_queue o))
    (bio_fs_init parts) (bio_net_init parts) (bio_logging_init parts)
    (bio_logging_cleanup parts) (bio_net_cleanup parts) (bio_fs_cleanup parts)
    (bio_thread_cleanup parts) LinuxPlatform.bio_platform_cleanup.

(** Waiting for an exit signal. *)
Definition linux_wait_for_exit : prog bio_exit_reason_t :=
  bio_wait_for_exit (bio_platform_block_exit_signal kernel).

(** A program on Linux. *)
Definition linux_main (clock : nat → Z) (user : positive → option loc → prog unit)
    (cls_cleanup : loc → loc → M unit) (o : linux_options) (parts : subsystems) (num_buckets : Z)
    (n : positive) (u : option loc) (fuel rounds : nat) : LM loop_result :=
  bio_main clock user cls_cleanup linux_platform bio_platform_unblock_exit_signal (linux_parts o parts)
    num_buckets n u fuel rounds.
End code.

(** ** It keeps its promises *)

Section linux.
Context (kernel : nat → ring_wait → kernel_step) (schedule : nat → list nat).
Context (accepts : kernel_accepts kernel) (strict : Prop).

Lemma linux_platform_ok : platform_ok strict (linux_platform kernel schedule).
Proof.
  split; cbn.
  - intros todo c timeout notifiable Hwf _ Hid.
    eapply wp_mono; [by apply platform_update_spec|]. intros [] c' [H _]. by apply served_kept.
  - intros todo c Hwf _. eapply wp_mono; [by apply thread_update_spec|].
    intros [] c' Hk. by eapply kept_impl.
  - intros c. done.
Qed.

Lemma linux_blocks : blocks strict (bio_platform_block_exit_signal kernel).
Proof. intros todo cur c Hwf Hid. by apply block_spec. Qed.

Lemma safe_linux_wait_for_exit upre `{!StablePre upre} q (Q : bio_exit_reason_t → bio_ctx_t → Prop) c :
  (∀ r c', rely q c c' → Q r c') → safe strict upre q (linux_wait_for_exit kernel) Q c.
Proof. apply safe_wait_for_exit; [exact linux_blocks|exact _]. Qed.

(** Options that the platform accepts: an io_uring with a single entry has no room for a
    request besides the poll for exit signals. *)
Definition options_ok (o : linux_options) : Prop :=
  0 ≤ lo_queue_size o ≤ 2 ^ 31 ∧ lo_queue_size o ≠ 1 ∧ lo_thread_queue o ≤ INT_MAX.

Lemma empty_ring_ok K entries fd1 fd2 ack b1 b2 :
  2 ≤ entries → ring_ok K (mk_platform_t entries [] [] [] 0 0 0 ∅ 1 false fd1 fd2 ack b1 b2).
Proof.
  intros He. split; cbn; try done.
  - unfold zlen. cbn. lia.
  - intros p Hp. by apply not_elem_of_nil in Hp.
  - constructor.
Qed.

Lemma platform_init_spec o c :
  options_ok o → fresh_pool (thread_pool c) →
  wp (LinuxPlatform.bio_platform_init (lo_queue_size o) (lo_fds o) (lo_has_bind o) (lo_has_listen o)
    (lo_has_futex o)) (λ _ c', ∃ p s, platform_made p s ∧
      c' = set_bio_platform (λ _, s) (set_thread_pool (λ _, p) c)) c.
Proof.
  intros ([Hq1 Hq2] & Hq3 & _) Hf. unfold LinuxPlatform.bio_platform_init.
  set (size := if lo_queue_size o =? 0 then _ else _).
  assert (Hs : 2 ≤ size ≤ 2 ^ 31).
  { unfold size, BIO_LINUX_DEFAULT_QUEUE_SIZE. destruct (Z.eqb_spec (lo_queue_size o) 0); lia. }
  destruct (bio_next_pow2_pow2 size) as [_ Hle]; [lia|].
  wp_step. apply wp_on_ring. wp_step. apply wp_on_pool. wp_step.
  exists (set_pl_notifier (λ _, mk_notifier (lo_has_futex o) 0 0) (thread_pool c)),
    (mk_platform_t (bio_next_pow2 size) [] [] [] 0 0 0 ∅ 1 false (lo_fds o).1 (if lo_has_futex o then 0 else (lo_fds o).2)
      0 (lo_has_bind o) (lo_has_listen o)).
  split; [split_and!; [exact Hf|intros K; apply empty_ring_ok; lia|done]|]. ctx_eq.
Qed.

Lemma linux_parts_ok o parts :
  options_ok o → subsystems_ok strict parts → subsystems_ok strict (linux_parts o parts).
Proof.
  intros Ho Hp. pose proof Hp as [? ? ? ? ? ? ? ? ? ?]. split; cbn; try done.
  - intros c. by apply platform_init_spec.
  - intros todo c Hwf _ _ Hf. eapply wp_mono; [apply thread_init_spec; [done..|apply Ho]|].
    intros [] c' Hk. eapply kept_impl; [exact Hk|]. intros _ ->. unfold BIO_DEFAULT_THREAD_POOL_SIZE.
    destruct (Z.leb_spec (lo_num_threads o) 0); lia.
Qed.
End linux.

(** ** The whole life of a program on Linux *)

Section correct.
Context (kernel : nat → ring_wait → kernel_step) (schedule : nat → list nat).
Context (strict : Prop) (upre : positive → option loc → bio_ctx_t → Prop) `{!StablePre upre}.
Context (clock : nat → Z) (user : positive → option loc → prog unit) (cls_cleanup : loc → loc → M unit).

Lemma linux_main_spec o parts num_buckets n u fuel rounds c :
  kernel_accepts kernel → options_ok o →
  (∀ q n u c, upre n u c → safe strict upre q (user n u) (λ _ _, True) c) →
  cleanups_ok strict cls_cleanup → subsystems_ok strict parts →
  0 ≤ num_buckets ≤ 2 ^ 30 → (∀ c, ready_ctx strict c → upre n u c) →
  wp (linux_main kernel schedule clock user cls_cleanup o parts num_buckets n u fuel rounds)
    (λ _ _, True) (mk_machine c ∅).
Proof.
  intros Hk Ho Hu Hc Hp Hb Hn. unfold linux_main. apply (main_spec strict upre); try done.
  - by apply linux_platform_ok.
  - by apply linux_parts_ok.
Qed.


(** C7: However the threads of the pool are scheduled, the event loop runs every job once
    at most and reports it once at most, after it was run; when no job is running, all that
    were submitted were run and reported. *)
Theorem jobs_run_once fuel rounds m :
  kernel_accepts kernel →
  (∀ q n u c, upre n u c → safe strict upre q (user n u) (λ _ _, True) c) →
  cleanups_ok strict cls_cleanup → loop_inv strict upre m → (0 < num_workers (mc_ctx m))%nat →
  match bio_loop clock user cls_cleanup (linux_platform kernel schedule) fuel rounds m with
  | Ok (LoopDone, m') | Ok (LoopRunning, m') => jobs_accounted (thread_pool (mc_ctx m'))
  | Ok (LoopSpinning, _) => True
  | Err e => e = Overflow
  end.
Proof.
  intros Hk Hu Hc Hm Hn.
  assert (Hjobs : ∀ m', loop_inv strict upre m' → ctx_le (mc_ctx m) (mc_ctx m') → jobs_accounted (thread_pool (mc_ctx m'))).
  { intros m' [Hwf _ _ _ _] Hle. pose proof (le_pool _ _ Hle).
    eapply runs_accounted, wf_pool; [exact Hwf|lia]. }
  pose proof (loop_spec strict upre clock user cls_cleanup (linux_platform kernel schedule) Hu Hc
    (linux_platform_ok kernel schedule Hk strict) fuel rounds m Hm) as H.
  destruct (bio_loop _ _ _ _ _ _ m) as [[[] m']|e] eqn:E.
  - apply (wp_elim _ _ _ _ _ H) in E as (H1 & H2 & _). by apply Hjobs.
  - done.
  - apply (wp_elim _ _ _ _ _ H) in E as (H1 & H2). by apply Hjobs.
  - apply (wp_no_memory_error _ _ _ _ H) in E. by destruct e.
Qed.
End correct.
