(* ===== verification/Examples.v ===== *)
(** A small program, and states of the library that it reaches: inputs for the
    theorems of the development. *)
From S2P Require Import Prelude Bits HandleTable Pool Uring TimerHeap Ctx Prog Store Ring Invariant Signal.
From S2P Require Import Timer Coro Finish Mailbox Protocol TimerCoro Client Thread Service Exit Loop Life.

(** ** The program *)

Definition sample_clock (n : nat) : Z := 10 * Z.of_nat n.

(** Function 1 waits for two delayed signals; function 2 creates a timer; the others
    return. *)
Definition wait_for_two : prog unit :=
  let! s1 := Act bio_make_signal in
  let! s2 := Act bio_make_signal in
  Act (bio_raise_signal_after s1 50) ;;;
  Act (bio_raise_signal_after s2 70) ;;;
  bio_wait_for_signals [s1; s2] true.

Definition start_timer : prog unit :=
  Act (bio_create_timer sample_clock BIO_TIMER_INTERVAL 50 3 None) ;;; Ret tt.

Definition sample_user (n : positive) (u : option loc) : prog unit :=
  match n with
  | 1%positive => wait_for_two
  | 2%positive => start_timer
  | _ => Ret tt
  end.

Definition sample_pre (n : positive) (u : option loc) (c : bio_ctx_t) : Prop := True.

#[export] Instance sample_pre_stable : StablePre sample_pre.
Proof. done. Qed.

(** Nothing happens outside of the library. *)
Definition idle : M unit := mret tt.
Definition sample_cleanup (spec data : loc) : M unit := idle.
Definition sample_platform : platform := mk_platform (λ _ _, idle) idle (mret 0).
Definition sample_ring : bio_platform_t := mk_platform_t 64 [] [] [] 0 0 0 ∅ 1 false 3 4 0 true true.
Definition sample_parts : subsystems :=
  mk_subsystems (modify (set_bio_platform (λ _, sample_ring))) (Thread.bio_thread_init 0 0) idle idle idle idle idle idle idle idle.

Lemma idle_kept strict todo cur c (P : unit → bio_ctx_t → Prop) :
  wf strict todo cur c → P tt c → wp idle (kept strict todo cur c P) c.
Proof. intros Hwf HP. apply wp_ret. by apply kept_same. Qed.

Lemma sample_cleanup_ok strict : cleanups_ok strict sample_cleanup.
Proof. intros todo q spec d c Hwf _. by apply idle_kept. Qed.

Lemma sample_platform_ok strict : platform_ok strict sample_platform.
Proof. split; intros; cbn; [by apply idle_kept..|done]. Qed.

Lemma sample_ring_ok K : ring_ok K sample_ring.
Proof.
  split; cbn; try done.
  - intros p Hp. by apply not_elem_of_nil in Hp.
  - constructor.
Qed.

Lemma sample_parts_ok strict : subsystems_ok strict sample_parts.
Proof.
  split; cbn; try (intros todo c Hwf _ _; by apply idle_kept).
  - intros c Hc. wp_steps. exists (thread_pool c), sample_ring. split; [split_and!; [done|apply sample_ring_ok|done]|].
    ctx_eq.
  - intros todo c Hwf _ _ Hf. eapply wp_mono; [apply thread_init_spec; [done|done|done]|].
    intros [] c' Hk. eapply kept_impl; [exact Hk|]. intros _ ->. unfold BIO_DEFAULT_THREAD_POOL_SIZE. cbn. lia.
  - intros todo c _ _. done.
  - intros c. done.
Qed.

Lemma idle_watches strict : watches strict idle.
Proof. intros todo cur c Hwf. by apply idle_kept. Qed.

Lemma idle_blocks strict : blocks strict idle.
Proof. intros todo cur c Hwf _. by apply idle_kept. Qed.

Lemma safe_raise_after strict q h t (Q : unit → bio_ctx_t → Prop) c :
  hk c h → (∀ c', rely q c c' → Q tt c') →
  safe strict sample_pre q (Act (bio_raise_signal_after h t)) Q c.
Proof.
  intros Hk HQ. eapply safe_act with (P := λ _ _, True).
  - intros todo c' Hr Hwf _. eapply wp_mono; [apply raise_signal_after_spec; [done|by eapply rely_hk]|].
    intros [] c'' H. eapply kept_impl; [exact H|done].
  - intros [] c' c'' Hr _ Hr'. apply HQ. by etrans.
Qed.

Lemma sample_user_ok strict q n u c :
  sample_pre n u c → safe strict sample_pre q (sample_user n u) (λ _ _, True) c.
Proof.
  intros _. destruct n as [n|[n|n|]|]; try by apply safe_ret.
  { apply safe_bind, safe_create_timer; [exact _|exact sample_user|exact I|]. intros h c' _ _. by apply safe_ret. }
  apply safe_bind, safe_make_signal. intros s1 c1 _ H1.
  apply safe_bind, safe_make_signal_fresh. intros s2 c2 R2 H2 Hne.
  assert (H1' : hk c2 s1) by by eapply rely_hk.
  apply safe_bind, safe_raise_after; [done|]. intros c3 R3.
  apply safe_bind, safe_raise_after; [by eapply rely_hk|]. intros c4 R4.
  assert (R : rely q c2 c4) by by etrans.
  apply safe_wait; [| |done].
  - constructor; [by eapply rely_hk|]. constructor; [by eapply rely_hk|constructor].
  - intros _ _. constructor; [|apply NoDup_singleton]. intros ->%list_elem_of_singleton. done.
Qed.

(** ** States that it reaches *)

Definition run_loop (rounds : nat) : LM loop_result :=
  bio_loop sample_clock sample_user sample_cleanup sample_platform 10 rounds.

Definition ctx_zero : bio_ctx_t := zero_ctx 0.

(** After [bio_init], and after a coroutine was created. *)
Definition ctx_idle : bio_ctx_t := state_of ctx_zero (bio_init sample_clock sample_parts 0 ctx_zero).
Definition ctx_spawned (fn : positive) : bio_ctx_t :=
  state_of ctx_zero (bio_spawn sample_clock (user_fn fn) None ctx_idle).
Definition machine_spawned (fn : positive) : machine := mk_machine (ctx_spawned fn) ∅.

(** After some rounds of the event loop: the coroutine is ready, then it waits. *)
Definition machine_at (fn : positive) (rounds : nat) : machine :=
  state_of (machine_spawned fn) (run_loop rounds (machine_spawned fn)).

Lemma ctx_idle_ready strict : ready_ctx strict ctx_idle.
Proof.
  destruct (wp_state _ _ ctx_zero ctx_zero (bio_init_spec strict sample_clock sample_parts
    (sample_parts_ok strict) 0 ctx_zero ltac:(lia)) ltac:(vm_compute; reflexivity)) as (? & _ & H).
  exact H.
Qed.

Lemma machine_spawned_inv strict fn :
  is_ok (bio_spawn sample_clock (user_fn fn) None ctx_idle) = true →
  loop_inv strict sample_pre (machine_spawned fn).
Proof.
  intros Hr. assert (Hu : ∀ c, sample_pre fn None c) by done.
  unfold machine_spawned, ctx_spawned.
  pose proof (ready_loop_inv strict sample_pre _ (ctx_idle_ready strict)) as H0.
  generalize dependent ctx_idle. intros c Hr H0.
  destruct (wp_state _ _ _ ctx_zero (spawn_loop_inv strict sample_pre sample_clock fn None None _ H0 (Hu _)) Hr)
    as (? & _ & H & _). exact H.
Qed.

(** Whether the program runs for so many rounds, or ends before. *)
Definition goes_on (fn : positive) (rounds : nat) : bool :=
  is_ok (bio_spawn sample_clock (user_fn fn) None ctx_idle) &&
  match run_loop rounds (machine_spawned fn) with
  | Ok (LoopSpinning, _) | Err _ => false
  | Ok _ => true
  end.

Lemma machine_at_inv strict fn n :
  goes_on fn n = true → loop_inv strict sample_pre (machine_at fn n).
Proof.
  unfold machine_at. intros [Hs Hr]%andb_true_iff. pose proof (machine_spawned_inv strict fn Hs) as Hm. clear Hs.
  generalize dependent (machine_spawned fn). intros m Hr Hm.
  pose proof (loop_spec strict sample_pre sample_clock sample_user sample_cleanup sample_platform
    (sample_user_ok strict) (sample_cleanup_ok strict) (sample_platform_ok strict) 10 n m Hm) as H.
  unfold wp in H. unfold run_loop in *.
  destruct (bio_loop _ _ _ _ _ _ m) as [[[] m']|e]; try done; cbn; apply H.
Qed.

(** A state in which coroutine [q] runs, which is the only one that is ready. *)
Definition no_coro : bio_coro_impl_t :=
  new_coro (user_fn 1) None (mk_coro_options false) BIO_INVALID_HANDLE.
Definition coro_in (m : machine) (q : loc) : bio_coro_impl_t := default no_coro (coros (mc_ctx m) !! q).
Definition running_in (m : machine) (q : loc) : bio_ctx_t := resumed q (coro_in m q) (mc_ctx m).

Lemma running_in_wf strict m q :
  loop_inv strict sample_pre m → current_ready_coros (mc_ctx m) = [q] →
  wf strict [] (Some q) (running_in m q).
Proof.
  intros [Hwf _ _ _ _] Hc. rewrite Hc in Hwf. destruct (ready_coro _ _ _ _ Hwf) as (co & Hq & _).
  unfold running_in, coro_in. rewrite Hq. by apply resumed_wf.
Qed.

(** The handle of the first coroutine. *)
Definition coro_handle : bio_handle_t := mk_handle 1 0.

(** Function 1 is about to start. *)
Definition ctx_running : bio_ctx_t := running_in (machine_at 1 1) 1.

Lemma ctx_running_wf strict : wf strict [] (Some 1%positive) ctx_running.
Proof.
  apply running_in_wf; [apply machine_at_inv|]; vm_compute; reflexivity.
Qed.

(** It has opened a mailbox. *)
Definition mailbox_handle : bio_handle_t := mk_handle 2 0.
Definition ctx_mailbox : bio_ctx_t := state_of ctx_running (bio__mailbox_open 4 ctx_running).

Lemma ctx_mailbox_wf strict :
  wf strict [] (Some 1%positive) ctx_mailbox ∧ holds ctx_mailbox 2 4 [].
Proof.
  assert (Hr : is_ok (bio__mailbox_open 4 ctx_running) = true) by (vm_compute; reflexivity).
  assert (Hn : next_loc ctx_running = 2%positive) by (vm_compute; reflexivity).
  unfold ctx_mailbox. pose proof (ctx_running_wf strict) as Hwf.
  generalize dependent ctx_running. intros c Hr Hn Hwf.
  destruct (wp_state _ _ _ c (open_spec strict [] (Some 1%positive) c 4 Hwf ltac:(lia)) Hr)
    as (h & _ & (Hwf' & _ & _ & _ & _ & Hh)). split; [done|]. rewrite Hn in Hh. exact Hh.
Qed.

(** It has made a signal. *)
Definition signal_handle : bio_handle_t := mk_handle 2 0.
Definition ctx_signal : bio_ctx_t := state_of ctx_running (bio_make_signal ctx_running).

Lemma ctx_signal_wf strict : wf strict [] (Some 1%positive) ctx_signal.
Proof.
  assert (Hr : is_ok (bio_make_signal ctx_running) = true) by (vm_compute; reflexivity).
  unfold ctx_signal. pose proof (ctx_running_wf strict) as Hwf.
  generalize dependent ctx_running. intros c Hr Hwf.
  destruct (wp_state _ _ _ c (make_signal_spec strict [] (Some 1%positive) c Hwf) Hr)
    as (h & _ & (Hwf' & _)). done.
Qed.

(** Function 1 waits for its signals; a timer is about to start. *)
Definition ctx_waiting : bio_ctx_t := mc_ctx (machine_at 1 2).

Lemma ctx_waiting_wf strict : wf strict [] None ctx_waiting.
Proof.
  pose proof (machine_at_inv strict 1 2 ltac:(vm_compute; reflexivity)) as [Hwf _ _ _ _].
  assert (Hc : current_ready_coros (mc_ctx (machine_at 1 2)) = []) by (vm_compute; reflexivity).
  by rewrite Hc in Hwf.
Qed.

Definition timer_coro : loc := 3%positive.
Definition timer_object : loc := 2%positive.
Definition ctx_timer : bio_ctx_t := running_in (machine_at 2 2) timer_coro.

Lemma ctx_timer_ok strict :
  wf strict [] (Some timer_coro) ctx_timer ∧ serves sample_pre timer_coro timer_object ctx_timer.
Proof.
  pose proof (machine_at_inv strict 2 2 ltac:(vm_compute; reflexivity)) as Hm.
  assert (Hc : current_ready_coros (mc_ctx (machine_at 2 2)) = [timer_coro]) by (vm_compute; reflexivity).
  assert (Hs : mc_stacks (machine_at 2 2) !! timer_coro = None) by (vm_compute; reflexivity).
  assert (Hco : co_code <$> coros (mc_ctx (machine_at 2 2)) !! timer_coro =
    Some (bio_timer_entry_fn, Some timer_object)) by (vm_compute; reflexivity).
  unfold ctx_timer. generalize dependent (machine_at 2 2). intros m Hm Hc Hs Hco.
  split; [by apply running_in_wf|]. unfold running_in, coro_in.
  destruct Hm as [_ _ _ _ [_ Hok]].
  destruct (coros (mc_ctx m) !! timer_coro) as [co|] eqn:E; [|done]. injection Hco as Hco1 Hco2.
  specialize (Hok _ _ ltac:(done) E). unfold stack_ok in Hok. rewrite Hs in Hok.
  unfold co_code in Hok. rewrite Hco1, Hco2 in Hok.
  eapply serves_rely; [exact _|exact Hok|]. apply calm_rely, resumed_calm, E.
Qed.

(** A coroutine that waits for an exit request. *)
Definition ctx_exit : bio_ctx_t := state_of ctx_running (add_exit_handler idle ctx_running).

Lemma ctx_exit_wf strict : wf strict [] (Some 1%positive) ctx_exit.
Proof.
  assert (Hr : is_ok (add_exit_handler idle ctx_running) = true) by (vm_compute; reflexivity).
  assert (Hid : io_idle ctx_running) by (vm_compute; reflexivity).
  unfold ctx_exit. pose proof (ctx_running_wf strict) as Hwf.
  generalize dependent ctx_running. intros c Hr Hid Hwf.
  destruct (wp_state _ _ _ c (add_exit_handler_spec strict idle (idle_blocks strict)
    [] (Some 1%positive) c Hwf Hid) Hr) as (h & _ & (Hwf' & _)). done.
Qed.
