(* ===== verification/WitnessParts.v ===== *)
(** Instances of the theorems about the components that do not depend on the
    scheduler: their hypotheses hold at the inputs given here. *)
From S2P Require Import Prelude Bits Ring.
From S2P Require LinkList DynArray Spsc.

(** ** Linked lists *)

Module Lists.
Import LinkList.

Definition no_links : links := list_to_map ((λ p, (p, mk_link None None)) <$> [1;2;3;4]%positive).
Definition empty_list : links := state_of no_links (BIO_LIST_INIT 1 no_links).
Definition sample_list_ops : list list_op := [Append 2; Append 3; Remove 2; Append 4; Pop]%positive.

Lemma empty_list_repr : list_repr [2;3;4]%positive 1 empty_list [].
Proof.
  split.
  - split; [apply NoDup_singleton| |cbn; repeat split; vm_compute; reflexivity].
    intros p ->%list_elem_of_singleton. eexists. vm_compute. reflexivity.
  - by intros p ?%not_elem_of_nil.
  - intros p Hp _. repeat (apply elem_of_cons in Hp as [->|Hp]; [vm_compute; reflexivity|]).
    by apply not_elem_of_nil in Hp.
  - intros Hp. repeat (apply elem_of_cons in Hp as [?|Hp]; [done|]). by apply not_elem_of_nil in Hp.
Qed.

Lemma list_macros_refine_witness :
  ∃ r h', (_ ← list_execs 1 sample_list_ops; BIO_LIST_IS_EMPTY 1) empty_list = Ok (r, h') ∧
    r = false ∧ list_repr [2;3;4]%positive 1 h' [4%positive].
Proof.
  assert (Hok : list_ops_ok [2;3;4]%positive [] sample_list_ops).
  { unfold sample_list_ops. cbn [list_ops_ok list_op_ok].
    repeat split; try apply (bool_decide_unpack _); vm_compute; exact I. }
  assert (Hr : is_ok ((_ ← list_execs 1 sample_list_ops; BIO_LIST_IS_EMPTY 1) empty_list) = true)
    by (vm_compute; reflexivity).
  destruct (wp_ok _ _ _ (list_macros_refine [2;3;4]%positive 1 sample_list_ops empty_list []
    empty_list_repr Hok) Hr) as (r & h' & He & Hl & Hd).
  exists r, h'. split; [exact He|]. split; [exact Hd|exact Hl].
Defined.
End Lists.

(** ** Dynamic arrays *)

Module Arrays.
Import DynArray.

Definition sample_block : array := Block (mk_header (Some 2) (Some 2) [Some 7%nat; Some 8%nat]).

End Arrays.

(** ** Queues between threads *)

Module Queues.
Import Spsc.

(** What happens next in a run. *)
Inductive action :=
  | BeginProduce (item : nat)
  | BeginConsume
  | StepProducer
  | StepConsumer.

Definition act (a : action) (s : @spsc nat) : option (@event nat * @spsc nat) :=
  match a with
  | BeginProduce item =>
      match producer s with PIdle => Some (Tau, mk_spsc (queue s) (PLoad item true) (consumer s)) | _ => None end
  | BeginConsume =>
      match consumer s with CIdle => Some (Tau, mk_spsc (queue s) (producer s) (CLoad true)) | _ => None end
  | StepProducer =>
      match bio_spscq_produce (queue s) (producer s) with
      | Some (e, q, pc) => Some (e, mk_spsc q pc (consumer s)) | None => None end
  | StepConsumer =>
      match bio_spscq_consume (queue s) (consumer s) with
      | Some (e, q, pc) => Some (e, mk_spsc q (producer s) pc) | None => None end
  end.

Fixpoint play (l : list event) (s : spsc) (acts : list action) : option (list event * spsc) :=
  match acts with
  | [] => Some (l, s)
  | a :: acts => match act a s with Some (e, s') => play (l ++ [e]) s' acts | None => None end
  end.

Lemma act_step a s e s' : act a s = Some (e, s') → spsc_step s e s'.
Proof.
  destruct a; cbn; intros H; repeat case_match; simplify_eq; by constructor.
Qed.

Lemma play_run s0 acts : ∀ l s l' s',
  spsc_run s0 l s → play l s acts = Some (l', s') → spsc_run s0 l' s'.
Proof.
  induction acts as [|a acts IH]; cbn; intros l s l' s' Hr H; simplify_eq; [done|].
  destruct (act a s) as [[e s1]|] eqn:E; [|done]. eapply IH; [|done].
  eapply run_snoc; [done|]. by eapply act_step.
Qed.

(** The consumer falls asleep, is woken up by the producer, takes the item, and sleeps
    again. *)
Definition sample_schedule : list action :=
  [BeginConsume] ++ replicate 3 StepConsumer ++ [BeginProduce 7] ++ replicate 7 StepProducer ++
  replicate 7 StepConsumer ++ [BeginConsume] ++ replicate 3 StepConsumer.

Definition sample_end : list event * spsc := default ([], spsc_init 2) (play [] (spsc_init 2) sample_schedule).

Lemma sample_end_run : spsc_run (spsc_init 2) sample_end.1 sample_end.2.
Proof.
  eapply (play_run (spsc_init 2) sample_schedule []); [constructor|].
  assert (H : is_Some (play [] (spsc_init 2) sample_schedule)) by (vm_compute; eauto).
  unfold sample_end. destruct (play _ _ _) as [[l s]|]; [done|by destruct H].
Qed.

Lemma pow2_two : pow2 2.
Proof. exists 1. done. Qed.

Lemma spsc_refines_fifo_witness :
  ∃ q, fifo_run 2 sample_end.1 q ∧ omap produced_by sample_end.1 = [7%nat] ∧ q = [].
Proof.
  destruct (spsc_refines_fifo 2 sample_end.1 sample_end.2 pow2_two ltac:(done) sample_end_run)
    as (q & Hf & Ho & _).
  assert (Hp : omap produced_by sample_end.1 = [7%nat]) by (vm_compute; reflexivity).
  assert (Hc : omap consumed_by sample_end.1 = [7%nat]) by (vm_compute; reflexivity).
  exists q. split; [exact Hf|]. split; [exact Hp|]. rewrite Hp, Hc in Ho.
  exact (eq_sym (app_inv_head [7%nat] [] q Ho)).
Defined.

Lemma spsc_no_lost_wakeup_witness :
  consumer_asleep (consumer sample_end.2) = true ∧ count (queue sample_end.2) = 0.
Proof.
  assert (H1 : ¬ producer_runs sample_end.2) by (intros [x H]; vm_compute in H; discriminate H).
  assert (H2 : ¬ consumer_runs sample_end.2) by (intros [x H]; vm_compute in H; discriminate H).
  destruct (spsc_no_lost_wakeup 2 sample_end.1 sample_end.2 pow2_two ltac:(done) sample_end_run)
    as [H|[H|[[_ H]|[(H & _)|(H & _ & Hc)]]]]; [by destruct H1|by destruct H2| | |by split].
  - vm_compute in H. discriminate H.
  - vm_compute in H. discriminate H.
Defined.
End Queues.
