(* ===== verification/WitnessIo.v ===== *)
(** Instances of the theorems about files, sockets and buffers, with small operating
    systems: their hypotheses hold there. *)
From stdpp Require Import strings.
From S2P Require Import Prelude HandleTable Error Net Io Cursor LinuxFile Descriptors LinuxNet Buffering.

(** ** Addresses *)

Lemma address_compare_total_order_witness :
  ∃ ab ba bc ac,
    bio_net_address_compare BIO_ADDR_IPV4_ANY BIO_ADDR_IPV4_LOOPBACK = Ok ab ∧
    bio_net_address_compare BIO_ADDR_IPV4_LOOPBACK BIO_ADDR_IPV4_ANY = Ok ba ∧
    bio_net_address_compare BIO_ADDR_IPV4_LOOPBACK BIO_ADDR_IPV6_ANY = Ok bc ∧
    bio_net_address_compare BIO_ADDR_IPV4_ANY BIO_ADDR_IPV6_ANY = Ok ac ∧ ab < 0 ∧ 0 < ba ∧ ac < 0.
Proof.
  destruct (address_compare_total_order BIO_ADDR_IPV4_ANY BIO_ADDR_IPV4_LOOPBACK BIO_ADDR_IPV6_ANY
    eq_refl eq_refl eq_refl) as (ab & ba & bc & ac & H1 & H2 & H3 & H4 & _ & Hr & Ht).
  assert (Hab : ab < 0) by (revert H1; vm_compute; intros [= <-]; reflexivity).
  assert (Hbc : bc < 0) by (revert H3; vm_compute; intros [= <-]; reflexivity).
  exists ab, ba, bc, ac. split_and!; [exact H1|exact H2|exact H3|exact H4|exact Hab|by apply Hr|by apply Ht].
Defined.

(** ** A state without objects *)

Definition table_zero : table io_tag positive := mk_table [] 0 0 0.
Definition table_empty : table io_tag positive := state_of table_zero (bio_handle_table_init table_zero).

Lemma table_empty_ok : wf table_empty ∧ live table_empty = ∅.
Proof.
  assert (Hr : is_ok (bio_handle_table_init table_zero) = true) by (vm_compute; reflexivity).
  destruct (wp_ok _ _ _ (init_spec table_zero) Hr) as (a & t & He & H).
  assert (Ht : t = table_empty) by (unfold table_empty; by rewrite He). rewrite <- Ht. split; [apply H|].
  rewrite Ht. vm_compute. reflexivity.
Qed.

Section empty.
Context {OS File Sock : Type}.

Definition io_empty (o : OS) : io_ctx OS File Sock := mk_io table_empty 1 ∅ ∅ ∅ o ∅.

Lemma io_empty_wf o : io_wf (io_empty o).
Proof.
  destruct table_empty_ok as [Hwf Hl].
  split; [done|split; cbn; rewrite Hl..].
  all: intros *; rewrite lookup_empty; done.
Qed.

(** The others allocate memory all the time. *)
Definition busy (s : io_ctx OS File Sock) : io_ctx OS File Sock := set_io_next (Pos.succ (io_next s)) s.

Lemma busy_polite : polite busy.
Proof. split; intros s Hs; [by apply malloc_wf|]. split; [done|]. cbn. lia. Qed.
End empty.

(** ** Files *)

(** The contents of the open files. At most two bytes are transferred at once. *)
Abbreviation disk := (gmap Z (list Z)).

Definition disk_kernel (req : request) (d : disk) : reply * disk :=
  match req with
  | req_read fd size offset =>
      match d !! fd with
      | Some l =>
          let data := take (Z.to_nat (Z.min size 2)) (drop (Z.to_nat offset) l) in
          (mk_reply (zlen data) data 0, d)
      | None => (mk_reply (-9) [] 0, d)
      end
  | req_write fd buf offset =>
      match d !! fd with
      | Some l =>
          let data := take 2 buf in
          if offset + zlen data <? 9223372036854775808
          then (mk_reply (zlen data) [] 0, <[fd := splice offset data l]> d)
          else (mk_reply (-27) [] 0, d)
      | None => (mk_reply (-9) [] 0, d)
      end
  | req_fsync _ => (mk_reply 0 [] 0, d)
  | req_statx fd =>
      match d !! fd with
      | Some l => (mk_reply 0 [] (zlen l), d)
      | None => (mk_reply (-9) [] 0, d)
      end
  | _ => (mk_reply (-22) [] 0, d)
  end.

Definition disk_contents (d : disk) (fd : Z) : option (list Z) := d !! fd.

Lemma disk_regular : regular_files disk_kernel disk_contents.
Proof.
  split; unfold disk_contents; intros d fd; [intros size off l E|intros buf off l E|intros l E|intros l E];
    cbn; rewrite ?E; cbn; [| |done..].
  - intros Hs Ho. split; [done|]. right. cbn. set (data := take _ (drop _ l)).
    assert (Hlen : length data = Nat.min (Z.to_nat (Z.min size 2)) (length l - Z.to_nat off))
      by (unfold data; by rewrite length_take, length_drop).
    split_and!; [done|unfold zlen; lia| |].
    + rewrite Hlen. unfold data. rewrite <- take_take. f_equal.
      rewrite take_ge; [done|]. by rewrite length_drop.
    + intros Hd. rewrite Hd in Hlen. cbn in Hlen. unfold zlen. lia.
  - intros Hl Ho. assert (Ht : zlen (take 2 buf) ≤ zlen buf) by (unfold zlen; rewrite length_take; lia).
    pose proof (zlen_nonneg (take 2 buf)).
    destruct (Z.ltb_spec (off + zlen (take 2 buf)) 9223372036854775808) as [Hfit|Hfit]; cbn [fst snd].
    + eexists. rewrite lookup_insert_eq. split; [done|]. right. cbn [rp_res].
      split_and!; [lia|done|done| |].
      * f_equal. unfold zlen. by rewrite Nat2Z.id, length_take, <- take_take, (take_ge buf (length buf)) by lia.
      * intros Hz. destruct buf as [|x buf]; [done|]. unfold zlen in Hz. rewrite length_take in Hz. cbn in Hz. lia.
    + exists l. split; [done|]. left. cbn. split; [lia|done].
Qed.

Abbreviation disk_io := (io_ctx disk bio_file_impl_t unit).

Abbreviation sample_disk := ({[3 := [10; 11; 12]]} : disk).
Definition disk_error : error_ptr := Some (mk_error None 0 None EmptyString 0).
Definition no_strerror (code : Z) : string := EmptyString.

(** File 3 is open, at its second byte. *)
Definition disk_open : res (bio_handle_t * disk_io) := bio_file_from_fd 3 1 true (io_empty sample_disk).
Definition disk_state : disk_io := state_of (io_empty sample_disk) disk_open.
Definition disk_file : bio_handle_t := mk_handle 1 0.

Lemma disk_state_wf : io_wf disk_state.
Proof.
  assert (Hr : is_ok disk_open = true) by (vm_compute; reflexivity).
  assert (Hs : wp (bio_file_from_fd 3 1 true) (λ _ s, io_wf s) (io_empty sample_disk : disk_io)).
  { apply file_from_fd_spec; [apply io_empty_wf|]. by intros. }
  destruct (wp_ok _ _ _ Hs Hr) as (h & s & He & Hwf). unfold disk_state, disk_open. by rewrite He.
Qed.

Lemma disk_state_at : file_at disk_contents disk_file 1 3 [10; 11; 12] 1 disk_state.
Proof. split; [apply disk_state_wf|vm_compute; reflexivity..|lia|reflexivity]. Qed.

Lemma busy_mine p fd l pos (s : disk_io) :
  file_at disk_contents disk_file p fd l pos s → file_at disk_contents disk_file p fd l pos (busy s).
Proof. intros []. split; [by apply malloc_wf|done..]. Qed.

Lemma file_refines_cursor_witness :
  ∃ r s', file_exec busy disk_kernel no_strerror disk_file (Read 5) None disk_state = Ok (r, s') ∧
    r = RRead 2 [11; 12] None.
Proof.
  assert (Hr : is_ok (file_exec busy disk_kernel no_strerror disk_file (Read 5) None disk_state) = true)
    by (vm_compute; reflexivity).
  destruct (wp_ok _ _ _ (file_refines_cursor busy disk_kernel no_strerror disk_contents disk_regular
    disk_file 1 3 (busy_mine 1 3) [10; 11; 12] 1 disk_state (Read 5) None disk_state_at ltac:(cbn; lia)) Hr)
    as (r & s' & He & _).
  exists r, s'. split; [exact He|]. revert He. vm_compute. intros [= <- _]. reflexivity.
Defined.

Lemma write_then_read_back_witness :
  ∃ r s', (w ← bio_fwrite_exactly busy disk_kernel no_strerror disk_file [1;2;3;4;5] disk_error;
      q ← bio_fseek no_strerror disk_file 1 SEEK_SET w.2;
      bio_fread_exactly busy disk_kernel no_strerror disk_file w.1 q.2) disk_state = Ok (r, s') ∧
    r.1.2 = [1;2;3;4;5].
Proof.
  assert (Hr : is_ok ((w ← bio_fwrite_exactly busy disk_kernel no_strerror disk_file [1;2;3;4;5] disk_error;
      q ← bio_fseek no_strerror disk_file 1 SEEK_SET w.2;
      bio_fread_exactly busy disk_kernel no_strerror disk_file w.1 q.2) disk_state) = true)
    by (vm_compute; reflexivity).
  destruct (wp_ok _ _ _ (write_then_read_back busy disk_kernel no_strerror disk_contents disk_regular
    disk_file 1 3 (busy_mine 1 3) [10; 11; 12] 1 disk_state [1;2;3;4;5] disk_error disk_state_at
    ltac:(vm_compute; reflexivity)) Hr) as ([[n data] e] & s' & He & _ & _ & Hd).
  exists (n, data, e), s'. split; [exact He|]. destruct Hd as [Hd|Hd]; [exact Hd|].
  exfalso. assert (Hn : disk_error ≠ None) by discriminate. apply Hd in Hn. revert He Hn. vm_compute.
  intros [= _ _ <- _] [x Hx]. discriminate Hx.
Defined.


(** ** Sockets *)

Lemma translate_address_correct_witness :
  ∃ r s', bio_translate_address (OS := unit) (File := unit) (Named 3 ([64; 97; 98] ++ replicate 253 0)) 0 None
      (io_empty tt) = Ok (r, s') ∧
    r.1 = Some (mk_translation (sockaddr_un AF_UNIX ([0; 97; 98] ++ replicate 105 0)) 5 true).
Proof.
  set (addr := Named 3 ([64; 97; 98] ++ replicate 253 0)).
  assert (Ha : addr_ok addr) by (split; [reflexivity|lia]).
  assert (Hr : is_ok (bio_translate_address (OS := unit) (File := unit) addr 0 None (io_empty tt)) = true)
    by (vm_compute; reflexivity).
  destruct (wp_ok _ _ _ (translate_address_correct addr 0 None (io_empty tt) Ha) Hr)
    as (r & s' & He & _ & path & _ & Hp & Hres).
  exists r, s'. split; [exact He|]. rewrite Hres, Hp. reflexivity.
Defined.

(** The next descriptor, and those that are open. *)
Abbreviation fds := (Z * gset Z)%type.

Definition fds_kernel (req : request) (o : fds) : reply * fds :=
  match req with
  | req_open _ _ _ | req_socket _ _ _ | req_accept _ =>
      if decide (o.1 ≤ 0 ∨ o.1 ∈ o.2) then (mk_reply (-24) [] 0, o)
      else (mk_reply o.1 [] 0, (o.1 + 1, {[o.1]} ∪ o.2))
  | req_close fd => (mk_reply 0 [] 0, (o.1, o.2 ∖ {[fd]}))
  | req_listen _ _ => (mk_reply (-95) [] 0, o)
  | _ => (mk_reply 0 [] 0, o)
  end.

Lemma fds_descriptors : descriptors (File := unit) busy fds_kernel snd.
Proof.
  split; [|intros fd o; cbn; case_decide; cbn; lia|done].
  intros req o. destruct req; cbn; try done; case_decide as E; cbn; try done;
    (rewrite (proj2 (Z.ltb_ge _ _)) by lia; split; [tauto|done]).
Qed.


(** ** Buffers *)

(** A stream of bytes in each direction; at most two are transferred at once. *)
Record streams := mk_streams { str_in : list Z; str_out : list Z }.
Abbreviation stream_io := (io_ctx streams unit unit).

Definition stream_read (fn : positive) (ctx : bio_handle_t) (size : Z) (error : error_ptr) :
    st stream_io (Z * list Z * error_ptr) :=
  s ← get;
  let data := take (Z.to_nat (Z.min size 2)) (str_in (os s)) in
  _ ← modify (set_os (mk_streams (drop (length data) (str_in (os s))) (str_out (os s))));
  mret (zlen data, data, error).

Definition stream_write (fn : positive) (ctx : bio_handle_t) (buf : list Z) (error : error_ptr) :
    st stream_io (Z * error_ptr) :=
  s ← get;
  _ ← modify (set_os (mk_streams (str_in (os s)) (str_out (os s) ++ take 2 buf)));
  mret (zlen (take 2 buf), error).

Definition no_read (ctx : bio_handle_t) (size : Z) (error : error_ptr) : st stream_io (Z * list Z * error_ptr) :=
  mret (0, [], error).
Definition no_write (ctx : bio_handle_t) (buf : list Z) (error : error_ptr) : st stream_io (Z * error_ptr) :=
  mret (0, error).
Definition no_flush (ctx : bio_handle_t) (error : error_ptr) : st stream_io (bool * error_ptr) := mret (true, error).

Definition stream_options : bio_buffer_options_t :=
  mk_buffer_options BIO_INVALID_HANDLE (Some (ReadUser 1)) (Some (WriteUser 1)) None 4.

Lemma stream_size : 0 ≤ bo_size stream_options < 2 ^ 63.
Proof. unfold stream_options. cbn. lia. Qed.

Definition stream_start : stream_io := io_empty (mk_streams [1;2;3;4;5;6;7] []).
Definition stream_open : res (bio_handle_t * stream_io) := bio_make_buffer stream_options stream_start.
Definition stream_state : stream_io := state_of stream_start stream_open.
Definition stream_buffer : bio_handle_t := mk_handle 1 0.
Definition stream_impl : bio_io_buffer_impl_t := mk_buffer stream_options 0 0 (replicate 4 None).

Lemma stream_state_at : buffer_at stream_buffer 1 stream_impl stream_state.
Proof.
  assert (Hr : is_ok stream_open = true) by (vm_compute; reflexivity).
  assert (Hs : wp (bio_make_buffer stream_options) (λ h s, buffer_at h 1 stream_impl s) stream_start).
  { apply make_buffer_spec; [apply io_empty_wf|]. by intros. }
  destruct (wp_ok _ _ _ Hs Hr) as (h & s & He & Hb). unfold stream_state, stream_open.
  rewrite He. assert (Hh : h = stream_buffer) by (revert He; vm_compute; by intros [= <- _]).
  by rewrite Hh in Hb.
Qed.

Lemma buffer_at_os (s : stream_io) h p x o : buffer_at h p x s → buffer_at h p x (set_os o s).
Proof. intros (? & ? & ?). by split_and!; [apply set_os_wf|..]. Qed.

Lemma stream_write_ok x s buf error :
  buffer_at stream_buffer 1 x s → bf_options x = stream_options → buf ≠ [] →
  wp (stream_write 1 (bo_ctx stream_options) buf error) (λ r s', 0 ≤ r.1 ≤ zlen buf ∧
    buffer_at stream_buffer 1 x s' ∧ str_out (os s') = str_out (os s) ++ take (Z.to_nat r.1) buf) s.
Proof.
  intros Hx _ _. unfold stream_write. wp_steps. cbn [fst snd]. split_and!.
  - apply zlen_nonneg.
  - unfold zlen. rewrite length_take. lia.
  - by apply buffer_at_os.
  - cbn [os set_os str_out]. f_equal. unfold zlen.
    by rewrite Nat2Z.id, length_take, <- take_take, (take_ge buf (length buf)) by lia.
Qed.

Lemma stream_read_ok x s error :
  buffer_at stream_buffer 1 x s → bf_options x = stream_options →
  wp (stream_read 1 (bo_ctx stream_options) (bo_size stream_options) error) (λ r s',
    r.1.1 = zlen r.1.2 ∧ zlen r.1.2 ≤ bo_size stream_options ∧ buffer_at stream_buffer 1 x s' ∧
    str_in (os s) = r.1.2 ++ str_in (os s') ∧ (r.1.1 = 0 → True)) s.
Proof.
  intros Hx _. unfold stream_read. wp_steps. cbn [fst snd]. set (n := Z.to_nat _). split_and!; [done| | | |done].
  - assert (Hn : n = 2%nat) by reflexivity. rewrite Hn. change (bo_size stream_options) with 4.
    unfold zlen. rewrite length_take. lia.
  - by apply buffer_at_os.
  - cbn [os set_os str_in]. rewrite length_take.
    rewrite <- (take_drop (Nat.min n (length (str_in (os s)))) (str_in (os s))) at 1. f_equal.
    rewrite <- take_take. by rewrite (take_ge (str_in (os s)) (length (str_in (os s)))) by lia.
Qed.

Lemma buffered_writes_in_order_witness :
  ∃ ok s', write_list no_write no_write no_flush (λ _, stream_write 1) (λ _, no_flush) stream_buffer
      [[10; 11; 12]; [13; 14]; [15; 16; 17; 18; 19]] None stream_state = Ok (ok, s') ∧
    str_out (os s') = [10; 11; 12; 13; 14; 15; 16; 17; 18; 19].
Proof.
  set (outs := [[10; 11; 12]; [13; 14]; [15; 16; 17; 18; 19]]).
  assert (Hr : is_ok (write_list no_write no_write no_flush (λ _, stream_write 1) (λ _, no_flush) stream_buffer
    outs None stream_state) = true) by (vm_compute; reflexivity).
  assert (Hlen : Forall (λ out, zlen out < 2 ^ 63) outs) by (repeat constructor; reflexivity).
  assert (Hb : write_buffer stream_buffer 1 stream_options [] stream_state).
  { exists stream_impl. split; [apply stream_state_at|]. split_and!; try reflexivity; [|by split].
    vm_compute. discriminate. }
  destruct (wp_ok _ _ _ (buffered_writes_in_order no_write no_write no_flush (λ _, stream_write 1) (λ _, no_flush)
    stream_buffer 1 stream_options (WriteUser 1) (λ s, str_out (os s)) eq_refl stream_size
    stream_write_ok
    ltac:(intros s s' H _ _ _; cbn; by rewrite H)
    ltac:(intros f x s error _ _ [=]) outs stream_state None Hb Hlen) Hr) as (ok & s' & He & Hok).
  exists ok, s'. split; [exact He|].
  assert (Ho : ok = true) by (revert He; vm_compute; intros [= <- _]; reflexivity).
  rewrite Ho in Hok. destruct Hok as [_ Hs]. cbn beta in Hs. rewrite Hs. reflexivity.
Defined.

Lemma buffered_reads_in_order_witness :
  ∃ r s', bio_buffered_read_exactly no_read no_read (λ _, stream_read 1) stream_buffer 5 None stream_state =
      Ok (r, s') ∧ r.1.2 = [1;2;3;4;5].
Proof.
  assert (Hr : is_ok (bio_buffered_read_exactly no_read no_read (λ _, stream_read 1) stream_buffer 5 None
    stream_state) = true) by (vm_compute; reflexivity).
  assert (Hup : upcoming stream_buffer 1 stream_options (λ s, str_in (os s)) [1;2;3;4;5;6;7] stream_state).
  { exists []. split; [|reflexivity]. exists stream_impl. split; [apply stream_state_at|].
    split_and!; try reflexivity; [cbn; lia|by split]. }
  destruct (wp_ok _ _ _ (buffered_reads_in_order no_read no_read (λ _, stream_read 1) stream_buffer 1
    stream_options (ReadUser 1) (λ s, str_in (os s)) (λ _, True) eq_refl stream_size
    stream_read_ok
    ltac:(intros s s' H _ _ _; cbn; by rewrite H) [1;2;3;4;5;6;7] stream_state 5 None Hup ltac:(lia)) Hr)
    as ([[n data] e] & s' & He & _ & _ & l' & Hl & _ & _).
  exists (n, data, e), s'. split; [exact He|]. cbn in Hl |- *.
  assert (Hn : length data = 5%nat) by (revert He; vm_compute; intros [= _ <- _ _]; reflexivity).
  apply (f_equal (take 5)) in Hl. rewrite take_app_length' in Hl by (by rewrite Hn). by rewrite <- Hl.
Defined.
