(* ===== verification/WitnessBsd.v ===== *)
(** Instances of the theorems about FreeBSD. *)
From stdpp Require Import strings.
From S2P Require Import Prelude HandleTable Error Net Io Cursor LinuxFile BsdFile Descriptors BsdNet WitnessIo.

(** ** Files *)

(** The disk, and the asynchronous operations on it. *)
Abbreviation bsd_disk := (gmap Z (list Z) * gmap positive aio_state)%type.

(** An operation does what the request without aio does, when its event is waited for. *)
Definition sync_of (req : request) : request :=
  match req with
  | req_aio_read _ fd size offset => req_read fd size offset
  | req_aio_write _ fd buf offset => req_write fd buf offset
  | req_aio_fsync _ fd => req_fsync fd
  | _ => req
  end.

Definition bsd_submit (aio : positive) (fd : Z) (req : request) (o : bsd_disk) : reply * bsd_disk :=
  match o.1 !! fd with
  | Some _ => (mk_reply 0 [] 0, (o.1, <[aio := AioPending req]> o.2))
  | None => (mk_reply (-9) [] 0, o)
  end.

Definition bsd_kernel (req : request) (o : bsd_disk) : reply * bsd_disk :=
  match req with
  | req_aio_read aio fd _ _ | req_aio_write aio fd _ _ | req_aio_fsync aio fd => bsd_submit aio fd req o
  | req_aio_event aio =>
      match o.2 !! aio with
      | Some (AioPending req) =>
          let '(r, d) := disk_kernel (sync_of req) o.1 in (mk_reply 0 [] 0, (d, <[aio := AioDone r]> o.2))
      | _ => (mk_reply (-22) [] 0, o)
      end
  | req_aio_error aio =>
      match o.2 !! aio with
      | Some (AioDone r) => (mk_reply (if rp_res r <? 0 then - rp_res r else 0) [] 0, o)
      | _ => (mk_reply (-22) [] 0, o)
      end
  | req_aio_return aio =>
      match o.2 !! aio with
      | Some (AioDone r) => (r, (o.1, delete aio o.2))
      | _ => (mk_reply (-22) [] 0, o)
      end
  | req_fstat fd => let '(r, d) := disk_kernel (req_statx fd) o.1 in (r, (d, o.2))
  | _ => (mk_reply (-22) [] 0, o)
  end.

Definition bsd_contents (o : bsd_disk) (fd : Z) : option (list Z) := o.1 !! fd.
Definition bsd_aio (o : bsd_disk) (aio : positive) : option aio_state := o.2 !! aio.

Lemma disk_errors req (d : gmap Z (list Z)) : rp_res (disk_kernel req d).1 ≠ - EOPNOTSUPP.
Proof.
  unfold EOPNOTSUPP. destruct req; cbn; try done; repeat case_match; cbn; try done; try (pose proof (zlen_nonneg (take 2 buf)); lia).
  all: match goal with |- zlen ?l ≠ _ => pose proof (zlen_nonneg l); lia end.
Qed.

Lemma bsd_regular : BsdFile.regular_files bsd_kernel bsd_contents bsd_aio.
Proof.
  unfold bsd_contents, bsd_aio. split.
  - intros [d a] aio fd req l Hreq Hl. destruct req; try done; destruct Hreq as [-> ->]; cbn in *;
      unfold bsd_submit; cbn; rewrite Hl; cbn; by rewrite lookup_insert_eq.
  - intros [d a] aio fd req l Hreq Hv Hl Ha. cbn in *. rewrite Ha.
    pose proof (disk_errors (sync_of req) d) as Hne. pose proof disk_regular as [Hrd Hwr _ _]. unfold disk_contents in *.
    destruct (disk_kernel (sync_of req) d) as [r d'] eqn:E. cbn in Hne |- *. exists r.
    destruct req; try done; destruct Hreq as [-> ->]; cbn [aio_valid sync_of] in Hv, E.
    + destruct (Hrd d fd size offset l Hl) as [H1 H2]; [lia..|]. rewrite E in H1, H2.
      exists l. rewrite lookup_insert_eq. by split_and!.
    + destruct (Hwr d fd buf offset l Hl) as (l' & H1 & H2); [lia..|]. rewrite E in H1, H2.
      exists l'. rewrite lookup_insert_eq. by split_and!.
    + cbn in E. injection E as <- <-. exists l. rewrite lookup_insert_eq. by split_and!.
  - intros [d a] aio fd l r Hl Ha. cbn in *. by rewrite Ha.
  - intros [d a] aio fd l r Hl Ha. cbn in *. by rewrite Ha.
  - intros [d a] fd l Hl. cbn in *. rewrite Hl. cbn. split_and!; [done|lia|done].
Qed.

Abbreviation bsd_io := (io_ctx bsd_disk BsdFile.bio_file_impl_t unit).

Abbreviation bsd_sample_disk := (({[3 := [10; 11; 12]]}, ∅) : bsd_disk).

(** File 3 is open, at its second byte. *)
Definition bsd_open : res (bio_handle_t * bsd_io) := BsdFile.bio_file_from_fd 3 1 true (io_empty bsd_sample_disk).
Definition bsd_state : bsd_io := state_of (io_empty bsd_sample_disk) bsd_open.
Definition bsd_file : bio_handle_t := mk_handle 1 0.

Lemma bsd_state_at : BsdFile.file_at bsd_contents bsd_file 1 3 [10; 11; 12] 1 bsd_state.
Proof.
  exists BIO_AIO_SUPPORT_UNKNOWN. split; [done|].
  assert (Hs : wp (BsdFile.bio_file_from_fd 3 1 true) (λ _ s, io_wf s) (io_empty bsd_sample_disk : bsd_io)).
  { apply bsd_file_from_fd_spec; [apply io_empty_wf|]. by intros. }
  assert (Hr : is_ok bsd_open = true) by (vm_compute; reflexivity).
  destruct (wp_ok _ _ _ Hs Hr) as (h & s & He & Hwf). split; [|vm_compute; reflexivity..|lia|reflexivity].
  unfold bsd_state, bsd_open. by rewrite He.
Qed.

Lemma bsd_busy_mine l pos b a (s : bsd_io) :
  file_in bsd_contents bsd_file 1 3 l pos b a s → file_in bsd_contents bsd_file 1 3 l pos b a (busy s) ∧
  ∀ aio, a = Some aio → bsd_aio (os (busy s)) aio = bsd_aio (os s) aio.
Proof. intros []. split; [|done]. split; [by apply malloc_wf|done..]. Qed.

Lemma freebsd_file_refines_cursor_witness :
  ∃ r s', BsdFile.file_exec busy bsd_kernel no_strerror bsd_file (Read 5) None bsd_state = Ok (r, s') ∧
    r = RRead 2 [11; 12] None.
Proof.
  assert (Hr : is_ok (BsdFile.file_exec busy bsd_kernel no_strerror bsd_file (Read 5) None bsd_state) = true)
    by (vm_compute; reflexivity).
  destruct (wp_ok _ _ _ (freebsd_file_refines_cursor busy bsd_kernel no_strerror bsd_contents bsd_aio bsd_regular
    bsd_file 1 3 bsd_busy_mine [10; 11; 12] 1 bsd_state (Read 5) None bsd_state_at ltac:(cbn; lia)) Hr)
    as (r & s' & He & _).
  exists r, s'. split; [exact He|]. revert He. vm_compute. intros [= <- _]. reflexivity.
Defined.

(** ** Sockets *)

(** The next descriptor, those that are open, and whether there is a connection to accept. *)
Abbreviation bsd_fds := (Z * gset Z * bool)%type.

Definition bsd_fds_kernel (req : request) (o : bsd_fds) : reply * bsd_fds :=
  match req with
  | req_accept _ =>
      if negb o.2 then (mk_reply (- EWOULDBLOCK) [] 0, o)
      else let '(r, o1) := fds_kernel req o.1 in (r, (o1, o.2))
  | req_kevent _ _ => (mk_reply 0 [] 0, (o.1, true))
  | _ => let '(r, o1) := fds_kernel req o.1 in (r, (o1, o.2))
  end.

Definition bsd_own (o : bsd_fds) : gset Z := o.1.2.

Lemma bsd_fds_descriptors : BsdNet.descriptors (File := unit) busy bsd_fds_kernel bsd_own.
Proof.
  split; [|done|done]. intros req [o b]. pose proof (LinuxNet.de_kernel _ _ _ fds_descriptors req o) as H.
  assert (Hdef : ∀ r o', fds_kernel req o = (r, o') → fds_after req r (bsd_own (o, b)) (bsd_own (o', b)))
    by (intros r o' E; by rewrite E in H).
  unfold bsd_fds_kernel. cbn [fst snd].
  destruct req; try done; try (destruct (fds_kernel _ o) as [r o']; by apply Hdef).
  destruct b; [|done]. cbn [negb]. destruct (fds_kernel _ o) as [r o']. by apply Hdef.
Qed.

Abbreviation bsd_net_io := (io_ctx bsd_fds unit BsdNet.bio_socket_impl_t).

(** A socket that listens. *)
Definition bsd_listener : res (bio_handle_t * bsd_net_io) := BsdNet.bio_socket_from_fd 7 (io_empty (8, {[7]}, false)).
Definition bsd_net_state : bsd_net_io := state_of (io_empty (8, {[7]}, false)) bsd_listener.
Definition bsd_socket : bio_handle_t := mk_handle 1 0.

