(* ===== verification/WitnessWin.v ===== *)
(** Instances of the theorems about Windows, and about all platforms. *)
From stdpp Require Import strings.
From S2P Require Import Prelude HandleTable Error Net Io Cursor Windows LinuxFile BsdFile WinFile Platforms.
From S2P Require Import Descriptors WinNet WinHandles.
From S2P Require Import WitnessIo WitnessBsd.

(** ** Files *)

(** The disk, and the overlapped operations on it. *)
Abbreviation win_disk := (gmap Z (list Z) * gmap positive ov_state)%type.

Definition win_rw (req : win_request) (d : gmap Z (list Z)) : reply * gmap Z (list Z) :=
  match req with
  | rq_ReadFile h size ov =>
      let '(r, d) := disk_kernel (req_read h size (ov_offset ov)) d in
      (if (0 <? size) && (rp_res r =? 0) then mk_reply (- ERROR_HANDLE_EOF) [] 0 else r, d)
  | rq_WriteFile h buf ov => disk_kernel (req_write h buf (ov_offset ov)) d
  | _ => (mk_reply (-1) [] 0, d)
  end.

(** Operations at odd offsets are pending at first. *)
Definition win_start (h : Z) (ov : overlapped) (req : win_request) (o : win_disk) : reply * win_disk :=
  if Z.odd (ov_Offset ov) then (mk_reply (- ERROR_IO_PENDING) [] 0, (o.1, <[ov_at ov := OvPending req]> o.2))
  else let '(r, d) := win_rw req o.1 in (r, (d, <[ov_at ov := OvDone h r]> o.2)).

Definition win_kernel (req : win_request) (o : win_disk) : reply * win_disk :=
  match req with
  | rq_ReadFile h _ ov | rq_WriteFile h _ ov => win_start h ov req o
  | rq_completion ov =>
      match o.2 !! ov with
      | Some (OvPending req) =>
          let h := match req with rq_ReadFile h _ _ | rq_WriteFile h _ _ => h | _ => 0 end in
          let '(r, d) := win_rw req o.1 in (mk_reply 0 [] 0, (d, <[ov := OvDone h r]> o.2))
      | _ => (mk_reply 0 [] 0, o)
      end
  | rq_GetOverlappedResult _ ov =>
      match o.2 !! ov_at ov with Some (OvDone _ r) => (r, o) | _ => (mk_reply (-996) [] 0, o) end
  | rq_FlushFileBuffers _ | rq_CreateIoCompletionPort _ => (mk_reply 0 [] 0, o)
  | rq_GetFileInformationByHandle h =>
      match o.1 !! h with
      | Some l => (mk_reply 0 [Z.shiftr (zlen l) 32; Z.land (zlen l) 4294967295] 0, o)
      | None => (mk_reply (-6) [] 0, o)
      end
  | _ => (mk_reply (-1) [] 0, o)
  end.

Definition win_contents (o : win_disk) (h : Z) : option (list Z) := o.1 !! h.
Definition win_ov (o : win_disk) (ov : positive) : option ov_state := o.2 !! ov.

Lemma win_rw_reply d ov h req l : rw_request ov h req → rw_valid l req → d !! h = Some l →
  let '(r, d') := win_rw req d in
  ∃ l', d' !! h = Some l' ∧ rw_reply l req r l' ∧ rp_res r ≠ - ERROR_IO_PENDING.
Proof.
  intros Hrw Hv Hl. pose proof disk_regular as [Hrd Hwr _ _]. unfold disk_contents in *.
  destruct req; try done; destruct Hrw as [-> Hat]; cbn [rw_valid win_rw] in *.
  - destruct (Hrd d h size (ov_offset ov0) l Hl) as [H1 H2]; [lia..|].
    destruct (disk_kernel _ d) as [r d'] eqn:E. cbn in H1, H2. exists l. split; [done|]. cbn in E. rewrite Hl in E.
    injection E as <- <-. set (data := take _ _) in *. unfold read_reply in H2. cbn [rp_res rp_data] in *.
    pose proof (zlen_nonneg data). destruct H2 as [[? _]|(_ & Hle & Hd & Hend)]; [lia|].
    destruct (Z.ltb_spec 0 size) as [Hs|Hs]; cbn [andb].
    + destruct (Z.eqb_spec (zlen data) 0) as [E|E].
      * split; [|done]. cbn. split_and!; [done|by left|done].
      * split; [|cbn; unfold ERROR_IO_PENDING; lia]. cbn. split; [done|]. split; [right; by split_and!|].
        intros _ Hlen. destruct E. assert (data = []) as ->; [|done]. rewrite Hd.
        rewrite drop_ge by (unfold zlen in Hlen; lia). by rewrite take_nil.
    + split; [|cbn; unfold ERROR_IO_PENDING; lia]. cbn. split_and!; [done|right; by split_and!|lia].
  - destruct (Hwr d h buf (ov_offset ov0) l Hl) as (l' & H1 & H2); [lia..|].
    destruct (disk_kernel _ d) as [r d'] eqn:E. exists l'. split_and!; [done..|].
    assert (Hr : rp_res r = -27 ∨ 0 ≤ rp_res r).
    { revert E. cbn. rewrite Hl. case_match; intros [= <- _]; [right; apply zlen_nonneg|by left]. }
    unfold ERROR_IO_PENDING. lia.
Qed.

Lemma win_regular : WinFile.regular_files win_kernel win_contents win_ov.
Proof.
  unfold win_contents, win_ov. split.
  - intros [d a] ov h req l Hrw Hv Hl. cbn [fst snd] in *. pose proof (win_rw_reply d ov h req l Hrw Hv Hl) as H.
    destruct req; try done; destruct Hrw as [-> Hat]; cbn [win_kernel]; unfold win_start; cbn [fst snd];
      (destruct (Z.odd _); [cbn; rewrite Hat, lookup_insert_eq; done|]);
      destruct (win_rw _ d) as [r d']; destruct H as (l' & H1 & H2 & H3);
      rewrite (proj2 (Z.eqb_neq _ _) H3); exists l'; cbn; rewrite Hat, lookup_insert_eq; done.
  - intros [d a] ov h req l Hrw Hv Hl Ho. cbn [fst snd] in *. pose proof (win_rw_reply d ov h req l Hrw Hv Hl) as H.
    cbn. rewrite Ho. destruct (win_rw req d) as [r d'] eqn:E. destruct H as (l' & H1 & H2 & _). cbn. exists r, l'.
    rewrite lookup_insert_eq. destruct req; try done; by destruct Hrw as [-> _].
  - intros [d a] ov h l r Hl Ho. cbn in *. by rewrite Ho.
  - intros [d a] ov h l r Hl Ho. cbn in *. by rewrite Ho.
  - by intros [d a] h l Hl.
  - intros [d a] h l Hl. cbn in *. by rewrite Hl.
Qed.

Abbreviation win_io := (io_ctx win_disk WinFile.bio_file_impl_t unit).
Abbreviation win_sample_disk := (({[3 := [10; 11; 12]]}, ∅) : win_disk).

(** File 3 is open, at its second byte. *)
Definition win_open : res (bio_handle_t * win_io) :=
  (h ← WinFile.bio_fdopen win_kernel 3; _ ← WinFile.bio_fseek no_strerror h 1 SEEK_SET None; mret h)
    (io_empty win_sample_disk).
Definition win_state : win_io := state_of (io_empty win_sample_disk) win_open.
Definition win_file : bio_handle_t := mk_handle 1 0.

Abbreviation win_file_at := (WinFile.file_at win_contents win_file 1 3 BIO_COMPLETION_MODE_ALWAYS).

Lemma win_state_at : win_file_at [10; 11; 12] 1 win_state.
Proof.
  assert (Hs : wp (WinFile.bio_fdopen win_kernel 3) (λ _ s, io_wf s) (io_empty win_sample_disk : win_io)).
  { apply win_fdopen_spec; [apply io_empty_wf|]. by intros. }
  assert (Hr : is_ok (WinFile.bio_fdopen win_kernel 3 (io_empty win_sample_disk : win_io)) = true)
    by (vm_compute; reflexivity).
  destruct (wp_ok _ _ _ Hs Hr) as (h & s & He & Hwf). split; [|vm_compute; reflexivity..|lia|reflexivity].
  assert (Hst : win_state = set_files (<[1%positive := WinFile.mk_file 3 BIO_COMPLETION_MODE_ALWAYS 1]> (files s)) s).
  { revert He. vm_compute. by intros [= <- <-]. }
  rewrite Hst. by apply insert_file_wf.
Qed.

Lemma win_busy_mine l pos (s : win_io) :
  win_file_at l pos s → win_file_at l pos (busy s) ∧
  ∀ ov st, win_ov (os s) ov = Some st → about 3 st → win_ov (os (busy s)) ov = Some st.
Proof. intros []. split; [|done]. split; [by apply malloc_wf|done..]. Qed.

Lemma windows_file_refines_cursor_witness :
  ∃ r s', WinFile.file_exec busy win_kernel no_strerror win_file (Read 5) None win_state = Ok (r, s') ∧
    r = RRead 2 [11; 12] None.
Proof.
  assert (Hr : is_ok (WinFile.file_exec busy win_kernel no_strerror win_file (Read 5) None win_state) = true)
    by (vm_compute; reflexivity).
  destruct (wp_ok _ _ _ (windows_file_refines_cursor busy win_kernel no_strerror win_contents win_ov win_regular
    busy_polite win_file 1 3 BIO_COMPLETION_MODE_ALWAYS win_busy_mine [10; 11; 12] 1
    win_state (Read 5) None win_state_at ltac:(cbn; lia)) Hr) as (r & s' & He & _).
  exists r, s'. split; [exact He|]. revert He. vm_compute. intros [= <- _]. reflexivity.
Defined.

(** ** All platforms *)


(** ** Sockets *)

(** The next handle, and those that are open; clients let wait for them. *)
Definition win_fds_kernel (req : win_request) (o : fds) : reply * fds :=
  if opens req then
    if decide (o.1 ≤ 0 ∨ o.1 ∈ o.2) then (mk_reply (-24) [] 0, o)
    else (mk_reply o.1 [] 0, (o.1 + 1, {[o.1]} ∪ o.2))
  else
    match req with
    | rq_CloseHandle h | rq_closesocket h => (mk_reply 0 [] 0, (o.1, o.2 ∖ {[h]}))
    | rq_GetFileNameInfo _ => (mk_reply 0 [92; 97] 0, o)
    | rq_WideCharToMultiByte wide size => if zlen wide <? size then (mk_reply (zlen wide) wide 0, o) else (mk_reply (-122) [] 0, o)
    | rq_ConnectNamedPipe _ _ => (mk_reply (- ERROR_IO_PENDING) [] 0, o)
    | _ => (mk_reply 0 [] 0, o)
    end.

Lemma win_fds_handles p : WinHandles.handles (File := unit) busy win_fds_kernel snd p.
Proof.
  split; try done.
  - intros req o. unfold win_fds_kernel. destruct (opens req) eqn:Ho; [|by destruct req; try done; cbn; case_match].
    destruct req; try done; case_decide as E; cbn; try done;
      rewrite (proj2 (succeeded_ge _)) by (cbn; lia); (split; [tauto|done]).
  - intros wide size o Hs. cbn. destruct (Z.ltb_spec (zlen wide) size); cbn; lia.
Qed.

Abbreviation win_net_io := (io_ctx fds unit WinSock.bio_socket_impl_t).

(** A pipe that listens. *)
Definition win_net_start : win_net_io := io_empty (8, {[7]}).
Definition win_pipe : WinSock.bio_socket_impl_t :=
  WinSock.BIO_SOCKET_PIPE (WinSock.mk_pipe_socket 7 BIO_COMPLETION_MODE_UNKNOWN None []).
Definition win_listener : res (bio_handle_t * win_net_io) := WinNet.bio_net_make_socket win_pipe win_net_start.
Definition win_net_state : win_net_io := state_of win_net_start win_listener.
Definition win_socket : bio_handle_t := mk_handle 1 0.

