(* ===== verification/WitnessKqueue.v ===== *)
(** An instance of the theorem about the kqueue: a request that waits, one that was cancelled
    and the exit signals; two events come back, and fill a batch. *)
From S2P Require Import Prelude HandleTable Kqueue.

Definition sample_signal (n : Z) : bio_handle_t := mk_handle n 0.

Definition read_event (req : positive) : kevent := mk_kevent 7 (-1) 1 0 (Request req).
Definition term_event : kevent := mk_kevent SIGTERM EVFILT_SIGNAL EV_ADD 0 SignalPoll.

Definition sample_kqueue : bio_platform_t :=
  mk_platform_t [read_event 1; read_event 2; term_event] 2 true
    {[1%positive := mk_io_req (sample_signal 1) (Some 5%positive) false;
      2%positive := mk_io_req (sample_signal 2) (Some 6%positive) true]}
    {[5%positive := read_event 1; 6%positive := read_event 2]} [] [] [].

Definition sample_kernel (n : nat) (changes : list kevent) (nevents : Z) (timeout : option (Z * Z)) :
    option (list kevent) :=
  if decide (n = 0%nat) then Some [read_event 1; term_event] else Some [].

Lemma sample_kernel_ok : kernel_ok sample_kernel sample_kqueue.
Proof.
  intros n ch k t evs. unfold sample_kernel. case_decide; intros [= <-]; intros e He p Hp.
  - apply elem_of_cons in He as [->|[->|He]%elem_of_cons]; [|discriminate Hp|by apply not_elem_of_nil in He].
    injection Hp as <-. eexists. split; [reflexivity|]. intros q [= <-]. eexists. reflexivity.
  - by apply not_elem_of_nil in He.
Qed.

Lemma kqueue_update_correct_witness :
  ∃ s', bio_platform_update sample_kernel 2 100 true sample_kqueue = Ok (tt, s') ∧ in_events s' = [] ∧
    ∃ n, kq_served ([read_event 1; term_event] :: replicate n []) (set_in_events (λ _, []) sample_kqueue) s'.
Proof.
  assert (HE : ∀ e, e ∈ in_events sample_kqueue → event_ok sample_kqueue e).
  { intros e. cbn. rewrite !elem_of_cons. intros [->|[->|[->|He]]];
      [eexists; reflexivity|eexists; reflexivity|exact I|by apply not_elem_of_nil in He]. }
  assert (Hr : ∀ n, runs_out sample_kernel 2 n 2).
  { intros n. exists 1%nat. split; [lia|]. unfold sample_kernel. rewrite decide_False by lia. vm_compute. discriminate. }
  assert (Hk : is_ok (bio_platform_update sample_kernel 2 100 true sample_kqueue) = true) by (vm_compute; reflexivity).
  destruct (wp_ok _ _ _ (kqueue_update_correct sample_kernel 2 100 true sample_kqueue HE sample_kernel_ok Hr) Hk)
    as ([] & s' & He & Hin & n & Hs & _).
  exists s'. split; [exact He|]. split; [exact Hin|]. exists n. exact Hs.
Defined.
