(* ===== verification/WitnessIocp.v ===== *)
(** Instances of the theorems about the platform layer on Windows. *)
From S2P Require Import Prelude HandleTable Iocp.

(** Two requests are under way. *)
Definition iocp_reqs : gmap positive bio_handle_t := {[1%positive := mk_handle 5 0; 2%positive := mk_handle 6 0]}.

(** After the initialization, with batches of four. *)
Definition iocp_fresh : bio_platform_t :=
  mk_platform_t 0 0 false None None 0 false 0 iocp_reqs [] [] [] [] [].
Definition iocp_state : bio_platform_t := state_of iocp_fresh (bio_platform_init 3 100 iocp_fresh).

(** The first batch is full, then there is a notification. *)
Definition iocp_kernel (n : nat) (size timeout : Z) : list overlapped_entry :=
  take (Z.to_nat size)
    match n with
    | O => [mk_entry OperationKey 2; mk_entry BIO_WINDOWS_NOTIFY_KEY 1; mk_entry BIO_WINDOWS_EXIT_SIGNAL_KEY 1;
            mk_entry OperationKey 1]
    | _ => [mk_entry BIO_WINDOWS_NOTIFY_KEY 1]
    end.

Lemma iocp_sample_ok : kernel_ok iocp_kernel iocp_state.
Proof.
  split.
  - intros n size t Hs. unfold iocp_kernel, zlen. rewrite length_take. lia.
  - intros n size t e He Hkey. unfold iocp_kernel in He. apply elem_of_take in He as (i & He & _).
    destruct n; cbn in He; apply list_elem_of_lookup_2 in He; rewrite !elem_of_cons in He;
      decompose [or] He; subst; try discriminate; try (match goal with H : _ ∈ [] |- _ => by apply not_elem_of_nil in H end); eexists; vm_compute; reflexivity.
Qed.

Lemma iocp_update_correct_witness :
  ∃ s', bio_platform_update iocp_kernel 3 100 true iocp_state = Ok (tt, s') ∧
    iocp_calls s' = [CallRaise (mk_handle 6 0); CallExit; CallRaise (mk_handle 5 0)].
Proof.
  assert (Hf : ∀ n, runs_out iocp_kernel 3 n (batch_size_of iocp_state)).
  { intros n. exists 1%nat. split; [lia|]. replace (n + 1)%nat with (S n) by lia. vm_compute. discriminate. }
  assert (Hr : is_ok (bio_platform_update iocp_kernel 3 100 true iocp_state) = true) by (vm_compute; reflexivity).
  assert (Hpos : 0 ≤ option_batch_size iocp_state) by (vm_compute; discriminate).
  destruct (wp_ok _ _ _ (iocp_update_correct iocp_kernel 3 100 true iocp_state iocp_sample_ok eq_refl Hpos Hf) Hr)
    as ([] & s' & He & _).
  exists s'. split; [exact He|]. revert He. vm_compute. intros [= <-]. reflexivity.
Defined.

Lemma clock_counts_milliseconds_witness :
  bio_platform_current_time_ms 107 iocp_state = Ok (2333, iocp_state).
Proof. exact (clock_counts_milliseconds 107 iocp_state ltac:(vm_compute; done) ltac:(vm_compute; done) ltac:(vm_compute; done)). Defined.

(** A text with the end of its line: "no", then a shorter buffer is used again. *)
Definition iocp_message (code : Z) : option (list Z) := if code =? 2 then Some [110; 111; 13; 10] else None.

Lemma error_text_correct_witness :
  ∃ text s', bio_format_error iocp_message 2 iocp_state = Ok (text, s') ∧ text = [110; 111; 0; 10; 0].
Proof.
  assert (Hr : is_ok (bio_format_error iocp_message 2 iocp_state) = true) by (vm_compute; reflexivity).
  destruct (wp_ok _ _ _ (error_text_correct iocp_message 2 [110; 111; 13; 10] iocp_state eq_refl ltac:(discriminate)
    I) Hr) as (text & s' & He & _).
  exists text, s'. split; [exact He|]. revert He. vm_compute. intros [= <- _]. reflexivity.
Defined.
