(* ===== verification/WitnessLog.v ===== *)
(** Instances of the theorems about logging: two loggers, whose services get on by one step
    whenever the coroutine that logs waits for them. *)
From stdpp Require Import strings.
From S2P Require Import Prelude HandleTable Error Io Cursor LinuxFile Format Logging Loggers FileLogger WitnessIo.

(** ** The services get on *)

Abbreviation sample_log := (@log_state unit).

Definition told (v : log_service) : bool := negb (forallb (λ m, if lm_msg m is Some _ then true else false) (trace v)).

Definition tick (v : log_service) : log_service := if told v then v else default v (log_service_step v).
Definition services_tick (s : sample_log) : sample_log := set_services (tick <$> services s) s.

Lemma not_told v : told v = false → Forall (λ m, ¬ is_end m) (trace v).
Proof.
  unfold told. intros H%negb_false_iff. rewrite forallb_forall in H. apply Forall_forall.
  intros m Hm Hend. apply list_elem_of_In, H in Hm. unfold is_end in Hend. by rewrite Hend in Hm.
Qed.

Lemma running_not_told v : running v → told v = false.
Proof.
  intros (_ & Ht & _). unfold told. apply negb_false_iff, forallb_forall. intros m Hm%list_elem_of_In.
  rewrite Forall_forall in Ht. specialize (Ht m Hm). unfold is_end in Ht. by destruct (lm_msg m).
Qed.

Lemma tick_gains me v :
  service_ok v → service_ok (tick v) ∧ gains me v (tick v) [] ∧ (running v → running (tick v)).
Proof.
  intros Hok. unfold tick. destruct (told v) eqn:Et; [auto using gains_refl|].
  destruct (log_service_step v) as [v'|] eqn:E; cbn; [|auto using gains_refl].
  split; [by eapply service_step_ok|].
  assert (ls_state v = Dead ∨ ls_args v = None ∨ running v) as [Hd|[Ha|Hr]].
  { destruct (ls_args v) eqn:Ea; [|by auto].
    destruct (ls_state v) eqn:Es; [..|by auto]; right; right; (split; [by rewrite Es|]);
      (split; [by apply not_told|by rewrite Ea]). }
  - unfold log_service_step in E. rewrite Hd in E. simplify_eq. auto using gains_refl.
  - split; [|by intros (_ & _ & ?)]. destruct Hok as [_ Hst]. apply not_told in Et.
    unfold log_service_step in E. destruct (ls_state v) as [| |m|] eqn:Es.
    + by rewrite Ha in E.
    + destruct Hst as [Ho _]. rewrite Ho in E.
      destruct (ls_queue v) as [|m q] eqn:Eq; simplify_eq; [apply gains_refl|].
      split; [done|]. split; [by exists [m]|]. exists [], []. unfold trace. cbn. rewrite Eq, !app_nil_r, <- app_assoc.
      by split_and!; [|constructor..].
    + destruct Hst as (Ho & cs & Hc & _). destruct (lm_msg m) eqn:Em; simplify_eq.
      * split; [done|]. split; [done|]. exists [], []. unfold trace. cbn. rewrite !app_nil_r. by split_and!; [|constructor..].
      * exfalso. unfold trace in Et. rewrite Hc, !Forall_app in Et. destruct Et as [[_ [Hm _]%Forall_cons] _]. exact (Hm Em).
    + simplify_eq. apply gains_refl.
  - destruct (step_running v v' Hok Hr E) as (Hr' & Ht & Hc & Ha). split; [|done].
    split; [done|]. split; [done|]. exists [], []. rewrite Ht, !app_nil_r. by split_and!; [|constructor..].
Qed.

Lemma services_tick_calm me s : log_wf s → calm me s (services_tick s).
Proof.
  intros Hwf. pose proof Hwf as [Htab Hhan Hnodup Hlog Hdist Hnext Hserv Hbufs Hpre].
  assert (Hs : ∀ i v, services s !! i = Some v → services (services_tick s) !! i = Some (tick v)).
  { intros i v Hv. cbn. by rewrite lookup_fmap, Hv. }
  split; try done.
  - split; try done.
    + intros p Hp. destruct (Hlog p Hp) as (x & v & Hx & Hv & Hr). exists x, (tick v).
      split_and!; [done|by apply Hs|]. by apply (tick_gains me v (Hserv _ _ Hv)).
    + destruct Hnext as (H1 & H2 & H3). split_and!; [done| |done]. intros i Hi. apply H2.
      cbn in Hi. rewrite lookup_fmap in Hi. by destruct (services s !! i); [eexists|destruct Hi].
    + intros i v. cbn. rewrite lookup_fmap. destruct (services s !! i) as [w|] eqn:Ew; [|done]. intros [= <-].
      by apply (tick_gains me w (Hserv _ _ Ew)).
  - intros i v Hv. exists (tick v). split; [by apply Hs|]. by apply (tick_gains me v (Hserv _ _ Hv)).
Qed.

(** Two steps make room in a mailbox. *)
Lemma services_tick_drain s p x :
  log_wf s → p ∈ loggers s → impls s !! p = Some x →
  ∃ k, has_room (li_service x) (Nat.iter k services_tick s).
Proof.
  intros Hwf Hp Hx. destruct (lw_loggers s Hwf p Hp) as (x' & v & Hx' & Hv & Hr). simplify_eq.
  pose proof (lw_services s Hwf _ _ Hv) as Hok.
  destruct (Z.ltb_spec (zlen (ls_queue v)) LOG_CAPACITY) as [Hroom|Hfull]; [exists 0%nat; by exists v|].
  exists 2%nat. exists (tick (tick v)). cbn. rewrite !lookup_fmap, Hv. split; [done|].
  destruct (tick_gains BIO_INVALID_HANDLE v Hok) as (Hok1 & _ & Hr1). specialize (Hr1 Hr).
  pose proof (running_not_told _ Hr1) as Ht1.
  assert (Hpop : ∀ w, service_ok w → running w → told w = false → ls_state w = Receiving →
    zlen (ls_queue (tick w)) < LOG_CAPACITY).
  { intros w [Hl Hst] _ Ht Es. unfold tick, log_service_step. rewrite Ht, Es in *. destruct Hst as [-> _].
    destruct (ls_queue w) as [|m q] eqn:Eq; cbn; [rewrite Eq; done|]. unfold zlen in *. cbn in Hl. lia. }
  assert (Hle : ∀ w, service_ok w → zlen (ls_queue (tick w)) ≤ zlen (ls_queue w)).
  { intros w [_ Hst]. unfold tick. destruct (told w); [lia|]. unfold log_service_step.
    pose proof (zlen_nonneg (ls_queue w)). destruct (ls_state w) as [| |m|]; cbn; [destruct (ls_args w); cbn; lia| | |lia].
    - destruct (ls_open w), (ls_queue w) as [|m q] eqn:Eq; cbn; rewrite ?Eq; unfold zlen in *; cbn in *; lia.
    - destruct (lm_msg m); cbn; unfold zlen in *; cbn in *; lia. }
  pose proof (running_not_told _ Hr) as Ht. pose proof Hr as (Hd & _ & Ha).
  destruct (ls_state v) as [| |m|] eqn:Es; [| | |done].
  - apply Hpop; [done..|]. unfold tick, log_service_step. rewrite Ht, Es. by destruct (ls_args v).
  - eapply Z.le_lt_trans; [by apply Hle|]. by apply Hpop.
  - apply Hpop; [done..|]. unfold tick, log_service_step. rewrite Ht, Es. destruct Hok as [_ Hst]. rewrite Es in Hst.
    destruct Hst as (_ & cs & Hc & _). destruct (lm_msg m) eqn:Em; [done|].
    destruct Hr as (_ & Htr & _). unfold trace in Htr. rewrite Hc, !Forall_app in Htr.
    destruct Htr as [[_ [Hm _]%Forall_cons] _]. by destruct (Hm Em).
Qed.

(** ** Two loggers *)

Definition log_table : table log_tag positive := state_of (mk_table [] 0 0 0) (bio_handle_table_init (mk_table [] 0 0 0)).

Lemma log_table_wf : wf log_table ∧ live log_table = ∅.
Proof.
  destruct (wp_ok _ _ _ (init_spec (mk_table [] 0 0 0 : table log_tag positive)) ltac:(reflexivity)) as (u & t & E & Hwf & Hl & _).
  unfold log_table. by rewrite E.
Qed.

(** The library before the initialization of logging; the file that initializes it is in a
    directory of the project. *)
Definition log_start : sample_log :=
  mk_log_state log_table 1 [] ∅ ∅ ∅ (Some (text "/home/me/project/src/main.c")) 1 0 tt.

Definition log_init : sample_log := state_of log_start (bio_logging_init log_start).

Lemma log_init_wf : log_wf log_init.
Proof.
  destruct log_table_wf as [Ht Hl].
  assert (E : log_init = set_log_prefix_len 17 log_start) by (vm_compute; reflexivity). rewrite E.
  split; cbn; try done.
  - constructor.
  - intros p Hp. by apply not_elem_of_nil in Hp.
  - split_and!; [by intros p [y Hy]|by intros p [y Hy]|done].
Qed.

Definition log_coro : bio_handle_t := mk_handle 9 0.
Definition log_fmt (fmt : cstring) (args : unit) : option cstring := Some fmt.

Definition one_logger : sample_log :=
  state_of log_init (bio_add_logger services_tick (Some log_coro) 2 (mk_log_args 1 1) log_init).
Definition two_loggers : sample_log :=
  state_of one_logger (bio_add_logger services_tick (Some log_coro) 4 (mk_log_args 1 2) one_logger).

Lemma added_wf s level args :
  log_wf s → is_ok (bio_add_logger services_tick (Some log_coro) level args s) = true →
  log_wf (state_of s (bio_add_logger services_tick (Some log_coro) level args s)).
Proof.
  intros Hwf Hok.
  destruct (wp_ok _ _ _ (add_logger_spec services_tick log_coro s level args
    (services_tick_calm log_coro) Hwf) Hok) as (h & s' & E & Hwf' & _).
  by rewrite E.
Qed.

Lemma two_loggers_wf : log_wf two_loggers.
Proof.
  apply added_wf; [|vm_compute; reflexivity]. apply added_wf; [apply log_init_wf|vm_compute; reflexivity].
Qed.

(** A message of level 3 is for the first logger. *)
Definition sample_msg : bio_log_service_msg_t :=
  mk_log_msg (mk_log_ctx log_coro 3 42 (text "src/net.c")) (Some (text "hello")).

Definition log_hello (fuel : nat) : st sample_log unit :=
  bio_vlog log_fmt services_tick fuel (Some log_coro) 3 (Some (text "/home/me/project/src/net.c")) 42 (text "hello") tt.

Example log_hello_runs :
  (trace <$> services (state_of two_loggers (log_hello 4 two_loggers)) !! 2%positive) = Some [sample_msg].
Proof. vm_compute. reflexivity. Qed.


(** ** The end of the loggers *)

Abbreviation logger1 := (mk_logger (mk_handle 1 0) 2 2).
Abbreviation logger2 := (mk_logger (mk_handle 2 0) 4 4).

(** The first logger has messages that it did not handle yet. *)
Definition pending (n : nat) : sample_log := Nat.iter n (sent 2 sample_msg) two_loggers.

Abbreviation service1 n := (mk_log_service (Some (mk_log_args 1 1)) Receiving true (replicate n sample_msg) []).
Abbreviation service2 := (mk_log_service (Some (mk_log_args 1 2)) Receiving true [] []).

Lemma pending_service n : services (pending n) !! 2%positive = Some (service1 n).
Proof.
  induction n as [|n IH]; [vm_compute; reflexivity|]. change (pending (S n)) with (sent 2 sample_msg (pending n)).
  rewrite (sent_lookup _ _ _ _ IH). unfold push. cbn. by rewrite <- replicate_cons_app.
Qed.

Lemma pending_wf n : (n ≤ 16)%nat → log_wf (pending n).
Proof.
  induction n as [|n IH]; intros Hn; [apply two_loggers_wf|].
  change (pending (S n)) with (sent 2 sample_msg (pending n)).
  eapply sent_wf; [apply IH; lia|apply pending_service|done| |done].
  unfold zlen, LOG_CAPACITY. cbn. rewrite length_replicate. lia.
Qed.

Lemma pending_other n : loggers (pending n) = [1; 3]%positive ∧ impls (pending n) = impls two_loggers ∧
  lg_table (pending n) = lg_table two_loggers ∧ services (pending n) !! 4%positive = Some service2.
Proof.
  induction n as [|n (H1 & H2 & H3 & H4)]; [split_and!; vm_compute; reflexivity|].
  change (pending (S n)) with (sent 2 sample_msg (pending n)). 
  split; [exact H1|]. split; [exact H2|]. split; [exact H3|].
  rewrite sent_lookup_ne by (intros [=]). exact H4.
Qed.

Lemma two_loggers_objects :
  (impls two_loggers !! 1%positive = Some logger1 ∧ impls two_loggers !! 3%positive = Some logger2) ∧
  live (lg_table two_loggers) !! mk_handle 1 0 = Some (BIO_LOGGER_HANDLE, Some 1%positive) ∧
  live (lg_table two_loggers) !! mk_handle 2 0 = Some (BIO_LOGGER_HANDLE, Some 3%positive).
Proof. split_and!; vm_compute; reflexivity. Qed.

Lemma pending_at n : logger_at (pending n) 1 logger1 (service1 n) ∧ logger_at (pending n) 3 logger2 service2.
Proof.
  destruct (pending_other n) as (Hl & Hi & Ht & Hs). destruct two_loggers_objects as [[H1 H2] [H3 H4]].
  rewrite <- Hi in H1, H2. rewrite <- Ht in H3, H4. pose proof (pending_service n) as H5.
  split; (split; [rewrite Hl|]).
  - left.
  - exact (conj H1 (conj H5 H3)).
  - right. left.
  - exact (conj H2 (conj Hs H4)).
Qed.

Lemma pending_loggers n p : p ∈ loggers (pending n) → p = 1%positive ∨ p = 3%positive.
Proof. destruct (pending_other n) as (-> & _). rewrite !elem_of_cons, elem_of_nil. tauto. Qed.

Lemma pending_live n : all_live (pending n).
Proof.
  destruct (pending_at n) as [H1 H2]. intros p [->| ->]%pending_loggers; eauto.
Qed.

Lemma logger_at_inj (s : sample_log) p x v x' v' : logger_at s p x v → logger_at s p x' v' → x = x' ∧ v = v'.
Proof. intros (_ & Hx & Hv & _) (_ & Hx' & Hv' & _). simplify_eq. done. Qed.

Lemma pending_rooms n : (n < 16)%nat → rooms (pending n).
Proof.
  intros Hn p x v Hat. destruct (pending_at n) as [H1 H2].
  destruct (pending_loggers n p (proj1 Hat)) as [-> | ->].
  - destruct (logger_at_inj _ _ _ _ _ _ Hat H1) as [_ ->]. unfold zlen, LOG_CAPACITY. cbn. rewrite length_replicate. lia.
  - destruct (logger_at_inj _ _ _ _ _ _ Hat H2) as [_ ->]. reflexivity.
Qed.

Lemma cleanup_ends_loggers_witness :
  (∃ s', bio_logging_cleanup services_tick 3 (pending 2) = Ok (tt, s') ∧
    ∃ n s'', run_service n 2 s' = Ok (tt, s'') ∧
      (ls_calls <$> services s'' !! 2%positive) = Some [sample_msg; sample_msg; end_msg]) ∧
  (∀ fuel, is_ok (bio_logging_cleanup services_tick fuel (pending 16)) = false).
Proof.
  split.
  - destruct (cleanup_ends_loggers services_tick (pending 2) (pending_wf 2 ltac:(lia)) (pending_live 2)) as [H _].
    specialize (H (pending_rooms 2 ltac:(lia))).
    destruct (wp_ok _ _ _ H ltac:(vm_compute; reflexivity)) as (u & s' & E & _ & Hs). destruct u.
    exists s'. split; [exact E|].
    destruct (Hs _ _ _ (proj1 (pending_at 2))) as (n0 & H0). destruct (H0 n0 ltac:(lia)) as (s'' & Hrun & Hend).
    exists n0, s''. split; [exact Hrun|]. change (li_service logger1) with 2%positive in Hend. by rewrite Hend.
  - destruct (cleanup_ends_loggers services_tick (pending 16) (pending_wf 16 ltac:(lia)) (pending_live 16)) as [_ H].
    apply (H _ _ _ eq_refl (proj1 (pending_at 16))). reflexivity.
Defined.

(** ** Names of files *)

Lemma file_names_shortened_witness :
  (∃ s', bio_logging_init log_start = Ok (tt, s') ∧
    short_name s' (text "/home/me/project/src/net.c") = text "src/net.c" ∧
    short_name s' (text "/usr/include/stdio.h") = text "/usr/include/stdio.h") ∧
  bio_logging_init (mk_log_state log_table 1 [] ∅ ∅ ∅ (Some (text "main.c")) 1 0 tt) = Err OutOfBounds.
Proof.
  split.
  - destruct (proj2 (file_names_shortened log_start (text "/home/me/project/src/main.c") (text "/home/me/project")
      47 (text "src/main.c") eq_refl eq_refl ltac:(reflexivity) ltac:(cbn; unfold INT_MAX; lia) eq_refl)
      ltac:(vm_compute; reflexivity) ltac:(vm_compute; reflexivity)) as (s' & E & H1 & H2).
    exists s'. split; [exact E|]. split; [exact (H1 (text "src/net.c"))|].
    apply H2. intros [k Hk]. by vm_compute in Hk.
  - refine (proj1 (file_names_shortened (mk_log_state log_table 1 [] ∅ ∅ ∅ (Some (text "main.c")) 1 0 tt) (text "main.c") [] 47 [] eq_refl eq_refl ltac:(reflexivity)
      ltac:(cbn; unfold INT_MAX; lia) eq_refl) _). by vm_compute.
Defined.

(** ** A logger that writes to a file *)

Definition sample_logger : @fl_state disk unit :=
  mk_fl_state {[1%positive := mk_file_logger_data (mk_file_logger_options disk_file false) (mk_fmt_buf None 0)]} 2
    disk_state.

Definition sample_calls : list log_call :=
  [mk_log_call (λ _, Some (text "net")) (mk_log_ctx log_coro 3 42 (text "src/net.c")) (text "hello");
   mk_log_call (λ _, None) (mk_log_ctx log_coro 4 7 (text "src/net.c")) (text "bye")].

Example sample_lines : line_of false <$> sample_calls =
  [text "[WARN ][src/net.c:42]<net>: hello" ++ [10]; text "[ERROR][src/net.c:7]<9:0>: bye" ++ [10]].
Proof. vm_compute. reflexivity. Qed.

Lemma file_logger_writes_lines_witness :
  ∃ s', log_calls busy disk_kernel no_strerror 1 sample_calls sample_logger = Ok (tt, s') ∧
    fl_data s' !! 1%positive = None ∧
    disk_contents (os (fl_io s')) 3 = Some ([10] ++ concat (line_of false <$> sample_calls)).
Proof.
  destruct (wp_ok _ _ _ (file_logger_writes_lines busy disk_kernel no_strerror disk_contents disk_regular disk_file 1 3
    (busy_mine 1 3) 1 false sample_calls [10; 11; 12] 1 sample_logger
    ltac:(split; [by eexists|exact disk_state_at])
    ltac:(repeat constructor; vm_compute; congruence)) ltac:(vm_compute; reflexivity)) as (u & s' & E & Hd & _).
  destruct u. exists s'. split; [exact E|]. split; [exact Hd|].
  assert (Hc : match log_calls busy disk_kernel no_strerror 1 sample_calls sample_logger with
    | Ok (_, s') => disk_contents (os (fl_io s')) 3 | Err _ => None end =
    Some ([10] ++ concat (line_of false <$> sample_calls))) by (vm_compute; reflexivity).
  by rewrite E in Hc.
Defined.
