(* ===== verification/Witness.v ===== *)
(** Instances of the theorems of the development at the states of [Examples.v]:
    their hypotheses hold there. *)
From Stdlib Require Import Sorted.
From S2P Require Import Prelude Bits HandleTable TimerHeap Registry Ctx Prog Store Ring Invariant.
From S2P Require Import Signal Timer Coro Finish Mailbox Protocol TimerCoro Client Service Exit.
From S2P Require Import Loop Life Examples.

(** ** The program *)

Lemma whole_life_safe_witness :
  match bio_main sample_clock sample_user sample_cleanup sample_platform idle sample_parts
    0 1 None 10 10 (mk_machine ctx_zero ∅) with
  | Ok _ => True
  | Err e => e = Overflow
  end.
Proof.
  apply (whole_life_safe True sample_pre).
  - apply sample_user_ok.
  - apply sample_cleanup_ok.
  - apply sample_platform_ok.
  - apply idle_watches.
  - apply sample_parts_ok.
  - lia.
  - done.
Defined.

Lemma event_loop_safe_witness :
  match run_loop 10 (machine_spawned 1) with
  | Ok (LoopDone, m') => loop_inv True sample_pre m' ∧
      map_Forall (λ _ co, co_daemon co = true) (coros (mc_ctx m'))
  | Ok (LoopRunning, m') => loop_inv True sample_pre m'
  | Ok (LoopSpinning, m') => True
  | Err e => e = Overflow
  end.
Proof.
  apply (event_loop_safe True sample_pre).
  - apply sample_user_ok.
  - apply sample_cleanup_ok.
  - apply sample_platform_ok.
  - apply machine_spawned_inv. vm_compute. reflexivity.
Defined.

Lemma termination_leaves_nothing_witness :
  let m := machine_at 1 10 in
  let m' := state_of m (bio_shut_down sample_clock sample_user sample_cleanup sample_platform idle sample_parts 10 10 m) in
  coros (mc_ctx m') = ∅ ∧ signals (mc_ctx m') = ∅ ∧ monitors (mc_ctx m') = ∅.
Proof.
  intros m m'.
  apply (termination_leaves_nothing True sample_pre sample_clock sample_user sample_cleanup
    sample_platform idle sample_parts 10 10 m).
  - apply sample_user_ok.
  - apply sample_cleanup_ok.
  - apply sample_platform_ok.
  - apply idle_watches.
  - apply sample_parts_ok.
  - apply machine_at_inv. vm_compute. reflexivity.
  - vm_compute. reflexivity.
  - vm_compute. reflexivity.
Defined.



Lemma wait_all_wakes_last_witness :
  ∃ a c', raise_all ([mk_handle 3 0] ++ [mk_handle 2 0]) ctx_waiting = Ok (a, c') ∧
    a = [false; true] ∧ co_state <$> coros c' !! 1%positive = Some BIO_CORO_READY.
Proof.
  assert (Hw : waits_for ctx_waiting 1 [mk_handle 2 0; mk_handle 3 0]).
  { split; [apply NoDup_cons; split; [intros [=]%list_elem_of_singleton|apply NoDup_singleton]|].
    exists (coro_in (machine_at 1 2) 1). split_and!; [vm_compute; reflexivity..|].
    intros h [->|Hh]%elem_of_cons; [exists 2%positive|apply list_elem_of_singleton in Hh as ->; exists 3%positive];
      split; vm_compute; reflexivity. }
  destruct (wp_ok _ _ _ (wait_all_wakes_last True [] None ctx_waiting 1 _ [mk_handle 3 0] (mk_handle 2 0)
    (ctx_waiting_wf True) Hw (perm_swap _ _ [])) ltac:(vm_compute; reflexivity))
    as (a & c' & He & _ & Ha & Hr & _).
  exists a, c'. split; [exact He|]. split; [exact Ha|exact Hr].
Defined.

(** ** Handles *)

(** Two objects are registered, the first is closed and its slot is used again. *)
Definition sample_ops : list (@operation nat nat) :=
  [OpMake (Some 7%nat) 1%nat; OpMake (Some 8%nat) 1%nat; OpClose (mk_handle 1 0) 1%nat;
   OpMake (Some 9%nat) 2%nat; OpResolve (mk_handle 1 0) 1%nat].
Definition sample_results : list (@result nat nat) :=
  [RHandle (mk_handle 1 0); RHandle (mk_handle 2 0); RObj (Some 7%nat); RHandle (mk_handle 1 1); RObj None].

Definition table_zero : table nat nat := mk_table [] 0 0 0.
Definition table_ready : table nat nat := state_of table_zero (bio_handle_table_init table_zero).

Fixpoint after (t : table nat nat) (ops : list (@operation nat nat)) : table nat nat :=
  match ops with [] => t | op :: ops => after (state_of t (exec op t)) ops end.

Lemma sample_run : run table_ready (zip sample_ops sample_results) (after table_ready sample_ops).
Proof. repeat (eapply run_cons; [vm_compute; reflexivity|]). vm_compute. constructor. Qed.

Lemma sample_closed : closed_run {[BIO_INVALID_HANDLE]} (zip sample_ops sample_results).
Proof. cbn. repeat split; try done; intros h [= <-]; set_solver. Qed.

Lemma table_ready_init : bio_handle_table_init table_zero = Ok (tt, table_ready).
Proof. vm_compute. reflexivity. Qed.

Lemma handle_table_refines_registry_witness :
  ∃ r, registry_run empty_registry (zip sample_ops sample_results) r ∧
    represents (after table_ready sample_ops) r.
Proof.
  exact (handle_table_refines_registry _ _ _ _ table_ready_init sample_run sample_closed).
Defined.

Lemma closed_handle_is_dead_witness :
  ∃ res t', exec (OpResolve (mk_handle 1 0) 1%nat) (after table_ready (take 4 sample_ops)) = Ok (res, t') ∧
    res = RObj None.
Proof.
  set (l := zip (take 2 sample_ops) (take 2 sample_results)).
  eexists (RObj None), _. split; [vm_compute; reflexivity|].
  apply (closed_handle_is_dead table_zero table_ready (after table_ready sample_ops) l
    [(OpMake (Some 9%nat) 2%nat, RHandle (mk_handle 1 1))] (mk_handle 1 0) 1%nat 1%nat 7%nat (RObj None)).
  - exact table_ready_init.
  - exact sample_run.
  - exact sample_closed.
Defined.

Lemma handles_are_unique_witness :
  NoDup [BIO_INVALID_HANDLE; mk_handle 1 0; mk_handle 2 0; mk_handle 1 1].
Proof.
  exact (handles_are_unique _ _ _ _ table_ready_init sample_run sample_closed).
Defined.

(** ** Numbers *)

Lemma next_pow2_least_witness : bio_next_pow2 5 = 8 ∧ ∀ c, pow2 c → 5 ≤ c → bio_next_pow2 5 ≤ c.
Proof.
  split; [reflexivity|]. assert (H5 : 0 ≤ 5 < 2 ^ 32) by lia.
  pose proof (next_pow2_least 5 H5) as H. rewrite decide_True in H by lia. apply H.
Defined.

(** ** Signals and timers *)


Lemma sleep_until_next_timer_witness :
  ∃ r c', bio_time_until_next_timer (λ _, 65) ctx_waiting = Ok (r, c') ∧ 0 ≤ r.
Proof.
  assert (Hr : is_ok (bio_time_until_next_timer (λ _, 65) ctx_waiting) = true) by (vm_compute; reflexivity).
  assert (Hn : bool_decide (theap_contents (timer_heap ctx_waiting) = []) = false) by (vm_compute; reflexivity).
  destruct (wp_ok _ _ _ (sleep_until_next_timer True [] None (λ _, 65) ctx_waiting (ctx_waiting_wf True)) Hr)
    as (r & c' & He & _ & Hr').
  exists r, c'. split; [exact He|]. cbn beta zeta in Hr'. rewrite Hn in Hr'. apply Hr'.
Defined.

(** ** Mailboxes *)

Definition sample_message : message := mk_message [mailbox_handle] [42].

Lemma mailbox_handle_known : hk ctx_mailbox mailbox_handle.
Proof. apply live_known. exists (BIO_MAILBOX_HANDLE, Some 2%positive). vm_compute. reflexivity. Qed.

Lemma mailbox_handle_at : mailbox_at ctx_mailbox mailbox_handle = Some 2%positive.
Proof. vm_compute. reflexivity. Qed.

Lemma mailbox_fifo_witness :
  ∃ x c', (sent ← bio__mailbox_send mailbox_handle sample_message; r ← recv_take mailbox_handle;
      mret (sent, r)) ctx_mailbox = Ok (x, c') ∧ x = (true, Some sample_message).
Proof.
  destruct (ctx_mailbox_wf True) as [Hwf Hh].
  assert (Hr : is_ok ((sent ← bio__mailbox_send mailbox_handle sample_message; r ← recv_take mailbox_handle;
      mret (sent, r)) ctx_mailbox) = true) by (vm_compute; reflexivity).
  assert (Hm : Forall (hk ctx_mailbox) (msg_handles sample_message))
    by (constructor; [exact mailbox_handle_known|constructor]).
  assert (Hlt : zlen ([] : list message) < 4) by reflexivity.
  destruct (wp_ok _ _ _ (mailbox_fifo True [] (Some 1%positive) ctx_mailbox mailbox_handle 2 4 []
    sample_message Hwf mailbox_handle_known Hm mailbox_handle_at Hh Hlt) Hr) as (x & c' & He & _ & Hx & _).
  exists x, c'. split; [exact He|exact Hx].
Defined.

Lemma mailbox_send_accepts_witness :
  ∃ sent c', bio__mailbox_send mailbox_handle sample_message ctx_mailbox = Ok (sent, c') ∧ sent = true.
Proof.
  destruct (ctx_mailbox_wf True) as [Hwf Hh].
  assert (Hr : is_ok (bio__mailbox_send mailbox_handle sample_message ctx_mailbox) = true)
    by (vm_compute; reflexivity).
  assert (Hm : Forall (hk ctx_mailbox) (msg_handles sample_message))
    by (constructor; [exact mailbox_handle_known|constructor]).
  destruct (wp_ok _ _ _ (mailbox_send_accepts True [] (Some 1%positive) ctx_mailbox mailbox_handle
    sample_message Hwf mailbox_handle_known Hm) Hr) as (sent & c' & He & _ & Hs & _).
  exists sent, c'. split; [exact He|]. apply Hs. exists 2%positive, 4, [].
  split; [exact mailbox_handle_at|]. split; [exact Hh|reflexivity].
Defined.

Lemma mailbox_close_wakes_receiver_witness :
  ∃ r c', (_ ← bio__mailbox_close mailbox_handle; recv_take mailbox_handle) ctx_mailbox = Ok (r, c') ∧
    r = None ∧ mailbox_at c' mailbox_handle = None.
Proof.
  destruct (ctx_mailbox_wf True) as [Hwf (b & Hb & _)].
  assert (Hr : is_ok ((_ ← bio__mailbox_close mailbox_handle; recv_take mailbox_handle) ctx_mailbox) = true)
    by (vm_compute; reflexivity).
  destruct (wp_ok _ _ _ (mailbox_close_wakes_receiver True [] (Some 1%positive) ctx_mailbox mailbox_handle
    2 b Hwf mailbox_handle_known mailbox_handle_at Hb) Hr) as (r & c' & He & _ & Hn & Hm & _).
  exists r, c'. split; [exact He|]. split; [exact Hn|exact Hm].
Defined.

(** ** Coroutines *)

Lemma coro_state_dead_iff_witness :
  ∃ r c', bio_coro_state coro_handle ctx_signal = Ok (r, c') ∧ r ≠ BIO_CORO_DEAD.
Proof.
  assert (Hk : hk ctx_signal coro_handle).
  { apply live_known. exists (BIO_CORO_HANDLE, Some 1%positive). vm_compute. reflexivity. }
  assert (Hr : is_ok (bio_coro_state coro_handle ctx_signal) = true) by (vm_compute; reflexivity).
  assert (Hl : live (htab ctx_signal) !! coro_handle = Some (BIO_CORO_HANDLE, Some 1%positive))
    by (vm_compute; reflexivity).
  assert (Hq : coros ctx_signal !! 1%positive = Some (default no_coro (coros ctx_signal !! 1%positive)))
    by (vm_compute; reflexivity).
  destruct (wp_ok _ _ _ (coro_state_dead_iff True [] (Some 1%positive) ctx_signal coro_handle
    (ctx_signal_wf True) Hk) Hr) as (r & c' & He & _ & Hd).
  exists r, c'. split; [exact He|]. intros E. apply Hd in E. apply E. eauto.
Defined.

Lemma cls_is_stable_witness :
  ∃ x c', (r1 ← bio_get_cls sample_cleanup 50; c1 ← get; r2 ← bio_get_cls sample_cleanup 50;
      mret (r1, c1, r2)) ctx_signal = Ok (x, c') ∧ x.1.1 = x.2 ∧ is_Some x.2.
Proof.
  assert (Hq : mco_running ctx_signal = Some 1%positive) by (vm_compute; reflexivity).
  assert (Hr : is_ok ((r1 ← bio_get_cls sample_cleanup 50; c1 ← get; r2 ← bio_get_cls sample_cleanup 50;
      mret (r1, c1, r2)) ctx_signal) = true) by (vm_compute; reflexivity).
  destruct (wp_ok _ _ _ (cls_is_stable True [] (Some 1%positive) sample_cleanup 50 1 ctx_signal
    (λ cls d c H, idle_kept _ _ _ _ _ H (conj eq_refl (λ q _, eq_refl))) (ctx_signal_wf True) Hq) Hr)
    as (x & c' & He & _ & d & ->).
  eexists _, _. split; [exact He|]. split; [reflexivity|by exists d].
Defined.

Lemma spawn_makes_ready_witness :
  ∃ h c', bio_spawn_ex sample_clock (user_fn 3) None None ctx_signal = Ok (h, c') ∧
    next_ready_coros c' = [next_loc ctx_signal] ∧ num_coros c' = 2.
Proof.
  assert (Hr : is_ok (bio_spawn_ex sample_clock (user_fn 3) None None ctx_signal) = true)
    by (vm_compute; reflexivity).
  assert (Hn : num_coros ctx_signal = 1) by (vm_compute; reflexivity).
  assert (Hq : next_ready_coros ctx_signal = []) by (vm_compute; reflexivity).
  assert (Hp : 0 < num_coros ctx_signal) by (rewrite Hn; lia).
  destruct (wp_ok _ _ _ (spawn_makes_ready True [] (Some 1%positive) sample_clock (user_fn 3) None None
    ctx_signal (ctx_signal_wf True) ltac:(discriminate) Hp) Hr) as (h & c' & He & _ & Hc & _ & _ & _ & Hnum).
  exists h, c'. rewrite Hq in Hc. rewrite Hn in Hnum. split; [exact He|]. split; [exact Hc|exact Hnum].
Defined.

(** ** Timers *)


Definition sample_timer : bio_timer_impl_t :=
  mk_timer BIO_TIMER_INTERVAL 50 3 None BIO_INVALID_HANDLE 70 false (mk_handle 2 0).

Lemma timer_interval_repeats_witness :
  ∃ stop c', timer_fired timer_object 200 ctx_timer = Ok (stop, c') ∧ stop = false ∧
    tm_due_time_ms <$> timers c' !! timer_object = Some 250.
Proof.
  destruct (ctx_timer_ok True) as [Hwf Hs].
  assert (Hr : is_ok (timer_fired timer_object 200 ctx_timer) = true) by (vm_compute; reflexivity).
  set (x := default sample_timer (timers ctx_timer !! timer_object)).
  assert (Hx : timers ctx_timer !! timer_object = Some x) by (vm_compute; reflexivity).
  destruct (wp_ok _ _ _ (timer_interval_repeats True sample_pre timer_coro timer_object []
    ctx_timer 200 x Hwf Hs Hx) Hr) as (stop & c' & He & _ & Hi).
  exists stop, c'. split; [exact He|].
  assert (Ht : tm_type x = BIO_TIMER_INTERVAL) by (vm_compute; reflexivity).
  assert (Hm : tm_timeout_ms x = 50) by (vm_compute; reflexivity).
  rewrite Ht in Hi. destruct Hi as [Hstop Htm]. split; [exact Hstop|].
  rewrite Htm, lookup_insert_eq. cbn. by rewrite Hm.
Defined.

(** Function 2 created a timer with this handle. *)
Definition timer_handle : bio_handle_t :=
  tm_handle (default sample_timer (timers ctx_timer !! timer_object)).

Lemma cancelled_timer_stops_witness :
  ∃ r c', (_ ← bio_cancel_timer timer_handle; bio_is_timer_pending timer_handle) ctx_timer = Ok (r, c') ∧
    r = false.
Proof.
  destruct (ctx_timer_ok True) as [Hwf _].
  assert (Hl : live (htab ctx_timer) !! timer_handle = Some (BIO_TIMER_HANDLE, Some timer_object))
    by (vm_compute; reflexivity).
  assert (Hk : hk ctx_timer timer_handle) by (apply live_known; rewrite Hl; eauto).
  assert (Hr : is_ok ((_ ← bio_cancel_timer timer_handle; bio_is_timer_pending timer_handle) ctx_timer) = true)
    by (vm_compute; reflexivity).
  destruct (wp_ok _ _ _ (cancelled_timer_stops True [] (Some timer_coro) ctx_timer timer_handle
    timer_object Hwf Hk Hl) Hr) as (r & c' & He & _ & Hf & _).
  exists r, c'. split; [exact He|exact Hf].
Defined.

(** ** Services *)

Lemma invalid_known (c : bio_ctx_t) : hk c BIO_INVALID_HANDLE.
Proof. apply known_invalid. Qed.

Lemma signal_handle_known : hk ctx_signal signal_handle.
Proof. apply live_known. exists (BIO_SIGNAL_HANDLE, Some 2%positive). vm_compute. reflexivity. Qed.

Lemma call_status_correct_witness :
  ∃ r c', call_status signal_handle BIO_INVALID_HANDLE ctx_signal = Ok (r, c') ∧ r ≠ BIO_CALL_OK.
Proof.
  assert (Hr : is_ok (call_status signal_handle BIO_INVALID_HANDLE ctx_signal) = true)
    by (vm_compute; reflexivity).
  assert (Hl : lookup_tagged (live (htab ctx_signal)) signal_handle BIO_SIGNAL_HANDLE = Some 2%positive)
    by (vm_compute; reflexivity).
  destruct (wp_ok _ _ _ (call_status_correct True [] (Some 1%positive) ctx_signal signal_handle
    BIO_INVALID_HANDLE (ctx_signal_wf True) signal_handle_known (invalid_known _)) Hr)
    as (r & c' & He & _ & Hok & _).
  exists r, c'. split; [exact He|]. intros E. apply Hok in E. rewrite Hl in E. discriminate E.
Defined.

Lemma call_delivers_or_gives_up_witness :
  ∃ again c', call_pending mailbox_handle coro_handle BIO_INVALID_HANDLE sample_message ctx_mailbox =
    Ok (again, c').
Proof.
  destruct (ctx_mailbox_wf True) as [Hwf _].
  assert (Hc : hk ctx_mailbox coro_handle).
  { apply live_known. exists (BIO_CORO_HANDLE, Some 1%positive). vm_compute. reflexivity. }
  assert (Hr : is_ok (call_pending mailbox_handle coro_handle BIO_INVALID_HANDLE sample_message ctx_mailbox)
    = true) by (vm_compute; reflexivity).
  assert (Hm : Forall (hk ctx_mailbox) (msg_handles sample_message))
    by (constructor; [exact mailbox_handle_known|constructor]).
  destruct (wp_ok _ _ _ (call_delivers_or_gives_up True [] (Some 1%positive) ctx_mailbox mailbox_handle
    coro_handle BIO_INVALID_HANDLE sample_message Hwf mailbox_handle_known Hc (invalid_known _) Hm) Hr)
    as (again & c' & He & _).
  exists again, c'. exact He.
Defined.


(** ** Exit handlers *)

Lemma exit_reaches_all_handlers_witness :
  ∃ a c', bio_dispatch_exit_signal idle BIO_EXIT_TERMINATE ctx_exit = Ok (a, c') ∧ exit_handlers c' = [].
Proof.
  assert (Hr : is_ok (bio_dispatch_exit_signal idle BIO_EXIT_TERMINATE ctx_exit) = true)
    by (vm_compute; reflexivity).
  destruct (wp_ok _ _ _ (exit_reaches_all_handlers True idle (idle_watches True) [] (Some 1%positive)
    BIO_EXIT_TERMINATE ctx_exit (ctx_exit_wf True)) Hr) as (a & c' & He & _ & Hn & _).
  exists a, c'. split; [exact He|exact Hn].
Defined.
