(* ===== verification/WitnessLinux.v ===== *)
(** Instances of the theorems about Linux: a program that closes a descriptor, runs a job
    in the thread pool and waits for exit signals. *)
From S2P Require Import Prelude Bits HandleTable Pool Shutdown Uring TimerHeap Ctx Prog Store Ring Invariant.
From S2P Require Import Signal Timer Coro Finish Mailbox Protocol TimerCoro Client Thread Service Exit.
From S2P Require Import LinuxPlatform Loop Life Linux Examples.

(** ** The program *)

(** The kernel completes a request when it is entered for the third time or later; the
    workers take steps when the main thread has looked a few times. *)
Definition kernel (n : nat) (wait : ring_wait) : kernel_step :=
  mk_kernel_step false 0 (if decide (n < 2)%nat then [] else [(0%nat, 7, 0)]).
Definition schedule (n : nat) : list nat :=
  if decide (n < 11)%nat then [] else [0; 0; 0; 0; 0; 1; 1; 1]%nat.

Lemma kernel_ok : kernel_accepts kernel.
Proof. done. Qed.

Definition close_fd : prog unit := bio_io_close kernel 5 ;;; Ret tt.

Definition run_job : prog unit :=
  let! s := Act bio_make_signal in
  bio_run_async schedule 9 None s ;;;
  bio_wait_for_one_signal s.

Definition linux_user (n : positive) (u : option loc) : prog unit :=
  match n with
  | 1%positive => close_fd
  | 2%positive => run_job
  | _ => linux_wait_for_exit kernel ;;; Ret tt
  end.

Definition linux_pre (n : positive) (u : option loc) (c : bio_ctx_t) : Prop := (0 < num_workers c)%nat.

#[export] Instance linux_pre_stable : StablePre linux_pre.
Proof. intros n u c c' H Hle. unfold linux_pre in *. pose proof (le_pool _ _ Hle). lia. Qed.

Lemma linux_user_ok strict q n u c :
  linux_pre n u c → safe strict linux_pre q (linux_user n u) (λ _ _, True) c.
Proof.
  intros Hn. destruct n as [n|[n|n|]|].
  - apply safe_bind, safe_linux_wait_for_exit; [exact kernel_ok|exact _|]. intros r c' _. by apply safe_ret.
  - apply safe_bind, safe_linux_wait_for_exit; [exact kernel_ok|exact _|]. intros r c' _. by apply safe_ret.
  - apply safe_bind, safe_linux_wait_for_exit; [exact kernel_ok|exact _|]. intros r c' _. by apply safe_ret.
  - apply safe_bind, safe_make_signal. intros s c1 R1 H1.
    apply safe_bind, safe_run_async; [exact _|exact H1| |].
    + assert (H : linux_pre 2 u c1) by (eapply linux_pre_stable; [exact Hn|apply R1]). exact H.
    + intros c2 R2. apply safe_wait_one; [by eapply rely_hk|done].
  - apply safe_bind, safe_io_close; [exact kernel_ok|]. intros r c' _. by apply safe_ret.
Qed.

Definition sample_options : linux_options := mk_linux_options 0 0 0 (3, 4) true true true.
Definition sample_linux_parts : subsystems := linux_parts sample_options sample_parts.

Lemma sample_options_ok : options_ok sample_options.
Proof. unfold options_ok, INT_MAX. cbn. lia. Qed.


(** ** States that it reaches *)

Definition linux_idle : bio_ctx_t := state_of ctx_zero (bio_init sample_clock sample_linux_parts 0 ctx_zero).
Definition linux_spawned (fn : positive) : machine :=
  mk_machine (state_of ctx_zero (bio_spawn sample_clock (user_fn fn) None linux_idle)) ∅.
Definition linux_loop (rounds : nat) : LM loop_result :=
  bio_loop sample_clock linux_user sample_cleanup (linux_platform kernel schedule) 10 rounds.
Definition linux_at (fn : positive) (rounds : nat) : machine :=
  state_of (linux_spawned fn) (linux_loop rounds (linux_spawned fn)).

Lemma linux_idle_ready strict : ready_ctx strict linux_idle.
Proof.
  destruct (wp_state _ _ ctx_zero ctx_zero (bio_init_spec strict sample_clock sample_linux_parts
    (linux_parts_ok strict sample_options sample_parts sample_options_ok (sample_parts_ok strict)) 0 ctx_zero
    ltac:(lia)) ltac:(vm_compute; reflexivity)) as (? & _ & H).
  exact H.
Qed.

Lemma linux_spawned_inv strict fn :
  is_ok (bio_spawn sample_clock (user_fn fn) None linux_idle) = true →
  loop_inv strict linux_pre (linux_spawned fn) ∧ (0 < num_workers (mc_ctx (linux_spawned fn)))%nat.
Proof.
  intros Hr. unfold linux_spawned. pose proof (linux_idle_ready strict) as Hi.
  pose proof (ready_loop_inv strict linux_pre _ Hi) as H0. destruct Hi as [_ Hn].
  assert (Hu : linux_pre fn None linux_idle) by exact Hn.
  generalize dependent linux_idle. intros c Hr Hn H0 Hu.
  destruct (wp_state _ _ _ ctx_zero (spawn_loop_inv strict linux_pre sample_clock fn None None _ H0 Hu) Hr)
    as (? & _ & H & Hle & _). split; [exact H|]. eapply Nat.lt_le_trans; [exact Hn|apply Hle].
Qed.

(** Whether the program runs for so many rounds. *)
Definition runs_for (fn : positive) (rounds : nat) : bool :=
  is_ok (bio_spawn sample_clock (user_fn fn) None linux_idle) &&
  match linux_loop rounds (linux_spawned fn) with
  | Ok (LoopRunning, _) => true
  | _ => false
  end.

Lemma linux_at_inv strict fn n :
  runs_for fn n = true →
  loop_inv strict linux_pre (linux_at fn n) ∧ (0 < num_workers (mc_ctx (linux_at fn n)))%nat.
Proof.
  unfold linux_at. intros [Hs Hr]%andb_true_iff. destruct (linux_spawned_inv strict fn Hs) as [Hm Hn]. clear Hs.
  generalize dependent (linux_spawned fn). intros m Hr Hm Hn.
  pose proof (loop_spec strict linux_pre sample_clock linux_user sample_cleanup (linux_platform kernel schedule)
    (linux_user_ok strict) (sample_cleanup_ok strict) (linux_platform_ok kernel schedule kernel_ok strict) 10 n m Hm) as H.
  unfold linux_loop in *. destruct (bio_loop _ _ _ _ _ _ m) as [[r m']|e] eqn:E; [|discriminate Hr].
  apply (wp_elim _ _ _ _ _ H) in E. destruct r; [discriminate Hr|discriminate Hr|].
  destruct E as [E Hle]. split; [exact E|]. eapply Nat.lt_le_trans; [exact Hn|apply Hle].
Qed.

(** ** Completions *)

Lemma completions_delivered_once_witness :
  ∃ c' l, bio_platform_update kernel schedule 0 true (mc_ctx (linux_at 1 2)) = Ok (tt, c') ∧
    completions_served (mc_ctx (linux_at 1 2)) l c' ∧ l ≠ [].
Proof.
  destruct (linux_at_inv True 1 2 ltac:(vm_compute; reflexivity)) as [[Hwf _ _ Hid _] _].
  assert (Hr : is_ok (bio_platform_update kernel schedule 0 true (mc_ctx (linux_at 1 2))) = true)
    by (vm_compute; reflexivity).
  assert (Hl : length (ring_cq (bio_platform (state_of (mc_ctx (linux_at 1 2))
    (bio_platform_update kernel schedule 0 true (mc_ctx (linux_at 1 2)))))) = 1%nat) by (vm_compute; reflexivity).
  assert (Hh : cq_head (bio_platform (mc_ctx (linux_at 1 2))) = 0%nat) by (vm_compute; reflexivity).
  generalize dependent (mc_ctx (linux_at 1 2)). intros c Hwf Hid Hr Hl Hh.
  destruct (wp_state _ _ c c (completions_delivered_once kernel schedule True (current_ready_coros c) 0 true c
    kernel_ok Hwf Hid) Hr) as ([] & He & _ & l & Hc).
  exists (state_of c (bio_platform_update kernel schedule 0 true c)), l. split; [exact He|]. split; [exact Hc|].
  intros ->. pose proof (cs_all _ _ _ Hc) as E. rewrite Hh in E. rewrite E in Hl. discriminate Hl.
Defined.

(** ** Jobs *)

Lemma jobs_run_once_witness :
  match bio_loop sample_clock linux_user sample_cleanup (linux_platform kernel schedule) 10 1 (linux_at 2 2) with
  | Ok (LoopDone, m') | Ok (LoopRunning, m') => jobs_accounted (thread_pool (mc_ctx m'))
  | Ok (LoopSpinning, _) => True
  | Err e => e = Overflow
  end.
Proof.
  destruct (linux_at_inv True 2 2 ltac:(vm_compute; reflexivity)) as [Hm Hn].
  apply (jobs_run_once kernel schedule True linux_pre); [exact kernel_ok| |apply sample_cleanup_ok|exact Hm|exact Hn].
  intros q n u c. apply linux_user_ok.
Defined.

Lemma update_reports_responses_witness :
  ∃ c' l, bio_thread_update schedule (mc_ctx (linux_at 2 2)) = Ok (tt, c') ∧
    pl_reported (thread_pool c') = pl_reported (thread_pool (mc_ctx (linux_at 2 2))) ++ l ∧ l ≠ [].
Proof.
  destruct (linux_at_inv True 2 2 ltac:(vm_compute; reflexivity)) as [[Hwf _ _ Hid _] Hn].
  assert (Hr : is_ok (bio_thread_update schedule (mc_ctx (linux_at 2 2))) = true) by (vm_compute; reflexivity).
  assert (Hl : length (pl_reported (thread_pool (state_of (mc_ctx (linux_at 2 2))
    (bio_thread_update schedule (mc_ctx (linux_at 2 2)))))) = 1%nat) by (vm_compute; reflexivity).
  assert (H0 : pl_reported (thread_pool (mc_ctx (linux_at 2 2))) = []) by (vm_compute; reflexivity).
  generalize dependent (mc_ctx (linux_at 2 2)). intros c Hwf _ Hn Hr Hl H0.
  destruct (wp_state _ _ c c (update_reports_responses schedule True (current_ready_coros c) None c Hwf Hn) Hr)
    as ([] & He & _ & l & Hc & _).
  exists (state_of c (bio_thread_update schedule c)), l. split; [exact He|]. split; [exact Hc|].
  intros ->. rewrite Hc, H0 in Hl. discriminate Hl.
Defined.

Definition sample_job : bio_worker_msg_t := mk_worker_msg BIO_WORKER_MSG_RUN true 9 None BIO_INVALID_HANDLE.

Lemma job_goes_to_least_busy_witness :
  ∃ sent_it c', try_run_async schedule sample_job (mc_ctx (linux_at 2 2)) = Ok (sent_it, c') ∧
    submitted sample_job (mc_ctx (linux_at 2 2)) sent_it c'.
Proof.
  destruct (linux_at_inv True 2 2 ltac:(vm_compute; reflexivity)) as [[Hwf _ _ Hid _] Hn].
  assert (Hr : is_ok (try_run_async schedule sample_job (mc_ctx (linux_at 2 2))) = true) by (vm_compute; reflexivity).
  generalize dependent (mc_ctx (linux_at 2 2)). intros c Hwf _ Hn Hr.
  assert (Hk : hk c (wm_signal sample_job)) by apply known_invalid.
  destruct (wp_ok _ _ c (job_goes_to_least_busy schedule True (current_ready_coros c) None sample_job c Hwf Hn
    eq_refl Hk) Hr) as (b & c' & He & _ & Hs).
  exists b, c'. split; [exact He|exact Hs].
Defined.

(** ** The end of the pool *)

Definition all_workers (n : nat) : list nat := [0; 1]%nat.

Lemma cleanup_terminates_witness :
  ∃ fuel p', (∀ f, (fuel ≤ f)%nat → Shutdown.bio_thread_cleanup all_workers f (thread_pool (mc_ctx (linux_at 2 2))) = Ok (tt, p')) ∧
    pl_workers p' = [] ∧ pl_submitted p' = pl_submitted (thread_pool (mc_ctx (linux_at 2 2))) ∧
    pl_ran p' ≡ₚ pl_submitted (thread_pool (mc_ctx (linux_at 2 2))).
Proof.
  destruct (linux_at_inv True 2 2 ltac:(vm_compute; reflexivity)) as [[Hwf _ _ _ _] Hn].
  assert (Hlen : length (pl_workers (thread_pool (mc_ctx (linux_at 2 2)))) = 2%nat) by (vm_compute; reflexivity).
  generalize dependent (mc_ctx (linux_at 2 2)). intros c Hwf Hn Hlen.
  apply (cleanup_terminates _ _ _ (wf_pool True (current_ready_coros c) None c Hwf Hn)).
  rewrite Hlen. intros i k Hi. exists k. split; [apply Nat.le_refl|]. unfold all_workers.
  destruct i as [|[|i]]; [by left|by right; left|lia].
Defined.
